(** * Structural inspector for on-disk proximity-graph indexes

    A shallow embedding of [src/src/graph_stats.cpp] (namespace [pipeann]):
    the in-memory statistics aggregator, the sequential scanner of the raw
    graph layout, the sector-paged reader of the disk index layout, the
    adjacency samplers and the small-graph sampler with its reverse-edge
    lists; of the command-line inspector [tests/inspect_graph.cpp] that
    drives them; and of the I/O context tagging of [include/observability.h].

    Conventions of the embedding:
    - [size_t] and [uint64_t] values are [Z] in [0, 2^64), [uint32_t] and
      [unsigned] values are [Z] in [0, 2^32); every C++ operation that can
      wrap is written with [wrap64] / [wrap32];
    - a file is a [list byte]; an absent file is [None];
    - [std::ifstream] is a record of the file content, the get position and
      the state of the stream ([is_good]); a read that comes up short and a
      seek outside the range of [off_t] put the stream into the failed state,
      in which every later read and seek does nothing;
    - [degree_avg] is a [double] in the source: the field [degree_avg] of
      the embedding keeps the exact quotient of its two integer operands as a
      rational ([Q]), and [degree_avg_double] gives the double that the
      source computes from them, in IEEE 754 binary64 ([SpecFloat]);
    - memory is taken to be available: a sampler whose allocation fails
      ([std::length_error], [std::bad_alloc]) ends by an exception that
      nothing catches, which the embedding does not show; the statements on
      a sample are about the runs that produce one;
    - indexing a vector out of range and copying out of the sector buffer have
      no defined behaviour in C++: the embedding returns [None] there;
    - what a function prints is kept as a structured value (the lines with
      their numbers, not the characters). *)

From Stdlib Require Import String Ascii.
From Stdlib Require Import ZArith List Lia QArith Bool SpecFloat.
From coqutil Require Import Byte Word.LittleEndianList.
From stdpp Require Import base list.
Import ListNotations.
Local Open Scope Z_scope.

(** ** Machine integers *)

Definition SIZE_MAX : Z := 2 ^ 64 - 1.

Definition wrap64 (z : Z) : Z := z mod 2 ^ 64.
Definition wrap32 (z : Z) : Z := z mod 2 ^ 32.

(** A 32-bit pattern read into an [int32_t]. *)
Definition as_int32 (z : Z) : Z := if z <? 2 ^ 31 then z else z - 2 ^ 32.

(** A [size_t] converted to [std::streamoff] (a signed 64-bit integer). *)
Definition as_streamoff (z : Z) : Z := if z <? 2 ^ 63 then z else z - 2 ^ 64.

(** ** The binary cursor: [std::ifstream] opened with [std::ios::binary] *)

Record ifstream := mkStream {
  content : list byte;
  gpos : Z;
  is_good : bool
}.

Definition open (file : option (list byte)) : option ifstream :=
  match file with
  | None => None
  | Some bs => Some (mkStream bs 0 true)
  end.

Definition stream_size (ins : ifstream) : Z := Z.of_nat (length (content ins)).

(** The bytes of [bs] in [[off, off + n)]. *)
Definition slice (bs : list byte) (off n : Z) : list byte :=
  firstn (Z.to_nat n) (skipn (Z.to_nat off) bs).

(** [ins.read(buf, n)]: nothing happens on a failed stream; a short read
    consumes what is left and fails the stream. *)
Definition read (n : Z) (ins : ifstream) : option (list byte) * ifstream :=
  if negb (is_good ins) then (None, ins)
  else if gpos ins + n <=? stream_size ins
       then (Some (slice (content ins) (gpos ins) n),
             mkStream (content ins) (gpos ins + n) true)
       else (None, mkStream (content ins) (Z.max (gpos ins) (stream_size ins)) false).

(** Positioning at an absolute offset: a position before the start or beyond
    the largest [off_t] fails the stream; a position beyond the end of the
    file is accepted (the next read fails), the file system being taken to
    allow every [off_t]. *)
Definition seek_to (np : Z) (ins : ifstream) : ifstream :=
  if negb (is_good ins) then ins
  else if (0 <=? np) && (np <? 2 ^ 63)
       then mkStream (content ins) np true
       else mkStream (content ins) (gpos ins) false.

(** [ins.seekg(off, ins.beg)] with [off] a [size_t]. *)
Definition seekg_beg (off : Z) (ins : ifstream) : ifstream :=
  seek_to (as_streamoff off) ins.

(** [ins.seekg(off, std::ios::cur)] with [off] a non-negative [streamoff]. *)
Definition seekg_cur (off : Z) (ins : ifstream) : ifstream :=
  seek_to (gpos ins + off) ins.

(** [ins.clear()]. *)
Definition clear (ins : ifstream) : ifstream :=
  mkStream (content ins) (gpos ins) true.

(** [ins.read(reinterpret_cast<char *>(&x), n)] on a little-endian machine:
    on failure [x] keeps the value [old] it had (the source never uses a
    variable after a failed read). *)
Definition read_uint (n : Z) (old : Z) (ins : ifstream) : Z * ifstream :=
  match read n ins with
  | (Some bs, ins') => (le_combine bs, ins')
  | (None, ins') => (old, ins')
  end.

Definition read_int32 (old : Z) (ins : ifstream) : Z * ifstream :=
  match read 4 ins with
  | (Some bs, ins') => (as_int32 (le_combine bs), ins')
  | (None, ins') => (old, ins')
  end.

(** ** GraphStats (include/graph_stats.h) *)

Record GraphStats := mkGraphStats {
  total_nodes : Z;
  active_nodes : Z;
  frozen_nodes : Z;
  total_edges : Z;
  degree_min : Z;
  degree_avg : Q;
  degree_max : Z;
  weak_count : Z;
  entry_point : Z
}.

(** [GraphStats s;] : every member has a zero default initialiser. *)
Definition default_stats : GraphStats := mkGraphStats 0 0 0 0 0 0%Q 0 0 0.

(** ** The statistics aggregator

    The four running locals [total_edges], [degree_min], [degree_max] and
    [weak_count] that each of the three scanning functions declares, and the
    body that each of their loops applies to one degree. *)

Record accum := mkAccum {
  acc_total_edges : Z;
  acc_degree_min : Z;
  acc_degree_max : Z;
  acc_weak_count : Z
}.

Definition acc_init : accum := mkAccum 0 SIZE_MAX 0 0.

Definition acc_step (weak_threshold : Z) (a : accum) (deg : Z) : accum :=
  {| acc_total_edges := wrap64 (acc_total_edges a + deg);
     acc_degree_min := if deg <? acc_degree_min a then deg else acc_degree_min a;
     acc_degree_max := if acc_degree_max a <? deg then deg else acc_degree_max a;
     acc_weak_count := if deg <? weak_threshold
                       then wrap64 (acc_weak_count a + 1)
                       else acc_weak_count a |}.

(** [(degree_min == numeric_limits<size_t>::max()) ? 0 : degree_min] *)
Definition min_or_zero (m : Z) : Z := if m =? SIZE_MAX then 0 else m.

(** The exact quotient of the operands of
    [static_cast<double>(a) / static_cast<double>(b)]; the double itself is
    [double_div (to_double a) (to_double b)], defined below. *)
Definition quotient (a b : Z) : Q := (inject_Z a / inject_Z b)%Q.

(** ** compute_graph_stats: the in-memory adjacency list *)

(** The loop [for (size_t i = 0; i < s.total_nodes; i++)], with [cnt] the
    number of iterations left. [touched] lists the indices at which [graph]
    has been subscripted so far; it has no counterpart in the source. *)
Fixpoint stats_loop (graph : list (list Z)) (weak_threshold : Z) (cnt : nat)
    (i : Z) (a : accum) (touched : list Z) : option accum * list Z :=
  match cnt with
  | O => (Some a, touched)
  | S cnt' =>
      match graph !! Z.to_nat i with
      | None => (None, touched ++ [i])
      | Some nbrs =>
          let deg := Z.of_nat (length nbrs) in
          stats_loop graph weak_threshold cnt' (i + 1)
                     (acc_step weak_threshold a deg) (touched ++ [i])
      end
  end.

Definition compute_graph_stats_touched (graph : list (list Z))
    (nd num_frozen_pts ep weak_threshold : Z) : option GraphStats * list Z :=
  let s_total_nodes := wrap64 (nd + num_frozen_pts) in
  let s := mkGraphStats s_total_nodes nd num_frozen_pts 0 0 0%Q 0 0 ep in
  if s_total_nodes =? 0 then (Some s, [])
  else
    match stats_loop graph weak_threshold (Z.to_nat s_total_nodes) 0 acc_init [] with
    | (None, touched) => (None, touched)
    | (Some a, touched) =>
        (Some {| total_nodes := s_total_nodes;
                 active_nodes := nd;
                 frozen_nodes := num_frozen_pts;
                 total_edges := acc_total_edges a;
                 degree_min := min_or_zero (acc_degree_min a);
                 degree_avg := quotient (acc_total_edges a) s_total_nodes;
                 degree_max := acc_degree_max a;
                 weak_count := acc_weak_count a;
                 entry_point := ep |}, touched)
    end.

Definition compute_graph_stats (graph : list (list Z))
    (nd num_frozen_pts ep weak_threshold : Z) : option GraphStats :=
  fst (compute_graph_stats_touched graph nd num_frozen_pts ep weak_threshold).

(** The default argument [weak_threshold = 2] of the declaration. *)
Definition default_weak_threshold : Z := 2.

(** ** compute_graph_stats_from_file: the sequential scanner *)

Definition kGraphHeaderSize : Z := 24.

(** The state of the scanning loop: the stream, the locals, and [seen], the
    degree fields read so far with the file positions they were read at
    ([seen] has no counterpart in the source). *)
Record scan_state := mkScan {
  sc_in : ifstream;
  sc_bytes_read : Z;
  sc_acc : accum;
  sc_nodes : Z;
  sc_seen : list (Z * Z)
}.

(** One pass through the body of
    [while (bytes_read != expected_file_size && in.good())]:
    [inr] when the loop is left, [inl] when its body ran to the end. *)
Definition scan_step (expected_file_size : Z) (st : scan_state)
  : scan_state + scan_state :=
  if negb (negb (sc_bytes_read st =? expected_file_size) && is_good (sc_in st))
  then inr st
  else
    let '(k, in1) := read_uint 4 0 (sc_in st) in
    if negb (is_good in1)
    then inr (mkScan in1 (sc_bytes_read st) (sc_acc st) (sc_nodes st) (sc_seen st))
    else
      let a := acc_step 2 (sc_acc st) k in
      let nodes := wrap64 (sc_nodes st + 1) in
      let seen := sc_seen st ++ [(gpos (sc_in st), k)] in
      let in2 := seekg_cur (k * 4) in1 in
      if negb (is_good in2)
      then inr (mkScan in2 (sc_bytes_read st) a nodes seen)
      else inl (mkScan in2 (wrap64 (sc_bytes_read st + (4 + k * 4))) a nodes seen).

(** The loop itself; [None] when [fuel] passes do not reach its exit. *)
Fixpoint scan_loop (fuel : nat) (expected_file_size : Z) (st : scan_state)
  : option scan_state :=
  match fuel with
  | O => None
  | S fuel' =>
      match scan_step expected_file_size st with
      | inr st' => Some st'
      | inl st' => scan_loop fuel' expected_file_size st'
      end
  end.

(** The function up to the end of its loop: [inl s] is an early [return s]. *)
Definition scan_file (fuel : nat) (file : option (list byte)) (offset : Z)
  : option (GraphStats + (Z * Z * scan_state)) :=
  let s := default_stats in
  match open file with
  | None => Some (inl s)
  | Some in0 =>
      let in1 := seekg_beg offset in0 in
      if negb (is_good in1) then Some (inl s)
      else
        let '(expected_file_size, in2) := read_uint 8 0 in1 in
        let '(width, in3) := read_uint 4 0 in2 in
        let '(ep, in4) := read_uint 4 0 in3 in
        let '(num_frozen_pts, in5) := read_uint 8 0 in4 in
        if negb (is_good in5) then Some (inl s)
        else
          match scan_loop fuel expected_file_size
                          (mkScan in5 kGraphHeaderSize acc_init 0 []) with
          | None => None
          | Some st => Some (inr (ep, num_frozen_pts, st))
          end
  end.

Definition compute_graph_stats_from_file_fuel (fuel : nat)
    (file : option (list byte)) (offset : Z) : option GraphStats :=
  match scan_file fuel file offset with
  | None => None
  | Some (inl s) => Some s
  | Some (inr (ep, num_frozen_pts, st)) =>
      let nodes := sc_nodes st in
      let a := sc_acc st in
      Some {| total_nodes := nodes;
              active_nodes := if num_frozen_pts <=? nodes
                              then nodes - num_frozen_pts else 0;
              frozen_nodes := num_frozen_pts;
              total_edges := acc_total_edges a;
              degree_min := min_or_zero (acc_degree_min a);
              degree_avg := if 0 <? nodes
                            then quotient (acc_total_edges a) nodes else 0%Q;
              degree_max := acc_degree_max a;
              weak_count := acc_weak_count a;
              entry_point := ep |}
  end.

(** Every pass that does not leave the loop consumes a degree field of the
    file, so one pass more than the file has bytes is always enough. *)
Definition scan_fuel (file : option (list byte)) : nat :=
  match file with
  | None => 1
  | Some bs => S (length bs)
  end.

Definition compute_graph_stats_from_file (file : option (list byte)) (offset : Z)
  : option GraphStats :=
  compute_graph_stats_from_file_fuel (scan_fuel file) file offset.

(** The degree fields that a run of the scanner has read, in order. *)
Definition degrees_read (file : option (list byte)) (offset : Z) : list (Z * Z) :=
  match scan_file (scan_fuel file) file offset with
  | Some (inr (_, _, st)) => sc_seen st
  | _ => []
  end.

(** ** Writing the raw graph layout (little-endian, fixed width)

    The engine that writes graph files is not part of these sources; the
    writers below lay the fields out as the reads above take them in, a
    header of 24 bytes and then one record per node. *)

Definition u32 (z : Z) : list byte := le_split 4 z.
Definition u64 (z : Z) : list byte := le_split 8 z.

Definition graph_header (expected_total_size width ep frozen : Z) : list byte :=
  u64 expected_total_size ++ u32 width ++ u32 ep ++ u64 frozen.

(** A record [degree:u32, neighbor_ids:u32[degree]]. *)
Definition graph_record (nbrs : list Z) : list byte :=
  u32 (Z.of_nat (length nbrs)) ++ concat (map u32 nbrs).

Definition graph_records (recs : list (list Z)) : list byte :=
  concat (map graph_record recs).

Definition record_size (nbrs : list Z) : Z := 4 + 4 * Z.of_nat (length nbrs).

Definition records_size (recs : list (list Z)) : Z :=
  fold_right (fun r acc => record_size r + acc) 0 recs.

Definition degrees (recs : list (list Z)) : list Z :=
  map (fun r => Z.of_nat (length r)) recs.

Definition aggregate (weak_threshold : Z) (degs : list Z) : accum :=
  fold_left (acc_step weak_threshold) degs acc_init.

(** ** The disk index layout: header resolution *)

Inductive DiskIndexDataType := kFloat | kUint8 | kInt8.

Definition elem_size (t : DiskIndexDataType) : Z :=
  match t with
  | kFloat => 4
  | kUint8 => 1
  | kInt8 => 1
  end.

Definition kDiskIndexDataOffset : Z := 4096.
Definition kSectorLen : Z := 4096.

(** The five [uint64_t] locals that hold the geometry. *)
Record geometry := mkGeometry {
  disk_nnodes : Z;
  disk_ndims : Z;
  medoid_id_on_file : Z;
  max_node_len : Z;
  nnodes_per_sector : Z
}.

(** The five consecutive 8-byte reads that both branches perform. *)
Definition read_geometry (ins : ifstream) : geometry * ifstream :=
  let '(nnodes, in1) := read_uint 8 0 ins in
  let '(ndims, in2) := read_uint 8 0 in1 in
  let '(medoid, in3) := read_uint 8 0 in2 in
  let '(len, in4) := read_uint 8 0 in3 in
  let '(per_sector, in5) := read_uint 8 0 in4 in
  (mkGeometry nnodes ndims medoid len per_sector, in5).

(** The condition [in.good() && meta_npts >= 5] after the two 4-byte reads
    at the start of the file. *)
Definition tag_accepted (in0 : ifstream) : bool :=
  let '(meta_npts, in1) := read_int32 0 in0 in
  let '(meta_ndims, in2) := read_int32 0 in1 in
  is_good in2 && (5 <=? meta_npts).

(** The header part shared by the three disk index functions: the geometry,
    [data_offset], and the stream as it is left. *)
Definition read_disk_header (in0 : ifstream) : geometry * Z * ifstream :=
  let '(meta_npts, in1) := read_int32 0 in0 in
  let '(meta_ndims, in2) := read_int32 0 in1 in
  if is_good in2 && (5 <=? meta_npts)
  then
    let '(g, in3) := read_geometry in2 in
    (g, kDiskIndexDataOffset, in3)
  else
    let in3 := seekg_beg 0 (clear in2) in
    let '(g, in4) := read_geometry in3 in
    (g, kDiskIndexDataOffset, in4).

(** ** compute_graph_stats_from_disk_index: the sector-paged reader *)

(** The sanity check
    [max_node_len < data_dim * esz + sizeof(uint32_t) || max_node_len > kSectorLen]
    that the three disk index functions apply to the geometry. *)
Definition bad_geometry (g : geometry) (esz : Z) : bool :=
  (max_node_len g <? wrap64 (wrap64 (disk_ndims g * esz) + 4))
  || (kSectorLen <? max_node_len g).

(** [memcpy(&x, sector.data() + off, sizeof(uint32_t))]; [None] when the four
    bytes are not inside the buffer. *)
Definition memcpy_u32 (sector : list byte) (off : Z) : option Z :=
  if (0 <=? off) && (off + 4 <=? Z.of_nat (length sector))
  then Some (le_combine (slice sector off 4))
  else None.

(** The locals of the paged scan, with the node ids and degrees aggregated so
    far ([pg_visited]) and the number of sectors read ([pg_pages]); the last
    two have no counterpart in the source. *)
Record paged_state := mkPaged {
  pg_acc : accum;
  pg_visited : list (Z * Z);
  pg_pages : Z
}.

(** [for (uint64_t j = 0; j < nnodes_per_sector; j++)] over one sector, with
    [cnt] the number of iterations left. *)
Fixpoint slot_loop (cnt : nat) (j sec : Z) (g : geometry) (esz : Z)
    (sector : list byte) (st : paged_state) : option paged_state :=
  match cnt with
  | O => Some st
  | S cnt' =>
      let node_id := wrap64 (wrap64 (sec * nnodes_per_sector g) + j) in
      if disk_nnodes g <=? node_id then Some st
      else
        let offset_in_sector := wrap64 (j * max_node_len g) in
        let coords := wrap64 (disk_ndims g * esz) in
        if kSectorLen <? wrap64 (offset_in_sector + coords + 4) then Some st
        else
          match memcpy_u32 sector (offset_in_sector + coords) with
          | None => None
          | Some nnbrs =>
              slot_loop cnt' (j + 1) sec g esz sector
                (mkPaged (acc_step 2 (pg_acc st) nnbrs)
                         (pg_visited st ++ [(node_id, nnbrs)])
                         (pg_pages st))
          end
  end.

(** [for (uint64_t sec = 0; sec < n_sectors && in.good(); sec++)] *)
Fixpoint sector_loop (cnt : nat) (sec : Z) (g : geometry) (esz : Z)
    (ins : ifstream) (st : paged_state) : option paged_state :=
  match cnt with
  | O => Some st
  | S cnt' =>
      if negb (is_good ins) then Some st
      else
        match read kSectorLen ins with
        | (None, _) => Some st
        | (Some sector, in1) =>
            match slot_loop (Z.to_nat (nnodes_per_sector g)) 0 sec g esz sector
                            (mkPaged (pg_acc st) (pg_visited st) (pg_pages st + 1)) with
            | None => None
            | Some st' => sector_loop cnt' (sec + 1) g esz in1 st'
            end
        end
  end.

Definition paged_init : paged_state := mkPaged acc_init [] 0.

Definition disk_index_scan (file : option (list byte)) (data_type : DiskIndexDataType)
  : option (GraphStats * paged_state) :=
  let s := default_stats in
  match open file with
  | None => Some (s, paged_init)
  | Some in0 =>
      let '(g, data_offset, in1) := read_disk_header in0 in
      if negb (is_good in1) then Some (s, paged_init)
      else
        let esz := elem_size data_type in
        if bad_geometry g esz then Some (s, paged_init)
        else
          let s := mkGraphStats (disk_nnodes g) (disk_nnodes g) 0 0 0 0%Q 0 0
                                (wrap32 (medoid_id_on_file g)) in
          if nnodes_per_sector g =? 0 then Some (s, paged_init)
          else
            let n_sectors :=
              wrap64 (disk_nnodes g + nnodes_per_sector g - 1) / nnodes_per_sector g in
            let in2 := seekg_beg data_offset in1 in
            match sector_loop (Z.to_nat n_sectors) 0 g esz in2 paged_init with
            | None => None
            | Some st =>
                let a := pg_acc st in
                Some ({| total_nodes := disk_nnodes g;
                         active_nodes := disk_nnodes g;
                         frozen_nodes := 0;
                         total_edges := acc_total_edges a;
                         degree_min := min_or_zero (acc_degree_min a);
                         degree_avg := if 0 <? disk_nnodes g
                                       then quotient (acc_total_edges a) (disk_nnodes g)
                                       else 0%Q;
                         degree_max := acc_degree_max a;
                         weak_count := acc_weak_count a;
                         entry_point := wrap32 (medoid_id_on_file g) |}, st)
            end
  end.

Definition compute_graph_stats_from_disk_index (file : option (list byte))
    (data_type : DiskIndexDataType) : option GraphStats :=
  option_map fst (disk_index_scan file data_type).

(** The node ids whose degree a run of the paged reader has aggregated, with
    those degrees, and the number of sectors it has read. *)
Definition disk_visited (file : option (list byte)) (data_type : DiskIndexDataType)
  : option (list (Z * Z) * Z) :=
  option_map (fun r => (pg_visited (snd r), pg_pages (snd r)))
             (disk_index_scan file data_type).

(** The degree field of node [i] in a disk index file with geometry [g]. *)
Definition degree_field (bs : list byte) (g : geometry) (esz : Z) (i : Z) : Z :=
  le_combine (slice bs (kDiskIndexDataOffset
                        + (i / nnodes_per_sector g) * kSectorLen
                        + (i mod nnodes_per_sector g) * max_node_len g
                        + disk_ndims g * esz) 4).

(** [0; 1; ...; n - 1] *)
Definition iota (n : Z) : list Z := map Z.of_nat (seq 0 (Z.to_nat n)).

(** ** The small-graph sampler *)

(** What [print_small_graph_from_file] and [print_small_graph_from_disk_index]
    hold when they start printing: [num_nodes], the entry point, and the two
    vectors [out_nbrs] and [in_nbrs] (the latter printed as [referenced_by]). *)
Record small_graph := mkSmall {
  sg_num_nodes : Z;
  sg_entry_point : Z;
  sg_out_nbrs : list (list Z);
  sg_in_nbrs : list (list Z)
}.

(** The outcomes of a sampler: the two error lines, a silent return, or the
    printed sample. *)
Inductive report :=
| CouldNotOpen
| SeekFailed
| Silent
| Sample (g : small_graph).

(** [n] consecutive little-endian [uint32_t] taken from [bs]. *)
Fixpoint decode_u32s (n : nat) (bs : list byte) : list Z :=
  match n with
  | O => []
  | S n' => le_combine (firstn 4 bs) :: decode_u32s n' (skipn 4 bs)
  end.

(** [for (uint32_t v : out_nbrs[id]) if (v < num_nodes)
       in_nbrs[v].push_back(static_cast<uint32_t>(id));] *)
Definition add_reverse_edges (num_nodes id : Z) (nbrs : list Z)
    (in_nbrs : list (list Z)) : list (list Z) :=
  fold_left (fun acc v =>
               if v <? num_nodes
               then alter (fun l => l ++ [wrap32 id]) (Z.to_nat v) acc
               else acc)
            nbrs in_nbrs.

(** The locals of the sampling loop of [print_small_graph_from_file]. *)
Record sample_state := mkSample {
  sm_in : ifstream;
  sm_bytes_read : Z;
  sm_node_id : Z;
  sm_out_nbrs : list (list Z);
  sm_in_nbrs : list (list Z)
}.

(** [while (bytes_read != expected_file_size && node_id < num_nodes && in.good())];
    [node_id] grows by one in every pass, so [cnt], the number of passes left,
    starts at [num_nodes]. *)
Fixpoint small_graph_loop (cnt : nat) (expected_file_size num_nodes : Z)
    (st : sample_state) : sample_state :=
  match cnt with
  | O => st
  | S cnt' =>
      if negb (negb (sm_bytes_read st =? expected_file_size)
               && (sm_node_id st <? num_nodes) && is_good (sm_in st))
      then st
      else
        let '(k, in1) := read_uint 4 0 (sm_in st) in
        if negb (is_good in1) then st
        else
          let '(nbrs, in2) :=
            if 0 <? k
            then match read (k * 4) in1 with
                 | (Some bs, in2) => (decode_u32s (Z.to_nat k) bs, in2)
                 | (None, in2) => (repeat 0 (Z.to_nat k), in2)
                 end
            else ([], in1) in
          if negb (is_good in2) then st
          else
            let node_id := sm_node_id st in
            let out_nbrs := <[Z.to_nat node_id := nbrs]> (sm_out_nbrs st) in
            let in_nbrs := add_reverse_edges num_nodes node_id nbrs (sm_in_nbrs st) in
            small_graph_loop cnt' expected_file_size num_nodes
              (mkSample in2
                        (wrap64 (sm_bytes_read st + (4 + Z.of_nat (length nbrs) * 4)))
                        (node_id + 1) out_nbrs in_nbrs)
  end.

(** The function up to the printing loop. The two vectors are created with
    [num_nodes] empty lists each, and the buffer of a record with its [k]
    ids; these allocations are taken to succeed. *)
Definition print_small_graph_from_file (file : option (list byte))
    (offset num_nodes : Z) : report :=
  match open file with
  | None => CouldNotOpen
  | Some in0 =>
      let in1 := seekg_beg offset in0 in
      if negb (is_good in1) then SeekFailed
      else
        let '(expected_file_size, in2) := read_uint 8 0 in1 in
        let '(width, in3) := read_uint 4 0 in2 in
        let '(ep, in4) := read_uint 4 0 in3 in
        let '(num_frozen_pts, in5) := read_uint 8 0 in4 in
        if negb (is_good in5) then Silent
        else
          let out_nbrs := replicate (Z.to_nat num_nodes) [] in
          let in_nbrs := replicate (Z.to_nat num_nodes) [] in
          let st := small_graph_loop (Z.to_nat num_nodes) expected_file_size num_nodes
                      (mkSample in5 kGraphHeaderSize 0 out_nbrs in_nbrs) in
          let node_id := sm_node_id st in
          if node_id <? num_nodes
          then Sample (mkSmall node_id ep
                               (take (Z.to_nat node_id) (sm_out_nbrs st))
                               (take (Z.to_nat node_id) (sm_in_nbrs st)))
          else Sample (mkSmall num_nodes ep (sm_out_nbrs st) (sm_in_nbrs st))
  end.

(** [memcpy(dst, sector.data() + off, n * sizeof(uint32_t))]; [None] when the
    bytes are not inside the buffer. *)
Definition memcpy_u32s (sector : list byte) (off : Z) (n : Z) : option (list Z) :=
  if (0 <=? off) && (off + n * 4 <=? Z.of_nat (length sector))
  then Some (decode_u32s (Z.to_nat n) (skipn (Z.to_nat off) sector))
  else None.

(** The locals of the sampling loops of [print_small_graph_from_disk_index]. *)
Record disk_sample_state := mkDiskSample {
  ds_nodes_read : Z;
  ds_out_nbrs : list (list Z);
  ds_in_nbrs : list (list Z)
}.

(** [for (uint64_t j = 0; j < nnodes_per_sector && nodes_read < num_nodes; j++)] *)
Fixpoint sample_slot_loop (cnt : nat) (j sec : Z) (g : geometry)
    (nhood_offset_in_node num_nodes : Z) (sector : list byte)
    (st : disk_sample_state) : option disk_sample_state :=
  match cnt with
  | O => Some st
  | S cnt' =>
      if negb (ds_nodes_read st <? num_nodes) then Some st
      else
        let node_id := wrap64 (wrap64 (sec * nnodes_per_sector g) + j) in
        if disk_nnodes g <=? node_id then Some st
        else
          let offset_in_sector := wrap64 (j * max_node_len g) in
          let nbrs_at := wrap64 (offset_in_sector + nhood_offset_in_node + 4) in
          if kSectorLen <? nbrs_at then Some st
          else
            match memcpy_u32 sector (offset_in_sector + nhood_offset_in_node) with
            | None => None
            | Some nnbrs =>
                let nbr_cap :=
                  if kSectorLen <? wrap64 (nbrs_at + nnbrs * 4)
                  then (kSectorLen - nbrs_at) / 4
                  else nnbrs in
                match (if 0 <? nbr_cap
                       then memcpy_u32s sector
                              (offset_in_sector + nhood_offset_in_node + 4) nbr_cap
                       else Some (repeat 0 (Z.to_nat nbr_cap))) with
                | None => None
                | Some nbrs =>
                    let nodes_read := ds_nodes_read st in
                    let out_nbrs := <[Z.to_nat nodes_read := nbrs]> (ds_out_nbrs st) in
                    let in_nbrs :=
                      add_reverse_edges num_nodes nodes_read nbrs (ds_in_nbrs st) in
                    sample_slot_loop cnt' (j + 1) sec g nhood_offset_in_node num_nodes
                      sector (mkDiskSample (nodes_read + 1) out_nbrs in_nbrs)
                end
            end
  end.

(** [for (uint64_t sec = 0; sec < n_sectors && nodes_read < num_nodes && in.good(); sec++)] *)
Fixpoint sample_sector_loop (cnt : nat) (sec : Z) (g : geometry)
    (nhood_offset_in_node num_nodes : Z) (ins : ifstream)
    (st : disk_sample_state) : option disk_sample_state :=
  match cnt with
  | O => Some st
  | S cnt' =>
      if negb ((ds_nodes_read st <? num_nodes) && is_good ins) then Some st
      else
        match read kSectorLen ins with
        | (None, _) => Some st
        | (Some sector, in1) =>
            match sample_slot_loop (Z.to_nat (nnodes_per_sector g)) 0 sec g
                                   nhood_offset_in_node num_nodes sector st with
            | None => None
            | Some st' =>
                sample_sector_loop cnt' (sec + 1) g nhood_offset_in_node num_nodes in1 st'
            end
        end
  end.

(** The function up to the printing loop; the two vectors are created with
    [min num_nodes disk_nnodes] empty lists each (an allocation that is
    taken to succeed). *)
Definition print_small_graph_from_disk_index (file : option (list byte))
    (data_type : DiskIndexDataType) (num_nodes : Z) : option report :=
  match open file with
  | None => Some CouldNotOpen
  | Some in0 =>
      let '(g, data_offset, in1) := read_disk_header in0 in
      if negb (is_good in1) || (nnodes_per_sector g =? 0) then Some Silent
      else
        let esz := elem_size data_type in
        if bad_geometry g esz then Some Silent
        else
          let nhood_offset_in_node := wrap64 (disk_ndims g * esz) in
          let num_nodes := if disk_nnodes g <? num_nodes then disk_nnodes g else num_nodes in
          let out_nbrs := replicate (Z.to_nat num_nodes) [] in
          let in_nbrs := replicate (Z.to_nat num_nodes) [] in
          let n_sectors :=
            wrap64 (disk_nnodes g + nnodes_per_sector g - 1) / nnodes_per_sector g in
          let in2 := seekg_beg data_offset in1 in
          match sample_sector_loop (Z.to_nat n_sectors) 0 g nhood_offset_in_node
                                   num_nodes in2 (mkDiskSample 0 out_nbrs in_nbrs) with
          | None => None
          | Some st =>
              let nodes_read := ds_nodes_read st in
              if nodes_read <? num_nodes
              then Some (Sample (mkSmall nodes_read (medoid_id_on_file g)
                                         (take (Z.to_nat nodes_read) (ds_out_nbrs st))
                                         (take (Z.to_nat nodes_read) (ds_in_nbrs st))))
              else Some (Sample (mkSmall num_nodes (medoid_id_on_file g)
                                         (ds_out_nbrs st) (ds_in_nbrs st)))
          end
  end.

(** Node [i] of a sample is referenced by exactly the nodes of the sample
    that list it as an out-neighbor. *)
Definition reverse_edges_exact (g : small_graph) : Prop :=
  forall i j : Z, 0 <= i < sg_num_nodes g ->
    (exists l, sg_in_nbrs g !! Z.to_nat i = Some l /\ In j l) <->
    (0 <= j < sg_num_nodes g /\
     exists l, sg_out_nbrs g !! Z.to_nat j = Some l /\ In i l).

(** Both vectors of a sample have one list for each of its nodes. *)
Definition sample_sized (g : small_graph) : Prop :=
  Z.of_nat (length (sg_out_nbrs g)) = sg_num_nodes g /\
  Z.of_nat (length (sg_in_nbrs g)) = sg_num_nodes g.

(** ** Writing the disk index layout

    As for the raw graph, the writers follow the reads: a header sector, then
    sectors of 4096 bytes that hold records of [len] bytes each. *)

Definition pad_to (n : nat) (bs : list byte) : list byte :=
  bs ++ repeat Byte.x00 (n - length bs).

(** The untagged header sector: the five geometry fields at offset 0. *)
Definition untagged_header (g : geometry) : list byte :=
  pad_to 4096 (u64 (disk_nnodes g) ++ u64 (disk_ndims g) ++ u64 (medoid_id_on_file g)
               ++ u64 (max_node_len g) ++ u64 (nnodes_per_sector g)).

(** The tagged header sector: the two 32-bit tag fields, then the geometry. *)
Definition tagged_header (npts_meta ndims_meta : Z) (g : geometry) : list byte :=
  pad_to 4096 (u32 npts_meta ++ u32 ndims_meta
               ++ u64 (disk_nnodes g) ++ u64 (disk_ndims g) ++ u64 (medoid_id_on_file g)
               ++ u64 (max_node_len g) ++ u64 (nnodes_per_sector g)).

(** A record: [coords] bytes of coordinates, the degree, the neighbor ids,
    padded to [len] bytes. *)
Definition disk_record (coords len : nat) (nbrs : list Z) : list byte :=
  pad_to len (repeat Byte.x00 coords ++ u32 (Z.of_nat (length nbrs)) ++ concat (map u32 nbrs)).

(** A sector holding the records of [recs]. *)
Definition disk_sector (coords len : nat) (recs : list (list Z)) : list byte :=
  pad_to 4096 (concat (map (disk_record coords len) recs)).

(** ** Vocabulary of the statements *)

Definition zsum (l : list Z) : Z := fold_right Z.add 0 l.

Definition zmin (l : list Z) : Z :=
  match l with
  | [] => 0
  | d :: l' => fold_left Z.min l' d
  end.

Definition zmax (l : list Z) : Z := fold_left Z.max l 0.

(** The number of degrees strictly below the threshold. *)
Definition weak_in (weak_threshold : Z) (degs : list Z) : Z :=
  Z.of_nat (length (List.filter (fun d => d <? weak_threshold) degs)).




(** The size of a file is a non-negative [off_t]. *)
Definition file_size_ok (bs : list byte) : Prop :=
  Z.of_nat (length bs) < 2 ^ 63.

(** Every list of a raw graph has fewer than [2^32] neighbor ids. *)
Definition degrees_fit (recs : list (list Z)) : Prop :=
  Forall (fun r => Z.of_nat (length r) < 2 ^ 32) recs.

(** The statistics of the file scanner over a list of degrees, with the
    entry point and the frozen count of the header. *)
Definition stats_over (degs : list Z) (ep frozen : Z) : GraphStats :=
  let n := Z.of_nat (length degs) in
  {| total_nodes := n;
     active_nodes := if frozen <=? n then n - frozen else 0;
     frozen_nodes := frozen;
     total_edges := zsum degs;
     degree_min := zmin degs;
     degree_avg := if 0 <? n then quotient (zsum degs) n else 0%Q;
     degree_max := zmax degs;
     weak_count := weak_in 2 degs;
     entry_point := ep |}.

(** ** The raw graph layout, read declaratively *)

(** The three header fields that the scanner uses, as stored at [o]. *)
Definition header_expected (bs : list byte) (o : Z) : Z := le_combine (slice bs o 8).
Definition header_ep (bs : list byte) (o : Z) : Z := le_combine (slice bs (o + 12) 4).
Definition header_frozen (bs : list byte) (o : Z) : Z := le_combine (slice bs (o + 16) 8).

(** The 24 header bytes lie in the file at the position that [offset] denotes. *)
Definition header_readable (bs : list byte) (offset : Z) : bool :=
  (0 <=? as_streamoff offset) && (as_streamoff offset <? 2 ^ 63)
  && (as_streamoff offset + 24 <=? Z.of_nat (length bs)).

(** The state in which the scanning loop is entered. *)
Definition scan_start (bs : list byte) (o : Z) : scan_state :=
  mkScan (mkStream bs (o + 24) true) kGraphHeaderSize acc_init 0 [].

(** The bytes of the file that lie after the get position. *)
Definition bytes_left (st : scan_state) : nat :=
  Z.to_nat (stream_size (sc_in st) - gpos (sc_in st)).

(** The records whose degree field the scanner reads: starting at position
    [p] with the byte counter at [b], a record is taken while the counter
    differs from [expected] and four bytes are left for its degree [k]; the
    next record starts [4 + 4 * k] bytes further, whether or not the file
    holds the [k] neighbor ids (unless that position is no [off_t]). Each
    record is listed with its position and degree; [limit] bounds the number
    of records. *)
Fixpoint records_until (limit : nat) (bs : list byte) (expected p b : Z)
  : list (Z * Z) :=
  match limit with
  | O => []
  | S limit' =>
      if b =? expected then []
      else if Z.of_nat (length bs) <? p + 4 then []
      else
        let k := le_combine (slice bs p 4) in
        (p, k) :: (if 2 ^ 63 <=? p + 4 + k * 4 then []
                   else records_until limit' bs expected (p + 4 + k * 4)
                                      (wrap64 (b + (4 + k * 4))))
  end.

(** The degrees of the complete records only: as [records_until], but a
    record counts only when the file holds all of its neighbor ids. *)
Fixpoint complete_records (limit : nat) (bs : list byte) (expected p b : Z)
  : list Z :=
  match limit with
  | O => []
  | S limit' =>
      if b =? expected then []
      else if Z.of_nat (length bs) <? p + 4 then []
      else
        let k := le_combine (slice bs p 4) in
        if Z.of_nat (length bs) <? p + 4 + k * 4 then []
        else k :: complete_records limit' bs expected (p + 4 + k * 4)
                                   (wrap64 (b + (4 + k * 4)))
  end.

(** ** The disk index layout, read declaratively *)

(** The five geometry fields as stored at position [o]. *)
Definition geometry_at (bs : list byte) (o : Z) : geometry :=
  mkGeometry (le_combine (slice bs o 8))
             (le_combine (slice bs (o + 8) 8))
             (le_combine (slice bs (o + 16) 8))
             (le_combine (slice bs (o + 24) 8))
             (le_combine (slice bs (o + 32) 8)).

(** The first four bytes of a file read as a signed 32-bit integer. *)
Definition leading_int32 (bs : list byte) : Z := as_int32 (le_combine (slice bs 0 4)).

(** [ceil(n_nodes / records_per_page)] *)
Definition pages_needed (g : geometry) : Z :=
  (disk_nnodes g + nnodes_per_sector g - 1) / nnodes_per_sector g.

(** At least one record per page, and a record that holds the coordinates
    and the degree and is no longer than a page. *)
Definition record_geometry (g : geometry) (esz : Z) : Prop :=
  1 <= nnodes_per_sector g
  /\ disk_ndims g * esz + 4 <= max_node_len g <= 4096.

(** The degree field of the last slot of a page lies inside the page (as it
    does when [records_per_page * max_record_len <= 4096]). *)
Definition slots_in_page (g : geometry) (esz : Z) : Prop :=
  (nnodes_per_sector g - 1) * max_node_len g + disk_ndims g * esz + 4 <= 4096.

(** The file holds the header sector and every body page in full. *)
Definition pages_present (bs : list byte) (g : geometry) : Prop :=
  kDiskIndexDataOffset + pages_needed g * kSectorLen <= Z.of_nat (length bs).

(** The result that the paged reader builds from the geometry and its
    accumulators. *)
Definition paged_stats (g : geometry) (a : accum) : GraphStats :=
  {| total_nodes := disk_nnodes g;
     active_nodes := disk_nnodes g;
     frozen_nodes := 0;
     total_edges := acc_total_edges a;
     degree_min := min_or_zero (acc_degree_min a);
     degree_avg := if 0 <? disk_nnodes g
                   then quotient (acc_total_edges a) (disk_nnodes g) else 0%Q;
     degree_max := acc_degree_max a;
     weak_count := acc_weak_count a;
     entry_point := wrap32 (medoid_id_on_file g) |}.

(** Node ids [0 .. n - 1], each with its degree field. *)
Definition nodes_with_degrees (bs : list byte) (g : geometry) (esz : Z) (n : Z)
  : list (Z * Z) :=
  map (fun i => (i, degree_field bs g esz i)) (iota n).

(** The paged reader has aggregated exactly the degree fields of the nodes
    [0 .. k - 1], in this order. *)
Definition visited_upto (bs : list byte) (g : geometry) (esz : Z) (k : Z)
    (st : paged_state) : Prop :=
  pg_visited st = nodes_with_degrees bs g esz k
  /\ pg_acc st = aggregate 2 (map snd (pg_visited st)).

(** ** Vocabulary of the sampler *)

(** The two vectors of a sampler that has [N] slots and has stored the nodes
    [0 .. m - 1]: only these have out-neighbors, and the list of slot [i] in
    [in_nbrs] holds exactly the stored nodes that list [i], each written as a
    [uint32_t]. *)
Definition sampled (N m : Z) (out_nbrs in_nbrs : list (list Z)) : Prop :=
  length out_nbrs = Z.to_nat N
  /\ length in_nbrs = Z.to_nat N
  /\ (forall j l v, out_nbrs !! j = Some l -> In v l -> (j < Z.to_nat m)%nat /\ 0 <= v)
  /\ (forall i l x, in_nbrs !! i = Some l ->
        (In x l <->
         exists j lj, 0 <= j < m /\ x = wrap32 j
                      /\ out_nbrs !! Z.to_nat j = Some lj /\ In (Z.of_nat i) lj)).

(** No list of [referenced_by] exists for an id at or beyond the sample. *)
Definition no_outside_target (g : small_graph) : Prop :=
  forall i : Z, sg_num_nodes g <= i -> sg_in_nbrs g !! Z.to_nat i = None.

(** ** Sample inputs *)

(** The hand-built graph with degrees [0; 1; 2; 3; 1]. *)
Definition five_node_graph : list (list Z) := [[]; [0]; [0; 1]; [0; 1; 2]; [0]].

(** Four records with degrees 2, 1, 0 and 3, and the raw graph file that
    holds them, with width 7, entry point 3 and one frozen point. *)
Definition sample_records : list (list Z) := [[1; 2]; [0]; []; [0; 1; 2]].

Definition sample_graph_file : list byte :=
  graph_header (24 + records_size sample_records) 7 3 1
  ++ graph_records sample_records.

(** A raw graph file whose first record has degree 1 and whose header
    announces 30 bytes: the byte counter goes from 24 to 32. *)
Definition overshoot_file : list byte :=
  graph_header 30 0 0 0 ++ graph_records [[7]; []; [1; 2]].

(** A file cut inside its only record: the degree field says 3, one of the
    three neighbor ids is present. *)
Definition cut_record_file : list byte :=
  graph_header 40 0 3 0 ++ u32 3 ++ u32 7.

(** A file that ends with its header: entry point 7, five frozen points. *)
Definition header_only_file : list byte := graph_header 24 0 7 5.

(** The raw graph with the edges 0 -> 1, 0 -> 5, 1 -> 2 and 2 -> 0. *)
Definition triangle_file : list byte :=
  graph_header (24 + records_size [[1; 5]; [2]; [0]]) 0 0 0
  ++ graph_records [[1; 5]; [2]; [0]].

(** A header that announces no record per sector with records that would
    fit one: three nodes, no coordinates, 100 bytes per record. *)
Definition zero_per_sector_file : list byte :=
  untagged_header (mkGeometry 3 0 4 100 0).

(** A header of the multi-sector variant: 1024 floats of coordinates, 8192
    bytes per record, none per sector. *)
Definition oversized_file : list byte :=
  untagged_header (mkGeometry 3 1024 1 8192 0).

(** Three nodes, three records per page, but records of 4096 bytes: only the
    first slot of a page has its degree field inside the page. *)
Definition wide_record_geometry : geometry := mkGeometry 3 0 4 4096 3.

Definition wide_record_file : list byte :=
  untagged_header wide_record_geometry ++ disk_sector 0 4096 [[1; 2]].

(** Ten nodes, three per page, in records of 1000 bytes after 8 bytes of
    coordinates; the header is tagged. *)
Definition ten_node_geometry : geometry := mkGeometry 10 2 4 1000 3.

Definition ten_node_records : list (list Z) :=
  [[1; 2]; [0]; []; [0; 1; 2]; [3]; [7; 8; 9; 1]; [2; 2]; [1]; [0; 5]; [9]].

Definition ten_node_file : list byte :=
  tagged_header 10 2 ten_node_geometry
  ++ disk_sector 8 1000 (take 3 ten_node_records)
  ++ disk_sector 8 1000 (take 3 (drop 3 ten_node_records))
  ++ disk_sector 8 1000 (take 3 (drop 6 ten_node_records))
  ++ disk_sector 8 1000 (drop 9 ten_node_records).

(** An untagged header with seven nodes: its first four bytes read as the
    integer 7. *)
Definition seven_node_untagged_file : list byte :=
  untagged_header (mkGeometry 7 2 4 1000 3).

(** ** print_adjacency_sample_from_file *)

(** One printed line [  node: [n1, n2, ...]]; [al_total] is [Some k] when the
    line ends with [, ... (k total)]. *)
Record adj_line := mkLine {
  al_node : Z;
  al_shown : list Z;
  al_total : option Z
}.

(** What an adjacency sampler writes: one of the two error lines, nothing, or
    the title line (with the requested number of nodes and the entry point)
    followed by the node lines. *)
Inductive listing :=
| ListCouldNotOpen
| ListSeekFailed
| ListSilent
| Listing (num_nodes ep : Z) (lines : list adj_line).

(** [(max_neighbors_per_node > 0 && k > max_neighbors_per_node)
       ? max_neighbors_per_node : k] *)
Definition to_show_of (max_neighbors_per_node k : Z) : Z :=
  if (0 <? max_neighbors_per_node) && (max_neighbors_per_node <? k)
  then max_neighbors_per_node else k.

(** The locals of the loop of [print_adjacency_sample_from_file] and the
    lines written so far. *)
Record listing_state := mkListing {
  ls_in : ifstream;
  ls_bytes_read : Z;
  ls_node_id : Z;
  ls_lines : list adj_line
}.

(** [while (bytes_read != expected_file_size && node_id < num_nodes && in.good())],
    with [cnt] the number of passes left ([node_id] grows in every pass). *)
Fixpoint adjacency_loop (cnt : nat) (expected_file_size num_nodes
    max_neighbors_per_node : Z) (st : listing_state) : listing_state :=
  match cnt with
  | O => st
  | S cnt' =>
      if negb (negb (ls_bytes_read st =? expected_file_size)
               && (ls_node_id st <? num_nodes) && is_good (ls_in st))
      then st
      else
        let '(k, in1) := read_uint 4 0 (ls_in st) in
        if negb (is_good in1) then st
        else
          let to_show := to_show_of max_neighbors_per_node k in
          let '(nbrs, in2) :=
            if 0 <? to_show
            then match read (to_show * 4) in1 with
                 | (Some bs, in2) => (decode_u32s (Z.to_nat to_show) bs, in2)
                 | (None, in2) => (repeat 0 (Z.to_nat to_show), in2)
                 end
            else ([], in1) in
          if negb (is_good in2) then st
          else
            let in3 := if to_show <? k
                       then seekg_cur ((k - to_show) * 4) in2 else in2 in
            let line := mkLine (ls_node_id st) nbrs
                               (if to_show <? k then Some k else None) in
            adjacency_loop cnt' expected_file_size num_nodes max_neighbors_per_node
              (mkListing in3 (wrap64 (ls_bytes_read st + (4 + k * 4)))
                         (ls_node_id st + 1) (ls_lines st ++ [line]))
  end.

Definition print_adjacency_sample_from_file (file : option (list byte))
    (offset num_nodes max_neighbors_per_node : Z) : listing :=
  match open file with
  | None => ListCouldNotOpen
  | Some in0 =>
      let in1 := seekg_beg offset in0 in
      if negb (is_good in1) then ListSeekFailed
      else
        let '(expected_file_size, in2) := read_uint 8 0 in1 in
        let '(width, in3) := read_uint 4 0 in2 in
        let '(ep, in4) := read_uint 4 0 in3 in
        let '(num_frozen_pts, in5) := read_uint 8 0 in4 in
        if negb (is_good in5) then ListSilent
        else
          let st := adjacency_loop (Z.to_nat num_nodes) expected_file_size num_nodes
                      max_neighbors_per_node (mkListing in5 kGraphHeaderSize 0 []) in
          Listing num_nodes ep (ls_lines st)
  end.

(** ** print_adjacency_sample_from_disk_index *)

Record disk_listing_state := mkDiskListing {
  dl_nodes_printed : Z;
  dl_lines : list adj_line
}.

(** [for (uint64_t j = 0; j < nnodes_per_sector && nodes_printed < num_nodes; j++)] *)
Fixpoint listing_slot_loop (cnt : nat) (j sec : Z) (g : geometry)
    (nhood_offset_in_node num_nodes max_neighbors_per_node : Z)
    (sector : list byte) (st : disk_listing_state) : option disk_listing_state :=
  match cnt with
  | O => Some st
  | S cnt' =>
      if negb (dl_nodes_printed st <? num_nodes) then Some st
      else
        let node_id := wrap64 (wrap64 (sec * nnodes_per_sector g) + j) in
        if disk_nnodes g <=? node_id then Some st
        else
          let offset_in_sector := wrap64 (j * max_node_len g) in
          let nbrs_at := wrap64 (offset_in_sector + nhood_offset_in_node + 4) in
          if kSectorLen <? nbrs_at then Some st
          else
            match memcpy_u32 sector (offset_in_sector + nhood_offset_in_node) with
            | None => None
            | Some nnbrs =>
                let to_show := to_show_of max_neighbors_per_node nnbrs in
                let nbr_bytes := to_show * 4 in
                match (if (0 <? to_show) && (wrap64 (nbrs_at + nbr_bytes) <=? kSectorLen)
                       then memcpy_u32s sector
                              (offset_in_sector + nhood_offset_in_node + 4) to_show
                       else Some []) with
                | None => None
                | Some nbrs =>
                    let line := mkLine node_id nbrs
                                       (if to_show <? nnbrs then Some nnbrs else None) in
                    listing_slot_loop cnt' (j + 1) sec g nhood_offset_in_node num_nodes
                      max_neighbors_per_node sector
                      (mkDiskListing (dl_nodes_printed st + 1) (dl_lines st ++ [line]))
                end
            end
  end.

(** [for (uint64_t sec = 0; sec < n_sectors && nodes_printed < num_nodes && in.good(); sec++)] *)
Fixpoint listing_sector_loop (cnt : nat) (sec : Z) (g : geometry)
    (nhood_offset_in_node num_nodes max_neighbors_per_node : Z) (ins : ifstream)
    (st : disk_listing_state) : option disk_listing_state :=
  match cnt with
  | O => Some st
  | S cnt' =>
      if negb ((dl_nodes_printed st <? num_nodes) && is_good ins) then Some st
      else
        match read kSectorLen ins with
        | (None, _) => Some st
        | (Some sector, in1) =>
            match listing_slot_loop (Z.to_nat (nnodes_per_sector g)) 0 sec g
                    nhood_offset_in_node num_nodes max_neighbors_per_node sector st with
            | None => None
            | Some st' =>
                listing_sector_loop cnt' (sec + 1) g nhood_offset_in_node num_nodes
                                    max_neighbors_per_node in1 st'
            end
        end
  end.

Definition print_adjacency_sample_from_disk_index (file : option (list byte))
    (data_type : DiskIndexDataType) (num_nodes max_neighbors_per_node : Z)
  : option listing :=
  match open file with
  | None => Some ListCouldNotOpen
  | Some in0 =>
      let '(g, data_offset, in1) := read_disk_header in0 in
      if negb (is_good in1) || (nnodes_per_sector g =? 0) then Some ListSilent
      else
        let esz := elem_size data_type in
        if bad_geometry g esz then Some ListSilent
        else
          let nhood_offset_in_node := wrap64 (disk_ndims g * esz) in
          let n_sectors :=
            wrap64 (disk_nnodes g + nnodes_per_sector g - 1) / nnodes_per_sector g in
          let in2 := seekg_beg data_offset in1 in
          match listing_sector_loop (Z.to_nat n_sectors) 0 g nhood_offset_in_node
                  num_nodes max_neighbors_per_node in2 (mkDiskListing 0 []) with
          | None => None
          | Some st => Some (Listing num_nodes (medoid_id_on_file g) (dl_lines st))
          end
  end.

(** ** The lines of a small graph *)

(** One printed line [  i: out [...]  referenced_by [...]]; [sl_total] is
    [Some k] when the out list ends with [, ... (k total)]. *)
Record small_line := mkSmallLine {
  sl_node : Z;
  sl_out : list Z;
  sl_total : option Z;
  sl_referenced_by : list Z
}.

(** The printing loop [for (size_t i = 0; i < num_nodes; i++)] that ends both
    small-graph functions; [None] if a vector is subscripted out of range. *)
Definition small_graph_lines (max_neighbors_per_node : Z) (g : small_graph)
  : option (list small_line) :=
  mapM (fun i : nat =>
          match sg_out_nbrs g !! i, sg_in_nbrs g !! i with
          | Some out, Some inn =>
              let size := Z.of_nat (length out) in
              let to_show := to_show_of max_neighbors_per_node size in
              Some (mkSmallLine (Z.of_nat i) (take (Z.to_nat to_show) out)
                                (if to_show <? size then Some size else None) inn)
          | _, _ => None
          end)
       (seq 0 (Z.to_nat (sg_num_nodes g))).

(** What a small-graph function writes. *)
Inductive small_output :=
| SmallCouldNotOpen
| SmallSeekFailed
| SmallSilent
| SmallLines (num_nodes ep : Z) (lines : list small_line).

Definition small_graph_output (max_neighbors_per_node : Z) (r : report)
  : option small_output :=
  match r with
  | CouldNotOpen => Some SmallCouldNotOpen
  | SeekFailed => Some SmallSeekFailed
  | Silent => Some SmallSilent
  | Sample g =>
      match small_graph_lines max_neighbors_per_node g with
      | None => None
      | Some lines => Some (SmallLines (sg_num_nodes g) (sg_entry_point g) lines)
      end
  end.

(** ** Vocabulary of the disk header *)

(** The five fields of a geometry are [uint64_t] values. *)
Definition geometry_fits (g : geometry) : Prop :=
  0 <= disk_nnodes g < 2 ^ 64 /\ 0 <= disk_ndims g < 2 ^ 64
  /\ 0 <= medoid_id_on_file g < 2 ^ 64 /\ 0 <= max_node_len g < 2 ^ 64
  /\ 0 <= nnodes_per_sector g < 2 ^ 64.

(** The five geometry fields as they lie in a file. *)
Definition geometry_fields (g : geometry) : list byte :=
  u64 (disk_nnodes g) ++ u64 (disk_ndims g) ++ u64 (medoid_id_on_file g)
  ++ u64 (max_node_len g) ++ u64 (nnodes_per_sector g).

(** The geometry found eight bytes into an untagged header: every field
    takes the value of its successor, and the last one is the word [w] that
    follows the five fields. *)
Definition shifted (g : geometry) (w : Z) : geometry :=
  mkGeometry (disk_ndims g) (medoid_id_on_file g) (max_node_len g)
             (nnodes_per_sector g) w.

(** The geometry that the header resolver finds in a file. *)
Definition header_geometry (bs : list byte) : geometry :=
  fst (fst (read_disk_header (mkStream bs 0 true))).

(** The byte count of the coordinates, followed by the four bytes of the
    degree, does not wrap around [2^64]. *)
Definition coordinates_fit (bs : list byte) (data_type : DiskIndexDataType) : Prop :=
  wrap64 (disk_ndims (header_geometry bs) * elem_size data_type) < 2 ^ 64 - 4.

(** A header whose dimension count makes the byte count of the coordinates
    wrap to [2^64 - 2]: one record of 100 bytes per sector, one node. *)
Definition wrapping_dims_file : list byte :=
  untagged_header (mkGeometry 1 (2 ^ 64 - 2) 0 100 1) ++ disk_sector 0 100 [[]].

(** ** Vocabulary of the adjacency sample *)

(** How a line is cut under the cap [max]: a line that carries a total shows
    exactly [max] neighbors, and the total exceeds [max]; a line without a
    total shows all neighbors of the node, at most [max] of them when the
    cap is positive. *)
Definition line_cut (max : Z) (l : adj_line) : Prop :=
  match al_total l with
  | Some k => 0 < max < k /\ Z.of_nat (length (al_shown l)) = max
  | None => max <= 0 \/ Z.of_nat (length (al_shown l)) <= max
  end.

(** As [line_cut], for the disk index: the neighbors of a line are left out
    altogether when they do not fit into the sector. *)
Definition line_cut_or_empty (max : Z) (l : adj_line) : Prop :=
  al_shown l = [] \/ line_cut max l.

(** The line printed for node [i] with the neighbor list [nbrs]. *)
Definition line_for (max : Z) (i : Z) (nbrs : list Z) : adj_line :=
  let k := Z.of_nat (length nbrs) in
  let to_show := to_show_of max k in
  mkLine i (take (Z.to_nat to_show) nbrs) (if to_show <? k then Some k else None).

(** The lines printed for the lists [recs], numbered from [i]. *)
Fixpoint lines_for (max : Z) (i : Z) (recs : list (list Z)) : list adj_line :=
  match recs with
  | [] => []
  | r :: recs' => line_for max i r :: lines_for max (i + 1) recs'
  end.

(** Every neighbor id of a raw graph is a [uint32_t]. *)
Definition ids_fit (recs : list (list Z)) : Prop :=
  Forall (Forall (fun v => 0 <= v < 2 ^ 32)) recs.

(** How a line of a small graph is cut under the cap [max], as [line_cut]. *)
Definition small_line_cut (max : Z) (l : small_line) : Prop :=
  match sl_total l with
  | Some k => 0 < max < k /\ Z.of_nat (length (sl_out l)) = max
  | None => max <= 0 \/ Z.of_nat (length (sl_out l)) <= max
  end.

(** The line that the printing loop writes for node [i] of a sample. *)
Definition small_line_for (max : Z) (g : small_graph) (i : nat) (l : small_line) : Prop :=
  exists out inn,
    sg_out_nbrs g !! i = Some out /\ sg_in_nbrs g !! i = Some inn
    /\ sl_node l = Z.of_nat i
    /\ sl_out l = take (Z.to_nat (to_show_of max (Z.of_nat (length out)))) out
    /\ sl_referenced_by l = inn
    /\ small_line_cut max l.

(** ** The command-line inspector (tests/inspect_graph.cpp)

    [main] is embedded over a file system [fs], which gives the content of
    the file at a path ([None] when it cannot be opened), and over [stoul],
    which gives the value of [std::stoul] on a string ([None] when it
    throws). What the program writes is kept as structured values: the
    messages on [std::cerr] and the items on [std::cout]. *)

Definition kMetadataSize : Z := 4096.
Definition kMaxReasonableDegree : Z := 10000000.
Definition kMaxReasonableNodes : Z := 500000000.

(** The seven locals that the argument loop fills. *)
Record options := mkOptions {
  opt_graph_file : string;
  opt_index_file : string;
  opt_disk_index_file : string;
  opt_data_type_str : string;
  opt_adjacency_sample : Z;
  opt_max_neighbors_per_node : Z;
  opt_small_graph : Z
}.

Definition default_options : options :=
  mkOptions EmptyString EmptyString EmptyString EmptyString 0 20 0.

(** The lines written to [std::cerr]. *)
Inductive message :=
| ErrPositiveNumber (option_name val : string)
| UsageText
| ErrProvideOne
| ErrExactlyOne
| ErrNeedsDataType
| ErrDataType (got : string)
| ErrCouldNotOpen (path : string)
| ErrMetadata (path : string)
| ErrNotSingleFile
| ErrReadGraph (path : string) (offset : Z)
| ErrNoNodes
| ErrNotRawGraph.

(** The items written to [std::cout]. *)
Inductive printed :=
| Summary (s : GraphStats)
| BlankLine
| AdjacencySample (l : listing)
| SmallGraph (o : small_output).

Record run := mkRun {
  exit_code : Z;
  cerr : list message;
  cout : list printed
}.

(** The outcome of the argument loop: the options, or an early return. *)
Inductive parsed :=
| Parsed (o : options)
| BadNumber (option_name val : string)
| Usage.

(** [parse_positive_size] on a non-null string. *)
Definition parse_positive_size (stoul : string -> option Z) (s : string) : option Z :=
  stoul s.

Definition is_help (arg : string) : bool :=
  String.eqb arg "--help"%string || String.eqb arg "-h"%string.

(** [for (int i = 1; i < argc; i++)] over [argv[1..]]: an option name takes
    the next argument as its value only when there is one. *)
Fixpoint parse_args (stoul : string -> option Z) (args : list string) (o : options)
  : parsed :=
  match args with
  | [] => Parsed o
  | arg :: rest =>
      match rest with
      | [] => if is_help arg then Usage else Parsed o
      | val :: rest' =>
          if String.eqb arg "--graph-file"%string then
            parse_args stoul rest'
              (mkOptions val (opt_index_file o) (opt_disk_index_file o)
                         (opt_data_type_str o) (opt_adjacency_sample o)
                         (opt_max_neighbors_per_node o) (opt_small_graph o))
          else if String.eqb arg "--index-file"%string then
            parse_args stoul rest'
              (mkOptions (opt_graph_file o) val (opt_disk_index_file o)
                         (opt_data_type_str o) (opt_adjacency_sample o)
                         (opt_max_neighbors_per_node o) (opt_small_graph o))
          else if String.eqb arg "--disk-index"%string then
            parse_args stoul rest'
              (mkOptions (opt_graph_file o) (opt_index_file o) val
                         (opt_data_type_str o) (opt_adjacency_sample o)
                         (opt_max_neighbors_per_node o) (opt_small_graph o))
          else if String.eqb arg "--data-type"%string then
            parse_args stoul rest'
              (mkOptions (opt_graph_file o) (opt_index_file o) (opt_disk_index_file o)
                         val (opt_adjacency_sample o)
                         (opt_max_neighbors_per_node o) (opt_small_graph o))
          else if String.eqb arg "--adjacency-sample"%string then
            match parse_positive_size stoul val with
            | None => BadNumber "--adjacency-sample"%string val
            | Some v =>
                parse_args stoul rest'
                  (mkOptions (opt_graph_file o) (opt_index_file o)
                             (opt_disk_index_file o) (opt_data_type_str o) v
                             (opt_max_neighbors_per_node o) (opt_small_graph o))
            end
          else if String.eqb arg "--max-neighbors"%string then
            match parse_positive_size stoul val with
            | None => BadNumber "--max-neighbors"%string val
            | Some v =>
                parse_args stoul rest'
                  (mkOptions (opt_graph_file o) (opt_index_file o)
                             (opt_disk_index_file o) (opt_data_type_str o)
                             (opt_adjacency_sample o) v (opt_small_graph o))
            end
          else if String.eqb arg "--small-graph"%string then
            match parse_positive_size stoul val with
            | None => BadNumber "--small-graph"%string val
            | Some v =>
                parse_args stoul rest'
                  (mkOptions (opt_graph_file o) (opt_index_file o)
                             (opt_disk_index_file o) (opt_data_type_str o)
                             (opt_adjacency_sample o) (opt_max_neighbors_per_node o) v)
            end
          else if is_help arg then Usage
          else parse_args stoul rest o
      end
  end.

(** [std::string::empty] *)
Definition empty (s : string) : bool := String.eqb s EmptyString.

(** [return 1] after one line on [std::cerr]. *)
Definition fail (m : message) : option run := Some (mkRun 1 [m] []).

(** What the three branches of [main] leave behind for the checks that
    follow: the statistics, [path], [offset], [is_single_file],
    [use_disk_index] and [disk_data_type]. *)
Record source := mkSource {
  src_stats : GraphStats;
  src_path : string;
  src_offset : Z;
  src_is_single_file : bool;
  src_use_disk_index : bool;
  src_disk_data_type : DiskIndexDataType
}.

(** The branch [mode == 4], [mode == 1] or [mode == 2] of [main]: an early
    return, or the statistics; [None] where the disk reader has no defined
    behaviour. *)
Definition read_source (fs : string -> option (list byte)) (o : options) (mode : Z)
  : option (run + source) :=
  if mode =? 4 then
    match (if String.eqb (opt_data_type_str o) "float"%string then Some kFloat
           else if String.eqb (opt_data_type_str o) "uint8"%string then Some kUint8
           else if String.eqb (opt_data_type_str o) "int8"%string then Some kInt8
           else None) with
    | None => Some (inl (mkRun 1 [ErrDataType (opt_data_type_str o)] []))
    | Some disk_data_type =>
        match compute_graph_stats_from_disk_index (fs (opt_disk_index_file o))
                                                  disk_data_type with
        | None => None
        | Some s => Some (inr (mkSource s (opt_disk_index_file o) 0 false true
                                        disk_data_type))
        end
    end
  else if mode =? 1 then
    let path := opt_graph_file o in
    match compute_graph_stats_from_file (fs path) 0 with
    | None => None
    | Some s => Some (inr (mkSource s path 0 false false kFloat))
    end
  else
    let path := opt_index_file o in
    match open (fs path) with
    | None => Some (inl (mkRun 1 [ErrCouldNotOpen path] []))
    | Some in0 =>
        match read 40 in0 with
        | (None, _) => Some (inl (mkRun 1 [ErrMetadata path] []))
        | (Some meta, _) =>
            let meta0 := le_combine (slice meta 0 8) in
            let meta1 := le_combine (slice meta 8 8) in
            if negb (meta0 =? kMetadataSize) || (meta1 <=? meta0)
            then Some (inl (mkRun 1 [ErrNotSingleFile] []))
            else
              let offset := meta0 in
              match compute_graph_stats_from_file (fs path) offset with
              | None => None
              | Some s => Some (inr (mkSource s path offset true false kFloat))
              end
        end
    end.

(** [main] from the computation of [mode] on. [main] catches no exception:
    a run in which one leaves a sampler (an allocation that fails) ends in
    [std::terminate] after the summary, and is not among these outcomes. *)
Definition inspect (fs : string -> option (list byte)) (o : options) : option run :=
  let mode := (if empty (opt_graph_file o) then 0 else 1)
              + (if empty (opt_index_file o) then 0 else 2)
              + (if empty (opt_disk_index_file o) then 0 else 4) in
  if mode =? 0 then fail ErrProvideOne
  else if negb (mode =? 1) && negb (mode =? 2) && negb (mode =? 4) then fail ErrExactlyOne
  else if (mode =? 4) && empty (opt_data_type_str o) then fail ErrNeedsDataType
  else
    match read_source fs o mode with
    | None => None
    | Some (inl r) => Some r
    | Some (inr src) =>
        let s := src_stats src in
        let path := src_path src in
        let offset := src_offset src in
        let use_disk_index := src_use_disk_index src in
        if (total_nodes s =? 0) && negb use_disk_index && (0 <? offset)
        then fail (ErrReadGraph path offset)
        else if total_nodes s =? 0 then fail ErrNoNodes
        else if negb use_disk_index && negb (src_is_single_file src)
                && ((kMaxReasonableDegree <? degree_max s)
                    || (kMaxReasonableNodes <? total_nodes s))
        then fail ErrNotRawGraph
        else
          match
            (if 0 <? opt_adjacency_sample o
             then
               if use_disk_index
               then option_map (fun l => [BlankLine; AdjacencySample l])
                      (print_adjacency_sample_from_disk_index
                         (fs path) (src_disk_data_type src) (opt_adjacency_sample o)
                         (opt_max_neighbors_per_node o))
               else Some [BlankLine;
                          AdjacencySample
                            (print_adjacency_sample_from_file
                               (fs path) offset (opt_adjacency_sample o)
                               (opt_max_neighbors_per_node o))]
             else Some []),
            (if 0 <? opt_small_graph o
             then
               option_map (fun out => [BlankLine; SmallGraph out])
                 (if use_disk_index
                  then match print_small_graph_from_disk_index
                               (fs path) (src_disk_data_type src) (opt_small_graph o) with
                       | None => None
                       | Some r => small_graph_output (opt_max_neighbors_per_node o) r
                       end
                  else small_graph_output (opt_max_neighbors_per_node o)
                         (print_small_graph_from_file (fs path) offset
                                                      (opt_small_graph o)))
             else Some [])
          with
          | Some adjacency, Some small => Some (mkRun 0 [] (Summary s :: adjacency ++ small))
          | _, _ => None
          end
    end.

(** [main]: [argv[0]] is the name of the program. *)
Definition main (fs : string -> option (list byte)) (stoul : string -> option Z)
    (argv : list string) : option run :=
  match parse_args stoul (tail argv) default_options with
  | BadNumber option_name val => Some (mkRun 1 [ErrPositiveNumber option_name val] [])
  | Usage => Some (mkRun 0 [UsageText] [])
  | Parsed o => inspect fs o
  end.

(** A file system that holds the one file [bs] at [path]. *)
Definition one_file (path : string) (bs : list byte) : string -> option (list byte) :=
  fun p => if String.eqb p path then Some bs else None.

(** A [std::stoul] that knows the decimal strings of a few small numbers. *)
Definition small_stoul (s : string) : option Z :=
  if String.eqb s "0"%string then Some 0
  else if String.eqb s "2"%string then Some 2
  else if String.eqb s "3"%string then Some 3
  else if String.eqb s "10"%string then Some 10
  else None.

(** ** I/O context tagging (include/observability.h)

    The USDT probe macros expand to nothing unless [PIPANN_OBSERVABILITY]
    and [HAVE_SYS_SDT_H] are defined; the embedding takes that
    configuration, on Linux. A thread is the thread-local context and the
    name of the thread. *)

Inductive IoContext := SEARCH | PREFETCH | INSERT | COMPACTION | OTHER.

Record thread := mkThread {
  observability_io_context : IoContext;
  thread_name : string
}.

(** A thread that has not set a context: [ctx] starts as [OTHER]. *)
Definition new_thread (name : string) : thread := mkThread OTHER name.

(** [pthread_setname_np]: a name of more than 15 characters is refused
    ([ERANGE]) and the thread keeps its name. *)
Definition pthread_setname_np (name : string) (t : thread) : thread :=
  if (String.length name <=? 15)%nat
  then mkThread (observability_io_context t) name
  else t.

Definition set_io_context (ctx : IoContext) (t : thread) : thread :=
  let t1 := mkThread ctx (thread_name t) in
  let name :=
    match ctx with
    | SEARCH => "pa:search"%string
    | PREFETCH => "pa:prefetch"%string
    | INSERT => "pa:insert"%string
    | COMPACTION => "pa:compact"%string
    | OTHER => "pa:other"%string
    end in
  pthread_setname_np name t1.

Definition get_io_context (t : thread) : IoContext := observability_io_context t.

(** ** Writing a whole disk index *)

(** The body of a disk index: sector [s] holds the records of the nodes
    [s * rpp .. s * rpp + rpp - 1]. *)
Definition disk_body (coords len rpp : nat) (recs : list (list Z)) (n_sectors : nat)
  : list byte :=
  concat (map (fun s => disk_sector coords len (take rpp (drop (s * rpp) recs)))
              (seq 0 n_sectors)).

(** A disk index with a tagged header for the geometry [g], whose records
    start with [coords] bytes of coordinates. *)
Definition disk_index_file (npts_meta ndims_meta : Z) (g : geometry) (coords : nat)
    (recs : list (list Z)) : list byte :=
  tagged_header npts_meta ndims_meta g
  ++ disk_body coords (Z.to_nat (max_node_len g)) (Z.to_nat (nnodes_per_sector g))
               recs (Z.to_nat (pages_needed g)).

(** The geometry [g] describes the records [recs] for elements of [esz]
    bytes: the node count is their number, every record holds its
    coordinates, its degree and its neighbor ids, and the records of a sector
    fit into it. *)
Definition describes (g : geometry) (esz : Z) (recs : list (list Z)) : Prop :=
  disk_nnodes g = Z.of_nat (length recs)
  /\ 0 <= disk_ndims g /\ 0 <= medoid_id_on_file g < 2 ^ 64
  /\ 1 <= nnodes_per_sector g
  /\ disk_ndims g * esz + 4 <= max_node_len g
  /\ nnodes_per_sector g * max_node_len g <= 4096
  /\ Forall (fun r => disk_ndims g * esz + 4 + 4 * Z.of_nat (length r) <= max_node_len g)
            recs.

(** The geometry found at the start of a tagged header: the two tag fields
    together make the first field, and every geometry field takes the value
    of its predecessor. *)
Definition unshifted (npts_meta ndims_meta : Z) (g : geometry) : geometry :=
  mkGeometry (npts_meta + 2 ^ 32 * ndims_meta) (disk_nnodes g) (disk_ndims g)
             (medoid_id_on_file g) (max_node_len g).

(** ** Vocabulary of the sample: the nodes of a file, by id *)

(** The neighbor lists of the records that the sampler of a raw graph takes
    in, in the order of the file, which is the order of the node ids:
    starting at position [p] with the byte counter at [b], a record is taken
    while the counter differs from [expected] and the file holds its degree
    [k] and all of its [k] neighbor ids; [limit] bounds the number of
    records. *)
Fixpoint records_read (limit : nat) (bs : list byte) (expected p b : Z)
  : list (list Z) :=
  match limit with
  | O => []
  | S limit' =>
      if b =? expected then []
      else if Z.of_nat (length bs) <? p + 4 then []
      else
        let k := le_combine (slice bs p 4) in
        if Z.of_nat (length bs) <? p + 4 + k * 4 then []
        else decode_u32s (Z.to_nat k) (slice bs (p + 4) (k * 4))
             :: records_read limit' bs expected (p + 4 + k * 4)
                             (wrap64 (b + (4 + k * 4)))
  end.

(** The neighbor ids stored for node [i] in a disk index file with geometry
    [g]: the ids that follow the degree field, as many as the degree says,
    but no more than the page holds after them. *)
Definition neighbors_field (bs : list byte) (g : geometry) (esz : Z) (i : Z) : list Z :=
  let nbrs_at := (i mod nnodes_per_sector g) * max_node_len g + disk_ndims g * esz + 4 in
  let nnbrs := degree_field bs g esz i in
  let nbr_cap := if kSectorLen <? nbrs_at + nnbrs * 4
                 then (kSectorLen - nbrs_at) / 4
                 else nnbrs in
  decode_u32s (Z.to_nat nbr_cap)
              (slice bs (kDiskIndexDataOffset + (i / nnodes_per_sector g) * kSectorLen
                         + nbrs_at)
                     (nbr_cap * 4)).

(** The number of whole pages that a file holds after its header sector. *)
Definition body_pages (bs : list byte) : Z :=
  Z.max 0 ((Z.of_nat (length bs) - kDiskIndexDataOffset) / kSectorLen).

(** The pages that a sampler can read: as many as the geometry asks for
    ([n_sectors], computed in 64 bits as the source does), and no more than
    the file holds. *)
Definition pages_scanned (bs : list byte) (g : geometry) : Z :=
  Z.min (body_pages bs)
        (wrap64 (disk_nnodes g + nnodes_per_sector g - 1) / nnodes_per_sector g).

(** The [referenced_by] list of node [i] holds exactly the ids [j], each
    written as a [uint32_t], of the nodes of the sample whose out-neighbor
    list contains [i]. *)
Definition referenced_by_ids (g : small_graph) : Prop :=
  forall (i : nat) l x, sg_in_nbrs g !! i = Some l ->
    (In x l <->
     exists (j : nat) lj, sg_out_nbrs g !! j = Some lj
                          /\ x = wrap32 (Z.of_nat j) /\ In (Z.of_nat i) lj).

(** The sample [g] holds the nodes [0 .. length nodes - 1], node [i] with the
    out-neighbor list [nodes !! i], and the entry point [ep]; it has one
    [referenced_by] list for each of these nodes and none for any other id,
    and these lists hold the reverse edges among the nodes of the sample. *)
Definition holds_nodes (nodes : list (list Z)) (ep : Z) (g : small_graph) : Prop :=
  sg_num_nodes g = Z.of_nat (length nodes)
  /\ sg_entry_point g = ep
  /\ sg_out_nbrs g = nodes
  /\ length (sg_in_nbrs g) = length nodes
  /\ no_outside_target g
  /\ referenced_by_ids g
  /\ (sg_num_nodes g <= 2 ^ 32 -> reverse_edges_exact g).

(** Three nodes in records of 4096 bytes, announced as two per page: the
    degree field of the second slot of a page would lie beyond the page.
    Page 0 holds node 0 with the neighbor 2, page 1 holds node 2 with the
    neighbor 0. *)
Definition skipping_geometry : geometry := mkGeometry 3 0 0 4096 2.

Definition skipping_file : list byte :=
  untagged_header skipping_geometry
  ++ disk_sector 0 4096 [[2]] ++ disk_sector 0 4096 [[0]].

(** The sampler of the disk index has stored the nodes [0 .. k - 1] of the
    file, node [i] at position [i] of [out_nbrs]. *)
Definition stored_upto (bs : list byte) (g : geometry) (esz : Z) (N k : Z)
    (st : disk_sample_state) : Prop :=
  ds_nodes_read st = k
  /\ length (ds_out_nbrs st) = Z.to_nat N
  /\ forall i, 0 <= i < k ->
       ds_out_nbrs st !! Z.to_nat i = Some (neighbors_field bs g esz i).

(** The claim on reverse edges for a sample whose node at position [k] has
    the id [ids !! k]: the [referenced_by] list of the node with id [i]
    holds exactly the ids [j] of the nodes of the sample whose out-neighbor
    list contains [i]. *)
Definition referenced_by_node_ids (ids : list Z) (g : small_graph) : Prop :=
  forall (k : nat) i l x,
    ids !! k = Some i -> sg_in_nbrs g !! k = Some l ->
    (In x l <->
     exists (k' : nat) j lj,
       ids !! k' = Some j /\ sg_out_nbrs g !! k' = Some lj /\ x = j /\ In i lj).

(** ** The average degree as a double

    [s.degree_avg = static_cast<double>(total_edges) / static_cast<double>(s.total_nodes)]
    is computed in IEEE 754 binary64, the format of [double] on the
    platforms of the program: [spec_float] with a precision of 53 bits and
    [emax = 1024], rounding to nearest, ties to even. The field [degree_avg]
    of [GraphStats] keeps the exact quotient of the two operands;
    [degree_avg_double] is the double that the source stores. *)








(** * Properties *)

(** ** Machine integers *)

Lemma wrap64_small z : 0 <= z < 2 ^ 64 -> wrap64 z = z.
Proof. intros H. unfold wrap64. now apply Z.mod_small. Qed.

Lemma wrap32_small z : 0 <= z < 2 ^ 32 -> wrap32 z = z.
Proof. intros H. unfold wrap32. now apply Z.mod_small. Qed.

Lemma wrap64_range z : 0 <= wrap64 z < 2 ^ 64.
Proof. unfold wrap64. apply Z.mod_pos_bound. lia. Qed.

(** ** The aggregator *)

Section Aggregator.
Variable weak_threshold : Z.

Let step := acc_step weak_threshold.

Lemma fold_total_edges degs : forall a,
  Forall (fun d => 0 <= d) degs ->
  0 <= acc_total_edges a ->
  acc_total_edges a + zsum degs < 2 ^ 64 ->
  acc_total_edges (fold_left step degs a) = acc_total_edges a + zsum degs.
Proof.
  induction degs as [|d degs IH]; intros a Hpos Ha Hsum; simpl in *.
  - lia.
  - inversion Hpos as [|? ? Hd Hrest]; subst.
    assert (0 <= zsum degs).
    { clear -Hrest. induction Hrest; simpl; lia. }
    assert (Hw : wrap64 (acc_total_edges a + d) = acc_total_edges a + d)
      by (apply wrap64_small; lia).
    rewrite IH; simpl; rewrite ?Hw; auto; lia.
Qed.

Lemma fold_degree_min degs : forall a,
  acc_degree_min (fold_left step degs a) = fold_left Z.min degs (acc_degree_min a).
Proof.
  induction degs as [|d degs IH]; intros a; simpl; [reflexivity|].
  rewrite IH. simpl. f_equal.
  destruct (Z.ltb_spec d (acc_degree_min a)); lia.
Qed.

Lemma fold_degree_max degs : forall a,
  acc_degree_max (fold_left step degs a) = fold_left Z.max degs (acc_degree_max a).
Proof.
  induction degs as [|d degs IH]; intros a; simpl; [reflexivity|].
  rewrite IH. simpl. f_equal.
  destruct (Z.ltb_spec (acc_degree_max a) d); lia.
Qed.

Lemma fold_weak_count degs : forall a,
  0 <= acc_weak_count a ->
  acc_weak_count a + Z.of_nat (length degs) < 2 ^ 64 ->
  acc_weak_count (fold_left step degs a)
  = acc_weak_count a + weak_in weak_threshold degs.
Proof.
  unfold weak_in.
  induction degs as [|d degs IH]; intros a Ha Hlen; simpl in *; [lia|].
  rewrite IH; simpl.
  - destruct (d <? weak_threshold); simpl; [rewrite wrap64_small|]; lia.
  - destruct (d <? weak_threshold); [rewrite wrap64_small|]; lia.
  - destruct (d <? weak_threshold); [rewrite wrap64_small|]; lia.
Qed.
End Aggregator.

Lemma fold_min_le degs : forall m d,
  In d (m :: degs) -> fold_left Z.min degs m <= d.
Proof.
  induction degs as [|x degs IH]; intros m d Hin; simpl in *.
  - destruct Hin as [<-|[]]. lia.
  - destruct Hin as [<-|[<-|Hin]].
    + transitivity (Z.min m x); [apply IH; now left | lia].
    + transitivity (Z.min m x); [apply IH; now left | lia].
    + apply IH. now right.
Qed.

Lemma fold_min_in degs : forall m, In (fold_left Z.min degs m) (m :: degs).
Proof.
  induction degs as [|x degs IH]; intros m; simpl; [now left|].
  destruct (IH (Z.min m x)) as [H|H].
  - rewrite <- H. destruct (Z.min_spec m x) as [[_ ->]|[_ ->]]; auto.
  - auto.
Qed.

Lemma fold_max_ge degs : forall m d,
  In d (m :: degs) -> d <= fold_left Z.max degs m.
Proof.
  induction degs as [|x degs IH]; intros m d Hin; simpl in *.
  - destruct Hin as [<-|[]]. lia.
  - destruct Hin as [<-|[<-|Hin]].
    + transitivity (Z.max m x); [lia | apply IH; now left].
    + transitivity (Z.max m x); [lia | apply IH; now left].
    + apply IH. now right.
Qed.

Lemma fold_max_in degs : forall m, In (fold_left Z.max degs m) (m :: degs).
Proof.
  induction degs as [|x degs IH]; intros m; simpl; [now left|].
  destruct (IH (Z.max m x)) as [H|H].
  - rewrite <- H. destruct (Z.max_spec m x) as [[_ ->]|[_ ->]]; auto.
  - auto.
Qed.

Lemma zsum_nonneg l : Forall (fun d => 0 <= d) l -> 0 <= zsum l.
Proof. induction 1; simpl; lia. Qed.



Lemma zsum_bounds l lo hi :
  (forall d, In d l -> lo <= d <= hi) ->
  lo * Z.of_nat (length l) <= zsum l <= hi * Z.of_nat (length l).
Proof.
  induction l as [|x l IH]; intros H.
  - simpl. lia.
  - assert (lo <= x <= hi) by (apply H; now left).
    assert (lo * Z.of_nat (length l) <= zsum l <= hi * Z.of_nat (length l))
      by (apply IH; intros; apply H; now right).
    cbn [length zsum fold_right]. fold (zsum l). lia.
Qed.

(** The exact average lies between the smallest and the largest degree. *)
Lemma quotient_between lo hi total n :
  0 < n -> lo * n <= total <= hi * n ->
  (inject_Z lo <= quotient total n <= inject_Z hi)%Q.
Proof.
  intros Hn [Hlo Hhi]. unfold quotient.
  assert (Hq : (0 < inject_Z n)%Q) by (unfold Qlt; simpl; lia).
  split.
  - apply Qle_shift_div_l; [exact Hq|].
    rewrite <- inject_Z_mult, <- Zle_Qle. assumption.
  - apply Qle_shift_div_r; [exact Hq|].
    rewrite <- inject_Z_mult, <- Zle_Qle. assumption.
Qed.

(** ** compute_graph_stats *)

Lemma stats_loop_in_bounds graph thr : forall cnt i a t,
  0 <= i -> (Z.to_nat i + cnt <= length graph)%nat ->
  stats_loop graph thr cnt i a t
  = (Some (fold_left (acc_step thr)
                     (degrees (take cnt (drop (Z.to_nat i) graph))) a),
     t ++ map Z.of_nat (seq (Z.to_nat i) cnt)).
Proof.
  induction cnt as [|cnt IH]; intros i a t Hi Hlen; simpl.
  - now rewrite app_nil_r.
  - destruct (lookup_lt_is_Some_2 graph (Z.to_nat i)) as [nbrs Hnbrs]; [lia|].
    rewrite Hnbrs. rewrite IH by lia.
    replace (Z.to_nat (i + 1)) with (S (Z.to_nat i)) by lia.
    rewrite (drop_S _ _ _ Hnbrs). simpl.
    rewrite <- app_assoc. simpl. rewrite Z2Nat.id by lia. reflexivity.
Qed.

Lemma stats_loop_out_of_range graph thr : forall cnt i a t,
  0 <= i -> (Z.to_nat i <= length graph < Z.to_nat i + cnt)%nat ->
  fst (stats_loop graph thr cnt i a t) = None.
Proof.
  induction cnt as [|cnt IH]; intros i a t Hi Hlen; simpl.
  - lia.
  - destruct (graph !! Z.to_nat i) as [nbrs|] eqn:Hnbrs; [|reflexivity].
    apply lookup_lt_Some in Hnbrs. apply IH; lia.
Qed.

Lemma iota_seq n : iota n = map Z.of_nat (seq 0 (Z.to_nat n)).
Proof. reflexivity. Qed.

Lemma iota_bounded n : Forall (fun i => 0 <= i < n) (iota n).
Proof.
  unfold iota. apply Forall_map. apply Forall_forall. intros i Hi.
  apply list_elem_of_In, in_seq in Hi. simpl. lia.
Qed.



(** The result of the in-memory function when every subscript is in range. *)
Lemma compute_graph_stats_touched_in_range graph nd fz ep thr :
  0 <= nd -> 0 <= fz -> 0 < nd + fz <= Z.of_nat (length graph) ->
  Z.of_nat (length graph) < 2 ^ 64 ->
  let a := aggregate thr (degrees (take (Z.to_nat (nd + fz)) graph)) in
  compute_graph_stats_touched graph nd fz ep thr
  = (Some {| total_nodes := nd + fz;
             active_nodes := nd;
             frozen_nodes := fz;
             total_edges := acc_total_edges a;
             degree_min := min_or_zero (acc_degree_min a);
             degree_avg := quotient (acc_total_edges a) (nd + fz);
             degree_max := acc_degree_max a;
             weak_count := acc_weak_count a;
             entry_point := ep |}, iota (nd + fz)).
Proof.
  intros Hnd Hfz Hn Hlen a. unfold compute_graph_stats_touched.
  rewrite (wrap64_small (nd + fz)) by lia.
  destruct (Z.eqb_spec (nd + fz) 0) as [E|_]; [lia|].
  rewrite stats_loop_in_bounds by (simpl; lia).
  simpl (Z.to_nat 0). rewrite drop_0. reflexivity.
Qed.


(** C9: [compute_graph_stats] subscripts [graph] at the indices
    [0 .. nd + num_frozen_pts - 1], each once and in this order, and at no
    other; when the vector holds at least [nd + num_frozen_pts] lists, every
    one of these indices is in range and the function returns. *)
Theorem compute_graph_stats_subscripts graph nd num_frozen_pts ep weak_threshold :
  0 <= nd -> 0 <= num_frozen_pts ->
  nd + num_frozen_pts <= Z.of_nat (length graph) ->
  Z.of_nat (length graph) < 2 ^ 64 ->
  exists s,
    compute_graph_stats_touched graph nd num_frozen_pts ep weak_threshold
    = (Some s, iota (nd + num_frozen_pts)) /\
    Forall (fun i => 0 <= i < Z.of_nat (length graph)) (iota (nd + num_frozen_pts)).
Proof.
  intros Hnd Hfz Hn Hlen.
  assert (Hb : Forall (fun i => 0 <= i < Z.of_nat (length graph))
                      (iota (nd + num_frozen_pts))).
  { pose proof (iota_bounded (nd + num_frozen_pts)) as Hb0.
    rewrite Forall_forall in *. intros i Hi. specialize (Hb0 i Hi). simpl in *. lia. }
  destruct (Z.eq_dec (nd + num_frozen_pts) 0) as [E|NE].
  - eexists. split; [|exact Hb].
    unfold compute_graph_stats_touched. rewrite E. reflexivity.
  - eexists. split; [|exact Hb].
    apply compute_graph_stats_touched_in_range; lia.
Qed.

Lemma compute_graph_stats_subscripts_witness :
  (0 <= 4 /\ 0 <= 1 /\ 4 + 1 <= Z.of_nat (length five_node_graph) /\
   Z.of_nat (length five_node_graph) < 2 ^ 64) /\
  exists s,
    compute_graph_stats_touched five_node_graph 4 1 0 2 = (Some s, [0; 1; 2; 3; 4]).
Proof.
  assert (H : 0 <= 4 /\ 0 <= 1 /\ 4 + 1 <= Z.of_nat (length five_node_graph) /\
              Z.of_nat (length five_node_graph) < 2 ^ 64).
  { vm_compute. intuition discriminate. }
  split; [exact H|].
  destruct H as (H1 & H2 & H3 & H4).
  destruct (compute_graph_stats_subscripts five_node_graph 4 1 0 2 H1 H2 H3 H4)
    as (s & Hs & _).
  exists s. exact Hs.
Defined.

(** Without that many lists the function subscripts out of range. *)
Lemma compute_graph_stats_needs_lists graph nd num_frozen_pts ep weak_threshold :
  0 <= nd -> 0 <= num_frozen_pts ->
  Z.of_nat (length graph) < nd + num_frozen_pts < 2 ^ 64 ->
  compute_graph_stats graph nd num_frozen_pts ep weak_threshold = None.
Proof.
  intros Hnd Hfz Hn. unfold compute_graph_stats, compute_graph_stats_touched.
  rewrite wrap64_small by lia.
  destruct (Z.eqb_spec (nd + num_frozen_pts) 0) as [E|_]; [lia|].
  pose proof (stats_loop_out_of_range graph weak_threshold
                (Z.to_nat (nd + num_frozen_pts)) 0 acc_init []) as H.
  destruct (stats_loop _ _ _ _ _ _) as [[a|] t]; [|reflexivity].
  simpl in H. discriminate H; lia.
Qed.

(** ** The binary cursor *)

Lemma le_combine_nonneg bs : 0 <= le_combine bs.
Proof. apply le_combine_bound. Qed.

Lemma length_slice bs off n :
  0 <= off -> 0 <= n -> off + n <= Z.of_nat (length bs) ->
  Z.of_nat (length (slice bs off n)) = n.
Proof.
  intros Hoff Hn Hlen. unfold slice. rewrite length_take, length_drop. lia.
Qed.

Lemma slice_app_middle pre x post :
  slice (pre ++ x ++ post) (Z.of_nat (length pre)) (Z.of_nat (length x)) = x.
Proof.
  unfold slice. rewrite !Nat2Z.id.
  rewrite drop_app_length. apply take_app_length.
Qed.

Lemma read_good n ins :
  is_good ins = true -> gpos ins + n <= stream_size ins ->
  read n ins = (Some (slice (content ins) (gpos ins) n),
                mkStream (content ins) (gpos ins + n) true).
Proof.
  intros Hg Hn. unfold read. rewrite Hg. simpl.
  destruct (Z.leb_spec (gpos ins + n) (stream_size ins)); [reflexivity | lia].
Qed.

Lemma read_short n ins :
  is_good ins = true -> stream_size ins < gpos ins + n ->
  read n ins = (None, mkStream (content ins) (Z.max (gpos ins) (stream_size ins)) false).
Proof.
  intros Hg Hn. unfold read. rewrite Hg. simpl.
  destruct (Z.leb_spec (gpos ins + n) (stream_size ins)); [lia | reflexivity].
Qed.

Lemma read_failed n ins : is_good ins = false -> read n ins = (None, ins).
Proof. intros Hg. unfold read. now rewrite Hg. Qed.

Lemma read_uint_good n old ins :
  is_good ins = true -> gpos ins + n <= stream_size ins ->
  read_uint n old ins = (le_combine (slice (content ins) (gpos ins) n),
                         mkStream (content ins) (gpos ins + n) true).
Proof. intros Hg Hn. unfold read_uint. now rewrite read_good. Qed.

Lemma read_uint_not_good n old ins :
  is_good ins = false \/ stream_size ins < gpos ins + n ->
  is_good (snd (read_uint n old ins)) = false /\ fst (read_uint n old ins) = old.
Proof.
  intros H. unfold read_uint. destruct (is_good ins) eqn:Hg.
  - destruct H as [H|H]; [discriminate|]. now rewrite read_short.
  - now rewrite read_failed.
Qed.

Lemma read_uint_state n old ins :
  is_good (snd (read_uint n old ins))
  = is_good ins && (gpos ins + n <=? stream_size ins).
Proof.
  destruct (is_good ins) eqn:Hg; simpl.
  - destruct (Z.leb_spec (gpos ins + n) (stream_size ins)).
    + now rewrite read_uint_good.
    + now apply read_uint_not_good; right.
  - now apply read_uint_not_good; left.
Qed.

Lemma read_uint_content n old ins : content (snd (read_uint n old ins)) = content ins.
Proof.
  unfold read_uint, read.
  destruct (is_good ins); simpl; [|reflexivity].
  destruct (gpos ins + n <=? stream_size ins); reflexivity.
Qed.

Lemma seek_to_content np ins : content (seek_to np ins) = content ins.
Proof.
  unfold seek_to. destruct (is_good ins); simpl; [|reflexivity].
  destruct ((0 <=? np) && (np <? 2 ^ 63)); reflexivity.
Qed.

Lemma seek_to_good np ins :
  is_good ins = true -> 0 <= np < 2 ^ 63 ->
  seek_to np ins = mkStream (content ins) np true.
Proof.
  intros Hg Hnp. unfold seek_to. rewrite Hg. simpl.
  destruct (Z.leb_spec 0 np); [|lia].
  destruct (Z.ltb_spec np (2 ^ 63)); [reflexivity | lia].
Qed.

Lemma seek_to_result np ins :
  is_good (seek_to np ins) = true -> seek_to np ins = mkStream (content ins) np true.
Proof.
  unfold seek_to. destruct (is_good ins) eqn:Hg; simpl.
  - destruct ((0 <=? np) && (np <? 2 ^ 63)); simpl; [reflexivity | discriminate].
  - congruence.
Qed.

(** ** The scanning loop of compute_graph_stats_from_file *)

(** What one pass of the loop does when it runs to its end. *)
Lemma scan_step_continues E st st' :
  scan_step E st = inl st' ->
  let ins := sc_in st in
  let k := le_combine (slice (content ins) (gpos ins) 4) in
  is_good ins = true /\ sc_bytes_read st <> E /\
  gpos ins + 4 <= stream_size ins /\
  st' = mkScan (mkStream (content ins) (gpos ins + 4 + k * 4) true)
               (wrap64 (sc_bytes_read st + (4 + k * 4)))
               (acc_step 2 (sc_acc st) k)
               (wrap64 (sc_nodes st + 1))
               (sc_seen st ++ [(gpos ins, k)]).
Proof.
  intros H ins k. unfold scan_step in H.
  destruct (Z.eqb_spec (sc_bytes_read st) E) as [E1|NE]; simpl in H; [discriminate|].
  destruct (is_good (sc_in st)) eqn:Hg; simpl in H; [|discriminate].
  destruct (Z.leb_spec (gpos ins + 4) (stream_size ins)) as [Hle|Hgt].
  - fold ins in H. rewrite (read_uint_good 4 0 ins Hg Hle) in H. simpl in H.
    fold k in H.
    unfold seekg_cur in H. cbn [gpos] in H.
    destruct (is_good (seek_to _ _)) eqn:Hg2; simpl in H; [|discriminate].
    apply seek_to_result in Hg2. cbn [content] in Hg2.
    rewrite Hg2 in H. injection H as <-. repeat split; auto.
  - pose proof (read_uint_not_good 4 0 ins (or_intror Hgt)) as [Hng _].
    fold ins in H. destruct (read_uint 4 0 ins) as [k' in1]. simpl in Hng.
    rewrite Hng in H. discriminate.
Qed.

Lemma scan_step_progress E st st' :
  scan_step E st = inl st' -> (bytes_left st' < bytes_left st)%nat.
Proof.
  intros H. apply scan_step_continues in H. cbv zeta in H.
  destruct H as (Hg & _ & Hle & ->). unfold bytes_left, stream_size in *. simpl.
  pose proof (le_combine_nonneg (slice (content (sc_in st)) (gpos (sc_in st)) 4)).
  lia.
Qed.

Lemma scan_loop_terminates E : forall fuel st,
  (bytes_left st < fuel)%nat -> exists st', scan_loop fuel E st = Some st'.
Proof.
  induction fuel as [|fuel IH]; intros st Hfuel; [lia|].
  simpl. destruct (scan_step E st) as [st1|st1] eqn:Hstep.
  - apply IH. apply scan_step_progress in Hstep. lia.
  - now exists st1.
Qed.

Lemma scan_loop_more_fuel E extra : forall fuel st st',
  scan_loop fuel E st = Some st' -> scan_loop (fuel + extra) E st = Some st'.
Proof.
  induction fuel as [|fuel IH]; intros st st' H; [discriminate|].
  simpl in *. destruct (scan_step E st) as [st1|st1]; auto.
Qed.

Lemma bytes_left_bound st :
  0 <= gpos (sc_in st) -> (bytes_left st <= length (content (sc_in st)))%nat.
Proof. unfold bytes_left, stream_size. lia. Qed.

(** ** compute_graph_stats_from_file: header and termination *)

Lemma scan_file_header fuel bs offset :
  scan_file fuel (Some bs) offset
  = if header_readable bs offset
    then match scan_loop fuel (header_expected bs (as_streamoff offset))
                         (scan_start bs (as_streamoff offset)) with
         | None => None
         | Some st => Some (inr (header_ep bs (as_streamoff offset),
                                 header_frozen bs (as_streamoff offset), st))
         end
    else Some (inl default_stats).
Proof.
  unfold scan_file, header_readable, open, seekg_beg.
  set (o := as_streamoff offset).
  set (in0 := mkStream bs 0 true).
  destruct ((0 <=? o) && (o <? 2 ^ 63)) eqn:Hseek.
  - assert (Ho : 0 <= o < 2 ^ 63) by lia.
    rewrite (seek_to_good o in0 eq_refl Ho). cbn [is_good negb content in0].
    destruct (Z.leb_spec (o + 24) (Z.of_nat (length bs))) as [Hle|Hgt]; cbn [andb].
    + rewrite read_uint_good by (unfold stream_size; simpl; auto; lia).
      cbn [content gpos].
      rewrite read_uint_good by (unfold stream_size; simpl; auto; lia).
      cbn [content gpos].
      rewrite read_uint_good by (unfold stream_size; simpl; auto; lia).
      cbn [content gpos].
      rewrite read_uint_good by (unfold stream_size; simpl; auto; lia).
      cbn [content gpos is_good negb].
      unfold header_expected, header_ep, header_frozen, scan_start.
      replace (o + 8 + 4 + 4 + 8) with (o + 24) by lia.
      replace (o + 8 + 4) with (o + 12) by lia.
      replace (o + 12 + 4) with (o + 16) by lia.
      reflexivity.
    + set (in1 := mkStream bs o true).
      destruct (read_uint 8 0 in1) as [e in2] eqn:R1.
      destruct (read_uint 4 0 in2) as [w in3] eqn:R2.
      destruct (read_uint 4 0 in3) as [ep in4] eqn:R3.
      destruct (read_uint 8 0 in4) as [fz in5] eqn:R4.
      assert (Hbad : is_good in5 = false); [|now rewrite Hbad].
      pose proof (read_uint_state 8 0 in1) as S1. rewrite R1 in S1.
      pose proof (read_uint_state 4 0 in2) as S2. rewrite R2 in S2.
      pose proof (read_uint_state 4 0 in3) as S3. rewrite R3 in S3.
      pose proof (read_uint_state 8 0 in4) as S4. rewrite R4 in S4.
      cbn [snd] in *.
      destruct (is_good in4) eqn:G4; [|now rewrite S4].
      destruct (is_good in3) eqn:G3; [|now rewrite S3 in G4].
      destruct (is_good in2) eqn:G2; [|now rewrite S2 in G3].
      symmetry in S1, S2, S3.
      apply andb_true_iff in S1 as [_ S1]. apply Z.leb_le in S1.
      assert (P1 : in2 = mkStream bs (o + 8) true).
      { rewrite read_uint_good in R1; [now inversion R1 | reflexivity | exact S1]. }
      subst in2.
      apply andb_true_iff in S2 as [_ S2]. apply Z.leb_le in S2.
      assert (P2 : in3 = mkStream bs (o + 8 + 4) true).
      { rewrite read_uint_good in R2; [now inversion R2 | reflexivity | exact S2]. }
      subst in3.
      apply andb_true_iff in S3 as [_ S3]. apply Z.leb_le in S3.
      assert (P3 : in4 = mkStream bs (o + 8 + 4 + 4) true).
      { rewrite read_uint_good in R3; [now inversion R3 | reflexivity | exact S3]. }
      subst in4. rewrite S4. unfold stream_size. cbn. lia.
  - assert (Hbad : is_good (seek_to o in0) = false).
    { unfold seek_to. cbn [is_good in0 negb]. now rewrite Hseek. }
    rewrite Hbad. reflexivity.
Qed.

Lemma scan_start_terminates bs o E :
  0 <= o -> exists st, scan_loop (S (length bs)) E (scan_start bs o) = Some st.
Proof.
  intros Ho. apply scan_loop_terminates.
  unfold bytes_left, scan_start, stream_size. simpl. lia.
Qed.

Lemma header_readable_offset bs offset :
  header_readable bs offset = true ->
  0 <= as_streamoff offset /\ as_streamoff offset + 24 <= Z.of_nat (length bs).
Proof. unfold header_readable. lia. Qed.

(** The loop is left either before a pass starts or with a failed stream. *)
Lemma scan_step_leaves E st st' :
  scan_step E st = inr st' -> st' = st \/ is_good (sc_in st') = false.
Proof.
  unfold scan_step. intros H.
  destruct (negb (negb (sc_bytes_read st =? E) && is_good (sc_in st)));
    [left; congruence|].
  destruct (read_uint 4 0 (sc_in st)) as [k in1].
  destruct (is_good in1) eqn:G1; cbn [negb] in H.
  - destruct (is_good (seekg_cur (k * 4) in1)) eqn:G2; cbn [negb] in H;
      [discriminate|].
    injection H as <-. right. exact G2.
  - injection H as <-. right. exact G1.
Qed.

(** The scanner returns, and passes beyond [scan_fuel] are never used. *)
Lemma compute_graph_stats_from_file_returns file offset :
  exists r, forall extra,
    compute_graph_stats_from_file_fuel (scan_fuel file + extra) file offset = Some r.
Proof.
  unfold compute_graph_stats_from_file_fuel.
  destruct file as [bs|]; [|eexists; intros; reflexivity].
  destruct (header_readable bs offset) eqn:Hh.
  - destruct (header_readable_offset _ _ Hh) as [Ho _].
    destruct (scan_start_terminates bs (as_streamoff offset)
                (header_expected bs (as_streamoff offset)) Ho) as [st Hst].
    eexists. intros extra. rewrite scan_file_header, Hh.
    cbn [scan_fuel]. rewrite (scan_loop_more_fuel _ extra _ _ _ Hst). reflexivity.
  - eexists. intros extra. rewrite scan_file_header, Hh. reflexivity.
Qed.

(** C10: [compute_graph_stats_from_file] returns on every file and every
    offset, whatever the header holds, and more passes than [scan_fuel] change
    nothing; a pass of its loop either runs to its end and leaves the stream
    good and at least four bytes further, or leaves the loop with the stream
    failed (or is not started, the loop condition being false); and a byte
    counter that is already past [expected_file_size] does not end the loop:
    the pass still reads the next degree. *)
Theorem compute_graph_stats_from_file_terminates file offset :
  (exists r, forall extra,
      compute_graph_stats_from_file_fuel (scan_fuel file + extra) file offset = Some r)
  /\ (forall E st,
        match scan_step E st with
        | inl st' => is_good (sc_in st') = true
                     /\ gpos (sc_in st) + 4 <= gpos (sc_in st')
        | inr st' => st' = st \/ is_good (sc_in st') = false
        end)
  /\ (forall E st,
        if (E <? sc_bytes_read st) && is_good (sc_in st)
           && (gpos (sc_in st) + 4 <=? stream_size (sc_in st))
        then match scan_step E st with
             | inl st' | inr st' => sc_nodes st' = wrap64 (sc_nodes st + 1)
             end
        else True).
Proof.
  split; [|split].
  - apply compute_graph_stats_from_file_returns.
  - intros E st. destruct (scan_step E st) as [st'|st'] eqn:Hstep.
    + apply scan_step_continues in Hstep. cbv zeta in Hstep.
      destruct Hstep as (_ & _ & _ & ->). cbn.
      pose proof (le_combine_nonneg (slice (content (sc_in st)) (gpos (sc_in st)) 4)).
      split; [reflexivity | lia].
    + apply scan_step_leaves in Hstep. exact Hstep.
  - intros E st.
    destruct (Z.ltb_spec E (sc_bytes_read st)) as [Hlt|]; cbn [andb]; [|exact I].
    destruct (is_good (sc_in st)) eqn:Hg; cbn [andb]; [|exact I].
    destruct (Z.leb_spec (gpos (sc_in st) + 4) (stream_size (sc_in st))) as [Hle|];
      [|exact I].
    unfold scan_step. rewrite Hg.
    destruct (Z.eqb_spec (sc_bytes_read st) E) as [Heq|_]; [lia|]. cbn [negb andb].
    rewrite (read_uint_good 4 0 _ Hg Hle). cbn [is_good negb].
    destruct (is_good (seekg_cur _ _)); reflexivity.
Qed.

(** The overshoot at work: the header announces 30 bytes, the counter takes
    the values 24, 32, 36 and 48, and all three records are counted. *)
Example overshoot_keeps_scanning :
  option_map total_nodes (compute_graph_stats_from_file (Some overshoot_file) 0) = Some 3
  /\ map fst (degrees_read (Some overshoot_file) 0) = [24; 32; 36].
Proof. split; vm_compute; reflexivity. Qed.

(** ** compute_graph_stats_from_file: the records it reads *)

Lemma le32_range bs p : 0 <= le_combine (slice bs p 4) < 2 ^ 32.
Proof.
  pose proof (le_combine_bound (slice bs p 4)) as [H0 H1]. split; [exact H0|].
  eapply Z.lt_le_trans; [exact H1|].
  apply Z.pow_le_mono_r; [lia|].
  unfold slice. rewrite length_take. lia.
Qed.

Lemma scan_step_cases E st :
  is_good (sc_in st) = true -> 0 <= gpos (sc_in st) ->
  let ins := sc_in st in
  let p := gpos ins in
  let k := le_combine (slice (content ins) p 4) in
  scan_step E st
  = if sc_bytes_read st =? E then inr st
    else if stream_size ins <? p + 4
         then inr (mkScan (mkStream (content ins) (Z.max p (stream_size ins)) false)
                          (sc_bytes_read st) (sc_acc st) (sc_nodes st) (sc_seen st))
    else if 2 ^ 63 <=? p + 4 + k * 4
         then inr (mkScan (mkStream (content ins) (p + 4) false)
                          (sc_bytes_read st) (acc_step 2 (sc_acc st) k)
                          (wrap64 (sc_nodes st + 1)) (sc_seen st ++ [(p, k)]))
         else inl (mkScan (mkStream (content ins) (p + 4 + k * 4) true)
                          (wrap64 (sc_bytes_read st + (4 + k * 4)))
                          (acc_step 2 (sc_acc st) k)
                          (wrap64 (sc_nodes st + 1)) (sc_seen st ++ [(p, k)])).
Proof.
  intros Hg Hp. cbv zeta. unfold scan_step. rewrite Hg.
  set (ins := sc_in st) in *. set (p := gpos ins) in *.
  destruct (Z.eqb_spec (sc_bytes_read st) E) as [_|_]; cbn [negb andb]; [reflexivity|].
  destruct (Z.ltb_spec (stream_size ins) (p + 4)) as [Hshort|Hfits].
  - unfold read_uint. rewrite (read_short 4 ins Hg Hshort). reflexivity.
  - rewrite (read_uint_good 4 0 ins Hg Hfits). cbn [is_good negb]. fold p.
    set (k := le_combine (slice (content ins) p 4)).
    unfold seekg_cur. cbn [gpos].
    pose proof (le32_range (content ins) p) as Hk. fold k in Hk.
    destruct (Z.leb_spec (2 ^ 63) (p + 4 + k * 4)) as [Hbig|Hok].
    + unfold seek_to. cbn [is_good negb content gpos].
      destruct (Z.ltb_spec (p + 4 + k * 4) (2 ^ 63)); [lia|].
      rewrite andb_false_r. reflexivity.
    + rewrite seek_to_good by (cbn; auto; lia). reflexivity.
Qed.

Lemma wrap64_succ_add n m : wrap64 (wrap64 (n + 1) + m) = wrap64 (n + (1 + m)).
Proof.
  unfold wrap64. rewrite Zplus_mod_idemp_l. f_equal. lia.
Qed.

(** The loop reads exactly the records of [records_until] and aggregates
    their degrees. *)
Lemma scan_loop_records E : forall fuel st st',
  is_good (sc_in st) = true -> 0 <= gpos (sc_in st) ->
  0 <= sc_nodes st < 2 ^ 64 ->
  scan_loop fuel E st = Some st' ->
  let rs := records_until fuel (content (sc_in st)) E
                          (gpos (sc_in st)) (sc_bytes_read st) in
  sc_seen st' = sc_seen st ++ rs /\
  sc_acc st' = fold_left (acc_step 2) (map snd rs) (sc_acc st) /\
  sc_nodes st' = wrap64 (sc_nodes st + Z.of_nat (length rs)).
Proof.
  induction fuel as [|fuel IH]; intros st st' Hg Hp Hn Hloop; [discriminate|].
  cbn [scan_loop records_until] in *.
  rewrite (scan_step_cases E st Hg Hp) in Hloop. cbv zeta in Hloop.
  fold (stream_size (sc_in st)). cbv zeta.
  set (p := gpos (sc_in st)) in *.
  set (k := le_combine (slice (content (sc_in st)) p 4)) in *.
  destruct (sc_bytes_read st =? E).
  { injection Hloop as <-. cbn. rewrite app_nil_r, Z.add_0_r, wrap64_small by lia. auto. }
  destruct (stream_size (sc_in st) <? p + 4).
  { injection Hloop as <-. cbn. rewrite app_nil_r, Z.add_0_r, wrap64_small by lia. auto. }
  destruct (Z.leb_spec (2 ^ 63) (p + 4 + k * 4)) as [Hbig|Hok].
  { injection Hloop as <-. cbn. auto. }
  pose proof (le32_range (content (sc_in st)) p) as Hk. fold k in Hk.
  apply IH in Hloop; cbn [sc_in sc_seen sc_acc sc_nodes sc_bytes_read
                          content gpos is_good] in *;
    [|reflexivity|lia|apply wrap64_range].
  destruct Hloop as (Hseen & Hacc & Hnodes).
  rewrite Hseen, Hacc, Hnodes. cbn [map snd fold_left length].
  rewrite <- app_assoc. cbn [app].
  rewrite wrap64_succ_add. repeat split. f_equal. lia.
Qed.

Lemma records_until_degrees limit bs E : forall p b,
  Forall (fun k => 0 <= k < 2 ^ 32) (map snd (records_until limit bs E p b)).
Proof.
  induction limit as [|limit IH]; intros p b; cbn [records_until]; [constructor|].
  destruct (b =? E); [constructor|].
  destruct (Z.of_nat (length bs) <? p + 4); [constructor|].
  cbn [map snd]. constructor; [apply le32_range|].
  destruct (2 ^ 63 <=? _); [constructor | apply IH].
Qed.

Lemma records_until_weight limit bs E : forall p b,
  let rs := records_until limit bs E p b in
  rs = [] \/
  (p + 4 <= Z.of_nat (length bs) /\
   4 * zsum (map snd rs) + 4 * Z.of_nat (length rs)
   <= Z.of_nat (length bs) - p + 2 ^ 34).
Proof.
  induction limit as [|limit IH]; intros p b; cbn [records_until]; [now left|].
  destruct (b =? E); [now left|].
  destruct (Z.ltb_spec (Z.of_nat (length bs)) (p + 4)) as [|Hfits]; [now left|].
  right. split; [lia|].
  pose proof (le32_range bs p) as Hk.
  set (k := le_combine (slice bs p 4)) in *.
  unfold zsum in *. cbn [map snd fold_right length].
  destruct (2 ^ 63 <=? p + 4 + k * 4).
  - cbn. lia.
  - destruct (IH (p + 4 + k * 4) (wrap64 (b + (4 + k * 4)))) as [Hnil|[Hp Hw]].
    + rewrite Hnil. cbn. lia.
    + cbv zeta in Hw. lia.
Qed.

Lemma zmin_aggregate thr degs :
  Forall (fun d => 0 <= d < SIZE_MAX) degs ->
  min_or_zero (acc_degree_min (aggregate thr degs)) = zmin degs.
Proof.
  intros H. unfold aggregate. rewrite fold_degree_min. cbn [acc_degree_min acc_init].
  destruct degs as [|d degs]; [reflexivity|].
  cbn [fold_left zmin]. inversion H as [|? ? Hd Hrest]; subst.
  replace (Z.min SIZE_MAX d) with d by lia.
  unfold min_or_zero.
  pose proof (fold_min_le degs d d (or_introl eq_refl)).
  destruct (Z.eqb_spec (fold_left Z.min degs d) SIZE_MAX); [lia | reflexivity].
Qed.

(** The aggregator in closed form, when nothing wraps. *)
Lemma aggregate_closed_form degs ep frozen :
  Forall (fun d => 0 <= d < 2 ^ 32) degs ->
  zsum degs < 2 ^ 64 -> Z.of_nat (length degs) < 2 ^ 64 ->
  let a := aggregate 2 degs in
  let n := Z.of_nat (length degs) in
  {| total_nodes := n;
     active_nodes := if frozen <=? n then n - frozen else 0;
     frozen_nodes := frozen;
     total_edges := acc_total_edges a;
     degree_min := min_or_zero (acc_degree_min a);
     degree_avg := if 0 <? n then quotient (acc_total_edges a) n else 0%Q;
     degree_max := acc_degree_max a;
     weak_count := acc_weak_count a;
     entry_point := ep |}
  = stats_over degs ep frozen.
Proof.
  intros Hd Hsum Hlen a n. unfold stats_over. fold n.
  assert (Hpos : Forall (fun d => 0 <= d) degs).
  { rewrite Forall_forall in *. intros d Hin. specialize (Hd d Hin). simpl in Hd. lia. }
  assert (He : acc_total_edges a = zsum degs).
  { unfold a, aggregate. rewrite fold_total_edges; cbn; auto; lia. }
  assert (Hm : min_or_zero (acc_degree_min a) = zmin degs).
  { apply zmin_aggregate. rewrite Forall_forall in *. intros d Hin.
    specialize (Hd d Hin). simpl in Hd. unfold SIZE_MAX. lia. }
  assert (Hx : acc_degree_max a = zmax degs).
  { unfold a, aggregate. now rewrite fold_degree_max. }
  assert (Hw : acc_weak_count a = weak_in 2 degs).
  { unfold a, aggregate. rewrite fold_weak_count; cbn; lia. }
  now rewrite He, Hm, Hx, Hw.
Qed.

(** What the scanner returns on a file whose header can be read. *)
Lemma compute_graph_stats_from_file_records bs offset :
  header_readable bs offset = true -> file_size_ok bs ->
  let o := as_streamoff offset in
  let rs := records_until (S (length bs)) bs (header_expected bs o)
                          (o + 24) kGraphHeaderSize in
  compute_graph_stats_from_file (Some bs) offset
  = Some (stats_over (map snd rs) (header_ep bs o) (header_frozen bs o))
  /\ degrees_read (Some bs) offset = rs.
Proof.
  intros Hh Hsize o rs.
  destruct (header_readable_offset _ _ Hh) as [Ho Hlen]. fold o in Ho, Hlen.
  destruct (scan_start_terminates bs o (header_expected bs o) Ho) as [st Hst].
  assert (Hrec := scan_loop_records (header_expected bs o) (S (length bs))
                    (scan_start bs o) st eq_refl).
  specialize (Hrec ltac:(cbn; lia) ltac:(cbn; lia) Hst).
  cbn [scan_start sc_in sc_seen sc_acc sc_nodes sc_bytes_read content gpos] in Hrec.
  fold rs in Hrec. cbv zeta in Hrec. destruct Hrec as (Hseen & Hacc & Hnodes).
  pose proof (records_until_degrees (S (length bs)) bs (header_expected bs o)
                (o + 24) kGraphHeaderSize) as Hdeg. fold rs in Hdeg.
  pose proof (records_until_weight (S (length bs)) bs (header_expected bs o)
                (o + 24) kGraphHeaderSize) as Hw. fold rs in Hw. cbv zeta in Hw.
  assert (Hb : zsum (map snd rs) < 2 ^ 64 /\ Z.of_nat (length rs) < 2 ^ 64).
  { unfold file_size_ok in Hsize.
    pose proof (zsum_nonneg (map snd rs)) as Hnn.
    destruct Hw as [->|[_ Hw]]; [cbn; lia|].
    assert (0 <= zsum (map snd rs)).
    { apply Hnn. rewrite Forall_forall in *. intros d Hin.
      specialize (Hdeg d Hin). simpl in Hdeg. lia. }
    lia. }
  destruct Hb as [Hb1 Hb2].
  split.
  - unfold compute_graph_stats_from_file, compute_graph_stats_from_file_fuel.
    rewrite scan_file_header, Hh. cbn [scan_fuel]. fold o. rewrite Hst.
    rewrite Hacc, Hnodes. rewrite Z.add_0_l, wrap64_small by lia.
    rewrite <- (aggregate_closed_form (map snd rs) _ _ Hdeg) by (rewrite ?length_map; lia).
    rewrite length_map. reflexivity.
  - unfold degrees_read. rewrite scan_file_header, Hh. cbn [scan_fuel]. fold o.
    rewrite Hst. exact Hseen.
Qed.

(** ** compute_graph_stats_from_file on written files *)

Lemma length_u32 z : length (u32 z) = 4%nat.
Proof. apply length_le_split. Qed.

Lemma length_u64 z : length (u64 z) = 8%nat.
Proof. apply length_le_split. Qed.

Lemma le_combine_u32 z : 0 <= z < 2 ^ 32 -> le_combine (u32 z) = z.
Proof.
  intros Hz. unfold u32. rewrite le_combine_split.
  change (Z.of_nat 4 * 8) with 32. now apply Z.mod_small.
Qed.

Lemma le_combine_u64 z : 0 <= z < 2 ^ 64 -> le_combine (u64 z) = z.
Proof.
  intros Hz. unfold u64. rewrite le_combine_split.
  change (Z.of_nat 8 * 8) with 64. now apply Z.mod_small.
Qed.

Lemma length_u32s l : length (concat (map u32 l)) = (4 * length l)%nat.
Proof.
  induction l as [|x l IH]; [reflexivity|].
  cbn [map concat]. rewrite length_app, length_u32, IH. cbn [length]. lia.
Qed.

Lemma length_graph_record r : Z.of_nat (length (graph_record r)) = record_size r.
Proof.
  unfold graph_record, record_size. rewrite length_app, length_u32, length_u32s. lia.
Qed.

Lemma length_graph_records recs :
  Z.of_nat (length (graph_records recs)) = records_size recs.
Proof.
  induction recs as [|r recs IH]; [reflexivity|].
  unfold graph_records in *. cbn [map concat records_size fold_right].
  rewrite length_app, Nat2Z.inj_add, IH, length_graph_record. reflexivity.
Qed.

Lemma records_size_bounds recs :
  4 * Z.of_nat (length recs) <= records_size recs.
Proof.
  unfold records_size, record_size. induction recs as [|r recs IH]; simpl length;
    simpl fold_right; lia.
Qed.

Lemma records_size_app l1 l2 :
  records_size (l1 ++ l2) = records_size l1 + records_size l2.
Proof.
  unfold records_size. induction l1 as [|r l1 IH]; simpl; lia.
Qed.

Lemma records_size_take k recs : records_size (take k recs) <= records_size recs.
Proof.
  rewrite <- (take_drop k recs) at 2. rewrite records_size_app.
  pose proof (records_size_bounds (drop k recs)). lia.
Qed.

Lemma degrees_fit_take k recs : degrees_fit recs -> degrees_fit (take k recs).
Proof. unfold degrees_fit. apply Forall_take. Qed.

Lemma records_until_stop limit bs E p b :
  b = E \/ Z.of_nat (length bs) < p + 4 -> records_until limit bs E p b = [].
Proof.
  intros H. destruct limit as [|limit]; [reflexivity|]. cbn [records_until].
  destruct (Z.eqb_spec b E); [reflexivity|].
  destruct (Z.ltb_spec (Z.of_nat (length bs)) (p + 4)); [reflexivity|].
  destruct H; [contradiction | lia].
Qed.

(** Walking over records that were written in full gives their degrees. *)
Lemma records_until_graph_records E post : forall recs limit pre b,
  degrees_fit recs -> 0 <= b -> b + records_size recs <= E -> E < 2 ^ 64 ->
  Z.of_nat (length pre) + records_size recs < 2 ^ 63 ->
  (length recs <= limit)%nat ->
  map snd (records_until limit (pre ++ graph_records recs ++ post) E
                         (Z.of_nat (length pre)) b)
  = degrees recs
    ++ map snd (records_until (limit - length recs)
                              (pre ++ graph_records recs ++ post) E
                              (Z.of_nat (length pre) + records_size recs)
                              (b + records_size recs)).
Proof.
  induction recs as [|r recs IH]; intros limit pre b Hfit Hb HE HE64 Hp Hlim.
  - cbn [degrees map app length records_size fold_right].
    now rewrite Nat.sub_0_r, !Z.add_0_r.
  - destruct limit as [|limit]; [cbn in Hlim; lia|].
    inversion Hfit as [|? ? Hr Hfit']; subst.
    cbn [records_size fold_right] in *. fold (records_size recs) in *.
    pose proof (records_size_bounds recs) as Hsz.
    assert (Hrs : record_size r = 4 + 4 * Z.of_nat (length r)) by reflexivity.
    set (bs := pre ++ graph_records (r :: recs) ++ post).
    assert (Hbs : bs = pre ++ u32 (Z.of_nat (length r))
                         ++ (concat (map u32 r) ++ graph_records recs ++ post)).
    { unfold bs, graph_records. cbn [map concat]. unfold graph_record at 1.
      now rewrite <- !app_assoc. }
    assert (Hbs' : bs = (pre ++ graph_record r) ++ graph_records recs ++ post).
    { unfold bs, graph_records. cbn [map concat]. now rewrite <- !app_assoc. }
    assert (Hlen : Z.of_nat (length bs)
                   = Z.of_nat (length pre) + record_size r + records_size recs
                     + Z.of_nat (length post)).
    { rewrite Hbs'. rewrite !length_app, !Nat2Z.inj_add.
      rewrite length_graph_record, length_graph_records. lia. }
    cbn [records_until].
    destruct (Z.eqb_spec b E) as [Heq|_]; [lia|].
    destruct (Z.ltb_spec (Z.of_nat (length bs)) (Z.of_nat (length pre) + 4)); [lia|].
    assert (Hk : le_combine (slice bs (Z.of_nat (length pre)) 4) = Z.of_nat (length r)).
    { rewrite Hbs.
      change 4 with (Z.of_nat (length (u32 (Z.of_nat (length r))))).
      rewrite slice_app_middle. apply le_combine_u32. lia. }
    rewrite Hk.
    destruct (Z.leb_spec (2 ^ 63) (Z.of_nat (length pre) + 4 + Z.of_nat (length r) * 4));
      [lia|].
    cbn [map snd degrees app]. f_equal.
    rewrite wrap64_small by lia.
    replace (Z.of_nat (length pre) + 4 + Z.of_nat (length r) * 4)
      with (Z.of_nat (length (pre ++ graph_record r)))
      by (rewrite length_app, Nat2Z.inj_add, length_graph_record; lia).
    replace (b + (4 + Z.of_nat (length r) * 4)) with (b + record_size r) by lia.
    rewrite Hbs'.
    rewrite IH; [| assumption | lia | lia | assumption
                 | rewrite length_app, Nat2Z.inj_add, length_graph_record; lia
                 | cbn in Hlim; lia].
    cbn [length Nat.sub]. rewrite length_app, Nat2Z.inj_add, length_graph_record.
    now rewrite <- !Z.add_assoc.
Qed.

(** The header of a written file reads back. *)
Lemma graph_header_decodes pre E w ep fz rest :
  0 <= E < 2 ^ 64 -> 0 <= ep < 2 ^ 32 -> 0 <= fz < 2 ^ 64 ->
  let bs := pre ++ graph_header E w ep fz ++ rest in
  let o := Z.of_nat (length pre) in
  header_expected bs o = E /\ header_ep bs o = ep /\ header_frozen bs o = fz.
Proof.
  intros HE Hep Hfz bs o. unfold header_expected, header_ep, header_frozen.
  unfold bs, graph_header. repeat split.
  - rewrite <- !app_assoc.
    change 8 with (Z.of_nat (length (u64 E))).
    unfold o. rewrite slice_app_middle. now apply le_combine_u64.
  - replace (pre ++ (u64 E ++ u32 w ++ u32 ep ++ u64 fz) ++ rest)
      with ((pre ++ u64 E ++ u32 w) ++ u32 ep ++ (u64 fz ++ rest))
      by (now rewrite <- !app_assoc).
    replace (o + 12) with (Z.of_nat (length (pre ++ u64 E ++ u32 w)))
      by (rewrite !length_app, length_u64, length_u32; unfold o; lia).
    change 4 with (Z.of_nat (length (u32 ep))).
    rewrite slice_app_middle. now apply le_combine_u32.
  - replace (pre ++ (u64 E ++ u32 w ++ u32 ep ++ u64 fz) ++ rest)
      with ((pre ++ u64 E ++ u32 w ++ u32 ep) ++ u64 fz ++ rest)
      by (now rewrite <- !app_assoc).
    replace (o + 16) with (Z.of_nat (length (pre ++ u64 E ++ u32 w ++ u32 ep)))
      by (rewrite !length_app, length_u64, !length_u32; unfold o; lia).
    change 8 with (Z.of_nat (length (u64 fz))).
    rewrite slice_app_middle. now apply le_combine_u64.
Qed.

Lemma length_graph_header E w ep fz : length (graph_header E w ep fz) = 24%nat.
Proof.
  unfold graph_header. now rewrite !length_app, !length_u64, !length_u32.
Qed.

(** Scanning a file written with [n] records, of which the first [k] are
    present: all of them with whatever follows the graph, or fewer and then
    nothing more. *)
Lemma scan_written_file pre w ep fz all k post :
  let E := 24 + records_size all in
  let bs := pre ++ graph_header E w ep fz ++ graph_records (take k all) ++ post in
  degrees_fit all -> 0 <= ep < 2 ^ 32 -> 0 <= fz < 2 ^ 64 ->
  file_size_ok (pre ++ graph_header E w ep fz ++ graph_records all ++ post) ->
  ((k < length all)%nat -> post = []) ->
  compute_graph_stats_from_file (Some bs) (Z.of_nat (length pre))
  = Some (stats_over (degrees (take k all)) ep fz).
Proof.
  intros E bs Hfit Hep Hfz Hsize Hpost.
  set (recs := take k all) in *.
  pose proof (records_size_bounds all) as Hall.
  pose proof (records_size_bounds recs) as Hrecs.
  pose proof (records_size_take k all) as Htake. fold recs in Htake.
  unfold file_size_ok in Hsize.
  rewrite !length_app, !Nat2Z.inj_add, length_graph_header, length_graph_records in Hsize.
  assert (Hlen : Z.of_nat (length bs)
                 = Z.of_nat (length pre) + 24 + records_size recs + Z.of_nat (length post)).
  { unfold bs. rewrite !length_app, !Nat2Z.inj_add, length_graph_header,
      length_graph_records. lia. }
  assert (Hsize' : file_size_ok bs) by (unfold file_size_ok; lia).
  assert (Hoff : as_streamoff (Z.of_nat (length pre)) = Z.of_nat (length pre)).
  { unfold as_streamoff. destruct (Z.ltb_spec (Z.of_nat (length pre)) (2 ^ 63)); lia. }
  assert (Hh : header_readable bs (Z.of_nat (length pre)) = true).
  { unfold header_readable. rewrite Hoff. lia. }
  destruct (compute_graph_stats_from_file_records bs _ Hh Hsize') as [Hres _].
  rewrite Hres. rewrite Hoff.
  destruct (graph_header_decodes pre E w ep fz (graph_records recs ++ post))
    as (HE & Hep' & Hfz'); [lia | lia | lia |].
  cbv zeta in HE, Hep', Hfz'. fold bs in HE, Hep', Hfz'.
  rewrite HE, Hep', Hfz'.
  do 2 f_equal.
  assert (Hbs : bs = (pre ++ graph_header E w ep fz) ++ graph_records recs ++ post).
  { unfold bs. now rewrite <- !app_assoc. }
  replace (Z.of_nat (length pre) + 24)
    with (Z.of_nat (length (pre ++ graph_header E w ep fz)))
    by (rewrite length_app, Nat2Z.inj_add, length_graph_header; lia).
  rewrite Hbs at 2.
  rewrite records_until_graph_records;
    [| now apply degrees_fit_take | unfold kGraphHeaderSize; lia
     | unfold kGraphHeaderSize; lia | lia
     | rewrite length_app, Nat2Z.inj_add, length_graph_header; lia
     | lia ].
  rewrite records_until_stop; [now rewrite app_nil_r|].
  destruct (Nat.lt_ge_cases k (length all)) as [Hlt|Hge].
  - right. rewrite (Hpost Hlt), app_nil_r.
    rewrite !length_app, !Nat2Z.inj_add, length_graph_header, length_graph_records. lia.
  - left. unfold recs. rewrite take_ge by lia. unfold kGraphHeaderSize. reflexivity.
Qed.

(** C1 (as stated): the file is cut inside its only record, so it holds no
    complete record, yet the scanner counts one node with three edges. *)
Lemma cut_record_is_counted :
  complete_records (S (length cut_record_file)) cut_record_file 40 24 24 = []
  /\ exists s,
       compute_graph_stats_from_file (Some cut_record_file) 0 = Some s
       /\ total_nodes s = 1 /\ total_edges s = 3.
Proof.
  split; [vm_compute; reflexivity|].
  eexists. split; [vm_compute; reflexivity|]. split; reflexivity.
Qed.

(** C1 (amended): on a file whose 24-byte header can be read at the offset,
    [compute_graph_stats_from_file] returns the statistics over the records
    whose degree field it reads before the byte counter equals
    [expected_total_size] or a read fails (the neighbor ids of a record are
    skipped, not read): [total_nodes] is their number, [total_edges] the sum
    of their degrees, [entry_point] and [frozen_nodes] come from the header.
    A file written with [N] records gives the statistics over all [N], and the
    same file cut after [k < N] complete records gives the statistics over
    those [k]. *)
Theorem compute_graph_stats_from_file_scan :
  (forall bs offset,
      header_readable bs offset = true -> file_size_ok bs ->
      let o := as_streamoff offset in
      let rs := records_until (S (length bs)) bs (header_expected bs o)
                              (o + 24) kGraphHeaderSize in
      compute_graph_stats_from_file (Some bs) offset
      = Some (stats_over (map snd rs) (header_ep bs o) (header_frozen bs o))
      /\ degrees_read (Some bs) offset = rs)
  /\ (forall pre w ep frozen recs post,
        let bs := pre ++ graph_header (24 + records_size recs) w ep frozen
                      ++ graph_records recs ++ post in
        degrees_fit recs -> 0 <= ep < 2 ^ 32 -> 0 <= frozen < 2 ^ 64 ->
        file_size_ok bs ->
        compute_graph_stats_from_file (Some bs) (Z.of_nat (length pre))
        = Some (stats_over (degrees recs) ep frozen))
  /\ (forall pre w ep frozen recs k,
        let header := graph_header (24 + records_size recs) w ep frozen in
        degrees_fit recs -> 0 <= ep < 2 ^ 32 -> 0 <= frozen < 2 ^ 64 ->
        file_size_ok (pre ++ header ++ graph_records recs) ->
        (k < length recs)%nat ->
        compute_graph_stats_from_file
          (Some (pre ++ header ++ graph_records (take k recs)))
          (Z.of_nat (length pre))
        = Some (stats_over (degrees (take k recs)) ep frozen)).
Proof.
  split; [|split].
  - intros bs offset Hh Hsize. now apply compute_graph_stats_from_file_records.
  - intros pre w ep frozen recs post bs Hfit Hep Hfz Hsize.
    pose proof (scan_written_file pre w ep frozen recs (length recs) post) as H.
    cbv zeta in H. rewrite firstn_all in H. apply H; auto. lia.
  - intros pre w ep frozen recs k header Hfit Hep Hfz Hsize Hk.
    pose proof (scan_written_file pre w ep frozen recs k []) as H.
    cbv zeta in H. rewrite !app_nil_r in H. apply H; auto.
Qed.

Lemma compute_graph_stats_from_file_scan_witness :
  (degrees_fit sample_records /\ 0 <= 3 < 2 ^ 32 /\ 0 <= 1 < 2 ^ 64
   /\ file_size_ok sample_graph_file /\ (3 < length sample_records)%nat)
  /\ compute_graph_stats_from_file (Some sample_graph_file) 0
     = Some (stats_over [2; 1; 0; 3] 3 1)
  /\ compute_graph_stats_from_file
       (Some (graph_header (24 + records_size sample_records) 7 3 1
              ++ graph_records (take 3 sample_records))) 0
     = Some (stats_over [2; 1; 0] 3 1).
Proof.
  assert (H : degrees_fit sample_records /\ 0 <= 3 < 2 ^ 32 /\ 0 <= 1 < 2 ^ 64
              /\ file_size_ok sample_graph_file /\ (3 < length sample_records)%nat).
  { split; [unfold degrees_fit; repeat constructor|].
    split; [lia|]. split; [lia|].
    split; [unfold file_size_ok; vm_compute; reflexivity | cbn; lia]. }
  split; [exact H|].
  destruct H as (H1 & H2 & H3 & H4 & H5).
  destruct compute_graph_stats_from_file_scan as (_ & Hfull & Hcut).
  split.
  - exact (Hfull [] 7 3 1 sample_records [] H1 H2 H3
                 ltac:(unfold file_size_ok; vm_compute; reflexivity)).
  - exact (Hcut [] 7 3 1 sample_records 3%nat H1 H2 H3 H4 H5).
Defined.

(** ** Results without nodes *)

Lemma compute_graph_stats_from_file_total file offset :
  exists s, compute_graph_stats_from_file file offset = Some s.
Proof.
  destruct (compute_graph_stats_from_file_returns file offset) as [r Hr].
  exists r. specialize (Hr 0%nat). now rewrite Nat.add_0_r in Hr.
Qed.

Lemma compute_graph_stats_from_file_no_header bs offset :
  header_readable bs offset = false ->
  compute_graph_stats_from_file (Some bs) offset = Some default_stats.
Proof.
  intros Hh. unfold compute_graph_stats_from_file, compute_graph_stats_from_file_fuel.
  now rewrite scan_file_header, Hh.
Qed.

Lemma stats_over_nil ep frozen :
  0 <= frozen ->
  stats_over [] ep frozen = mkGraphStats 0 0 frozen 0 0 0%Q 0 0 ep.
Proof.
  intros Hf. unfold stats_over. change (Z.of_nat (length (@nil Z))) with 0.
  destruct (Z.leb_spec frozen 0); [|reflexivity].
  now replace frozen with 0 by lia.
Qed.

(** C2 (as stated): with no node at all the in-memory function still returns
    the entry point it was given, and the file scanner the entry point and
    the frozen count of a header that no record follows. *)
Lemma zero_nodes_keep_entry_point :
  (exists s, compute_graph_stats [] 0 0 7 default_weak_threshold = Some s
             /\ total_nodes s = 0 /\ entry_point s = 7)
  /\ (exists s, compute_graph_stats_from_file (Some header_only_file) 0 = Some s
                /\ total_nodes s = 0 /\ entry_point s = 7 /\ frozen_nodes s = 5).
Proof.
  split; eexists; (split; [vm_compute; reflexivity|]); repeat split.
Qed.

(** C2 (amended): a result with [total_nodes == 0] has [total_edges],
    [degree_min], [degree_avg], [degree_max] and [weak_count] zero, and the
    functions return it rather than throw. [compute_graph_stats] keeps the
    entry point and the two counts it was given, so that with
    [nd = num_frozen_pts = 0] everything but [entry_point] is zero.
    [compute_graph_stats_from_file] returns the all-zero result when the file
    is absent, empty or too short for the header at the offset; when the
    header was read and no record, [active_nodes] is zero and [entry_point]
    and [frozen_nodes] are those of the header. *)
Theorem zero_nodes_stats :
  (forall graph nd num_frozen_pts ep weak_threshold s,
      compute_graph_stats graph nd num_frozen_pts ep weak_threshold = Some s ->
      total_nodes s = 0 ->
      s = mkGraphStats 0 nd num_frozen_pts 0 0 0%Q 0 0 ep)
  /\ (forall graph ep weak_threshold,
        compute_graph_stats graph 0 0 ep weak_threshold
        = Some (mkGraphStats 0 0 0 0 0 0%Q 0 0 ep))
  /\ (forall file offset, exists s, compute_graph_stats_from_file file offset = Some s)
  /\ (forall offset, compute_graph_stats_from_file None offset = Some default_stats)
  /\ (forall offset, compute_graph_stats_from_file (Some []) offset = Some default_stats)
  /\ (forall bs offset,
        header_readable bs offset = false ->
        compute_graph_stats_from_file (Some bs) offset = Some default_stats)
  /\ (forall bs offset s,
        header_readable bs offset = true -> file_size_ok bs ->
        compute_graph_stats_from_file (Some bs) offset = Some s ->
        total_nodes s = 0 ->
        s = mkGraphStats 0 0 (header_frozen bs (as_streamoff offset)) 0 0 0%Q 0 0
                         (header_ep bs (as_streamoff offset))).
Proof.
  repeat apply conj.
  - intros graph nd fz ep thr s Hs Hz.
    unfold compute_graph_stats, compute_graph_stats_touched in Hs.
    destruct (Z.eqb_spec (wrap64 (nd + fz)) 0) as [E|NE].
    + cbn in Hs. injection Hs as <-. now rewrite E.
    + destruct (stats_loop _ _ _ _ _ _) as [[a|] t]; cbn in Hs; [|discriminate].
      injection Hs as <-. cbn in Hz. contradiction.
  - intros graph ep thr. reflexivity.
  - apply compute_graph_stats_from_file_total.
  - reflexivity.
  - intros offset. apply compute_graph_stats_from_file_no_header.
    unfold header_readable. cbn [length Z.of_nat].
    destruct (0 <=? as_streamoff offset) eqn:H0; [|reflexivity].
    destruct (as_streamoff offset <? 2 ^ 63); [|reflexivity].
    cbn [andb]. apply Z.leb_gt. apply Z.leb_le in H0. lia.
  - apply compute_graph_stats_from_file_no_header.
  - intros bs offset s Hh Hsize Hs Hz.
    destruct (compute_graph_stats_from_file_records bs offset Hh Hsize) as [Hres _].
    rewrite Hres in Hs. injection Hs as <-.
    cbn [stats_over total_nodes] in Hz.
    destruct (map snd _) as [|d l] eqn:Hmap; [|cbn in Hz; lia].
    apply stats_over_nil. apply le_combine_nonneg.
Qed.

Lemma zero_nodes_stats_witness :
  (header_readable header_only_file 0 = true /\ file_size_ok header_only_file)
  /\ compute_graph_stats_from_file (Some header_only_file) 0
     = Some (mkGraphStats 0 0 5 0 0 0%Q 0 0 7)
  /\ compute_graph_stats five_node_graph 0 0 4 default_weak_threshold
     = Some (mkGraphStats 0 0 0 0 0 0%Q 0 0 4).
Proof.
  assert (H : header_readable header_only_file 0 = true /\ file_size_ok header_only_file).
  { split; [vm_compute; reflexivity | unfold file_size_ok; vm_compute; reflexivity]. }
  split; [exact H|]. destruct H as [H1 H2].
  destruct zero_nodes_stats as (Hmem & _ & Htot & _ & _ & _ & Hfile).
  split.
  - destruct (Htot (Some header_only_file) 0) as [s Hs].
    rewrite Hs. f_equal.
    apply (Hfile header_only_file 0 s H1 H2 Hs).
    vm_compute in Hs. injection Hs as <-. reflexivity.
  - destruct (compute_graph_stats five_node_graph 0 0 4 default_weak_threshold)
      as [s|] eqn:Hs; [|vm_compute in Hs; discriminate].
    f_equal. apply (Hmem five_node_graph 0 0 4 default_weak_threshold s Hs).
    vm_compute in Hs. injection Hs as <-. reflexivity.
Defined.

(** ** The node counts *)

Lemma scan_file_early fuel file offset s :
  scan_file fuel file offset = Some (inl s) -> s = default_stats.
Proof.
  destruct file as [bs|]; [|cbn; congruence].
  rewrite scan_file_header.
  destruct (header_readable bs offset); [|congruence].
  destruct (scan_loop _ _ _); discriminate.
Qed.

(** C4 (as stated): after a header that announces five frozen points and no
    record, [active_nodes + frozen_nodes] is 5 and [total_nodes] is 0. *)
Lemma frozen_count_exceeds_total :
  exists s, compute_graph_stats_from_file (Some header_only_file) 0 = Some s
            /\ total_nodes s = 0 /\ active_nodes s + frozen_nodes s = 5.
Proof. eexists. split; [vm_compute; reflexivity|]. split; reflexivity. Qed.

(** C4 (amended): [compute_graph_stats] has
    [active_nodes + frozen_nodes == total_nodes] in [size_t] arithmetic, and
    exactly when the sum of its two counts does not wrap;
    [compute_graph_stats_from_disk_index] has it always;
    [compute_graph_stats_from_file] has it when the frozen count of the header
    is at most the number of records read, and otherwise returns
    [active_nodes == 0] with the frozen count of the header. *)
Theorem node_count_balance :
  (forall graph nd num_frozen_pts ep weak_threshold s,
      compute_graph_stats graph nd num_frozen_pts ep weak_threshold = Some s ->
      wrap64 (active_nodes s + frozen_nodes s) = total_nodes s
      /\ active_nodes s + frozen_nodes s
         = total_nodes s + 2 ^ 64 * ((nd + num_frozen_pts) / 2 ^ 64))
  /\ (forall file data_type s,
        compute_graph_stats_from_disk_index file data_type = Some s ->
        active_nodes s + frozen_nodes s = total_nodes s)
  /\ (forall file offset s,
        compute_graph_stats_from_file file offset = Some s ->
        if frozen_nodes s <=? total_nodes s
        then active_nodes s + frozen_nodes s = total_nodes s
        else active_nodes s = 0).
Proof.
  repeat apply conj.
  - intros graph nd fz ep thr s Hs.
    assert (Hfields : active_nodes s = nd /\ frozen_nodes s = fz
                      /\ total_nodes s = wrap64 (nd + fz)).
    { unfold compute_graph_stats, compute_graph_stats_touched in Hs.
      destruct (wrap64 (nd + fz) =? 0).
      - cbn in Hs. injection Hs as <-. auto.
      - destruct (stats_loop _ _ _ _ _ _) as [[a|] t]; cbn in Hs; [|discriminate].
        injection Hs as <-. auto. }
    destruct Hfields as (-> & -> & ->). split; [reflexivity|].
    unfold wrap64. pose proof (Z.div_mod (nd + fz) (2 ^ 64)). lia.
  - intros file dt s Hs.
    unfold compute_graph_stats_from_disk_index, disk_index_scan in Hs.
    destruct (open file) as [in0|]; [|cbn in Hs; injection Hs as <-; reflexivity].
    destruct (read_disk_header in0) as [[g off] in1].
    destruct (negb (is_good in1)); [cbn in Hs; injection Hs as <-; reflexivity|].
    destruct (bad_geometry g (elem_size dt));
      [cbn in Hs; injection Hs as <-; reflexivity|].
    destruct (nnodes_per_sector g =? 0);
      [cbn in Hs; injection Hs as <-; cbn; lia|].
    destruct (sector_loop _ _ _ _ _ _) as [st|]; cbn in Hs; [|discriminate].
    injection Hs as <-. cbn. lia.
  - intros file offset s Hs.
    unfold compute_graph_stats_from_file, compute_graph_stats_from_file_fuel in Hs.
    destruct (scan_file _ _ _) as [[s0|[[ep fz] st]]|] eqn:Hscan; [| |discriminate].
    + apply scan_file_early in Hscan. injection Hs as <-. subst s0. reflexivity.
    + injection Hs as <-. cbn.
      destruct (Z.leb_spec fz (sc_nodes st)); [lia | reflexivity].
Qed.

Lemma node_count_balance_witness :
  exists s,
    compute_graph_stats_from_file (Some sample_graph_file) 0 = Some s
    /\ active_nodes s + frozen_nodes s = total_nodes s.
Proof.
  destruct node_count_balance as (_ & _ & Hfile).
  assert (Hs : compute_graph_stats_from_file (Some sample_graph_file) 0
               = Some (stats_over [2; 1; 0; 3] 3 1)) by (vm_compute; reflexivity).
  exists (stats_over [2; 1; 0; 3] 3 1). split; [exact Hs|].
  exact (Hfile _ _ _ Hs).
Defined.

(** ** The header of the disk index *)

Lemma read_state n ins :
  is_good (snd (read n ins)) = is_good ins && (gpos ins + n <=? stream_size ins).
Proof.
  unfold read. destruct (is_good ins) eqn:Hg; cbn [negb andb]; [|exact Hg].
  destruct (gpos ins + n <=? stream_size ins); reflexivity.
Qed.

Lemma read_good_inv n ins :
  is_good (snd (read n ins)) = true ->
  is_good ins = true /\ gpos ins + n <= stream_size ins.
Proof.
  rewrite read_state. intros H. apply andb_true_iff in H as [Hg Hn].
  apply Z.leb_le in Hn. auto.
Qed.

Lemma read_uint_good_inv n old ins :
  is_good (snd (read_uint n old ins)) = true ->
  is_good ins = true /\ gpos ins + n <= stream_size ins.
Proof.
  rewrite read_uint_state. intros H. apply andb_true_iff in H as [Hg Hn].
  apply Z.leb_le in Hn. auto.
Qed.

Lemma read_int32_good old ins :
  is_good ins = true -> gpos ins + 4 <= stream_size ins ->
  read_int32 old ins = (as_int32 (le_combine (slice (content ins) (gpos ins) 4)),
                        mkStream (content ins) (gpos ins + 4) true).
Proof. intros Hg Hn. unfold read_int32. now rewrite read_good. Qed.

Lemma read_int32_state old ins :
  is_good (snd (read_int32 old ins))
  = is_good ins && (gpos ins + 4 <=? stream_size ins).
Proof.
  rewrite <- read_state. unfold read_int32. now destruct (read 4 ins) as [[bs|] ins'].
Qed.

Lemma read_int32_content old ins : content (snd (read_int32 old ins)) = content ins.
Proof.
  unfold read_int32, read.
  destruct (is_good ins); cbn; [|reflexivity].
  destruct (gpos ins + 4 <=? stream_size ins); reflexivity.
Qed.

Lemma read_geometry_good ins :
  is_good ins = true -> gpos ins + 40 <= stream_size ins ->
  read_geometry ins = (geometry_at (content ins) (gpos ins),
                       mkStream (content ins) (gpos ins + 40) true).
Proof.
  intros Hg Hn. unfold read_geometry, geometry_at.
  rewrite read_uint_good by (auto; lia). cbn [content gpos].
  rewrite read_uint_good by (unfold stream_size in *; cbn; auto; lia). cbn [content gpos].
  rewrite read_uint_good by (unfold stream_size in *; cbn; auto; lia). cbn [content gpos].
  rewrite read_uint_good by (unfold stream_size in *; cbn; auto; lia). cbn [content gpos].
  rewrite read_uint_good by (unfold stream_size in *; cbn; auto; lia). cbn [content gpos].
  replace (gpos ins + 8 + 8) with (gpos ins + 16) by lia.
  replace (gpos ins + 16 + 8) with (gpos ins + 24) by lia.
  replace (gpos ins + 24 + 8) with (gpos ins + 32) by lia.
  replace (gpos ins + 32 + 8) with (gpos ins + 40) by lia.
  reflexivity.
Qed.

Lemma read_geometry_short ins :
  is_good ins = false \/ stream_size ins < gpos ins + 40 ->
  is_good (snd (read_geometry ins)) = false.
Proof.
  intros H. unfold read_geometry.
  destruct (read_uint 8 0 ins) as [v1 in1] eqn:R1.
  destruct (read_uint 8 0 in1) as [v2 in2] eqn:R2.
  destruct (read_uint 8 0 in2) as [v3 in3] eqn:R3.
  destruct (read_uint 8 0 in3) as [v4 in4] eqn:R4.
  destruct (read_uint 8 0 in4) as [v5 in5] eqn:R5.
  cbn [snd].
  destruct (is_good in5) eqn:G5; [exfalso|reflexivity].
  pose proof (read_uint_good_inv 8 0 in4) as I5. rewrite R5 in I5.
  destruct (I5 G5) as [G4 L5].
  pose proof (read_uint_good_inv 8 0 in3) as I4. rewrite R4 in I4.
  destruct (I4 G4) as [G3 L4].
  pose proof (read_uint_good_inv 8 0 in2) as I3. rewrite R3 in I3.
  destruct (I3 G3) as [G2 L3].
  pose proof (read_uint_good_inv 8 0 in1) as I2. rewrite R2 in I2.
  destruct (I2 G2) as [G1 L2].
  pose proof (read_uint_good_inv 8 0 ins) as I1. rewrite R1 in I1.
  destruct (I1 G1) as [G0 L1].
  destruct H as [H|H]; [congruence|].
  rewrite read_uint_good in R1 by assumption. injection R1 as _ <-.
  rewrite read_uint_good in R2 by assumption. injection R2 as _ <-.
  rewrite read_uint_good in R3 by assumption. injection R3 as _ <-.
  rewrite read_uint_good in R4 by assumption. injection R4 as _ <-.
  unfold stream_size in *. cbn in *. lia.
Qed.

Lemma tag_accepted_cases bs :
  tag_accepted (mkStream bs 0 true)
  = (4 <=? Z.of_nat (length bs)) && (5 <=? leading_int32 bs)
    && (8 <=? Z.of_nat (length bs)).
Proof.
  unfold tag_accepted, leading_int32.
  set (in0 := mkStream bs 0 true).
  destruct (Z.leb_spec 4 (Z.of_nat (length bs))) as [H4|H4]; cbn [andb].
  - rewrite (read_int32_good 0 in0 eq_refl) by (unfold stream_size; cbn; lia).
    cbn [content gpos in0].
    destruct (read_int32 0 _) as [n2 in2] eqn:R2.
    pose proof (read_int32_state 0 (mkStream bs (0 + 4) true)) as S2.
    rewrite R2 in S2. cbn in S2. rewrite S2. unfold stream_size. cbn [content].
    change (0 + 4 + 4) with 8.
    apply andb_comm.
  - destruct (read_int32 0 in0) as [n1 in1] eqn:R1.
    pose proof (read_int32_state 0 in0) as S1. rewrite R1 in S1.
    unfold stream_size in S1. cbn in S1.
    assert (G1 : is_good in1 = false).
    { rewrite S1. apply Z.leb_gt. lia. }
    destruct (read_int32 0 in1) as [n2 in2] eqn:R2.
    pose proof (read_int32_state 0 in1) as S2. rewrite R2 in S2. cbn [snd] in S2.
    rewrite S2, G1. reflexivity.
Qed.

(** The stream and the geometry after the header, by the branch taken. *)
Lemma read_disk_header_cases bs :
  let in0 := mkStream bs 0 true in
  let base := if tag_accepted in0 then 8 else 0 in
  let '(g, data_offset, ins) := read_disk_header in0 in
  data_offset = 4096
  /\ is_good ins = (base + 40 <=? Z.of_nat (length bs))
  /\ (is_good ins = true -> g = geometry_at bs base /\ ins = mkStream bs (base + 40) true).
Proof.
  intros in0 base.
  pose proof (tag_accepted_cases bs) as Htag. fold in0 in Htag.
  unfold read_disk_header. unfold tag_accepted in Htag, base.
  unfold tag_accepted.
  destruct (read_int32 0 in0) as [meta_npts in1] eqn:R1.
  destruct (read_int32 0 in1) as [meta_ndims in2] eqn:R2.
  destruct (is_good in2 && (5 <=? meta_npts)) eqn:Hc.
  - (* the tagged branch: the stream is at position 8 *)
    symmetry in Htag. apply andb_true_iff in Htag as [Htag H8].
    apply andb_true_iff in Htag as [H4 _].
    apply Z.leb_le in H4, H8.
    rewrite (read_int32_good 0 in0 eq_refl) in R1 by (unfold stream_size; cbn; lia).
    injection R1 as _ <-.
    rewrite read_int32_good in R2 by (unfold stream_size; cbn; auto; lia).
    injection R2 as _ <-. cbn [content gpos in0].
    change (0 + 4 + 4) with 8.
    destruct (Z.leb_spec (8 + 40) (Z.of_nat (length bs))) as [Hl|Hl].
    + rewrite read_geometry_good by (unfold stream_size; cbn; auto; lia).
      cbn [is_good]. unfold base.
      split; [reflexivity|]. split; [symmetry; apply Z.leb_le; lia|].
      intros _. split; reflexivity.
    + pose proof (read_geometry_short (mkStream bs 8 true)) as Hs.
      destruct (read_geometry _) as [g in3]. cbn [snd] in Hs.
      rewrite Hs by (right; unfold stream_size; cbn; lia).
      unfold base.
      split; [reflexivity|]. split; [symmetry; apply Z.leb_gt; lia | discriminate].
  - (* the untagged branch: the stream is cleared and rewound *)
    assert (Hrew : seekg_beg 0 (clear in2) = mkStream bs 0 true).
    { assert (Hcont : content in2 = bs).
      { pose proof (read_int32_content 0 in0) as C1. rewrite R1 in C1.
        pose proof (read_int32_content 0 in1) as C2. rewrite R2 in C2.
        cbn [snd] in C1, C2. now rewrite C2, C1. }
      unfold seekg_beg, clear. rewrite Hcont. change (as_streamoff 0) with 0.
      rewrite seek_to_good; [reflexivity | reflexivity | lia]. }
    rewrite Hrew.
    destruct (Z.leb_spec (0 + 40) (Z.of_nat (length bs))) as [Hl|Hl].
    + rewrite read_geometry_good by (unfold stream_size; cbn; auto; lia).
      cbn [is_good]. unfold base.
      split; [reflexivity|]. split; [symmetry; apply Z.leb_le; lia|].
      intros _. split; reflexivity.
    + pose proof (read_geometry_short (mkStream bs 0 true)) as Hs.
      destruct (read_geometry _) as [g in3]. cbn [snd] in Hs.
      rewrite Hs by (right; unfold stream_size; cbn; lia).
      unfold base.
      split; [reflexivity|]. split; [symmetry; apply Z.leb_gt; lia | discriminate].
Qed.

Lemma disk_index_scan_unreadable bs data_type :
  is_good (snd (read_disk_header (mkStream bs 0 true))) = false ->
  compute_graph_stats_from_disk_index (Some bs) data_type = Some default_stats.
Proof.
  intros H. unfold compute_graph_stats_from_disk_index, disk_index_scan, open.
  destruct (read_disk_header _) as [[g off] ins]. cbn [snd] in H.
  now rewrite H.
Qed.

(** C6: the resolver takes the tagged reading, with the geometry at offset 8,
    exactly when the first four bytes can be read, their value as a signed
    32-bit integer is at least 5, and the next four bytes can be read too;
    otherwise it reads the geometry at offset 0. Either way the body starts at
    4096, the geometry is the five 64-bit fields at that place when all 40
    bytes are there, and when they are not the stream is failed and the
    statistics are the all-zero result. *)
Theorem header_resolution bs :
  let in0 := mkStream bs 0 true in
  let len := Z.of_nat (length bs) in
  let tagged := (4 <=? len) && (5 <=? leading_int32 bs) && (8 <=? len) in
  let base := if tagged then 8 else 0 in
  tag_accepted in0 = tagged
  /\ let '(g, data_offset, ins) := read_disk_header in0 in
     data_offset = 4096
     /\ is_good ins = (base + 40 <=? len)
     /\ if is_good ins
        then g = geometry_at bs base
        else forall data_type,
            compute_graph_stats_from_disk_index (Some bs) data_type = Some default_stats.
Proof.
  intros in0 len tagged base.
  pose proof (tag_accepted_cases bs) as Htag. fold in0 len tagged in Htag.
  split; [exact Htag|].
  pose proof (read_disk_header_cases bs) as Hc. cbv zeta in Hc.
  fold in0 in Hc. rewrite Htag in Hc. fold base len in Hc.
  pose proof (disk_index_scan_unreadable bs) as Hu. fold in0 in Hu.
  destruct (read_disk_header in0) as [[g off] ins].
  destruct Hc as (Hoff & Hgood & Hg). cbn [snd] in Hu.
  repeat split; auto.
  destruct (is_good ins) eqn:E.
  - now apply Hg.
  - intros dt. now apply Hu.
Qed.

(** ** Records larger than a sector *)

(** C3 (as stated): the header announces no record per sector and passes the
    geometry check; the result has [total_nodes == 3]. *)
Lemma zero_per_sector_keeps_node_count :
  fst (fst (read_disk_header (mkStream zero_per_sector_file 0 true)))
  = mkGeometry 3 0 4 100 0
  /\ exists s,
       compute_graph_stats_from_disk_index (Some zero_per_sector_file) kFloat = Some s
       /\ total_nodes s = 3.
Proof.
  split; [vm_compute; reflexivity|].
  eexists. split; [vm_compute; reflexivity | reflexivity].
Qed.

(** C3 (amended): when the header is read and [records_per_page == 0], the
    degree statistics and [frozen_nodes] are zero. The result is all zero,
    [total_nodes] included, when the geometry check rejects the header, which
    it does whenever [max_record_len > 4096], as in the multi-sector variant;
    if the geometry check passes, [total_nodes] and [active_nodes] are the
    header's [n_nodes] and [entry_point] is its medoid id. *)
Theorem oversized_records_stats bs data_type g data_offset ins :
  read_disk_header (mkStream bs 0 true) = (g, data_offset, ins) ->
  is_good ins = true ->
  nnodes_per_sector g = 0 ->
  compute_graph_stats_from_disk_index (Some bs) data_type
  = Some (if bad_geometry g (elem_size data_type)
          then default_stats
          else mkGraphStats (disk_nnodes g) (disk_nnodes g) 0 0 0 0%Q 0 0
                            (wrap32 (medoid_id_on_file g)))
  /\ (if kSectorLen <? max_node_len g
      then compute_graph_stats_from_disk_index (Some bs) data_type = Some default_stats
      else True).
Proof.
  intros Hh Hg Hz.
  assert (Hres : compute_graph_stats_from_disk_index (Some bs) data_type
                 = Some (if bad_geometry g (elem_size data_type)
                         then default_stats
                         else mkGraphStats (disk_nnodes g) (disk_nnodes g) 0 0 0 0%Q 0 0
                                           (wrap32 (medoid_id_on_file g)))).
  { unfold compute_graph_stats_from_disk_index, disk_index_scan, open.
    rewrite Hh, Hg. cbn [negb].
    destruct (bad_geometry g (elem_size data_type)); [reflexivity|].
    rewrite Hz. reflexivity. }
  split; [exact Hres|].
  destruct (kSectorLen <? max_node_len g) eqn:Hbig; [|exact I].
  rewrite Hres. unfold bad_geometry. rewrite Hbig, orb_true_r. reflexivity.
Qed.

Lemma oversized_records_stats_witness :
  (read_disk_header (mkStream oversized_file 0 true)
   = (mkGeometry 3 1024 1 8192 0, 4096, mkStream oversized_file 40 true)
   /\ is_good (mkStream oversized_file 40 true) = true
   /\ nnodes_per_sector (mkGeometry 3 1024 1 8192 0) = 0)
  /\ compute_graph_stats_from_disk_index (Some oversized_file) kFloat
     = Some default_stats.
Proof.
  assert (H : read_disk_header (mkStream oversized_file 0 true)
              = (mkGeometry 3 1024 1 8192 0, 4096, mkStream oversized_file 40 true)
              /\ is_good (mkStream oversized_file 40 true) = true
              /\ nnodes_per_sector (mkGeometry 3 1024 1 8192 0) = 0).
  { split; [vm_compute; reflexivity | split; reflexivity]. }
  split; [exact H|]. destruct H as (H1 & H2 & H3).
  exact (proj1 (oversized_records_stats oversized_file kFloat _ _ _ H1 H2 H3)).
Defined.

(** ** The sector-paged reader *)

Lemma slice_slice bs a m off n :
  0 <= a -> 0 <= off -> 0 <= n -> off + n <= m ->
  slice (slice bs a m) off n = slice bs (a + off) n.
Proof.
  intros Ha Hoff Hn Hm. unfold slice.
  replace (Z.to_nat m) with (Z.to_nat off + (Z.to_nat m - Z.to_nat off))%nat by lia.
  rewrite <- take_drop_commute, take_take, drop_drop.
  f_equal; [lia|]. f_equal. lia.
Qed.

Lemma memcpy_u32_inside sector off :
  0 <= off -> off + 4 <= Z.of_nat (length sector) ->
  memcpy_u32 sector off = Some (le_combine (slice sector off 4)).
Proof.
  intros H0 H4. unfold memcpy_u32.
  destruct (Z.leb_spec 0 off); [|lia].
  destruct (Z.leb_spec (off + 4) (Z.of_nat (length sector))); [reflexivity | lia].
Qed.

Lemma iota_succ k : 0 <= k -> iota (k + 1) = iota k ++ [k].
Proof.
  intros Hk. unfold iota.
  replace (Z.to_nat (k + 1)) with (S (Z.to_nat k)) by lia.
  rewrite seq_S, map_app. cbn [map Nat.add]. now rewrite Z2Nat.id.
Qed.

Lemma nodes_with_degrees_succ bs g esz k :
  0 <= k ->
  nodes_with_degrees bs g esz (k + 1)
  = nodes_with_degrees bs g esz k ++ [(k, degree_field bs g esz k)].
Proof.
  intros Hk. unfold nodes_with_degrees. now rewrite iota_succ, map_app.
Qed.

Lemma visited_upto_step bs g esz k st :
  0 <= k -> visited_upto bs g esz k st ->
  visited_upto bs g esz (k + 1)
    (mkPaged (acc_step 2 (pg_acc st) (degree_field bs g esz k))
             (pg_visited st ++ [(k, degree_field bs g esz k)])
             (pg_pages st)).
Proof.
  intros Hk [Hv Ha]. split; cbn [pg_visited pg_acc].
  - now rewrite Hv, nodes_with_degrees_succ.
  - rewrite Ha, map_app. unfold aggregate. now rewrite fold_left_app.
Qed.

Lemma pages_needed_bounds g :
  1 <= nnodes_per_sector g -> 0 <= disk_nnodes g ->
  0 <= pages_needed g
  /\ disk_nnodes g <= pages_needed g * nnodes_per_sector g
  /\ pages_needed g * nnodes_per_sector g < disk_nnodes g + nnodes_per_sector g.
Proof.
  intros Hr Hn. unfold pages_needed.
  set (r := nnodes_per_sector g) in *. set (n := disk_nnodes g) in *.
  pose proof (Z.div_mod (n + r - 1) r ltac:(lia)) as Hdm.
  pose proof (Z.mod_pos_bound (n + r - 1) r ltac:(lia)) as Hmod.
  assert (0 <= (n + r - 1) / r) by (apply Z.div_pos; lia).
  repeat split; nia.
Qed.

Lemma slot_of_node sec j r :
  1 <= r -> 0 <= j < r -> (sec * r + j) / r = sec /\ (sec * r + j) mod r = j.
Proof.
  intros Hr Hj. split.
  - rewrite Z.div_add_l by lia. rewrite Z.div_small by lia. lia.
  - rewrite Z.add_comm, Z_mod_plus_full. now apply Z.mod_small.
Qed.

(** One sector: the slots of the nodes that the sector holds. *)
Lemma slot_loop_visits bs g esz sec sector :
  record_geometry g esz -> slots_in_page g esz ->
  0 <= disk_ndims g * esz -> 0 <= sec -> disk_nnodes g < 2 ^ 64 ->
  sector = slice bs (kDiskIndexDataOffset + sec * kSectorLen) kSectorLen ->
  kDiskIndexDataOffset + sec * kSectorLen + kSectorLen <= Z.of_nat (length bs) ->
  forall cnt j st,
    Z.of_nat cnt = nnodes_per_sector g - j -> 0 <= j ->
    sec * nnodes_per_sector g + j <= disk_nnodes g ->
    visited_upto bs g esz (sec * nnodes_per_sector g + j) st ->
    exists st',
      slot_loop cnt j sec g esz sector st = Some st'
      /\ visited_upto bs g esz
           (Z.min (disk_nnodes g) (sec * nnodes_per_sector g + nnodes_per_sector g)) st'
      /\ pg_pages st' = pg_pages st.
Proof.
  intros (Hr & Hlo & Hhi) Hfit Hc Hsec Hn64 Hsector Hlen.
  unfold slots_in_page in Hfit. unfold kDiskIndexDataOffset, kSectorLen in *.
  set (r := nnodes_per_sector g) in *. set (n := disk_nnodes g) in *.
  set (L := max_node_len g) in *. set (c := disk_ndims g * esz) in *.
  assert (Hseclen : Z.of_nat (length sector) = 4096).
  { subst sector. apply length_slice; nia. }
  induction cnt as [|cnt IH]; intros j st Hcnt Hj Hjn Hinv.
  - exists st. replace (Z.min n (sec * r + r)) with (sec * r + j) by lia. auto.
  - cbn [slot_loop]. unfold kSectorLen. fold r n L c.
    assert (Hsr : 0 <= sec * r) by nia.
    rewrite (wrap64_small (sec * r)) by lia.
    rewrite (wrap64_small (sec * r + j)) by lia.
    destruct (Z.leb_spec n (sec * r + j)) as [Hend|Hmore].
    + exists st. replace (Z.min n (sec * r + r)) with (sec * r + j) by lia. auto.
    + assert (HjL : 0 <= j * L <= (r - 1) * L) by nia.
      rewrite (wrap64_small (j * L)) by lia.
      rewrite (wrap64_small c) by lia.
      rewrite (wrap64_small (j * L + c + 4)) by lia.
      destruct (Z.ltb_spec 4096 (j * L + c + 4)) as [Hover|_]; [lia|].
      rewrite memcpy_u32_inside by lia.
      assert (Hdeg : le_combine (slice sector (j * L + c) 4)
                     = degree_field bs g esz (sec * r + j)).
      { unfold degree_field. fold r L c.
        destruct (slot_of_node sec j r) as [-> ->]; [lia | lia |].
        subst sector. unfold kDiskIndexDataOffset, kSectorLen.
        rewrite slice_slice by nia. f_equal. f_equal. lia. }
      rewrite Hdeg.
      destruct (IH (j + 1)
                  (mkPaged (acc_step 2 (pg_acc st) (degree_field bs g esz (sec * r + j)))
                           (pg_visited st ++ [(sec * r + j, degree_field bs g esz (sec * r + j))])
                           (pg_pages st)))
        as (st' & Hloop & Hinv' & Hpages); [lia | lia | lia | |].
      { replace (sec * r + (j + 1)) with (sec * r + j + 1) by lia.
        apply visited_upto_step; [lia | exact Hinv]. }
      exists st'. auto.
Qed.

(** All sectors: every node id below [n_nodes], once and in order. *)
Lemma sector_loop_visits bs g esz :
  record_geometry g esz -> slots_in_page g esz ->
  0 <= disk_ndims g * esz -> 0 <= disk_nnodes g < 2 ^ 64 ->
  pages_present bs g ->
  forall cnt sec st,
    Z.of_nat cnt = pages_needed g - sec -> 0 <= sec ->
    visited_upto bs g esz (Z.min (disk_nnodes g) (sec * nnodes_per_sector g)) st ->
    pg_pages st = sec ->
    exists st',
      sector_loop cnt sec g esz
                  (mkStream bs (kDiskIndexDataOffset + sec * kSectorLen) true) st
      = Some st'
      /\ visited_upto bs g esz (disk_nnodes g) st'
      /\ pg_pages st' = pages_needed g.
Proof.
  intros Hgeo Hfit Hc Hn Hpages.
  pose proof Hgeo as (Hr & _ & _).
  destruct (pages_needed_bounds g Hr (proj1 Hn)) as (HP0 & HPn & HPr).
  unfold pages_present, kDiskIndexDataOffset, kSectorLen in *.
  set (r := nnodes_per_sector g) in *. set (n := disk_nnodes g) in *.
  set (P := pages_needed g) in *.
  induction cnt as [|cnt IH]; intros sec st Hcnt Hsec Hinv Hpg.
  - exists st. replace (Z.min n (sec * r)) with n in Hinv by nia.
    repeat split; [apply Hinv | apply Hinv | lia].
  - cbn [sector_loop is_good negb]. unfold kSectorLen.
    assert (Hsr : sec * r + r <= P * r) by nia.
    rewrite read_good by (unfold stream_size; cbn; auto; nia).
    cbn [content gpos].
    replace (Z.min n (sec * r)) with (sec * r + 0) in Hinv by nia.
    destruct (slot_loop_visits bs g esz sec
                (slice bs (4096 + sec * 4096) 4096) Hgeo Hfit Hc Hsec (proj2 Hn)
                eq_refl ltac:(unfold kDiskIndexDataOffset, kSectorLen; nia)
                (Z.to_nat r) 0
                (mkPaged (pg_acc st) (pg_visited st) (pg_pages st + 1)))
      as (st1 & Hslot & Hinv1 & Hpg1); [fold r; lia | lia | fold r n; nia | exact Hinv |].
    fold r n in Hinv1. fold r. rewrite Hslot.
    replace (4096 + sec * 4096 + 4096) with (4096 + (sec + 1) * 4096) by lia.
    apply IH; [lia | lia | | cbn in Hpg1; lia].
    replace ((sec + 1) * r) with (sec * r + r) by lia. exact Hinv1.
Qed.

Lemma geometry_at_range bs o :
  let g := geometry_at bs o in
  0 <= disk_nnodes g < 2 ^ 64 /\ 0 <= disk_ndims g /\ 0 <= max_node_len g
  /\ 0 <= nnodes_per_sector g.
Proof.
  cbn. repeat split; try apply le_combine_nonneg.
  pose proof (le_combine_bound (slice bs o 8)) as [_ H].
  eapply Z.lt_le_trans; [exact H|].
  apply Z.pow_le_mono_r; [lia|]. unfold slice. rewrite length_take. lia.
Qed.

Lemma elem_size_pos t : 1 <= elem_size t <= 4.
Proof. destruct t; cbn; lia. Qed.

(** C5 (as stated): three records per page and records of 4096 bytes satisfy
    the conditions of the claim, and the one body page is read, but only node
    0 is aggregated: the degree fields of slots 1 and 2 would lie beyond the
    page, so the reader leaves the page at slot 1. *)
Lemma wide_records_skip_nodes :
  fst (fst (read_disk_header (mkStream wide_record_file 0 true))) = wide_record_geometry
  /\ record_geometry wide_record_geometry (elem_size kFloat)
  /\ pages_present wide_record_file wide_record_geometry
  /\ disk_visited (Some wide_record_file) kFloat = Some ([(0, 2)], 1).
Proof.
  split; [vm_compute; reflexivity|].
  split; [unfold record_geometry; cbn; lia|].
  split; [unfold pages_present; vm_compute; discriminate|].
  vm_compute; reflexivity.
Qed.

(** C5 (amended): for a layout-C file with [records_per_page >= 1],
    [n_dims * element_size + 4 <= max_record_len <= 4096], the degree field of
    every slot of a page inside the page (so whenever
    [records_per_page * max_record_len <= 4096]) and all body pages present,
    the reader reads exactly [ceil(n_nodes / records_per_page)] pages at the
    body offset and aggregates the degree field of each node id in
    [0 .. n_nodes - 1] exactly once, in order, also when the last page is
    only partly populated. *)
Theorem paged_reader_visits_all bs data_type g data_offset ins :
  let esz := elem_size data_type in
  read_disk_header (mkStream bs 0 true) = (g, data_offset, ins) ->
  is_good ins = true ->
  record_geometry g esz -> slots_in_page g esz ->
  pages_present bs g -> file_size_ok bs ->
  disk_visited (Some bs) data_type
  = Some (nodes_with_degrees bs g esz (disk_nnodes g), pages_needed g)
  /\ compute_graph_stats_from_disk_index (Some bs) data_type
     = Some (paged_stats g
               (aggregate 2 (map (degree_field bs g esz) (iota (disk_nnodes g))))).
Proof.
  intros esz Hh Hg Hgeo Hfit Hpages Hsize.
  pose proof (read_disk_header_cases bs) as Hc. cbv zeta in Hc. rewrite Hh in Hc.
  destruct Hc as (Hoff & _ & Hc). destruct (Hc Hg) as [Hgeom Hins].
  pose proof (geometry_at_range bs
                (if tag_accepted (mkStream bs 0 true) then 8 else 0)) as Hrange.
  cbv zeta in Hrange. rewrite <- Hgeom in Hrange.
  destruct Hrange as (Hn & Hd & HL & Hr0).
  pose proof (elem_size_pos data_type) as Hesz. fold esz in Hesz.
  pose proof Hgeo as (Hr & Hlo & Hhi).
  destruct (pages_needed_bounds g Hr (proj1 Hn)) as (HP0 & HPn & HPr).
  assert (Hc0 : 0 <= disk_ndims g * esz) by nia.
  unfold slots_in_page in Hfit. unfold file_size_ok in Hsize.
  assert (HP : pages_needed g * 4096 + 4096 <= Z.of_nat (length bs)).
  { unfold pages_present, kDiskIndexDataOffset, kSectorLen in Hpages. lia. }
  assert (Hrmax : nnodes_per_sector g <= 1025) by nia.
  assert (Hnmax : disk_nnodes g + nnodes_per_sector g - 1 < 2 ^ 64) by nia.
  destruct (sector_loop_visits bs g esz Hgeo Hfit Hc0 Hn Hpages
              (Z.to_nat (pages_needed g)) 0 paged_init)
    as (st & Hloop & [Hvis Hacc] & Hpg).
  { lia. }
  { lia. }
  { replace (Z.min (disk_nnodes g) (0 * nnodes_per_sector g)) with 0 by lia.
    split; reflexivity. }
  { reflexivity. }
  assert (Hscan : disk_index_scan (Some bs) data_type = Some (paged_stats g (pg_acc st), st)).
  { unfold disk_index_scan, open. rewrite Hh, Hg. cbn [negb]. fold esz.
    unfold bad_geometry, kSectorLen.
    rewrite (wrap64_small (disk_ndims g * esz)) by lia.
    rewrite (wrap64_small (disk_ndims g * esz + 4)) by lia.
    destruct (Z.ltb_spec (max_node_len g) (disk_ndims g * esz + 4)); [lia|].
    destruct (Z.ltb_spec 4096 (max_node_len g)); [lia|]. cbn [orb].
    destruct (Z.eqb_spec (nnodes_per_sector g) 0); [lia|].
    rewrite (wrap64_small (disk_nnodes g + nnodes_per_sector g - 1)) by lia.
    fold (pages_needed g).
    rewrite Hoff, Hins. unfold seekg_beg. change (as_streamoff 4096) with 4096.
    rewrite seek_to_good by (cbn; auto; lia). cbn [content].
    change (kDiskIndexDataOffset + 0 * kSectorLen) with 4096 in Hloop.
    rewrite Hloop. reflexivity. }
  split.
  - unfold disk_visited. rewrite Hscan. cbn. now rewrite Hvis, Hpg.
  - unfold compute_graph_stats_from_disk_index. rewrite Hscan. cbn [option_map fst].
    rewrite Hacc, Hvis. unfold nodes_with_degrees. rewrite map_map. cbn [snd].
    reflexivity.
Qed.

Lemma paged_reader_visits_all_witness :
  (read_disk_header (mkStream ten_node_file 0 true)
   = (ten_node_geometry, 4096, mkStream ten_node_file 48 true)
   /\ record_geometry ten_node_geometry (elem_size kFloat)
   /\ slots_in_page ten_node_geometry (elem_size kFloat)
   /\ pages_present ten_node_file ten_node_geometry
   /\ file_size_ok ten_node_file)
  /\ disk_visited (Some ten_node_file) kFloat
     = Some ([(0, 2); (1, 1); (2, 0); (3, 3); (4, 1);
              (5, 4); (6, 2); (7, 1); (8, 2); (9, 1)], 4).
Proof.
  assert (H : read_disk_header (mkStream ten_node_file 0 true)
              = (ten_node_geometry, 4096, mkStream ten_node_file 48 true)
              /\ record_geometry ten_node_geometry (elem_size kFloat)
              /\ slots_in_page ten_node_geometry (elem_size kFloat)
              /\ pages_present ten_node_file ten_node_geometry
              /\ file_size_ok ten_node_file).
  { split; [reflexivity|].
    split; [unfold record_geometry; cbn; lia|].
    split; [unfold slots_in_page; cbn; lia|].
    split; [unfold pages_present; vm_compute; discriminate|].
    unfold file_size_ok; vm_compute; reflexivity. }
  split; [exact H|]. destruct H as (H1 & H2 & H3 & H4 & H5).
  rewrite (proj1 (paged_reader_visits_all ten_node_file kFloat _ _ _
                    H1 eq_refl H2 H3 H4 H5)).
  vm_compute. reflexivity.
Defined.

(** ** The small-graph sampler *)

Lemma length_add_reverse_edges N id nbrs : forall inn,
  length (add_reverse_edges N id nbrs inn) = length inn.
Proof.
  unfold add_reverse_edges.
  induction nbrs as [|v nbrs IH]; intros inn; cbn [fold_left]; [reflexivity|].
  rewrite IH. destruct (v <? N); [apply length_alter | reflexivity].
Qed.

(** What the reverse-edge loop appends to the list of slot [i]. *)
Lemma add_reverse_edges_lookup N id nbrs : forall inn i l,
  Forall (fun v => 0 <= v) nbrs ->
  inn !! i = Some l ->
  exists extra,
    add_reverse_edges N id nbrs inn !! i = Some (l ++ extra)
    /\ forall x, In x extra <->
                 (x = wrap32 id /\ In (Z.of_nat i) nbrs /\ Z.of_nat i < N).
Proof.
  unfold add_reverse_edges.
  induction nbrs as [|v nbrs IH]; intros inn i l Hpos Hl; cbn [fold_left].
  - exists []. rewrite app_nil_r. split; [exact Hl|].
    intros x. cbn. tauto.
  - inversion Hpos as [|? ? Hv Hrest]; subst.
    destruct (Z.ltb_spec v N) as [HvN|HvN].
    + destruct (decide (Z.to_nat v = i)) as [Heq|Hne].
      * destruct (IH (alter (fun l0 => l0 ++ [wrap32 id]) (Z.to_nat v) inn) i
                     (l ++ [wrap32 id]) Hrest) as (extra & Hlook & Hextra).
        { rewrite Heq, list_lookup_alter_eq, Hl. reflexivity. }
        exists (wrap32 id :: extra). split.
        { rewrite Hlook, <- app_assoc. reflexivity. }
        intros x. cbn [In]. rewrite Hextra.
        assert (v = Z.of_nat i) by lia. subst v.
        split.
        -- intros [<-|(-> & Hin & Hi)]; auto.
        -- intros (-> & _ & _). now left.
      * destruct (IH (alter (fun l0 => l0 ++ [wrap32 id]) (Z.to_nat v) inn) i l Hrest)
          as (extra & Hlook & Hextra).
        { rewrite list_lookup_alter_ne by exact Hne. exact Hl. }
        exists extra. split; [exact Hlook|].
        intros x. rewrite Hextra. cbn [In].
        split.
        -- intros (-> & Hin & Hi). auto.
        -- intros (-> & [Hv'|Hin] & Hi); [lia | auto].
    + destruct (IH inn i l Hrest Hl) as (extra & Hlook & Hextra).
      exists extra. split; [exact Hlook|].
      intros x. rewrite Hextra. cbn [In].
      split.
      * intros (-> & Hin & Hi). auto.
      * intros (-> & [Hv'|Hin] & Hi); [lia | auto].
Qed.

Lemma sampled_init N : sampled N 0 (replicate (Z.to_nat N) []) (replicate (Z.to_nat N) []).
Proof.
  unfold sampled. rewrite !length_replicate. repeat split.
  - apply lookup_replicate in H as [-> _]. contradiction.
  - apply lookup_replicate in H as [-> _]. contradiction.
  - apply lookup_replicate in H as [-> _]. contradiction.
  - intros (j & lj & Hj & _). lia.
Qed.

(** Storing node [m] keeps the two vectors consistent. *)
Lemma sampled_step N m out inn nbrs :
  sampled N m out inn -> 0 <= m < N -> Forall (fun v => 0 <= v) nbrs ->
  sampled N (m + 1) (<[Z.to_nat m := nbrs]> out) (add_reverse_edges N m nbrs inn).
Proof.
  intros (Hlo & Hli & Hout & Hin) Hm Hpos.
  unfold sampled. rewrite length_insert, length_add_reverse_edges.
  split; [exact Hlo|]. split; [exact Hli|]. split.
  - intros j l v Hj Hv. apply list_lookup_insert_Some in Hj.
    destruct Hj as [(<- & <- & _)|(Hne & Hj)].
    + split; [lia|]. rewrite Forall_forall in Hpos. apply Hpos.
      now apply list_elem_of_In.
    + destruct (Hout j l v Hj Hv). split; [lia | assumption].
  - intros i l' x Hl'.
    assert (Hi : (i < length inn)%nat).
    { apply lookup_lt_Some in Hl'. now rewrite length_add_reverse_edges in Hl'. }
    destruct (lookup_lt_is_Some_2 inn i Hi) as [l Hl].
    destruct (add_reverse_edges_lookup N m nbrs inn i l Hpos Hl)
      as (extra & Hlook & Hextra).
    rewrite Hlook in Hl'. injection Hl' as <-.
    rewrite in_app_iff, Hextra, (Hin i l x Hl).
    split.
    + intros [(j & lj & Hj & Hx & Hoj & Hil)|(-> & Hil & _)].
      * exists j, lj. repeat split; try assumption; try lia.
        rewrite list_lookup_insert_ne by lia. exact Hoj.
      * exists m, nbrs. repeat split; try assumption; try lia.
        apply list_lookup_insert_eq. lia.
    + intros (j & lj & Hj & Hx & Hoj & Hil).
      destruct (Z.eq_dec j m) as [->|Hne].
      * right. rewrite list_lookup_insert_eq in Hoj by lia.
        injection Hoj as <-. repeat split; [assumption | assumption | lia].
      * left. exists j, lj. rewrite list_lookup_insert_ne in Hoj by lia.
        repeat split; try assumption; lia.
Qed.

Lemma decode_u32s_nonneg n : forall bs, Forall (fun v => 0 <= v) (decode_u32s n bs).
Proof.
  induction n as [|n IH]; intros bs; cbn [decode_u32s]; constructor.
  - apply le_combine_nonneg.
  - apply IH.
Qed.

Lemma repeat_zero_nonneg n : Forall (fun v => 0 <= v) (repeat 0 n).
Proof. induction n; cbn; constructor; [lia | assumption]. Qed.

Lemma small_graph_loop_sampled E N : forall cnt st,
  sampled N (sm_node_id st) (sm_out_nbrs st) (sm_in_nbrs st) ->
  0 <= sm_node_id st <= N ->
  let st' := small_graph_loop cnt E N st in
  sampled N (sm_node_id st') (sm_out_nbrs st') (sm_in_nbrs st')
  /\ 0 <= sm_node_id st' <= N.
Proof.
  induction cnt as [|cnt IH]; intros st Hs Hm; cbn [small_graph_loop]; [auto|].
  destruct (negb _) eqn:Hcond; [auto|].
  apply negb_false_iff in Hcond.
  apply andb_true_iff in Hcond as [Hcond _].
  apply andb_true_iff in Hcond as [_ Hlt]. apply Z.ltb_lt in Hlt.
  destruct (read_uint 4 0 (sm_in st)) as [k in1].
  destruct (negb (is_good in1)); [auto|].
  assert (Hnext : forall nbrs in2,
             Forall (fun v => 0 <= v) nbrs ->
             let st' := small_graph_loop cnt E N
                          (mkSample in2
                             (wrap64 (sm_bytes_read st + (4 + Z.of_nat (length nbrs) * 4)))
                             (sm_node_id st + 1)
                             (<[Z.to_nat (sm_node_id st) := nbrs]> (sm_out_nbrs st))
                             (add_reverse_edges N (sm_node_id st) nbrs (sm_in_nbrs st))) in
             sampled N (sm_node_id st') (sm_out_nbrs st') (sm_in_nbrs st')
             /\ 0 <= sm_node_id st' <= N).
  { intros nbrs in2 Hpos. apply IH; cbn; [|lia].
    apply sampled_step; [exact Hs | lia | exact Hpos]. }
  destruct (0 <? k).
  - destruct (read (k * 4) in1) as [[bs|] in2].
    + destruct (negb (is_good in2)); [auto|]. apply Hnext. apply decode_u32s_nonneg.
    + destruct (negb (is_good in2)); [auto|]. apply Hnext. apply repeat_zero_nonneg.
  - destruct (negb (is_good in1)); [auto|]. apply Hnext. constructor.
Qed.

Lemma memcpy_u32s_nonneg sector off n nbrs :
  memcpy_u32s sector off n = Some nbrs -> Forall (fun v => 0 <= v) nbrs.
Proof.
  unfold memcpy_u32s. destruct (_ && _); [|discriminate].
  intros H. injection H as <-. apply decode_u32s_nonneg.
Qed.

Lemma sample_slot_loop_sampled sec g nh N sector : forall cnt j st st',
  sampled N (ds_nodes_read st) (ds_out_nbrs st) (ds_in_nbrs st) ->
  0 <= ds_nodes_read st <= N ->
  sample_slot_loop cnt j sec g nh N sector st = Some st' ->
  sampled N (ds_nodes_read st') (ds_out_nbrs st') (ds_in_nbrs st')
  /\ 0 <= ds_nodes_read st' <= N.
Proof.
  induction cnt as [|cnt IH]; intros j st st' Hs Hm Hloop; cbn [sample_slot_loop] in Hloop.
  - injection Hloop as <-. auto.
  - destruct (Z.ltb_spec (ds_nodes_read st) N) as [Hlt|_]; cbn [negb] in Hloop;
      [|injection Hloop as <-; auto].
    destruct (disk_nnodes g <=? _); [injection Hloop as <-; auto|].
    destruct (kSectorLen <? _); [injection Hloop as <-; auto|].
    destruct (memcpy_u32 sector _) as [nnbrs|]; [|discriminate].
    match type of Hloop with
    | match ?copy with _ => _ end = _ => destruct copy as [nbrs|] eqn:Hcopy
    end; [|discriminate].
    apply IH in Hloop; [exact Hloop | | cbn; lia].
    cbn [ds_nodes_read ds_out_nbrs ds_in_nbrs].
    apply sampled_step; [exact Hs | lia |].
    destruct (0 <? _).
    + eapply memcpy_u32s_nonneg. exact Hcopy.
    + injection Hcopy as <-. apply repeat_zero_nonneg.
Qed.

Lemma sample_sector_loop_sampled g nh N : forall cnt sec ins st st',
  sampled N (ds_nodes_read st) (ds_out_nbrs st) (ds_in_nbrs st) ->
  0 <= ds_nodes_read st <= N ->
  sample_sector_loop cnt sec g nh N ins st = Some st' ->
  sampled N (ds_nodes_read st') (ds_out_nbrs st') (ds_in_nbrs st')
  /\ 0 <= ds_nodes_read st' <= N.
Proof.
  induction cnt as [|cnt IH]; intros sec ins st st' Hs Hm Hloop;
    cbn [sample_sector_loop] in Hloop.
  - injection Hloop as <-. auto.
  - destruct (negb _); [injection Hloop as <-; auto|].
    destruct (read kSectorLen ins) as [[sector|] in1]; [|injection Hloop as <-; auto].
    destruct (sample_slot_loop _ _ _ _ _ _ _ _) as [st1|] eqn:Hslot; [|discriminate].
    apply sample_slot_loop_sampled in Hslot; [|assumption|assumption].
    destruct Hslot as [Hs1 Hm1].
    eapply IH; eassumption.
Qed.

(** ** The tag heuristic at work *)

(** An untagged header that announces five nodes or more starts with four
    bytes that read as an integer of at least 5: the resolver takes it for a
    tagged header, reads the geometry eight bytes too far, and the geometry
    check rejects what it finds. *)
Example untagged_header_taken_for_tagged :
  tag_accepted (mkStream seven_node_untagged_file 0 true) = true
  /\ fst (fst (read_disk_header (mkStream seven_node_untagged_file 0 true)))
     = mkGeometry 2 4 1000 3 0
  /\ compute_graph_stats_from_disk_index (Some seven_node_untagged_file) kFloat
     = Some default_stats.
Proof. repeat split; vm_compute; reflexivity. Qed.

(** ** The statistics do not depend on the order of the nodes *)

Lemma wrap64_add_swap t x y :
  wrap64 (wrap64 (t + x) + y) = wrap64 (wrap64 (t + y) + x).
Proof.
  unfold wrap64. rewrite !Zplus_mod_idemp_l. f_equal. lia.
Qed.

Lemma acc_step_swap thr a x y :
  acc_step thr (acc_step thr a x) y = acc_step thr (acc_step thr a y) x.
Proof.
  unfold acc_step; cbn [acc_total_edges acc_degree_min acc_degree_max acc_weak_count].
  f_equal.
  - apply wrap64_add_swap.
  - destruct (Z.ltb_spec x (acc_degree_min a)), (Z.ltb_spec y (acc_degree_min a));
      repeat match goal with
             | |- context [?u <? ?v] => destruct (Z.ltb_spec u v)
             end; lia.
  - destruct (Z.ltb_spec (acc_degree_max a) x), (Z.ltb_spec (acc_degree_max a) y);
      repeat match goal with
             | |- context [?u <? ?v] => destruct (Z.ltb_spec u v)
             end; lia.
  - destruct (x <? thr), (y <? thr); reflexivity.
Qed.

Lemma fold_acc_step_permutation thr l l' :
  Permutation l l' ->
  forall a, fold_left (acc_step thr) l a = fold_left (acc_step thr) l' a.
Proof.
  induction 1; intros a; cbn [fold_left].
  - reflexivity.
  - apply IHPermutation.
  - now rewrite acc_step_swap.
  - now rewrite IHPermutation1.
Qed.

Lemma aggregate_permutation thr l l' :
  Permutation l l' -> aggregate thr l = aggregate thr l'.
Proof. intros H. unfold aggregate. now apply fold_acc_step_permutation. Qed.

(** X1. The statistics of an in-memory graph do not depend on the order in
    which the vector lists the nodes: two vectors that hold the same
    neighbor lists in a different order, each as long as the announced node
    count, give the same result. *)
Theorem compute_graph_stats_permutation graph graph' nd fz ep thr :
  Permutation graph graph' ->
  0 <= nd -> 0 <= fz ->
  Z.of_nat (length graph) = nd + fz -> nd + fz < 2 ^ 64 ->
  compute_graph_stats graph nd fz ep thr = compute_graph_stats graph' nd fz ep thr.
Proof.
  intros Hp Hnd Hfz Hlen Hsz.
  assert (Hlen' : length graph' = length graph) by (symmetry; now apply Permutation_length).
  destruct (Z.eq_dec (nd + fz) 0) as [Hz | Hnz].
  - unfold compute_graph_stats, compute_graph_stats_touched.
    rewrite Hz. reflexivity.
  - unfold compute_graph_stats.
    rewrite !compute_graph_stats_touched_in_range by lia.
    cbn [fst].
    replace (Z.to_nat (nd + fz)) with (length graph) by lia.
    rewrite firstn_all.
    replace (take (length graph) graph') with graph'
      by (rewrite <- Hlen'; symmetry; apply firstn_all).
    assert (Ha : aggregate thr (degrees graph) = aggregate thr (degrees graph')).
    { apply aggregate_permutation. unfold degrees. now apply Permutation_map. }
    now rewrite Ha.
Qed.

Lemma compute_graph_stats_permutation_witness :
  compute_graph_stats [[1; 2]; []; [0]] 2 1 0 2
  = compute_graph_stats [[]; [0]; [1; 2]] 2 1 0 2.
Proof.
  apply compute_graph_stats_permutation; [|lia|lia|reflexivity|lia].
  apply perm_trans with [[]; [1; 2]; [0]].
  - apply perm_swap.
  - apply perm_skip, perm_swap.
Defined.

(** ** What every result of the file scanner satisfies *)

Lemma zmin_le_member l d : In d l -> zmin l <= d.
Proof.
  destruct l as [|x l]; [intros []|]. intros H. unfold zmin.
  now apply fold_min_le.
Qed.

Lemma zmax_ge_member l d : In d l -> d <= zmax l.
Proof.
  intros H. unfold zmax. apply fold_max_ge. now right.
Qed.

Lemma zmin_le_zmax l : Forall (fun d => 0 <= d) l -> zmin l <= zmax l.
Proof.
  destruct l as [|x l]; [intros _; unfold zmin, zmax; simpl; lia|].
  intros _. etransitivity.
  - apply (zmin_le_member (x :: l) x). now left.
  - apply zmax_ge_member. now left.
Qed.

Lemma zmin_nonneg l : Forall (fun d => 0 <= d) l -> 0 <= zmin l.
Proof.
  destruct l as [|x l]; [intros _; unfold zmin; lia|].
  intros H. unfold zmin. rewrite List.Forall_forall in H. apply H, fold_min_in.
Qed.

Lemma zmax_member_or_zero l : l = [] /\ zmax l = 0 \/ In (zmax l) l \/ zmax l = 0.
Proof.
  unfold zmax. destruct (fold_max_in l 0) as [H | H]; auto.
Qed.

Lemma weak_in_bounds thr l : 0 <= weak_in thr l <= Z.of_nat (length l).
Proof.
  unfold weak_in. pose proof (List.filter_length_le (fun d => d <? thr) l). lia.
Qed.

(** X2. Whatever the bytes of the file and the offset, the nine numbers that
    the file scanner returns fit together: the minimum is at most the
    maximum, the weak count is at most the node count, the edge total lies
    between node count times minimum and node count times maximum, every
    degree is below 2^32, the average lies between minimum and maximum, and
    the records counted cannot outweigh the file by more than one record. *)
Theorem compute_graph_stats_from_file_consistent bs offset s :
  file_size_ok bs ->
  compute_graph_stats_from_file (Some bs) offset = Some s ->
  0 <= degree_min s <= degree_max s
  /\ degree_max s < 2 ^ 32
  /\ 0 <= weak_count s <= total_nodes s
  /\ degree_min s * total_nodes s <= total_edges s <= degree_max s * total_nodes s
  /\ 4 * total_edges s + 4 * total_nodes s <= Z.of_nat (length bs) + 2 ^ 34
  /\ (0 < total_nodes s ->
      (inject_Z (degree_min s) <= degree_avg s <= inject_Z (degree_max s))%Q).
Proof.
  intros Hsz Hs.
  destruct (header_readable bs offset) eqn:Hh.
  - destruct (compute_graph_stats_from_file_records bs offset Hh Hsz) as [Hr _].
    cbv zeta in Hr.
    set (o := as_streamoff offset) in *.
    set (rs := records_until (S (length bs)) bs (header_expected bs o)
                             (o + 24) kGraphHeaderSize) in *.
    pose proof (records_until_degrees (S (length bs)) bs (header_expected bs o)
                                      (o + 24) kGraphHeaderSize) as Hd.
    fold rs in Hd.
    pose proof (records_until_weight (S (length bs)) bs (header_expected bs o)
                                     (o + 24) kGraphHeaderSize) as Hw.
    cbv zeta in Hw. fold rs in Hw.
    pose proof (header_readable_offset bs offset Hh) as [Ho1 Ho2]. fold o in Ho1, Ho2.
    set (degs := map snd rs) in *.
    assert (Hnn : Forall (fun d => 0 <= d) degs).
    { rewrite List.Forall_forall in Hd |- *. intros d Hin. apply Hd in Hin. lia. }
    assert (Hmm : zmin degs <= zmax degs) by now apply zmin_le_zmax.
    assert (Hmin0 : 0 <= zmin degs) by now apply zmin_nonneg.
    assert (Hmax : zmax degs < 2 ^ 32).
    { destruct (zmax_member_or_zero degs) as [[_ H0] | [Hin | H0]]; try lia.
      rewrite List.Forall_forall in Hd. apply Hd in Hin. lia. }
    assert (Hb : zmin degs * Z.of_nat (length degs) <= zsum degs
                 <= zmax degs * Z.of_nat (length degs)).
    { apply zsum_bounds. intros d Hin. split.
      - now apply zmin_le_member.
      - now apply zmax_ge_member. }
    assert (Hl : length degs = length rs) by (unfold degs; apply length_map).
    assert (Hnil : rs = [] -> degs = []) by (intros E; unfold degs; now rewrite E).
    clearbody degs. clearbody rs.
    rewrite Hr in Hs. injection Hs as <-.
    unfold stats_over; cbn [degree_min degree_max weak_count total_nodes total_edges
                            degree_avg].
    split; [lia|]. split; [exact Hmax|].
    split; [apply weak_in_bounds|].
    split; [exact Hb|].
    split.
    + destruct Hw as [Hrs | [_ Hw]].
      * rewrite (Hnil Hrs). simpl. lia.
      * rewrite Hl. lia.
    + intros Hpos. destruct (Z.ltb_spec 0 (Z.of_nat (length degs))); [|lia].
      now apply quotient_between.
  - rewrite compute_graph_stats_from_file_no_header in Hs by assumption.
    injection Hs as <-. unfold default_stats; cbn.
    split; [lia|]. split; [lia|]. split; [lia|]. split; [lia|].
    split; [lia|]. intros; lia.
Qed.

Lemma compute_graph_stats_from_file_consistent_witness :
  let s := stats_over [2; 1; 0; 3] 3 1 in
  (file_size_ok sample_graph_file
   /\ compute_graph_stats_from_file (Some sample_graph_file) 0 = Some s)
  /\ 0 <= degree_min s <= degree_max s
  /\ degree_max s < 2 ^ 32
  /\ 0 <= weak_count s <= total_nodes s
  /\ degree_min s * total_nodes s <= total_edges s <= degree_max s * total_nodes s
  /\ 4 * total_edges s + 4 * total_nodes s
     <= Z.of_nat (length sample_graph_file) + 2 ^ 34
  /\ (0 < total_nodes s ->
      (inject_Z (degree_min s) <= degree_avg s <= inject_Z (degree_max s))%Q).
Proof.
  intros s.
  assert (H : file_size_ok sample_graph_file
              /\ compute_graph_stats_from_file (Some sample_graph_file) 0 = Some s).
  { split; [unfold file_size_ok; vm_compute; reflexivity | vm_compute; reflexivity]. }
  split; [exact H|].
  exact (compute_graph_stats_from_file_consistent sample_graph_file 0 s
           (proj1 H) (proj2 H)).
Defined.

(** ** The file scanner against the in-memory scanner *)

Lemma degrees_fit_range recs :
  degrees_fit recs -> Forall (fun d => 0 <= d < 2 ^ 32) (degrees recs).
Proof.
  unfold degrees_fit, degrees. induction 1; cbn [map]; constructor; [lia | assumption].
Qed.

Lemma zsum_degrees_size recs : 4 * zsum (degrees recs) <= records_size recs.
Proof.
  unfold records_size, degrees, record_size, zsum.
  induction recs as [|r recs IH]; cbn [map fold_right] in *; lia.
Qed.

(** X3. Writing a graph in the raw layout and scanning the file gives the
    statistics that the in-memory scanner gives for the graph itself (with
    the default weak threshold), when the header announces the size of the
    file and the active and frozen counts add up to the number of lists. *)
Theorem compute_graph_stats_from_file_agrees recs nd fz ep w :
  degrees_fit recs -> 0 <= ep < 2 ^ 32 -> 0 <= nd -> 0 <= fz ->
  nd + fz = Z.of_nat (length recs) ->
  file_size_ok (graph_header (24 + records_size recs) w ep fz ++ graph_records recs) ->
  compute_graph_stats_from_file
    (Some (graph_header (24 + records_size recs) w ep fz ++ graph_records recs)) 0
  = compute_graph_stats recs nd fz ep default_weak_threshold.
Proof.
  intros Hfit Hep Hnd Hfz Hn Hsz.
  pose proof (scan_written_file [] w ep fz recs (length recs) []) as Hscan.
  cbv zeta in Hscan. rewrite firstn_all in Hscan.
  cbn [app length] in Hscan. change (Z.of_nat 0) with 0 in Hscan.
  rewrite !app_nil_r in Hscan.
  assert (Hsz' : file_size_ok (graph_header (24 + records_size recs) w ep fz
                               ++ graph_records recs ++ [])) by now rewrite app_nil_r.
  assert (Hlen : Z.of_nat (length recs) < 2 ^ 62).
  { unfold file_size_ok in Hsz. rewrite length_app, Nat2Z.inj_add in Hsz.
    rewrite length_graph_records in Hsz.
    pose proof (records_size_bounds recs). lia. }
  assert (Hsum : zsum (degrees recs) < 2 ^ 64).
  { unfold file_size_ok in Hsz. rewrite length_app, Nat2Z.inj_add in Hsz.
    rewrite length_graph_records in Hsz.
    pose proof (zsum_degrees_size recs). lia. }
  rewrite Hscan; [|assumption|lia|lia|now rewrite app_nil_r in Hsz'|lia].
  assert (Hdl : Z.of_nat (length (degrees recs)) = Z.of_nat (length recs))
    by (unfold degrees; now rewrite length_map).
  destruct (Z.eq_dec (nd + fz) 0) as [Hz | Hnz].
  - assert (recs = []) by (destruct recs; [reflexivity | simpl in Hn; lia]).
    subst recs. assert (nd = 0) by lia. assert (fz = 0) by lia. subst nd fz.
    reflexivity.
  - unfold compute_graph_stats.
    rewrite compute_graph_stats_touched_in_range by lia. cbn [fst].
    rewrite Hn, Nat2Z.id, firstn_all. f_equal.
    rewrite <- (aggregate_closed_form (degrees recs) ep fz);
      [|now apply degrees_fit_range|assumption|lia].
    cbv zeta. rewrite Hdl. unfold default_weak_threshold.
    destruct (Z.leb_spec fz (Z.of_nat (length recs))); [|lia].
    destruct (Z.ltb_spec 0 (Z.of_nat (length recs))); [|lia].
    f_equal. lia.
Qed.

Lemma compute_graph_stats_from_file_agrees_witness :
  compute_graph_stats_from_file (Some sample_graph_file) 0
  = compute_graph_stats sample_records 3 1 3 default_weak_threshold.
Proof.
  apply (compute_graph_stats_from_file_agrees sample_records 3 1 3 7).
  - unfold degrees_fit, sample_records. repeat constructor.
  - lia.
  - lia.
  - lia.
  - reflexivity.
  - unfold file_size_ok. vm_compute. reflexivity.
Defined.

(** ** Headers of the disk index, written and read back *)

Lemma slice_app_l a b off n :
  0 <= off -> 0 <= n -> off + n <= Z.of_nat (length a) ->
  slice (a ++ b) off n = slice a off n.
Proof.
  intros Hoff Hn Hlen. unfold slice.
  rewrite drop_app_le by lia. rewrite take_app_le; [reflexivity|].
  rewrite length_drop. lia.
Qed.

Lemma slice_at pre x post off :
  off = Z.of_nat (length pre) ->
  slice (pre ++ x ++ post) off (Z.of_nat (length x)) = x.
Proof. intros ->. apply slice_app_middle. Qed.

Lemma slice_prefix x post : slice (x ++ post) 0 (Z.of_nat (length x)) = x.
Proof. apply (slice_app_middle [] x post). Qed.

Lemma le_combine_low4_u64 z rest :
  le_combine (slice (u64 z ++ rest) 0 4) = z mod 2 ^ 32.
Proof.
  unfold slice, u64. change (Z.to_nat 0) with 0%nat. change (Z.to_nat 4) with 4%nat.
  rewrite drop_0.
  rewrite take_app_le by (rewrite length_le_split; lia).
  rewrite le_combine_firstn, le_combine_split.
  change (8 * Z.of_nat 4) with 32. change (Z.of_nat 8 * 8) with 64.
  apply Z.mod_mod_divide. exists (2 ^ 32). reflexivity.
Qed.

Lemma length_geometry_bytes g :
  length (u64 (disk_nnodes g) ++ u64 (disk_ndims g) ++ u64 (medoid_id_on_file g)
          ++ u64 (max_node_len g) ++ u64 (nnodes_per_sector g)) = 40%nat.
Proof. reflexivity. Qed.

Lemma geometry_at_written pre g post o :
  geometry_fits g -> o = Z.of_nat (length pre) ->
  geometry_at (pre ++ (u64 (disk_nnodes g) ++ u64 (disk_ndims g)
                       ++ u64 (medoid_id_on_file g) ++ u64 (max_node_len g)
                       ++ u64 (nnodes_per_sector g)) ++ post) o = g.
Proof.
  intros (H1 & H2 & H3 & H4 & H5) ->. destruct g as [n d m l r]; cbn in *.
  unfold geometry_at. f_equal.
  - rewrite <- !app_assoc.
    rewrite (slice_at pre (u64 n) _ _ eq_refl). now apply le_combine_u64.
  - rewrite <- !app_assoc.
    rewrite (app_assoc pre (u64 n)).
    rewrite (slice_at (pre ++ u64 n) (u64 d) _ _);
      [now apply le_combine_u64 | rewrite length_app, Nat2Z.inj_add; reflexivity].
  - rewrite <- !app_assoc.
    rewrite (app_assoc pre (u64 n)), (app_assoc (pre ++ u64 n) (u64 d)).
    rewrite (slice_at ((pre ++ u64 n) ++ u64 d) (u64 m) _ _);
      [now apply le_combine_u64 | rewrite !length_app, !Nat2Z.inj_add; simpl; lia].
  - rewrite <- !app_assoc.
    rewrite (app_assoc pre (u64 n)), (app_assoc (pre ++ u64 n) (u64 d)),
      (app_assoc ((pre ++ u64 n) ++ u64 d) (u64 m)).
    rewrite (slice_at (((pre ++ u64 n) ++ u64 d) ++ u64 m) (u64 l) _ _);
      [now apply le_combine_u64 | rewrite !length_app, !Nat2Z.inj_add; simpl; lia].
  - rewrite <- !app_assoc.
    rewrite (app_assoc pre (u64 n)), (app_assoc (pre ++ u64 n) (u64 d)),
      (app_assoc ((pre ++ u64 n) ++ u64 d) (u64 m)),
      (app_assoc (((pre ++ u64 n) ++ u64 d) ++ u64 m) (u64 l)).
    rewrite (slice_at ((((pre ++ u64 n) ++ u64 d) ++ u64 m) ++ u64 l) (u64 r) _ _);
      [now apply le_combine_u64 | rewrite !length_app, !Nat2Z.inj_add; simpl; lia].
Qed.

Lemma length_tagged_header npts ndims g : length (tagged_header npts ndims g) = 4096%nat.
Proof. reflexivity. Qed.

Lemma length_untagged_header g : length (untagged_header g) = 4096%nat.
Proof. reflexivity. Qed.

Lemma read_disk_header_resolved bs base g :
  base = (if tag_accepted (mkStream bs 0 true) then 8 else 0) ->
  base + 40 <= Z.of_nat (length bs) ->
  geometry_at bs base = g ->
  read_disk_header (mkStream bs 0 true) = (g, 4096, mkStream bs (base + 40) true).
Proof.
  intros Hbase Hlen Hg.
  pose proof (read_disk_header_cases bs) as H. cbv zeta in H.
  rewrite <- Hbase in H.
  destruct (read_disk_header (mkStream bs 0 true)) as [[g' off] ins].
  destruct H as (Hoff & Hgood & Hrest).
  destruct (Z.leb_spec (base + 40) (Z.of_nat (length bs))); [|lia].
  destruct (Hrest Hgood) as [-> ->]. now rewrite Hoff, Hg.
Qed.

Lemma tagged_header_read npts ndims g rest :
  5 <= npts < 2 ^ 31 -> geometry_fits g ->
  read_disk_header (mkStream (tagged_header npts ndims g ++ rest) 0 true)
  = (g, 4096, mkStream (tagged_header npts ndims g ++ rest) 48 true).
Proof.
  intros Hn Hg.
  set (bs := tagged_header npts ndims g ++ rest).
  assert (Hlen : 4096 <= Z.of_nat (length bs)).
  { unfold bs. rewrite length_app, length_tagged_header. lia. }
  assert (Htag : tag_accepted (mkStream bs 0 true) = true).
  { rewrite tag_accepted_cases.
    destruct (Z.leb_spec 4 (Z.of_nat (length bs))); [|lia].
    destruct (Z.leb_spec 8 (Z.of_nat (length bs))); [|lia].
    rewrite andb_true_r. cbn [andb].
    unfold leading_int32, bs, tagged_header, pad_to.
    rewrite <- !app_assoc.
    change 4 with (Z.of_nat (length (u32 npts))) at 1.
    rewrite slice_prefix.
    rewrite le_combine_u32 by lia.
    unfold as_int32. destruct (Z.ltb_spec npts (2 ^ 31)); [|lia].
    apply Z.leb_le. lia. }
  change 48 with (8 + 40).
  apply read_disk_header_resolved; [now rewrite Htag | lia |].
  unfold bs, tagged_header, pad_to.
  match goal with
  | |- context [repeat Byte.x00 ?k] =>
      pose proof (geometry_at_written (u32 npts ++ u32 ndims) g
                    (repeat Byte.x00 k ++ rest) 8 Hg eq_refl) as Hw
  end.
  rewrite <- !app_assoc in Hw. rewrite <- !app_assoc. exact Hw.
Qed.

Lemma length_geometry_fields g : length (geometry_fields g) = 40%nat.
Proof. reflexivity. Qed.

Lemma untagged_tag g w rest :
  tag_accepted (mkStream (geometry_fields g ++ u64 w ++ rest) 0 true)
  = (5 <=? as_int32 (disk_nnodes g mod 2 ^ 32)).
Proof.
  set (bs := geometry_fields g ++ u64 w ++ rest).
  assert (Hlen : 48 <= Z.of_nat (length bs)).
  { unfold bs. rewrite !length_app, length_geometry_fields, length_u64. lia. }
  rewrite tag_accepted_cases.
  destruct (Z.leb_spec 4 (Z.of_nat (length bs))); [|lia].
  destruct (Z.leb_spec 8 (Z.of_nat (length bs))); [|lia].
  rewrite andb_true_r. cbn [andb].
  unfold leading_int32, bs, geometry_fields.
  rewrite <- !app_assoc. now rewrite le_combine_low4_u64.
Qed.

Lemma untagged_read_shifted g w rest :
  geometry_fits g -> 0 <= w < 2 ^ 64 ->
  5 <= as_int32 (disk_nnodes g mod 2 ^ 32) ->
  read_disk_header (mkStream (geometry_fields g ++ u64 w ++ rest) 0 true)
  = (shifted g w, 4096, mkStream (geometry_fields g ++ u64 w ++ rest) (8 + 40) true).
Proof.
  intros Hg Hw Hlow.
  set (bs := geometry_fields g ++ u64 w ++ rest).
  assert (Hlen : 48 <= Z.of_nat (length bs)).
  { unfold bs. rewrite !length_app, length_geometry_fields, length_u64. lia. }
  apply read_disk_header_resolved.
  - unfold bs. rewrite untagged_tag.
    destruct (Z.leb_spec 5 (as_int32 (disk_nnodes g mod 2 ^ 32))); [reflexivity|lia].
  - lia.
  - destruct Hg as (H1 & H2 & H3 & H4 & H5).
    unfold bs, geometry_fields.
    pose proof (geometry_at_written (u64 (disk_nnodes g)) (shifted g w) rest 8) as Hs.
    cbn [shifted disk_nnodes disk_ndims medoid_id_on_file max_node_len
         nnodes_per_sector] in Hs.
    assert (Hf : geometry_fits (shifted g w))
      by (unfold geometry_fits, shifted; cbn; lia).
    specialize (Hs Hf eq_refl). rewrite <- Hs.
    rewrite <- !app_assoc. reflexivity.
Qed.

(** X5. The five geometry fields written at offset 0, followed by any 64-bit
    word [w] and by anything else, are read back as written exactly when the
    low 32 bits of the node count, taken as a signed integer, are below 5.
    From 5 on the resolver takes the header for a tagged one and returns the
    geometry found eight bytes further: every field holds the value of its
    successor, and the number of records per sector is [w] (0 in a header
    that is padded with zeros). *)
Theorem untagged_header_resolution g w rest :
  geometry_fits g -> 0 <= w < 2 ^ 64 ->
  fst (fst (read_disk_header (mkStream (geometry_fields g ++ u64 w ++ rest) 0 true)))
  = if 5 <=? as_int32 (disk_nnodes g mod 2 ^ 32) then shifted g w else g.
Proof.
  intros Hg Hw.
  destruct (5 <=? as_int32 (disk_nnodes g mod 2 ^ 32)) eqn:Hlow.
  - apply Z.leb_le in Hlow. now rewrite untagged_read_shifted.
  - set (bs := geometry_fields g ++ u64 w ++ rest).
    assert (Hlen : 48 <= Z.of_nat (length bs)).
    { unfold bs. rewrite !length_app, length_geometry_fields, length_u64. lia. }
    rewrite (read_disk_header_resolved bs 0 g);
      [reflexivity | unfold bs; now rewrite untagged_tag, Hlow | lia |].
    unfold bs, geometry_fields.
    exact (geometry_at_written [] g (u64 w ++ rest) 0 Hg eq_refl).
Qed.

Lemma untagged_header_resolution_witness :
  fst (fst (read_disk_header
              (mkStream (geometry_fields (mkGeometry 7 2 0 1000 4) ++ u64 1 ++ []) 0 true)))
  = if 5 <=? as_int32 (disk_nnodes (mkGeometry 7 2 0 1000 4) mod 2 ^ 32)
    then shifted (mkGeometry 7 2 0 1000 4) 1 else mkGeometry 7 2 0 1000 4.
Proof.
  apply untagged_header_resolution.
  - unfold geometry_fits. cbn. lia.
  - lia.
Defined.

(** X6. An untagged disk index whose node count reads as 5 or more is never
    read with its own geometry: the statistics reader takes the dimension
    for the node count, the record length for the entry point and the word
    [w] after the five fields for the number of records per sector. Whatever
    [w] is, a result is the default one or reports the dimension as its node
    count and the record length as its entry point; when [w] is 0, as in a
    header padded with zeros, no sector is scanned and the result has no
    edges. *)
Theorem untagged_index_misread g w rest t :
  geometry_fits g -> 0 <= w < 2 ^ 64 ->
  5 <= as_int32 (disk_nnodes g mod 2 ^ 32) ->
  let run := compute_graph_stats_from_disk_index
               (Some (geometry_fields g ++ u64 w ++ rest)) t in
  (forall s, run = Some s ->
     s = default_stats
     \/ (total_nodes s = disk_ndims g /\ active_nodes s = disk_ndims g
         /\ frozen_nodes s = 0 /\ entry_point s = wrap32 (max_node_len g)))
  /\ (w = 0 ->
      run = Some (if bad_geometry (shifted g 0) (elem_size t) then default_stats
                  else mkGraphStats (disk_ndims g) (disk_ndims g) 0 0 0 0%Q 0 0
                                    (wrap32 (max_node_len g)))).
Proof.
  intros Hg Hw Hlow run.
  pose proof (untagged_read_shifted g w rest Hg Hw Hlow) as Hread.
  unfold run, compute_graph_stats_from_disk_index, disk_index_scan.
  cbn [open]. rewrite Hread. cbn [is_good negb].
  split.
  - intros s.
    destruct (bad_geometry (shifted g w) (elem_size t)).
    { cbn. intros [= <-]. now left. }
    cbn [shifted disk_nnodes medoid_id_on_file nnodes_per_sector].
    destruct (w =? 0).
    { cbn. intros [= <-]. right. cbn. auto. }
    destruct (sector_loop _ _ _ _ _ _) as [st|]; cbn; [|discriminate].
    intros [= <-]. right. cbn. auto.
  - intros ->.
    destruct (bad_geometry (shifted g 0) (elem_size t)); reflexivity.
Qed.

Lemma untagged_index_misread_witness :
  let run := compute_graph_stats_from_disk_index
               (Some (geometry_fields (mkGeometry 7 2 0 1000 4) ++ u64 1
                      ++ repeat Byte.x00 (4096 - 48) ++ disk_sector 0 1000 [[1; 2; 3; 4]]
                      ++ disk_sector 0 1000 [[]])) kFloat in
  (forall s, run = Some s ->
     s = default_stats
     \/ (total_nodes s = 2 /\ active_nodes s = 2
         /\ frozen_nodes s = 0 /\ entry_point s = wrap32 1000))
  /\ (1 = 0 ->
      run = Some (if bad_geometry (shifted (mkGeometry 7 2 0 1000 4) 0) (elem_size kFloat)
                  then default_stats
                  else mkGraphStats 2 2 0 0 0 0%Q 0 0 (wrap32 1000))).
Proof.
  apply (untagged_index_misread (mkGeometry 7 2 0 1000 4) 1).
  - unfold geometry_fits. cbn. lia.
  - lia.
  - vm_compute. congruence.
Defined.

(** ** No copy outside the sector buffer *)

Lemma read_cases n ins :
  is_good ins = true -> 0 <= gpos ins -> 0 <= n ->
  (exists bs, read n ins = (Some bs, mkStream (content ins) (gpos ins + n) true)
              /\ Z.of_nat (length bs) = n)
  \/ (exists ins', read n ins = (None, ins')).
Proof.
  intros Hg Hp Hn. unfold read. rewrite Hg. cbn [negb].
  destruct (Z.leb_spec (gpos ins + n) (stream_size ins)) as [Hle | Hgt].
  - left. eexists. split; [reflexivity|].
    apply length_slice; [assumption | assumption | exact Hle].
  - right. eexists. reflexivity.
Qed.

Lemma seek_to_position np ins :
  (is_good ins = true -> 0 <= gpos ins) ->
  is_good (seek_to np ins) = true -> 0 <= gpos (seek_to np ins).
Proof.
  intros Hp. unfold seek_to. destruct (is_good ins) eqn:Hg; cbn [negb].
  - destruct (Z.leb_spec 0 np); cbn [andb].
    + destruct (np <? 2 ^ 63); cbn; intros; [lia | discriminate].
    + cbn. intros; discriminate.
  - rewrite Hg. intros; discriminate.
Qed.

Lemma good_geometry_bounds g esz :
  bad_geometry g esz = false -> wrap64 (disk_ndims g * esz) < 2 ^ 64 - 4 ->
  0 <= wrap64 (disk_ndims g * esz)
  /\ wrap64 (disk_ndims g * esz) + 4 <= max_node_len g <= 4096.
Proof.
  intros Hb Hc. unfold bad_geometry in Hb. apply orb_false_iff in Hb as [H1 H2].
  pose proof (wrap64_range (disk_ndims g * esz)) as Hr.
  rewrite wrap64_small in H1 by lia.
  apply Z.ltb_ge in H1. apply Z.ltb_ge in H2. unfold kSectorLen in H2. lia.
Qed.

Lemma memcpy_u32_range sector off v : memcpy_u32 sector off = Some v -> 0 <= v < 2 ^ 32.
Proof.
  unfold memcpy_u32. destruct (_ && _); [|discriminate].
  intros [= <-]. apply le32_range.
Qed.

Lemma slot_loop_in_bounds g esz sec sector :
  Z.of_nat (length sector) = 4096 ->
  0 <= wrap64 (disk_ndims g * esz) ->
  wrap64 (disk_ndims g * esz) + 4 <= max_node_len g <= 4096 ->
  forall cnt j st,
    0 <= j -> j * max_node_len g <= 4096 + max_node_len g ->
    exists st', slot_loop cnt j sec g esz sector st = Some st'.
Proof.
  intros Hlen Hc0 Hc.
  induction cnt as [|cnt IH]; intros j st Hj Hjl; cbn [slot_loop].
  - eexists; reflexivity.
  - destruct (disk_nnodes g <=? _); [eexists; reflexivity|].
    assert (Hjl0 : 0 <= j * max_node_len g) by nia.
    rewrite (wrap64_small (j * max_node_len g)) by lia.
    rewrite (wrap64_small (j * max_node_len g + _ + 4)) by lia.
    unfold kSectorLen.
    destruct (Z.ltb_spec 4096 (j * max_node_len g + wrap64 (disk_ndims g * esz) + 4));
      [eexists; reflexivity|].
    rewrite memcpy_u32_inside by lia.
    apply IH; [lia | nia].
Qed.

Lemma sector_loop_in_bounds g esz :
  0 <= wrap64 (disk_ndims g * esz) ->
  wrap64 (disk_ndims g * esz) + 4 <= max_node_len g <= 4096 ->
  forall cnt sec ins st,
    (is_good ins = true -> 0 <= gpos ins) ->
    exists st', sector_loop cnt sec g esz ins st = Some st'.
Proof.
  intros Hc0 Hc.
  induction cnt as [|cnt IH]; intros sec ins st Hp; cbn [sector_loop].
  - eexists; reflexivity.
  - destruct (is_good ins) eqn:Hg; cbn [negb]; [|eexists; reflexivity].
    destruct (read_cases kSectorLen ins Hg (Hp eq_refl)) as [(sector & Hr & Hl) | (ins' & Hr)];
      [unfold kSectorLen; lia | |]; rewrite Hr; [|eexists; reflexivity].
    destruct (slot_loop_in_bounds g esz sec sector Hl Hc0 Hc
                (Z.to_nat (nnodes_per_sector g)) 0
                (mkPaged (pg_acc st) (pg_visited st) (pg_pages st + 1)))
      as [st1 Hs]; [lia | lia |].
    rewrite Hs. apply IH. cbn. intros _. unfold kSectorLen. specialize (Hp eq_refl). lia.
Qed.

(** X7. The statistics reader of the disk index never copies from outside
    its sector buffer, whatever the file holds, provided that the byte count
    of the coordinates plus the four bytes of the degree does not wrap
    around 2^64: it then always returns a result. *)
Theorem compute_graph_stats_from_disk_index_in_bounds bs data_type :
  coordinates_fit bs data_type ->
  exists s, compute_graph_stats_from_disk_index (Some bs) data_type = Some s.
Proof.
  unfold coordinates_fit, header_geometry. intros Hfit.
  unfold compute_graph_stats_from_disk_index, disk_index_scan. cbn [open].
  pose proof (read_disk_header_cases bs) as Hh. cbv zeta in Hh.
  destruct (read_disk_header (mkStream bs 0 true)) as [[g off] in1].
  cbn [fst] in Hfit. destruct Hh as (_ & _ & Hh).
  destruct (is_good in1) eqn:Hg1; cbn [negb]; [|eexists; reflexivity].
  destruct (Hh eq_refl) as [_ Hin1].
  destruct (bad_geometry g (elem_size data_type)) eqn:Hb; [eexists; reflexivity|].
  destruct (nnodes_per_sector g =? 0); [eexists; reflexivity|].
  destruct (good_geometry_bounds g _ Hb Hfit) as [Hc0 Hc].
  match goal with
  | |- context [sector_loop ?cnt ?sec g ?esz ?ins ?st] =>
      destruct (sector_loop_in_bounds g esz Hc0 Hc cnt sec ins st) as [st' Hs]
  end.
  { apply seek_to_position. intros _. rewrite Hin1. cbn [gpos].
    destruct (tag_accepted _); lia. }
  rewrite Hs. eexists; reflexivity.
Qed.

Lemma compute_graph_stats_from_disk_index_in_bounds_witness :
  exists s, compute_graph_stats_from_disk_index (Some ten_node_file) kFloat = Some s.
Proof.
  apply compute_graph_stats_from_disk_index_in_bounds.
  unfold coordinates_fit. vm_compute. reflexivity.
Defined.

(** The bound of [coordinates_fit] is needed: with a dimension count of
    [2^64 - 2] and one-byte coordinates, the sum wraps to 2, the geometry
    check and the bounds check of the slot pass, and the degree is copied
    from two bytes before the sector buffer. *)
Example wrapping_dimension_reads_before_sector :
  bad_geometry (header_geometry wrapping_dims_file) (elem_size kUint8) = false
  /\ compute_graph_stats_from_disk_index (Some wrapping_dims_file) kUint8 = None.
Proof. split; vm_compute; reflexivity. Qed.

(** ** The adjacency sample of a raw graph file *)

Lemma length_decode_u32s n : forall bs, length (decode_u32s n bs) = n.
Proof. induction n as [|n IH]; intros bs; cbn [decode_u32s length]; [|rewrite IH]; reflexivity. Qed.

Lemma read_uint4_range old ins :
  0 <= old < 2 ^ 32 -> 0 <= fst (read_uint 4 old ins) < 2 ^ 32.
Proof.
  intros Hold. unfold read_uint, read.
  destruct (negb (is_good ins)); cbn [fst]; [assumption|].
  destruct (_ <=? _); cbn [fst]; [apply le32_range | assumption].
Qed.

Lemma to_show_of_bounds max k :
  0 <= k -> 0 <= to_show_of max k <= k.
Proof.
  intros Hk. unfold to_show_of.
  destruct (Z.ltb_spec 0 max); cbn [andb]; [|lia].
  destruct (Z.ltb_spec max k); lia.
Qed.

Lemma line_cut_to_show max k shown node :
  0 <= k -> Z.of_nat (length shown) = to_show_of max k ->
  line_cut max (mkLine node shown (if to_show_of max k <? k then Some k else None)).
Proof.
  intros Hk Hlen. unfold line_cut, to_show_of in *. cbn [al_total al_shown].
  destruct (Z.ltb_spec 0 max); cbn [andb] in *.
  - destruct (Z.ltb_spec max k).
    + destruct (Z.ltb_spec max k); [|lia]. split; [lia | assumption].
    + rewrite Z.ltb_irrefl. right. lia.
  - rewrite Z.ltb_irrefl. left. lia.
Qed.

Lemma adjacency_loop_lines E N max : forall cnt st,
  exists new,
    ls_lines (adjacency_loop cnt E N max st) = ls_lines st ++ new
    /\ map al_node new = map (fun i => ls_node_id st + Z.of_nat i) (seq 0 (length new))
    /\ (length new <= cnt)%nat
    /\ (ls_node_id st < N \/ new = [])
    /\ Forall (line_cut max) new.
Proof.
  induction cnt as [|cnt IH]; intros st; cbn [adjacency_loop].
  - exists []. rewrite app_nil_r. split; [reflexivity|]. split; [reflexivity|].
      split; [simpl; lia|]. split; [now right | constructor].
  - assert (Hstop : exists new : list adj_line,
               ls_lines st = ls_lines st ++ new
               /\ map al_node new
                  = map (fun i => ls_node_id st + Z.of_nat i) (seq 0 (length new))
               /\ (length new <= S cnt)%nat
               /\ (ls_node_id st < N \/ new = [])
               /\ Forall (line_cut max) new).
    { exists []. rewrite app_nil_r. split; [reflexivity|]. split; [reflexivity|].
      split; [simpl; lia|]. split; [now right | constructor]. }
    destruct (negb (ls_bytes_read st =? E)); cbn [andb negb]; [|exact Hstop].
    destruct (Z.ltb_spec (ls_node_id st) N) as [HidN | HidN]; cbn [andb negb];
      [|exact Hstop].
    destruct (is_good (ls_in st)); cbn [negb]; [|exact Hstop].
    pose proof (read_uint4_range 0 (ls_in st) ltac:(lia)) as Hk.
    destruct (read_uint 4 0 (ls_in st)) as [k in1]. cbn [fst] in Hk.
    destruct (is_good in1); cbn [negb]; [|exact Hstop].
    pose proof (to_show_of_bounds max k ltac:(lia)) as Hts.
    set (to_show := to_show_of max k) in *.
    assert (Hgo : forall nbrs in2,
               length nbrs = Z.to_nat to_show ->
               exists new : list adj_line,
                 ls_lines
                   (if negb (is_good in2) then st
                    else adjacency_loop cnt E N max
                           (mkListing
                              (if to_show <? k
                               then seekg_cur ((k - to_show) * 4) in2 else in2)
                              (wrap64 (ls_bytes_read st + (4 + k * 4)))
                              (ls_node_id st + 1)
                              (ls_lines st
                               ++ [mkLine (ls_node_id st) nbrs
                                          (if to_show <? k then Some k else None)])))
                 = ls_lines st ++ new
                 /\ map al_node new
                    = map (fun i => ls_node_id st + Z.of_nat i) (seq 0 (length new))
                 /\ (length new <= S cnt)%nat
                 /\ (ls_node_id st < N \/ new = [])
                 /\ Forall (line_cut max) new).
    { intros nbrs in2 Hlen.
      destruct (is_good in2); cbn [negb]; [|exact Hstop].
      match goal with
      | |- context [adjacency_loop cnt E N max ?s] =>
          destruct (IH s) as (new & Hl & Hids & Hcnt & _ & Hcut)
      end.
      cbn [ls_lines ls_node_id] in Hl, Hids.
      eexists (_ :: new). rewrite Hl, <- app_assoc. cbn [app].
      split; [reflexivity|].
      split.
      { cbn [map length seq al_node]. f_equal; [lia|].
        rewrite Hids. rewrite <- seq_shift, map_map.
        apply map_ext. intros i. lia. }
      split; [simpl; lia|].
      split; [now left|].
      constructor; [|exact Hcut].
      apply line_cut_to_show; [lia | rewrite Hlen; lia]. }
    destruct (Z.ltb_spec 0 to_show) as [Hpos | Hzero].
    + destruct (read (to_show * 4) in1) as [[bs|] in2].
      * apply Hgo. apply length_decode_u32s.
      * apply Hgo. apply repeat_length.
    + apply Hgo. simpl. lia.
Qed.

(** X8. The adjacency sample of a raw graph file has at most as many lines
    as nodes were asked for; the lines are numbered 0, 1, 2 and so on; a
    line carries a total exactly when it was cut, and then it shows exactly
    [max] neighbors and the total exceeds [max]; a line without a total
    shows at most [max] neighbors when [max] is positive. *)
Theorem adjacency_sample_from_file_lines file offset N max n ep lines :
  print_adjacency_sample_from_file file offset N max = Listing n ep lines ->
  n = N
  /\ (length lines <= Z.to_nat N)%nat
  /\ map al_node lines = iota (Z.of_nat (length lines))
  /\ Forall (line_cut max) lines.
Proof.
  unfold print_adjacency_sample_from_file.
  destruct (open file) as [in0|]; [|discriminate].
  destruct (negb (is_good (seekg_beg offset in0))); [discriminate|].
  destruct (read_uint 8 0 _) as [E in2].
  destruct (read_uint 4 0 in2) as [w in3].
  destruct (read_uint 4 0 in3) as [ep' in4].
  destruct (read_uint 8 0 in4) as [fz in5].
  destruct (negb (is_good in5)); [discriminate|].
  intros [= <- <- <-].
  destruct (adjacency_loop_lines E N max (Z.to_nat N) (mkListing in5 kGraphHeaderSize 0 []))
    as (new & Hl & Hids & Hcnt & _ & Hcut).
  cbn [ls_lines ls_node_id app] in Hl, Hids. rewrite Hl.
  split; [reflexivity|]. split; [exact Hcnt|]. split; [|exact Hcut].
  rewrite Hids. unfold iota. rewrite Nat2Z.id. apply map_ext. intros i. lia.
Qed.

Lemma adjacency_sample_from_file_lines_witness :
  let lines := [mkLine 0 [1] (Some 2); mkLine 1 [0] None; mkLine 2 [] None] in
  print_adjacency_sample_from_file (Some sample_graph_file) 0 3 1 = Listing 3 3 lines
  /\ (3 = 3
      /\ (length lines <= Z.to_nat 3)%nat
      /\ map al_node lines = iota (Z.of_nat (length lines))
      /\ Forall (line_cut 1) lines).
Proof.
  intros lines.
  assert (H : print_adjacency_sample_from_file (Some sample_graph_file) 0 3 1
              = Listing 3 3 lines)
    by (vm_compute; reflexivity).
  split; [exact H|].
  exact (adjacency_sample_from_file_lines _ _ _ _ _ _ _ H).
Defined.

(** ** The samplers on written raw graph files *)

Lemma decode_u32s_take n : forall bs,
  decode_u32s n (take (4 * n) bs) = decode_u32s n bs.
Proof.
  induction n as [|n IH]; intros bs; [reflexivity|].
  cbn [decode_u32s]. f_equal.
  - f_equal. rewrite take_take. f_equal. lia.
  - replace (4 * S n)%nat with (4 + 4 * n)%nat by lia.
    rewrite <- take_drop_commute. apply IH.
Qed.

Lemma decode_u32s_written r : forall n rest,
  Forall (fun v => 0 <= v < 2 ^ 32) r -> (n <= length r)%nat ->
  decode_u32s n (concat (map u32 r) ++ rest) = take n r.
Proof.
  induction r as [|v r IH]; intros n rest Hr Hn.
  - destruct n; [reflexivity | simpl in Hn; lia].
  - destruct n as [|n]; [reflexivity|].
    inversion Hr as [|? ? Hv Hr']; subst.
    cbn [map concat decode_u32s take firstn]. rewrite <- app_assoc.
    f_equal.
    + rewrite (take_app_length' (u32 v)) by (now rewrite length_u32).
      now apply le_combine_u32.
    + rewrite (drop_app_length' (u32 v)) by (now rewrite length_u32).
      apply IH; [assumption | simpl in Hn; lia].
Qed.

Lemma record_at pre r rest :
  Z.of_nat (length r) < 2 ^ 32 -> Forall (fun v => 0 <= v < 2 ^ 32) r ->
  let bs := pre ++ graph_record r ++ rest in
  let p := Z.of_nat (length pre) in
  le_combine (slice bs p 4) = Z.of_nat (length r)
  /\ forall n, 0 <= n <= Z.of_nat (length r) ->
       decode_u32s (Z.to_nat n) (slice bs (p + 4) (n * 4)) = take (Z.to_nat n) r.
Proof.
  intros Hk Hr bs p. unfold bs, graph_record. rewrite <- !app_assoc. split.
  - change 4 with (Z.of_nat (length (u32 (Z.of_nat (length r))))).
    unfold p. rewrite slice_app_middle. apply le_combine_u32. lia.
  - intros n Hn. unfold slice.
    rewrite (app_assoc pre).
    replace (Z.to_nat (p + 4)) with (length (pre ++ u32 (Z.of_nat (length r))))
      by (rewrite length_app, length_u32; unfold p; lia).
    rewrite drop_app_length.
    replace (Z.to_nat (n * 4)) with (4 * Z.to_nat n)%nat by lia.
    rewrite decode_u32s_take. apply decode_u32s_written; [assumption | lia].
Qed.

Lemma graph_records_cons r rs : graph_records (r :: rs) = graph_record r ++ graph_records rs.
Proof. reflexivity. Qed.

Lemma records_size_cons r rs : records_size (r :: rs) = record_size r + records_size rs.
Proof. reflexivity. Qed.

Lemma lines_for_app max : forall l1 l2 i,
  lines_for max i (l1 ++ l2)
  = lines_for max i l1 ++ lines_for max (i + Z.of_nat (length l1)) l2.
Proof.
  induction l1 as [|r l1 IH]; intros l2 i; cbn [lines_for app length].
  - f_equal. lia.
  - rewrite IH. do 3 f_equal. lia.
Qed.

Lemma adjacency_loop_written E N max post : forall rs bs pre b id lines cnt,
  degrees_fit rs -> ids_fit rs ->
  bs = pre ++ graph_records rs ++ post ->
  Z.of_nat (length pre) + records_size rs < 2 ^ 63 ->
  b + records_size rs = E -> 0 <= b -> E < 2 ^ 64 ->
  cnt = Z.to_nat (N - id) ->
  ls_lines (adjacency_loop cnt E N max
              (mkListing (mkStream bs (Z.of_nat (length pre)) true) b id lines))
  = lines ++ lines_for max id (take cnt rs).
Proof.
  induction rs as [|r rs IH]; intros bs pre b id lines cnt Hfit Hids Hbs Hsz HE Hb HE64 Hcnt.
  - rewrite take_nil. cbn [lines_for]. rewrite app_nil_r.
    destruct cnt; cbn [adjacency_loop]; [reflexivity|].
    cbn [ls_bytes_read]. change (records_size []) with 0 in HE.
    replace (b =? E) with true by (symmetry; apply Z.eqb_eq; lia).
    reflexivity.
  - destruct cnt as [|cnt]; [cbn [adjacency_loop take firstn lines_for];
                             now rewrite app_nil_r|].
    pose proof (List.Forall_inv Hfit) as Hk. cbv beta in Hk.
    pose proof (List.Forall_inv_tail Hfit) as Hfit'.
    pose proof (List.Forall_inv Hids) as Hr. cbv beta in Hr.
    pose proof (List.Forall_inv_tail Hids) as Hids'.
    rewrite records_size_cons in Hsz, HE.
    pose proof (records_size_bounds rs) as Hrs.
    assert (Hrsz : record_size r = 4 + Z.of_nat (length r) * 4)
      by (unfold record_size; lia).
    rewrite graph_records_cons, <- app_assoc in Hbs.
    destruct (record_at pre r (graph_records rs ++ post) Hk Hr) as [Hdeg Hnbrs].
    rewrite <- Hbs in Hdeg, Hnbrs.
    set (p := Z.of_nat (length pre)) in *.
    assert (Hlen : Z.of_nat (length bs) = p + record_size r + records_size rs
                                          + Z.of_nat (length post)).
    { rewrite Hbs, !length_app, !Nat2Z.inj_add, length_graph_record,
        length_graph_records. unfold p. lia. }
    cbn [adjacency_loop ls_bytes_read ls_node_id ls_in is_good].
    replace (b =? E) with false by (symmetry; apply Z.eqb_neq; lia).
    replace (id <? N) with true by (symmetry; apply Z.ltb_lt; lia).
    cbn [negb andb].
    rewrite read_uint_good by (cbn; unfold stream_size; cbn; lia).
    cbn [content gpos is_good negb]. rewrite Hdeg.
    set (k := Z.of_nat (length r)) in *.
    pose proof (to_show_of_bounds max k ltac:(lia)) as Hts.
    set (to_show := to_show_of max k) in *.
    assert (Hstep :
      (let '(nbrs, in2) :=
         if 0 <? to_show
         then match read (to_show * 4) (mkStream bs (p + 4) true) with
              | (Some bs0, in2) => (decode_u32s (Z.to_nat to_show) bs0, in2)
              | (None, in2) => (repeat 0 (Z.to_nat to_show), in2)
              end
         else ([], mkStream bs (p + 4) true) in
       (nbrs, in2))
      = (take (Z.to_nat to_show) r, mkStream bs (p + 4 + to_show * 4) true)).
    { destruct (Z.ltb_spec 0 to_show).
      - rewrite read_good by (cbn; unfold stream_size; cbn; lia).
        cbn [content gpos]. now rewrite Hnbrs by lia.
      - replace to_show with 0 by lia. cbn. do 2 f_equal. lia. }
    destruct (if 0 <? to_show
              then match read (to_show * 4) (mkStream bs (p + 4) true) with
                   | (Some bs0, in2) => (decode_u32s (Z.to_nat to_show) bs0, in2)
                   | (None, in2) => (repeat 0 (Z.to_nat to_show), in2)
                   end
              else ([], mkStream bs (p + 4) true)) as [nbrs in2].
    injection Hstep as -> ->. cbn [is_good negb].
    assert (Hin3 : (if to_show <? k
                    then seekg_cur ((k - to_show) * 4)
                                   (mkStream bs (p + 4 + to_show * 4) true)
                    else mkStream bs (p + 4 + to_show * 4) true)
                   = mkStream bs (Z.of_nat (length (pre ++ graph_record r))) true).
    { rewrite length_app, Nat2Z.inj_add, length_graph_record. fold p.
      destruct (Z.ltb_spec to_show k).
      - unfold seekg_cur. cbn [gpos]. rewrite seek_to_good by (cbn; lia).
        cbn [content]. f_equal. lia.
      - f_equal. lia. }
    rewrite Hin3. cbn [ls_lines].
    rewrite (wrap64_small (b + (4 + k * 4))) by lia.
    rewrite (IH bs (pre ++ graph_record r) (b + (4 + k * 4)) (id + 1) _ cnt);
      try assumption; try lia.
    + rewrite <- app_assoc. cbn [app take firstn lines_for]. reflexivity.
    + now rewrite <- app_assoc.
    + rewrite length_app, Nat2Z.inj_add, length_graph_record. fold p. lia.
Qed.

Lemma read_graph_header_written pre E w ep fz rest :
  0 <= E < 2 ^ 64 -> 0 <= ep < 2 ^ 32 -> 0 <= fz < 2 ^ 64 ->
  Z.of_nat (length pre) < 2 ^ 63 ->
  let bs := pre ++ graph_header E w ep fz ++ rest in
  let o := Z.of_nat (length pre) in
  seekg_beg o (mkStream bs 0 true) = mkStream bs o true
  /\ read_uint 8 0 (mkStream bs o true) = (E, mkStream bs (o + 8) true)
  /\ (exists w', read_uint 4 0 (mkStream bs (o + 8) true)
                 = (w', mkStream bs (o + 12) true))
  /\ read_uint 4 0 (mkStream bs (o + 12) true) = (ep, mkStream bs (o + 16) true)
  /\ read_uint 8 0 (mkStream bs (o + 16) true) = (fz, mkStream bs (o + 24) true).
Proof.
  intros HE Hep Hfz Hpre bs o.
  destruct (graph_header_decodes pre E w ep fz rest HE Hep Hfz) as (H1 & H2 & H3).
  fold bs o in H1, H2, H3. unfold header_expected, header_ep, header_frozen in *.
  assert (Hlen : o + 24 <= Z.of_nat (length bs)).
  { unfold bs. rewrite !length_app, length_graph_header. unfold o. lia. }
  split.
  { unfold seekg_beg, as_streamoff. destruct (Z.ltb_spec o (2 ^ 63)); [|lia].
    rewrite seek_to_good by (cbn; unfold o; lia). reflexivity. }
  split.
  { rewrite read_uint_good by (cbn; unfold stream_size; cbn; lia).
    cbn [content gpos]. now rewrite H1. }
  split.
  { eexists. rewrite read_uint_good by (cbn; unfold stream_size; cbn; lia).
    cbn [content gpos]. f_equal. f_equal. lia. }
  split.
  { rewrite read_uint_good by (cbn; unfold stream_size; cbn; lia).
    cbn [content gpos]. rewrite H2. f_equal. f_equal. lia. }
  rewrite read_uint_good by (cbn; unfold stream_size; cbn; lia).
  cbn [content gpos]. rewrite H3. f_equal. f_equal. lia.
Qed.

(** X9. The adjacency sample of a written raw graph file shows the graph
    that was written: a title with the requested count and the entry point
    of the header, then one line for each of the first [N] nodes (or for all
    nodes, when the graph has fewer), with the first [max] neighbors of the
    node in the order of the file and the full degree as the total of a cut
    line. Bytes before the given offset and after the graph do not matter. *)
Theorem adjacency_sample_from_file_written pre w ep fz recs post N max :
  degrees_fit recs -> ids_fit recs ->
  0 <= ep < 2 ^ 32 -> 0 <= fz < 2 ^ 64 -> 0 <= N ->
  file_size_ok (pre ++ graph_header (24 + records_size recs) w ep fz
                ++ graph_records recs ++ post) ->
  print_adjacency_sample_from_file
    (Some (pre ++ graph_header (24 + records_size recs) w ep fz
           ++ graph_records recs ++ post))
    (Z.of_nat (length pre)) N max
  = Listing N ep (lines_for max 0 (take (Z.to_nat N) recs)).
Proof.
  intros Hfit Hids Hep Hfz HN Hsz.
  set (E := 24 + records_size recs) in *.
  set (bs := pre ++ graph_header E w ep fz ++ graph_records recs ++ post) in *.
  pose proof (records_size_bounds recs) as Hrs.
  assert (Hlen : Z.of_nat (length bs)
                 = Z.of_nat (length pre) + 24 + records_size recs
                   + Z.of_nat (length post)).
  { unfold bs. rewrite !length_app, !Nat2Z.inj_add, length_graph_header,
      length_graph_records. lia. }
  unfold file_size_ok in Hsz.
  destruct (read_graph_header_written pre E w ep fz (graph_records recs ++ post))
    as (Hseek & HrE & (w' & Hrw) & Hrep & Hrfz); try lia.
  fold bs in Hseek, HrE, Hrw, Hrep, Hrfz.
  unfold print_adjacency_sample_from_file. cbn [open].
  rewrite Hseek. cbn [is_good negb]. rewrite HrE, Hrw, Hrep, Hrfz.
  cbn [is_good negb]. f_equal.
  replace (Z.of_nat (length pre) + 24)
    with (Z.of_nat (length (pre ++ graph_header E w ep fz)))
    by (rewrite length_app, Nat2Z.inj_add, length_graph_header; lia).
  rewrite (adjacency_loop_written E N max post recs bs
             (pre ++ graph_header E w ep fz) kGraphHeaderSize 0 [] (Z.to_nat N));
    try assumption.
  - reflexivity.
  - unfold bs. now rewrite <- app_assoc.
  - rewrite length_app, Nat2Z.inj_add, length_graph_header. lia.
  - unfold kGraphHeaderSize, E. lia.
  - unfold kGraphHeaderSize. lia.
  - unfold E. lia.
  - f_equal. lia.
Qed.

Lemma adjacency_sample_from_file_written_witness :
  print_adjacency_sample_from_file
    (Some ([] ++ graph_header (24 + records_size sample_records) 7 3 1
           ++ graph_records sample_records ++ []))
    (Z.of_nat (length (@nil byte))) 3 2
  = Listing 3 3 (lines_for 2 0 (take (Z.to_nat 3) sample_records)).
Proof.
  apply adjacency_sample_from_file_written.
  - unfold degrees_fit, sample_records. repeat constructor.
  - unfold ids_fit, sample_records. repeat constructor; lia.
  - lia.
  - lia.
  - lia.
  - unfold file_size_ok. vm_compute. reflexivity.
Defined.

Lemma small_graph_loop_written E N post : forall rs bs pre b id out inn cnt,
  degrees_fit rs -> ids_fit rs ->
  bs = pre ++ graph_records rs ++ post ->
  Z.of_nat (length pre) + records_size rs < 2 ^ 63 ->
  b + records_size rs = E -> 0 <= b -> E < 2 ^ 64 ->
  0 <= id -> cnt = Z.to_nat (N - id) -> length out = Z.to_nat N ->
  let st' := small_graph_loop cnt E N
               (mkSample (mkStream bs (Z.of_nat (length pre)) true) b id out inn) in
  sm_node_id st' = id + Z.of_nat (Nat.min cnt (length rs))
  /\ length (sm_out_nbrs st') = length out
  /\ (forall j, (j < Z.to_nat id)%nat -> sm_out_nbrs st' !! j = out !! j)
  /\ (forall j, (j < Nat.min cnt (length rs))%nat ->
        sm_out_nbrs st' !! (Z.to_nat id + j)%nat = rs !! j).
Proof.
  induction rs as [|r rs IH];
    intros bs pre b id out inn cnt Hfit Hids Hbs Hsz HE Hb HE64 Hid Hcnt Hout st'.
  - assert (Hst : st' = mkSample (mkStream bs (Z.of_nat (length pre)) true) b id out inn).
    { unfold st'. destruct cnt; cbn [small_graph_loop]; [reflexivity|].
      cbn [sm_bytes_read]. change (records_size []) with 0 in HE.
      replace (b =? E) with true by (symmetry; apply Z.eqb_eq; lia).
      reflexivity. }
    rewrite Hst. cbn [sm_node_id sm_out_nbrs length]. rewrite Nat.min_0_r.
    split; [lia|]. split; [reflexivity|]. split; [reflexivity|]. intros j Hj. lia.
  - destruct cnt as [|cnt].
    { unfold st'. cbn [small_graph_loop sm_node_id sm_out_nbrs Nat.min].
      split; [lia|]. split; [reflexivity|]. split; [reflexivity|]. intros j Hj. lia. }
    pose proof (List.Forall_inv Hfit) as Hk. cbv beta in Hk.
    pose proof (List.Forall_inv_tail Hfit) as Hfit'.
    pose proof (List.Forall_inv Hids) as Hr. cbv beta in Hr.
    pose proof (List.Forall_inv_tail Hids) as Hids'.
    rewrite records_size_cons in Hsz, HE.
    pose proof (records_size_bounds rs) as Hrs.
    assert (Hrsz : record_size r = 4 + Z.of_nat (length r) * 4)
      by (unfold record_size; lia).
    rewrite graph_records_cons, <- app_assoc in Hbs.
    destruct (record_at pre r (graph_records rs ++ post) Hk Hr) as [Hdeg Hnbrs].
    rewrite <- Hbs in Hdeg, Hnbrs.
    set (p := Z.of_nat (length pre)) in *.
    assert (Hlen : Z.of_nat (length bs) = p + record_size r + records_size rs
                                          + Z.of_nat (length post)).
    { rewrite Hbs, !length_app, !Nat2Z.inj_add, length_graph_record,
        length_graph_records. unfold p. lia. }
    set (k := Z.of_nat (length r)) in *.
    assert (Hstep :
      (let '(nbrs, in2) :=
         if 0 <? k
         then match read (k * 4) (mkStream bs (p + 4) true) with
              | (Some bs0, in2) => (decode_u32s (Z.to_nat k) bs0, in2)
              | (None, in2) => (repeat 0 (Z.to_nat k), in2)
              end
         else ([], mkStream bs (p + 4) true) in
       (nbrs, in2))
      = (r, mkStream bs (Z.of_nat (length (pre ++ graph_record r))) true)).
    { rewrite length_app, Nat2Z.inj_add, length_graph_record. fold p.
      destruct (Z.ltb_spec 0 k).
      - rewrite read_good by (cbn; unfold stream_size; cbn; lia).
        cbn [content gpos]. rewrite Hnbrs by lia.
        unfold k. rewrite Nat2Z.id, firstn_all. do 2 f_equal. lia.
      - assert (r = []) by (destruct r; [reflexivity | simpl in k; lia]).
        subst r. do 2 f_equal; unfold record_size; simpl; lia. }
    unfold st'. cbn [small_graph_loop sm_bytes_read sm_node_id sm_in is_good
                     sm_out_nbrs sm_in_nbrs].
    replace (b =? E) with false by (symmetry; apply Z.eqb_neq; lia).
    replace (id <? N) with true by (symmetry; apply Z.ltb_lt; lia).
    cbn [negb andb].
    rewrite read_uint_good by (cbn; unfold stream_size; cbn; lia).
    cbn [content gpos is_good negb]. rewrite Hdeg.
    destruct (if 0 <? k
              then match read (k * 4) (mkStream bs (p + 4) true) with
                   | (Some bs0, in2) => (decode_u32s (Z.to_nat k) bs0, in2)
                   | (None, in2) => (repeat 0 (Z.to_nat k), in2)
                   end
              else ([], mkStream bs (p + 4) true)) as [nbrs in2].
    injection Hstep as -> ->. cbn [is_good negb]. fold k.
    rewrite (wrap64_small (b + (4 + k * 4))) by lia.
    match goal with
    | |- context [small_graph_loop cnt E N (mkSample _ _ _ ?o ?i)] =>
        destruct (IH bs (pre ++ graph_record r) (b + (4 + k * 4)) (id + 1) o i cnt)
          as (Hn' & Hl' & Hold' & Hnew'); try assumption; try lia
    end.
    { now rewrite <- app_assoc. }
    { rewrite length_app, Nat2Z.inj_add, length_graph_record. fold p. lia. }
    { now rewrite length_insert. }
    rewrite length_insert in Hl'.
    split; [rewrite Hn'; cbn [length]; lia|].
    split; [exact Hl'|].
    split.
    + intros j Hj. rewrite Hold' by lia. apply list_lookup_insert_ne. lia.
    + intros [|j] Hj.
      * rewrite Nat.add_0_r. rewrite Hold' by lia. cbn [lookup list_lookup].
        apply list_lookup_insert_eq. lia.
      * replace (Z.to_nat id + S j)%nat with (Z.to_nat (id + 1) + j)%nat by lia.
        cbn [lookup list_lookup]. apply Hnew'. cbn [length] in Hj. lia.
Qed.

(** X10. The small-graph sampler reads a written raw graph file back: asked
    for [N] nodes, with [N] no larger than the number of nodes of the graph,
    it produces a sample that holds the first [N] nodes of the graph, the
    entry point of the header, and as out-neighbors exactly the lists that
    were written, in full. *)
Theorem small_graph_from_file_written pre w ep fz recs post N :
  degrees_fit recs -> ids_fit recs ->
  0 <= ep < 2 ^ 32 -> 0 <= fz < 2 ^ 64 ->
  0 <= N <= Z.of_nat (length recs) ->
  file_size_ok (pre ++ graph_header (24 + records_size recs) w ep fz
                ++ graph_records recs ++ post) ->
  exists in_nbrs,
    print_small_graph_from_file
      (Some (pre ++ graph_header (24 + records_size recs) w ep fz
             ++ graph_records recs ++ post))
      (Z.of_nat (length pre)) N
    = Sample (mkSmall N ep (take (Z.to_nat N) recs) in_nbrs).
Proof.
  intros Hfit Hids Hep Hfz [HN HNle] Hsz.
  set (E := 24 + records_size recs) in *.
  set (bs := pre ++ graph_header E w ep fz ++ graph_records recs ++ post) in *.
  pose proof (records_size_bounds recs) as Hrs.
  assert (Hlen : Z.of_nat (length bs)
                 = Z.of_nat (length pre) + 24 + records_size recs
                   + Z.of_nat (length post)).
  { unfold bs. rewrite !length_app, !Nat2Z.inj_add, length_graph_header,
      length_graph_records. lia. }
  unfold file_size_ok in Hsz.
  destruct (read_graph_header_written pre E w ep fz (graph_records recs ++ post))
    as (Hseek & HrE & (w' & Hrw) & Hrep & Hrfz); try lia.
  fold bs in Hseek, HrE, Hrw, Hrep, Hrfz.
  unfold print_small_graph_from_file. cbn [open].
  rewrite Hseek. cbn [is_good negb]. rewrite HrE, Hrw, Hrep, Hrfz.
  cbn [is_good negb].
  replace (Z.of_nat (length pre) + 24)
    with (Z.of_nat (length (pre ++ graph_header E w ep fz)))
    by (rewrite length_app, Nat2Z.inj_add, length_graph_header; lia).
  destruct (small_graph_loop_written E N post recs bs
              (pre ++ graph_header E w ep fz) kGraphHeaderSize 0
              (replicate (Z.to_nat N) []) (replicate (Z.to_nat N) []) (Z.to_nat N))
    as (Hn & Hl & _ & Hnew); try assumption.
  { unfold bs. now rewrite <- app_assoc. }
  { rewrite length_app, Nat2Z.inj_add, length_graph_header. lia. }
  { unfold kGraphHeaderSize, E. lia. }
  { unfold kGraphHeaderSize. lia. }
  { unfold E. lia. }
  { lia. }
  { f_equal. lia. }
  { apply length_replicate. }
  set (st' := small_graph_loop _ _ _ _) in *.
  rewrite length_replicate in Hl. cbn [Z.to_nat Nat.add] in Hnew.
  rewrite Hn.
  destruct (Z.ltb_spec (0 + Z.of_nat (Nat.min (Z.to_nat N) (length recs))) N) as [Hlt | Hge];
    [lia|].
  eexists. f_equal. f_equal. apply list_eq. intros j.
  rewrite lookup_take.
  destruct (decide (j < Z.to_nat N)%nat) as [Hj | Hj].
  - apply Hnew. lia.
  - apply lookup_ge_None. lia.
Qed.

Lemma small_graph_from_file_written_witness :
  exists in_nbrs,
    print_small_graph_from_file
      (Some ([] ++ graph_header (24 + records_size sample_records) 7 3 1
             ++ graph_records sample_records ++ []))
      (Z.of_nat (length (@nil byte))) 3
    = Sample (mkSmall 3 3 (take (Z.to_nat 3) sample_records) in_nbrs).
Proof.
  apply small_graph_from_file_written.
  - unfold degrees_fit, sample_records. repeat constructor.
  - unfold ids_fit, sample_records. repeat constructor; lia.
  - lia.
  - lia.
  - unfold sample_records. cbn [length]. lia.
  - unfold file_size_ok. vm_compute. reflexivity.
Defined.

(** ** The samplers of the disk index stay inside the sector *)

Lemma memcpy_u32s_inside sector off n :
  0 <= off -> off + n * 4 <= Z.of_nat (length sector) ->
  exists nbrs, memcpy_u32s sector off n = Some nbrs /\ length nbrs = Z.to_nat n.
Proof.
  intros H0 Hn. unfold memcpy_u32s.
  destruct (Z.leb_spec 0 off); [|lia].
  destruct (Z.leb_spec (off + n * 4) (Z.of_nat (length sector))); [|lia].
  eexists. split; [reflexivity | apply length_decode_u32s].
Qed.

Lemma sample_slot_loop_in_bounds g nh N sector sec :
  Z.of_nat (length sector) = 4096 ->
  0 <= nh -> nh + 4 <= max_node_len g <= 4096 ->
  forall cnt j st,
    0 <= j -> j * max_node_len g <= 4096 + max_node_len g ->
    Forall (fun l => Z.of_nat (length l) <= 1023) (ds_out_nbrs st) ->
    exists st',
      sample_slot_loop cnt j sec g nh N sector st = Some st'
      /\ Forall (fun l => Z.of_nat (length l) <= 1023) (ds_out_nbrs st').
Proof.
  intros Hlen Hc0 Hc.
  induction cnt as [|cnt IH]; intros j st Hj Hjl Hout; cbn [sample_slot_loop].
  - eexists; split; [reflexivity | assumption].
  - destruct (negb (ds_nodes_read st <? N)); [eexists; split; [reflexivity | assumption]|].
    destruct (disk_nnodes g <=? _); [eexists; split; [reflexivity | assumption]|].
    assert (Hjl0 : 0 <= j * max_node_len g) by nia.
    rewrite (wrap64_small (j * max_node_len g)) by lia.
    rewrite (wrap64_small (j * max_node_len g + nh + 4)) by lia.
    unfold kSectorLen.
    destruct (Z.ltb_spec 4096 (j * max_node_len g + nh + 4));
      [eexists; split; [reflexivity | assumption]|].
    rewrite memcpy_u32_inside by lia.
    pose proof (le32_range sector (j * max_node_len g + nh)) as Hk.
    set (nnbrs := le_combine (slice sector (j * max_node_len g + nh) 4)) in *.
    set (at_ := j * max_node_len g + nh + 4) in *.
    rewrite (wrap64_small (at_ + nnbrs * 4)) by lia.
    set (nbr_cap := if 4096 <? at_ + nnbrs * 4 then (4096 - at_) / 4 else nnbrs).
    assert (Hcap : 0 <= nbr_cap <= 1023 /\ at_ + nbr_cap * 4 <= 4096).
    { unfold nbr_cap. destruct (Z.ltb_spec 4096 (at_ + nnbrs * 4)).
      - pose proof (Z.mul_div_le (4096 - at_) 4 ltac:(lia)).
        pose proof (Z.div_pos (4096 - at_) 4 ltac:(lia) ltac:(lia)).
        assert ((4096 - at_) / 4 <= 4092 / 4) by (apply Z.div_le_mono; lia).
        change (4092 / 4) with 1023 in *. lia.
      - lia. }
    assert (Hnbrs : exists nbrs,
               (if 0 <? nbr_cap
                then memcpy_u32s sector at_ nbr_cap
                else Some (repeat 0 (Z.to_nat nbr_cap))) = Some nbrs
               /\ Z.of_nat (length nbrs) <= 1023).
    { destruct (0 <? nbr_cap).
      - destruct (memcpy_u32s_inside sector at_ nbr_cap) as (nbrs & Hm & Hl); [lia | lia|].
        exists nbrs. split; [exact Hm | lia].
      - eexists. split; [reflexivity|]. rewrite repeat_length. lia. }
    destruct Hnbrs as (nbrs & Hm & Hl). rewrite Hm.
    apply IH; [lia | nia |]. cbn [ds_out_nbrs].
    apply Forall_insert; assumption.
Qed.

Lemma sample_sector_loop_in_bounds g nh N :
  0 <= nh -> nh + 4 <= max_node_len g <= 4096 ->
  forall cnt sec ins st,
    (is_good ins = true -> 0 <= gpos ins) ->
    Forall (fun l => Z.of_nat (length l) <= 1023) (ds_out_nbrs st) ->
    exists st',
      sample_sector_loop cnt sec g nh N ins st = Some st'
      /\ Forall (fun l => Z.of_nat (length l) <= 1023) (ds_out_nbrs st').
Proof.
  intros Hc0 Hc.
  induction cnt as [|cnt IH]; intros sec ins st Hp Hout; cbn [sample_sector_loop].
  - eexists; split; [reflexivity | assumption].
  - destruct (ds_nodes_read st <? N); cbn [andb negb];
      [|eexists; split; [reflexivity | assumption]].
    destruct (is_good ins) eqn:Hg; cbn [negb];
      [|eexists; split; [reflexivity | assumption]].
    destruct (read_cases kSectorLen ins Hg (Hp eq_refl)) as [(sector & Hr & Hl) | (ins' & Hr)];
      [unfold kSectorLen; lia | |]; rewrite Hr;
      [|eexists; split; [reflexivity | assumption]].
    destruct (sample_slot_loop_in_bounds g nh N sector sec Hl Hc0 Hc
                (Z.to_nat (nnodes_per_sector g)) 0 st) as (st1 & Hs & Hout1);
      [lia | lia | assumption |].
    rewrite Hs. apply IH; [|assumption].
    cbn. intros _. unfold kSectorLen. specialize (Hp eq_refl). lia.
Qed.

(** X11. Under the same bound on the coordinates, the small-graph sampler of
    the disk index never copies from outside its sector buffer, and no node
    of its sample has more than 1023 out-neighbors: a larger degree field is
    cut down to the neighbor ids that the sector can hold. *)
Theorem small_graph_from_disk_index_in_bounds bs data_type N :
  coordinates_fit bs data_type ->
  exists r,
    print_small_graph_from_disk_index (Some bs) data_type N = Some r
    /\ forall g, r = Sample g ->
         Forall (fun l => Z.of_nat (length l) <= 1023) (sg_out_nbrs g).
Proof.
  unfold coordinates_fit, header_geometry. intros Hfit.
  unfold print_small_graph_from_disk_index. cbn [open].
  pose proof (read_disk_header_cases bs) as Hh. cbv zeta in Hh.
  destruct (read_disk_header (mkStream bs 0 true)) as [[g off] in1].
  cbn [fst] in Hfit. destruct Hh as (_ & _ & Hh).
  destruct (is_good in1) eqn:Hg1; cbn [negb orb];
    [|eexists; split; [reflexivity | discriminate]].
  destruct (Hh eq_refl) as [_ Hin1].
  destruct (nnodes_per_sector g =? 0); [eexists; split; [reflexivity | discriminate]|].
  destruct (bad_geometry g (elem_size data_type)) eqn:Hb;
    [eexists; split; [reflexivity | discriminate]|].
  destruct (good_geometry_bounds g _ Hb Hfit) as [Hc0 Hc].
  match goal with
  | |- context [sample_sector_loop ?cnt ?sec g ?nh ?n ?ins ?st] =>
      destruct (sample_sector_loop_in_bounds g nh n Hc0 Hc cnt sec ins st)
        as (st' & Hs & Hout)
  end.
  { apply seek_to_position. intros _. rewrite Hin1. cbn [gpos].
    destruct (tag_accepted _); lia. }
  { cbn [ds_out_nbrs]. apply Forall_replicate. simpl. lia. }
  rewrite Hs.
  destruct (ds_nodes_read st' <? _); eexists; (split; [reflexivity|]);
    intros g' [= <-]; cbn [sg_out_nbrs]; [now apply Forall_take | assumption].
Qed.

Lemma small_graph_from_disk_index_in_bounds_witness :
  exists r,
    print_small_graph_from_disk_index (Some ten_node_file) kFloat 4 = Some r
    /\ forall g, r = Sample g ->
         Forall (fun l => Z.of_nat (length l) <= 1023) (sg_out_nbrs g).
Proof.
  apply small_graph_from_disk_index_in_bounds.
  unfold coordinates_fit. vm_compute. reflexivity.
Defined.

Lemma listing_slot_loop_lines g nh N max sector sec :
  Z.of_nat (length sector) = 4096 ->
  0 <= nh -> nh + 4 <= max_node_len g <= 4096 ->
  forall cnt j st,
    0 <= j -> j * max_node_len g <= 4096 + max_node_len g ->
    exists st' new,
      listing_slot_loop cnt j sec g nh N max sector st = Some st'
      /\ dl_lines st' = dl_lines st ++ new
      /\ dl_nodes_printed st' = dl_nodes_printed st + Z.of_nat (length new)
      /\ (new = [] \/ dl_nodes_printed st' <= N)
      /\ Forall (line_cut_or_empty max) new.
Proof.
  intros Hlen Hc0 Hc.
  induction cnt as [|cnt IH]; intros j st Hj Hjl; cbn [listing_slot_loop].
  - exists st, []. rewrite app_nil_r. cbn [length].
    split; [reflexivity|]. split; [reflexivity|]. split; [lia|].
    split; [now left | constructor].
  - assert (Hstop : exists (st' : disk_listing_state) (new : list adj_line),
               Some st = Some st'
               /\ dl_lines st' = dl_lines st ++ new
               /\ dl_nodes_printed st' = dl_nodes_printed st + Z.of_nat (length new)
               /\ (new = [] \/ dl_nodes_printed st' <= N)
               /\ Forall (line_cut_or_empty max) new).
    { exists st, []. rewrite app_nil_r. cbn [length].
      split; [reflexivity|]. split; [reflexivity|]. split; [lia|].
      split; [now left | constructor]. }
    destruct (Z.ltb_spec (dl_nodes_printed st) N) as [Hpr | Hpr]; cbn [negb];
      [|exact Hstop].
    destruct (disk_nnodes g <=? _); [exact Hstop|].
    assert (Hjl0 : 0 <= j * max_node_len g) by nia.
    rewrite (wrap64_small (j * max_node_len g)) by lia.
    rewrite (wrap64_small (j * max_node_len g + nh + 4)) by lia.
    unfold kSectorLen.
    destruct (Z.ltb_spec 4096 (j * max_node_len g + nh + 4)); [exact Hstop|].
    rewrite memcpy_u32_inside by lia.
    pose proof (le32_range sector (j * max_node_len g + nh)) as Hk.
    set (nnbrs := le_combine (slice sector (j * max_node_len g + nh) 4)) in *.
    set (at_ := j * max_node_len g + nh + 4) in *.
    pose proof (to_show_of_bounds max nnbrs ltac:(lia)) as Hts.
    set (to_show := to_show_of max nnbrs) in *.
    rewrite (wrap64_small (at_ + to_show * 4)) by lia.
    assert (Hnbrs : exists nbrs,
               (if (0 <? to_show) && (at_ + to_show * 4 <=? 4096)
                then memcpy_u32s sector at_ to_show
                else Some []) = Some nbrs
               /\ (nbrs = [] \/ Z.of_nat (length nbrs) = to_show)).
    { destruct (0 <? to_show); cbn [andb].
      - destruct (Z.leb_spec (at_ + to_show * 4) 4096).
        + destruct (memcpy_u32s_inside sector at_ to_show) as (nbrs & Hm & Hl);
            [lia | lia|].
          exists nbrs. split; [exact Hm | right; lia].
        + eexists. split; [reflexivity | now left].
      - eexists. split; [reflexivity | now left]. }
    destruct Hnbrs as (nbrs & Hm & Hl). rewrite Hm.
    match goal with
    | |- context [listing_slot_loop cnt (j + 1) sec g nh N max sector ?s] =>
        destruct (IH (j + 1) s) as (st' & new & Hs & Hlines & Hpr' & Hle & Hcut);
          [lia | nia |]
    end.
    cbn [dl_lines dl_nodes_printed] in Hlines, Hpr'.
    exists st'. eexists (_ :: new). rewrite Hs, Hlines, <- app_assoc. cbn [app length].
    split; [reflexivity|]. split; [reflexivity|]. split; [lia|].
    split.
    + right. destruct Hle as [-> | Hle]; [cbn [length] in Hpr'; lia | exact Hle].
    + constructor; [|exact Hcut].
      destruct Hl as [-> | Hl]; [now left|].
      right. apply line_cut_to_show; [lia | exact Hl].
Qed.

Lemma listing_sector_loop_lines g nh N max :
  0 <= nh -> nh + 4 <= max_node_len g <= 4096 ->
  forall cnt sec ins st,
    (is_good ins = true -> 0 <= gpos ins) ->
    exists st' new,
      listing_sector_loop cnt sec g nh N max ins st = Some st'
      /\ dl_lines st' = dl_lines st ++ new
      /\ dl_nodes_printed st' = dl_nodes_printed st + Z.of_nat (length new)
      /\ (new = [] \/ dl_nodes_printed st' <= N)
      /\ Forall (line_cut_or_empty max) new.
Proof.
  intros Hc0 Hc.
  induction cnt as [|cnt IH]; intros sec ins st Hp; cbn [listing_sector_loop].
  - exists st, []. rewrite app_nil_r. cbn [length].
    split; [reflexivity|]. split; [reflexivity|]. split; [lia|].
    split; [now left | constructor].
  - assert (Hstop : exists (st' : disk_listing_state) (new : list adj_line),
               Some st = Some st'
               /\ dl_lines st' = dl_lines st ++ new
               /\ dl_nodes_printed st' = dl_nodes_printed st + Z.of_nat (length new)
               /\ (new = [] \/ dl_nodes_printed st' <= N)
               /\ Forall (line_cut_or_empty max) new).
    { exists st, []. rewrite app_nil_r. cbn [length].
      split; [reflexivity|]. split; [reflexivity|]. split; [lia|].
      split; [now left | constructor]. }
    destruct (dl_nodes_printed st <? N); cbn [andb negb]; [|exact Hstop].
    destruct (is_good ins) eqn:Hg; cbn [negb]; [|exact Hstop].
    destruct (read_cases kSectorLen ins Hg (Hp eq_refl)) as [(sector & Hr & Hl) | (ins' & Hr)];
      [unfold kSectorLen; lia | |]; rewrite Hr; [|exact Hstop].
    destruct (listing_slot_loop_lines g nh N max sector sec Hl Hc0 Hc
                (Z.to_nat (nnodes_per_sector g)) 0 st)
      as (st1 & new1 & Hs1 & Hlines1 & Hpr1 & Hle1 & Hcut1); [lia | lia |].
    rewrite Hs1.
    destruct (IH (sec + 1) (mkStream (content ins) (gpos ins + kSectorLen) true) st1)
      as (st2 & new2 & Hs2 & Hlines2 & Hpr2 & Hle2 & Hcut2).
    { cbn. intros _. unfold kSectorLen. specialize (Hp eq_refl). lia. }
    exists st2, (new1 ++ new2). rewrite Hs2, Hlines2, Hlines1, <- app_assoc.
    rewrite length_app, Nat2Z.inj_add.
    split; [reflexivity|]. split; [reflexivity|]. split; [lia|].
    split.
    + destruct Hle2 as [-> | Hle2].
      * rewrite app_nil_r. cbn [length] in Hpr2.
        destruct Hle1 as [-> | Hle1]; [now left | right; lia].
      * now right.
    + apply Forall_app. split; assumption.
Qed.

(** X12. Under the same bound on the coordinates, the adjacency sampler of
    the disk index never copies from outside its sector buffer; it prints at
    most as many lines as nodes were asked for, and every line either shows
    no neighbor at all (they did not fit into the sector) or is cut as the
    lines of a raw graph are: with a total exactly when more than [max]
    neighbors exist, and then with exactly [max] of them. *)
Theorem adjacency_sample_from_disk_index_lines bs data_type N max :
  coordinates_fit bs data_type ->
  exists l,
    print_adjacency_sample_from_disk_index (Some bs) data_type N max = Some l
    /\ forall n ep lines, l = Listing n ep lines ->
         n = N
         /\ Z.of_nat (length lines) <= Z.max 0 N
         /\ Forall (line_cut_or_empty max) lines.
Proof.
  unfold coordinates_fit, header_geometry. intros Hfit.
  unfold print_adjacency_sample_from_disk_index. cbn [open].
  pose proof (read_disk_header_cases bs) as Hh. cbv zeta in Hh.
  destruct (read_disk_header (mkStream bs 0 true)) as [[g off] in1].
  cbn [fst] in Hfit. destruct Hh as (_ & _ & Hh).
  destruct (is_good in1) eqn:Hg1; cbn [negb orb];
    [|eexists; split; [reflexivity | discriminate]].
  destruct (Hh eq_refl) as [_ Hin1].
  destruct (nnodes_per_sector g =? 0); [eexists; split; [reflexivity | discriminate]|].
  destruct (bad_geometry g (elem_size data_type)) eqn:Hb;
    [eexists; split; [reflexivity | discriminate]|].
  destruct (good_geometry_bounds g _ Hb Hfit) as [Hc0 Hc].
  match goal with
  | |- context [listing_sector_loop ?cnt ?sec g ?nh N max ?ins ?st] =>
      destruct (listing_sector_loop_lines g nh N max Hc0 Hc cnt sec ins st)
        as (st' & new & Hs & Hlines & Hpr & Hle & Hcut)
  end.
  { apply seek_to_position. intros _. rewrite Hin1. cbn [gpos].
    destruct (tag_accepted _); lia. }
  rewrite Hs. eexists. split; [reflexivity|].
  cbn [dl_lines dl_nodes_printed app] in Hlines, Hpr.
  intros n ep lines [= <- <- <-].
  rewrite Hlines. split; [reflexivity|]. split; [|exact Hcut].
  destruct Hle as [-> | Hle]; [cbn [length]; lia | lia].
Qed.

Lemma adjacency_sample_from_disk_index_lines_witness :
  exists l,
    print_adjacency_sample_from_disk_index (Some ten_node_file) kFloat 4 2 = Some l
    /\ forall n ep lines, l = Listing n ep lines ->
         n = 4
         /\ Z.of_nat (length lines) <= Z.max 0 4
         /\ Forall (line_cut_or_empty 2) lines.
Proof.
  apply adjacency_sample_from_disk_index_lines.
  unfold coordinates_fit. vm_compute. reflexivity.
Defined.

(** ** Printing a small graph *)

Lemma small_line_cut_to_show max out i inn :
  let size := Z.of_nat (length out) in
  let to_show := to_show_of max size in
  small_line_cut max
    (mkSmallLine i (take (Z.to_nat to_show) out)
                 (if to_show <? size then Some size else None) inn).
Proof.
  intros size to_show.
  pose proof (to_show_of_bounds max size ltac:(lia)) as Hts. fold to_show in Hts.
  assert (Hlen : Z.of_nat (length (take (Z.to_nat to_show) out)) = to_show).
  { rewrite length_take. fold size. unfold size in *. lia. }
  unfold small_line_cut. cbn [sl_total sl_out]. rewrite Hlen.
  unfold to_show, to_show_of in *.
  destruct (Z.ltb_spec 0 max); cbn [andb] in *.
  - destruct (Z.ltb_spec max size).
    + destruct (Z.ltb_spec max size); [|lia]. split; [lia | reflexivity].
    + rewrite Z.ltb_irrefl. right. lia.
  - rewrite Z.ltb_irrefl. left. lia.
Qed.

Lemma small_graph_lines_sized max g :
  sample_sized g ->
  exists lines,
    small_graph_lines max g = Some lines
    /\ length lines = Z.to_nat (sg_num_nodes g)
    /\ forall i l, lines !! i = Some l -> small_line_for max g i l.
Proof.
  intros [Hout Hin]. unfold small_graph_lines.
  set (f := fun i : nat => _).
  assert (Hf : Forall (is_Some ∘ f) (seq 0 (Z.to_nat (sg_num_nodes g)))).
  { apply List.Forall_forall. intros i Hi. apply in_seq in Hi.
    unfold compose, f.
    destruct (lookup_lt_is_Some_2 (sg_out_nbrs g) i ltac:(lia)) as [out ->].
    destruct (lookup_lt_is_Some_2 (sg_in_nbrs g) i ltac:(lia)) as [inn ->].
    eexists. reflexivity. }
  apply mapM_is_Some in Hf. destruct Hf as [lines Hlines].
  exists lines. split; [exact Hlines|].
  apply mapM_Some in Hlines.
  split.
  { apply Forall2_length in Hlines. now rewrite length_seq in Hlines. }
  intros i l Hl.
  destruct (Forall2_lookup_r _ _ _ _ _ Hlines Hl) as (i' & Hi' & Hfi).
  apply lookup_seq in Hi' as [-> Hi']. cbn [Nat.add] in Hfi.
  unfold f in Hfi.
  destruct (sg_out_nbrs g !! i) as [out|] eqn:Ho; [|discriminate].
  destruct (sg_in_nbrs g !! i) as [inn|] eqn:Hi; [|discriminate].
  injection Hfi as Hfi. subst l.
  exists out, inn. cbn [sl_node sl_out sl_referenced_by].
  split; [exact Ho|]. split; [exact Hi|]. split; [reflexivity|].
  split; [reflexivity|]. split; [reflexivity|].
  apply small_line_cut_to_show.
Qed.

Lemma sampled_sized N m out inn ep :
  sampled N m out inn -> 0 <= m <= N ->
  sample_sized (mkSmall m ep (take (Z.to_nat m) out) (take (Z.to_nat m) inn)).
Proof.
  intros (Ho & Hi & _) Hm. unfold sample_sized. cbn [sg_out_nbrs sg_in_nbrs sg_num_nodes].
  rewrite !length_take, Ho, Hi. lia.
Qed.

Lemma small_graph_from_file_sized file offset N g :
  0 <= N -> print_small_graph_from_file file offset N = Sample g ->
  sample_sized g /\ 0 <= sg_num_nodes g <= N.
Proof.
  intros HN. unfold print_small_graph_from_file.
  destruct (open file) as [in0|]; [|discriminate].
  destruct (negb (is_good (seekg_beg offset in0))); [discriminate|].
  destruct (read_uint 8 0 _) as [E in2].
  destruct (read_uint 4 0 in2) as [w in3].
  destruct (read_uint 4 0 in3) as [ep in4].
  destruct (read_uint 8 0 in4) as [fz in5].
  destruct (negb (is_good in5)); [discriminate|].
  pose proof (small_graph_loop_sampled E N (Z.to_nat N)
                (mkSample in5 kGraphHeaderSize 0 (replicate (Z.to_nat N) [])
                          (replicate (Z.to_nat N) []))) as Hloop.
  cbn [sm_node_id sm_out_nbrs sm_in_nbrs] in Hloop.
  specialize (Hloop (sampled_init N) ltac:(lia)). cbv zeta in Hloop.
  destruct Hloop as [Hs Hm].
  set (st := small_graph_loop _ _ _ _) in *.
  destruct (Z.ltb_spec (sm_node_id st) N) as [Hlt | Hge]; intros [= <-].
  - split; [|cbn; lia]. eapply sampled_sized; [exact Hs | lia].
  - split; [|cbn; lia].
    destruct Hs as (Ho & Hi & _). unfold sample_sized. cbn. lia.
Qed.

(** X13. The printing loop of the small graph of a raw graph file never
    subscripts a vector out of range, whatever the file holds: it writes one
    line per node of the sample, numbered from 0, with the out-neighbors of
    the node cut to [max] entries (all of them, and no total, when [max] is
    0) and its complete [referenced_by] list. *)
Theorem small_graph_from_file_printed file offset N max :
  0 <= N ->
  exists o,
    small_graph_output max (print_small_graph_from_file file offset N) = Some o
    /\ forall g, print_small_graph_from_file file offset N = Sample g ->
         exists lines,
           o = SmallLines (sg_num_nodes g) (sg_entry_point g) lines
           /\ length lines = Z.to_nat (sg_num_nodes g)
           /\ sg_num_nodes g <= N
           /\ forall i l, lines !! i = Some l -> small_line_for max g i l.
Proof.
  intros HN.
  destruct (print_small_graph_from_file file offset N) as [| | |g] eqn:Hr;
    cbn [small_graph_output]; try (eexists; split; [reflexivity | discriminate]).
  destruct (small_graph_from_file_sized file offset N g HN Hr) as [Hsz Hn].
  destruct (small_graph_lines_sized max g Hsz) as (lines & Hl & Hlen & Hfor).
  rewrite Hl. eexists. split; [reflexivity|].
  intros g' [= <-]. exists lines.
  split; [reflexivity|]. split; [exact Hlen|]. split; [lia | exact Hfor].
Qed.

Lemma small_graph_from_file_printed_witness :
  exists o,
    small_graph_output 1 (print_small_graph_from_file (Some triangle_file) 0 3) = Some o
    /\ forall g, print_small_graph_from_file (Some triangle_file) 0 3 = Sample g ->
         exists lines,
           o = SmallLines (sg_num_nodes g) (sg_entry_point g) lines
           /\ length lines = Z.to_nat (sg_num_nodes g)
           /\ sg_num_nodes g <= 3
           /\ forall i l, lines !! i = Some l -> small_line_for 1 g i l.
Proof.
  apply small_graph_from_file_printed. lia.
Defined.

Lemma small_graph_from_disk_index_sized bs data_type N g :
  0 <= N -> print_small_graph_from_disk_index (Some bs) data_type N = Some (Sample g) ->
  sample_sized g /\ 0 <= sg_num_nodes g <= N
  /\ sg_num_nodes g <= disk_nnodes (header_geometry bs).
Proof.
  intros HN. unfold print_small_graph_from_disk_index, header_geometry. cbn [open].
  pose proof (read_disk_header_cases bs) as Hh. cbv zeta in Hh.
  destruct (read_disk_header (mkStream bs 0 true)) as [[hg off] in1].
  cbn [fst]. destruct Hh as (_ & _ & Hh).
  destruct (is_good in1) eqn:Hg1; cbn [negb orb]; [|discriminate].
  destruct (Hh eq_refl) as [Hgeo _].
  pose proof (geometry_at_range bs (if tag_accepted (mkStream bs 0 true) then 8 else 0))
    as Hrange.
  cbv zeta in Hrange. rewrite <- Hgeo in Hrange. destruct Hrange as (Hnn & _).
  destruct (nnodes_per_sector hg =? 0); [discriminate|].
  destruct (bad_geometry hg (elem_size data_type)); [discriminate|].
  set (n := if disk_nnodes hg <? N then disk_nnodes hg else N).
  assert (Hn : 0 <= n <= N /\ n <= disk_nnodes hg)
    by (unfold n; destruct (Z.ltb_spec (disk_nnodes hg) N); lia).
  match goal with
  | |- context [sample_sector_loop ?cnt ?sec hg ?nh n ?ins ?st] =>
      pose proof (sample_sector_loop_sampled hg nh n cnt sec ins st) as Hloop;
      destruct (sample_sector_loop cnt sec hg nh n ins st) as [st'|]; [|discriminate]
  end.
  cbn [ds_nodes_read ds_out_nbrs ds_in_nbrs] in Hloop.
  destruct (Hloop st' (sampled_init n) ltac:(lia) eq_refl) as [Hs Hm].
  destruct (Z.ltb_spec (ds_nodes_read st') n) as [Hlt | Hge]; intros [= <-].
  - split; [eapply sampled_sized; [exact Hs | lia]|]. cbn. lia.
  - split; [|cbn; lia].
    destruct Hs as (Ho & Hi & _). unfold sample_sized. cbn. lia.
Qed.

(** X14. Whenever the small-graph sampler of the disk index returns a
    sample, the sample has at most [N] nodes and at most as many as the
    header announces, and the printing loop never subscripts a vector out of
    range: it writes one line per node of the sample, with the out-neighbors
    cut to [max] entries and the complete [referenced_by] list. *)
Theorem small_graph_from_disk_index_printed bs data_type N max g :
  0 <= N ->
  print_small_graph_from_disk_index (Some bs) data_type N = Some (Sample g) ->
  sg_num_nodes g <= Z.min N (disk_nnodes (header_geometry bs))
  /\ exists lines,
       small_graph_output max (Sample g)
       = Some (SmallLines (sg_num_nodes g) (sg_entry_point g) lines)
       /\ length lines = Z.to_nat (sg_num_nodes g)
       /\ forall i l, lines !! i = Some l -> small_line_for max g i l.
Proof.
  intros HN Hr.
  destruct (small_graph_from_disk_index_sized bs data_type N g HN Hr) as (Hsz & Hn & Hd).
  split; [lia|].
  destruct (small_graph_lines_sized max g Hsz) as (lines & Hl & Hlen & Hfor).
  exists lines. cbn [small_graph_output]. rewrite Hl.
  split; [reflexivity|]. split; assumption.
Qed.

Lemma small_graph_from_disk_index_printed_witness :
  let g := mkSmall 2 4 [[1; 2]; [0]] [[1]; [0]] in
  (0 <= 2 /\ print_small_graph_from_disk_index (Some ten_node_file) kFloat 2
             = Some (Sample g))
  /\ sg_num_nodes g <= Z.min 2 (disk_nnodes (header_geometry ten_node_file))
  /\ exists lines,
       small_graph_output 1 (Sample g)
       = Some (SmallLines (sg_num_nodes g) (sg_entry_point g) lines)
       /\ length lines = Z.to_nat (sg_num_nodes g)
       /\ forall i l, lines !! i = Some l -> small_line_for 1 g i l.
Proof.
  intros g.
  assert (H : 0 <= 2 /\ print_small_graph_from_disk_index (Some ten_node_file) kFloat 2
                        = Some (Sample g)).
  { split; [lia | reflexivity]. }
  split; [exact H|].
  exact (small_graph_from_disk_index_printed ten_node_file kFloat 2 1 g
           (proj1 H) (proj2 H)).
Defined.

(** ** The command-line inspector *)

Lemma read_source_early fs o mode r :
  read_source fs o mode = Some (inl r) ->
  exit_code r = 1 /\ cout r = [] /\ exists m, cerr r = [m] /\ m <> UsageText.
Proof.
  unfold read_source.
  destruct (mode =? 4).
  - destruct (if String.eqb (opt_data_type_str o) "float" then _ else _) as [t|].
    + destruct (compute_graph_stats_from_disk_index _ _); discriminate.
    + intros [= <-]. cbn. repeat split. eexists; split; [reflexivity | discriminate].
  - destruct (mode =? 1).
    + destruct (compute_graph_stats_from_file _ _); discriminate.
    + destruct (open _) as [in0|].
      * destruct (read 40 in0) as [[meta|] in1].
        -- destruct (negb _ || _).
           ++ intros [= <-]. cbn. repeat split.
              eexists; split; [reflexivity | discriminate].
           ++ destruct (compute_graph_stats_from_file _ _); discriminate.
        -- intros [= <-]. cbn. repeat split.
           eexists; split; [reflexivity | discriminate].
      * intros [= <-]. cbn. repeat split.
        eexists; split; [reflexivity | discriminate].
Qed.

Lemma disk_index_scan_defined file data_type :
  (forall bs, file = Some bs -> coordinates_fit bs data_type) ->
  exists r, disk_index_scan file data_type = Some r.
Proof.
  destruct file as [bs|]; [|intros _; eexists; reflexivity].
  intros Hfit. specialize (Hfit bs eq_refl).
  unfold coordinates_fit, header_geometry in Hfit.
  unfold disk_index_scan. cbn [open].
  pose proof (read_disk_header_cases bs) as Hh. cbv zeta in Hh.
  destruct (read_disk_header (mkStream bs 0 true)) as [[g off] in1].
  cbn [fst] in Hfit. destruct Hh as (_ & _ & Hh).
  destruct (is_good in1) eqn:Hg1; cbn [negb]; [|eexists; reflexivity].
  destruct (Hh eq_refl) as [_ Hin1].
  destruct (bad_geometry g (elem_size data_type)) eqn:Hb; [eexists; reflexivity|].
  destruct (nnodes_per_sector g =? 0); [eexists; reflexivity|].
  destruct (good_geometry_bounds g _ Hb Hfit) as [Hc0 Hc].
  match goal with
  | |- context [sector_loop ?cnt ?sec g ?esz ?ins ?st] =>
      destruct (sector_loop_in_bounds g esz Hc0 Hc cnt sec ins st) as [st' Hs]
  end.
  { apply seek_to_position. intros _. rewrite Hin1. cbn [gpos].
    destruct (tag_accepted _); lia. }
  rewrite Hs. eexists; reflexivity.
Qed.

Lemma compute_graph_stats_from_file_defined file offset :
  exists s, compute_graph_stats_from_file file offset = Some s.
Proof.
  destruct (compute_graph_stats_from_file_returns file offset) as [r Hr].
  exists r. specialize (Hr 0%nat). rewrite Nat.add_0_r in Hr. exact Hr.
Qed.

Lemma read_source_defined fs o mode :
  (forall path bs t, fs path = Some bs -> coordinates_fit bs t) ->
  exists x, read_source fs o mode = Some x.
Proof.
  intros Hfs. unfold read_source.
  destruct (mode =? 4).
  - destruct (if String.eqb (opt_data_type_str o) "float" then _ else _) as [t|];
      [|eexists; reflexivity].
    destruct (disk_index_scan_defined (fs (opt_disk_index_file o)) t) as [r Hr].
    { intros bs Hbs. now apply (Hfs (opt_disk_index_file o)). }
    unfold compute_graph_stats_from_disk_index. rewrite Hr. eexists; reflexivity.
  - destruct (mode =? 1).
    + destruct (compute_graph_stats_from_file_defined (fs (opt_graph_file o)) 0) as [s ->].
      eexists; reflexivity.
    + destruct (open _) as [in0|]; [|eexists; reflexivity].
      destruct (read 40 in0) as [[meta|] in1]; [|eexists; reflexivity].
      destruct (negb _ || _); [eexists; reflexivity|].
      destruct (compute_graph_stats_from_file_defined (fs (opt_index_file o))
                  (le_combine (slice meta 0 8))) as [s ->].
      eexists; reflexivity.
Qed.

Lemma inspect_without_sampler fs o :
  opt_adjacency_sample o = 0 -> opt_small_graph o = 0 ->
  (forall path bs t, fs path = Some bs -> coordinates_fit bs t) ->
  exists r, inspect fs o = Some r
    /\ ((exit_code r = 0 /\ cerr r = []
         /\ exists s, cout r = [Summary s] /\ total_nodes s <> 0)
        \/ (exit_code r = 1 /\ cout r = [] /\ exists m, cerr r = [m] /\ m <> UsageText)).
Proof.
  intros Ha Hs Hfs.
  assert (Hfail : forall m, m <> UsageText ->
            exists r, fail m = Some r
              /\ ((exit_code r = 0 /\ cerr r = []
                   /\ exists s, cout r = [Summary s] /\ total_nodes s <> 0)
                  \/ (exit_code r = 1 /\ cout r = []
                      /\ exists m, cerr r = [m] /\ m <> UsageText))).
  { intros m Hm. eexists. split; [reflexivity|]. right. cbn. repeat split.
    exists m. split; [reflexivity | exact Hm]. }
  unfold inspect.
  set (mode := _ + _ + _).
  destruct (mode =? 0); [apply Hfail; discriminate|].
  destruct (negb (mode =? 1) && negb (mode =? 2) && negb (mode =? 4));
    [apply Hfail; discriminate|].
  destruct ((mode =? 4) && empty (opt_data_type_str o)); [apply Hfail; discriminate|].
  destruct (read_source_defined fs o mode Hfs) as [[r' | src] Hsrc]; rewrite Hsrc.
  - exists r'. split; [reflexivity|]. right. now apply (read_source_early fs o mode).
  - cbv zeta.
    destruct ((total_nodes (src_stats src) =? 0) && _ && _); [apply Hfail; discriminate|].
    destruct (Z.eqb_spec (total_nodes (src_stats src)) 0) as [|Hn];
      [apply Hfail; discriminate|].
    destruct (negb (src_use_disk_index src) && _ && _); [apply Hfail; discriminate|].
    rewrite Ha, Hs. change (0 <? 0) with false. cbv iota.
    eexists. split; [reflexivity|]. left. cbn. repeat split.
    eexists. split; [reflexivity | exact Hn].
Qed.

Lemma parse_args_keeps_samplers stoul : forall n args o o',
  (length args <= n)%nat ->
  ~ In "--adjacency-sample"%string args -> ~ In "--small-graph"%string args ->
  parse_args stoul args o = Parsed o' ->
  opt_adjacency_sample o' = opt_adjacency_sample o
  /\ opt_small_graph o' = opt_small_graph o.
Proof.
  induction n as [|n IH]; intros args o o' Hlen Hina Hins.
  - destruct args; [|simpl in Hlen; lia]. cbn. now intros [= <-].
  - destruct args as [|arg [|val rest]]; cbn [parse_args].
    + now intros [= <-].
    + destruct (is_help arg); [discriminate|]. now intros [= <-].
    + assert (Hresta : ~ In "--adjacency-sample"%string rest)
        by (intros H; apply Hina; right; right; exact H).
      assert (Hvresta : ~ In "--adjacency-sample"%string (val :: rest))
        by (intros H; apply Hina; right; exact H).
      assert (Hrests : ~ In "--small-graph"%string rest)
        by (intros H; apply Hins; right; right; exact H).
      assert (Hvrests : ~ In "--small-graph"%string (val :: rest))
        by (intros H; apply Hins; right; exact H).
      assert (Hlr : (length rest <= n)%nat) by (cbn [length] in Hlen; lia).
      assert (Hlv : (length (val :: rest) <= n)%nat) by (cbn [length] in *; lia).
      assert (Harga : String.eqb arg "--adjacency-sample" = false).
      { apply String.eqb_neq. intros ->. apply Hina. now left. }
      assert (Hargs : String.eqb arg "--small-graph" = false).
      { apply String.eqb_neq. intros ->. apply Hins. now left. }
      rewrite Harga, Hargs.
      repeat match goal with
             | |- context [if String.eqb arg ?s then _ else _] =>
                 destruct (String.eqb arg s)
             | |- context [match parse_positive_size stoul val with _ => _ end] =>
                 destruct (parse_positive_size stoul val)
             | |- context [if is_help arg then _ else _] => destruct (is_help arg)
             end;
        try discriminate;
        intros H;
        first [ apply (IH _ _ _ Hlr Hresta Hrests) in H; exact H
              | apply (IH _ _ _ Hlv Hvresta Hvrests) in H; exact H ].
Qed.

(** X15. A run of the inspector without a sampler option
    ([--adjacency-sample], [--small-graph]), over files in which the byte
    count of the coordinates does not wrap around 2^64, returns from [main],
    and in one of three ways: exit code 0 with nothing on the error stream
    and, as the whole output, the summary of a graph with at least one node;
    exit code 0 with the usage text alone (help was asked for); or exit code
    1 with exactly one error message and nothing on the output. A graph
    without nodes is never summarised. *)
Theorem main_outcome fs stoul argv :
  ~ In "--adjacency-sample"%string (tail argv) ->
  ~ In "--small-graph"%string (tail argv) ->
  (forall path bs t, fs path = Some bs -> coordinates_fit bs t) ->
  exists r,
    main fs stoul argv = Some r
    /\ ((exit_code r = 0 /\ cerr r = []
         /\ exists s, cout r = [Summary s] /\ total_nodes s <> 0)
        \/ (exit_code r = 0 /\ cerr r = [UsageText] /\ cout r = [])
        \/ (exit_code r = 1 /\ cout r = [] /\ exists m, cerr r = [m] /\ m <> UsageText)).
Proof.
  intros Hina Hins Hfs. unfold main.
  destruct (parse_args stoul (tail argv) default_options) as [o | name val |] eqn:Hp.
  - destruct (parse_args_keeps_samplers stoul (length (tail argv)) (tail argv)
                default_options o (Nat.le_refl _) Hina Hins Hp) as [Ha Hs].
    destruct (inspect_without_sampler fs o Ha Hs Hfs) as (r & Hr & [H0 | H1]).
    + exists r. split; [exact Hr | now left].
    + exists r. split; [exact Hr | now right; right].
  - eexists. split; [reflexivity|]. right; right. cbn. repeat split.
    eexists; split; [reflexivity | discriminate].
  - eexists. split; [reflexivity|]. right; left. cbn. repeat split.
Qed.

Lemma main_outcome_witness :
  exists r,
    main (one_file "g.bin" header_only_file) small_stoul
         ["prog"; "--graph-file"; "g.bin"]%string = Some r
    /\ ((exit_code r = 0 /\ cerr r = []
         /\ exists s, cout r = [Summary s] /\ total_nodes s <> 0)
        \/ (exit_code r = 0 /\ cerr r = [UsageText] /\ cout r = [])
        \/ (exit_code r = 1 /\ cout r = [] /\ exists m, cerr r = [m] /\ m <> UsageText)).
Proof.
  apply main_outcome.
  - cbn. intros [H | [H | []]]; discriminate.
  - cbn. intros [H | [H | []]]; discriminate.
  - intros path bs t. unfold one_file.
    destruct (String.eqb path "g.bin"); [|discriminate].
    intros [= <-]. unfold coordinates_fit. destruct t; vm_compute; reflexivity.
Defined.

Lemma read_source_index fs o src :
  read_source fs o 2 = Some (inr src) ->
  exists bs,
    fs (opt_index_file o) = Some bs
    /\ 40 <= Z.of_nat (length bs)
    /\ le_combine (slice bs 0 8) = 4096
    /\ 4096 < le_combine (slice bs 8 8)
    /\ compute_graph_stats_from_file (Some bs) 4096 = Some (src_stats src)
    /\ src_use_disk_index src = false.
Proof.
  unfold read_source.
  change (2 =? 4) with false. change (2 =? 1) with false. cbv iota.
  destruct (fs (opt_index_file o)) as [bs|] eqn:Hfs; cbn [open]; [|discriminate].
  unfold read. cbn [is_good negb gpos content]. unfold stream_size. cbn [content].
  destruct (Z.leb_spec (0 + 40) (Z.of_nat (length bs))) as [Hlen | Hlen];
    [|discriminate].
  rewrite !slice_slice by lia. change (0 + 0) with 0. change (0 + 8) with 8.
  destruct (negb (le_combine (slice bs 0 8) =? kMetadataSize)
            || (le_combine (slice bs 8 8) <=? le_combine (slice bs 0 8))) eqn:Hc;
    [discriminate|].
  apply orb_false_iff in Hc as [Hm0 Hm1].
  apply negb_false_iff, Z.eqb_eq in Hm0. apply Z.leb_gt in Hm1.
  rewrite Hm0 in *. unfold kMetadataSize in *.
  destruct (compute_graph_stats_from_file (Some bs) 4096) as [s|] eqn:Hs; [|discriminate].
  intros [= <-]. exists bs. cbn. repeat split; try assumption; lia.
Qed.

(** X16. In the single-file mode the inspector reads the graph at offset
    4096 and nowhere else: a run on an index file alone that ends with exit
    code 0 means that the file starts with the 64-bit value 4096, followed
    by a larger one, and the summary printed is the result of the file
    scanner at offset 4096. *)
Theorem inspect_index_file fs o r :
  empty (opt_graph_file o) = true -> empty (opt_disk_index_file o) = true ->
  inspect fs o = Some r -> exit_code r = 0 ->
  exists bs s rest,
    fs (opt_index_file o) = Some bs
    /\ 40 <= Z.of_nat (length bs)
    /\ le_combine (slice bs 0 8) = 4096
    /\ 4096 < le_combine (slice bs 8 8)
    /\ compute_graph_stats_from_file (Some bs) 4096 = Some s
    /\ total_nodes s <> 0
    /\ cout r = Summary s :: rest.
Proof.
  intros Hg Hd. unfold inspect. rewrite Hg, Hd.
  assert (Hfail : forall m, fail m = Some r -> exit_code r = 0 ->
            exists bs s rest,
              fs (opt_index_file o) = Some bs
              /\ 40 <= Z.of_nat (length bs)
              /\ le_combine (slice bs 0 8) = 4096
              /\ 4096 < le_combine (slice bs 8 8)
              /\ compute_graph_stats_from_file (Some bs) 4096 = Some s
              /\ total_nodes s <> 0
              /\ cout r = Summary s :: rest).
  { intros m [= <-]. cbn. discriminate. }
  destruct (empty (opt_index_file o)); [apply Hfail|].
  change (0 + 2 + 0) with 2. change (2 =? 0) with false. change (2 =? 1) with false.
  change (2 =? 2) with true. change (2 =? 4) with false. cbn [negb andb].
  destruct (read_source fs o 2) as [[r' | src]|] eqn:Hsrc; [| |discriminate].
  - intros [= <-] Hx. destruct (read_source_early fs o 2 r' Hsrc) as [H1 _]. lia.
  - destruct (read_source_index fs o src Hsrc) as (bs & Hfs & Hlen & Hm0 & Hm1 & Hs & Hu).
    cbv zeta. rewrite Hu.
    destruct ((total_nodes (src_stats src) =? 0) && _ && _); [apply Hfail|].
    destruct (Z.eqb_spec (total_nodes (src_stats src)) 0) as [|Hn]; [apply Hfail|].
    destruct (negb false && _ && _); [apply Hfail|].
    destruct (if 0 <? opt_adjacency_sample o then _ else _) as [adjacency|];
      [|discriminate].
    destruct (if 0 <? opt_small_graph o then _ else _) as [small|]; [|discriminate].
    intros [= <-] _. exists bs, (src_stats src), (adjacency ++ small). cbn.
    repeat split; assumption.
Qed.

Lemma inspect_index_file_witness :
  let o := mkOptions EmptyString "i.bin" EmptyString EmptyString 0 20 0 in
  let bs := u64 4096 ++ u64 5000 ++ repeat Byte.x00 4080 ++ sample_graph_file in
  let r := mkRun 0 [] [Summary (stats_over [2; 1; 0; 3] 3 1)] in
  (empty (opt_graph_file o) = true /\ empty (opt_disk_index_file o) = true
   /\ inspect (one_file "i.bin" bs) o = Some r /\ exit_code r = 0)
  /\ exists bs' s rest,
       one_file "i.bin" bs (opt_index_file o) = Some bs'
       /\ 40 <= Z.of_nat (length bs')
       /\ le_combine (slice bs' 0 8) = 4096
       /\ 4096 < le_combine (slice bs' 8 8)
       /\ compute_graph_stats_from_file (Some bs') 4096 = Some s
       /\ total_nodes s <> 0
       /\ cout r = Summary s :: rest.
Proof.
  intros o bs r.
  assert (H : empty (opt_graph_file o) = true /\ empty (opt_disk_index_file o) = true
              /\ inspect (one_file "i.bin" bs) o = Some r /\ exit_code r = 0).
  { split; [reflexivity|]. split; [reflexivity|]. split; [|reflexivity].
    vm_compute. reflexivity. }
  split; [exact H|].
  destruct H as (H1 & H2 & H3 & H4).
  exact (inspect_index_file (one_file "i.bin" bs) o r H1 H2 H3 H4).
Defined.

Lemma zmax_bound l hi : 0 <= hi -> Forall (fun d => d <= hi) l -> zmax l <= hi.
Proof.
  intros Hhi Hl. destruct (zmax_member_or_zero l) as [[_ H0] | [Hin | H0]]; try lia.
  rewrite List.Forall_forall in Hl. now apply Hl.
Qed.

Lemma records_size_bound hi recs :
  Forall (fun r => Z.of_nat (length r) <= hi) recs ->
  records_size recs <= Z.of_nat (length recs) * (4 + 4 * hi).
Proof.
  unfold records_size, record_size.
  induction 1 as [|r recs Hr _ IH]; cbn [fold_right length]; [lia|].
  rewrite Nat2Z.inj_succ. lia.
Qed.

(** X17. Inspecting a written raw graph file prints the statistics of the
    graph that was written, and nothing else: for a graph with at least one
    node, at most 500000000 nodes and no degree above 10000000, the run on
    [--graph-file path] ends with exit code 0 and the summary alone. *)
Theorem main_graph_file_written fs stoul prog path w ep fz recs :
  path <> EmptyString ->
  fs path = Some (graph_header (24 + records_size recs) w ep fz ++ graph_records recs) ->
  recs <> [] ->
  Z.of_nat (length recs) <= kMaxReasonableNodes ->
  Forall (fun r => Z.of_nat (length r) <= kMaxReasonableDegree) recs ->
  0 <= ep < 2 ^ 32 -> 0 <= fz < 2 ^ 64 ->
  main fs stoul [prog; "--graph-file"%string; path]
  = Some (mkRun 0 [] [Summary (stats_over (degrees recs) ep fz)]).
Proof.
  intros Hpath Hfs Hne Hn Hdeg Hep Hfz.
  unfold kMaxReasonableNodes, kMaxReasonableDegree in *.
  assert (Hfit : degrees_fit recs).
  { unfold degrees_fit. eapply List.Forall_impl; [|exact Hdeg]. cbv beta. intros; lia. }
  pose proof (records_size_bound 10000000 recs Hdeg) as Hrs.
  pose proof (records_size_bounds recs) as Hrs0.
  assert (Hsz : file_size_ok ([] ++ graph_header (24 + records_size recs) w ep fz
                              ++ graph_records recs ++ [])).
  { unfold file_size_ok. cbn [app]. rewrite app_nil_r, length_app, Nat2Z.inj_add,
      length_graph_header, length_graph_records. nia. }
  pose proof (scan_written_file [] w ep fz recs (length recs) [] Hfit Hep Hfz Hsz
                ltac:(lia)) as Hscan.
  rewrite firstn_all in Hscan. cbn [app length] in Hscan.
  change (Z.of_nat 0) with 0 in Hscan. rewrite app_nil_r in Hscan.
  unfold main. cbn [tail parse_args].
  change (String.eqb "--graph-file" "--graph-file") with true. cbv iota.
  unfold inspect.
  cbn [opt_graph_file opt_index_file opt_disk_index_file opt_data_type_str
       opt_adjacency_sample opt_small_graph opt_max_neighbors_per_node default_options].
  replace (empty path) with false
    by (symmetry; unfold empty; now apply String.eqb_neq).
  change (empty EmptyString) with true. cbv iota.
  change (1 + 0 + 0) with 1. change (1 =? 0) with false. change (1 =? 1) with true.
  change (1 =? 2) with false. change (1 =? 4) with false. cbn [negb andb].
  unfold read_source. change (1 =? 4) with false. change (1 =? 1) with true. cbv iota.
  cbn [opt_graph_file opt_adjacency_sample opt_small_graph].
  rewrite Hfs, Hscan.
  cbn [src_stats src_path src_offset src_use_disk_index src_is_single_file].
  assert (Hlen : Z.of_nat (length (degrees recs)) = Z.of_nat (length recs))
    by (unfold degrees; now rewrite length_map).
  assert (Hpos : 0 < Z.of_nat (length recs)) by (destruct recs; [congruence | simpl; lia]).
  assert (Hmax : zmax (degrees recs) <= 10000000).
  { apply zmax_bound; [lia|]. unfold degrees. apply List.Forall_map. exact Hdeg. }
  unfold stats_over at 1 2 3 4.
  cbn [total_nodes degree_max]. rewrite Hlen.
  replace (Z.of_nat (length recs) =? 0) with false by (symmetry; apply Z.eqb_neq; lia).
  cbn [andb negb].
  unfold kMaxReasonableDegree, kMaxReasonableNodes.
  replace (10000000 <? zmax (degrees recs)) with false by (symmetry; apply Z.ltb_ge; lia).
  replace (500000000 <? Z.of_nat (length recs)) with false
    by (symmetry; apply Z.ltb_ge; lia).
  cbn [orb]. change (0 <? 0) with false. cbv iota. cbn [app]. reflexivity.
Qed.

Lemma main_graph_file_written_witness :
  main (one_file "g.bin" sample_graph_file) small_stoul
       ["prog"; "--graph-file"; "g.bin"]%string
  = Some (mkRun 0 [] [Summary (stats_over (degrees sample_records) 3 1)]).
Proof.
  apply (main_graph_file_written _ _ _ _ 7 3 1 sample_records).
  - discriminate.
  - reflexivity.
  - discriminate.
  - vm_compute. congruence.
  - unfold sample_records, kMaxReasonableDegree. repeat constructor; simpl; lia.
  - lia.
  - lia.
Defined.

Lemma parse_args_keeps_cap stoul : forall n args o o',
  (length args <= n)%nat ->
  ~ In "--max-neighbors"%string args ->
  parse_args stoul args o = Parsed o' ->
  opt_max_neighbors_per_node o' = opt_max_neighbors_per_node o.
Proof.
  induction n as [|n IH]; intros args o o' Hlen Hin.
  - destruct args; [|simpl in Hlen; lia]. cbn. now intros [= <-].
  - destruct args as [|arg [|val rest]]; cbn [parse_args].
    + now intros [= <-].
    + destruct (is_help arg); [discriminate|]. now intros [= <-].
    + assert (Hrest : ~ In "--max-neighbors"%string rest)
        by (intros H; apply Hin; right; right; exact H).
      assert (Hvrest : ~ In "--max-neighbors"%string (val :: rest))
        by (intros H; apply Hin; right; exact H).
      assert (Hlr : (length rest <= n)%nat) by (cbn [length] in Hlen; lia).
      assert (Hlv : (length (val :: rest) <= n)%nat) by (cbn [length] in *; lia).
      assert (Harg : String.eqb arg "--max-neighbors" = false).
      { apply String.eqb_neq. intros ->. apply Hin. now left. }
      rewrite Harg.
      repeat match goal with
             | |- context [if String.eqb arg ?s then _ else _] =>
                 destruct (String.eqb arg s)
             | |- context [match parse_positive_size stoul val with _ => _ end] =>
                 destruct (parse_positive_size stoul val)
             | |- context [if is_help arg then _ else _] => destruct (is_help arg)
             end;
        try discriminate;
        intros H;
        first [ apply (IH _ _ _ Hlr Hrest) in H; exact H
              | apply (IH _ _ _ Hlv Hvrest) in H; exact H ].
Qed.

(** X18. The cap on the neighbors shown per node is 20 unless the option
    [--max-neighbors] occurs on the command line: whatever else the
    arguments hold, the argument loop leaves the cap as it is. *)
Theorem parse_args_default_cap stoul args o :
  ~ In "--max-neighbors"%string args ->
  parse_args stoul args default_options = Parsed o ->
  opt_max_neighbors_per_node o = 20.
Proof.
  intros Hin H.
  now rewrite (parse_args_keeps_cap stoul (length args) args default_options o
                 (Nat.le_refl _) Hin H).
Qed.

Lemma parse_args_default_cap_witness :
  let o := mkOptions "g.bin" EmptyString EmptyString EmptyString 3 20 0 in
  (~ In "--max-neighbors"%string ["--graph-file"; "g.bin"; "--adjacency-sample"; "3"]%string
   /\ parse_args small_stoul ["--graph-file"; "g.bin"; "--adjacency-sample"; "3"]%string
                 default_options = Parsed o)
  /\ opt_max_neighbors_per_node o = 20.
Proof.
  intros o.
  assert (H : ~ In "--max-neighbors"%string
                ["--graph-file"; "g.bin"; "--adjacency-sample"; "3"]%string
              /\ parse_args small_stoul
                   ["--graph-file"; "g.bin"; "--adjacency-sample"; "3"]%string
                   default_options = Parsed o).
  { split; [|reflexivity]. cbn [In]. intros [H | [H | [H | [H | []]]]]; discriminate H. }
  split; [exact H|].
  exact (parse_args_default_cap small_stoul _ o (proj1 H) (proj2 H)).
Defined.

(** ** I/O context tagging *)

(** X19. The name of a thread tells its I/O context: every name that
    [set_io_context] gives is short enough to be accepted, whatever the
    thread was called before, so that two threads carry the same name after
    the call exactly when they were given the same context; and the context
    read back is the one that was set. *)
Theorem io_context_by_thread_name c1 c2 t1 t2 :
  get_io_context (set_io_context c1 t1) = c1
  /\ (thread_name (set_io_context c1 t1) = thread_name (set_io_context c2 t2)
      <-> c1 = c2).
Proof.
  split.
  - destruct c1; reflexivity.
  - split.
    + destruct c1, c2; cbn; intros H; try discriminate H; reflexivity.
    + intros <-. destruct c1; reflexivity.
Qed.

(** ** The statistics reader on a written disk index *)

Lemma slice_app_r (a b : list byte) off n :
  0 <= off -> slice (a ++ b) (Z.of_nat (length a) + off) n = slice b off n.
Proof.
  intros Hoff. unfold slice.
  replace (Z.to_nat (Z.of_nat (length a) + off)) with (length a + Z.to_nat off)%nat by lia.
  now rewrite drop_app_add.
Qed.

Lemma slice_concat_block {A} (f : A -> list byte) (len : nat) rest off n :
  0 <= off -> 0 <= n -> off + n <= Z.of_nat len ->
  forall l j x,
    Forall (fun y => length (f y) = len) l -> l !! j = Some x ->
    slice (concat (map f l) ++ rest) (Z.of_nat j * Z.of_nat len + off) n
    = slice (f x) off n.
Proof.
  intros Hoff Hn Hlen.
  induction l as [|y l IH]; intros j x Hall Hj; [discriminate|].
  pose proof (List.Forall_inv Hall) as Hy. cbv beta in Hy.
  pose proof (List.Forall_inv_tail Hall) as Hl.
  cbn [map concat]. rewrite <- app_assoc.
  destruct j as [|j]; cbn [lookup list_lookup] in Hj.
  - injection Hj as ->. rewrite Z.mul_0_l, Z.add_0_l.
    apply slice_app_l; lia.
  - replace (Z.of_nat (S j) * Z.of_nat len + off)
      with (Z.of_nat (length (f y)) + (Z.of_nat j * Z.of_nat len + off)) by lia.
    rewrite slice_app_r by nia. now apply IH.
Qed.

Lemma length_pad_to n bs : (length bs <= n)%nat -> length (pad_to n bs) = n.
Proof. intros H. unfold pad_to. rewrite length_app, repeat_length. lia. Qed.

Lemma length_disk_record coords len r :
  Z.of_nat coords + 4 + 4 * Z.of_nat (length r) <= Z.of_nat len ->
  length (disk_record coords len r) = len.
Proof.
  intros H. unfold disk_record. apply length_pad_to.
  rewrite !length_app, repeat_length, length_u32, length_u32s. lia.
Qed.

Lemma length_concat_blocks {A} (f : A -> list byte) len l :
  Forall (fun y => length (f y) = len) l ->
  length (concat (map f l)) = (length l * len)%nat.
Proof.
  induction 1 as [|y l Hy _ IH]; [reflexivity|].
  cbn [map concat length]. rewrite length_app, Hy, IH. lia.
Qed.

Lemma length_disk_sector coords len rs :
  Forall (fun r => Z.of_nat coords + 4 + 4 * Z.of_nat (length r) <= Z.of_nat len) rs ->
  Z.of_nat (length rs) * Z.of_nat len <= 4096 ->
  length (disk_sector coords len rs) = 4096%nat.
Proof.
  intros Hall Hfit. unfold disk_sector. apply length_pad_to.
  rewrite (length_concat_blocks _ len).
  - nia.
  - eapply List.Forall_impl; [|exact Hall]. cbv beta. intros r Hr.
    now apply length_disk_record.
Qed.

Lemma disk_record_degree coords len r :
  Z.of_nat (length r) < 2 ^ 32 ->
  le_combine (slice (disk_record coords len r) (Z.of_nat coords) 4)
  = Z.of_nat (length r).
Proof.
  intros Hr. unfold disk_record, pad_to. rewrite <- !app_assoc.
  replace (Z.of_nat coords) with (Z.of_nat (length (repeat Byte.x00 coords)))
    by (now rewrite repeat_length).
  change 4 with (Z.of_nat (length (u32 (Z.of_nat (length r))))).
  rewrite slice_app_middle. apply le_combine_u32. lia.
Qed.

Lemma degree_field_written npts ndims g esz recs rest i r :
  describes g esz recs -> 0 <= esz ->
  recs !! i = Some r ->
  degree_field (disk_index_file npts ndims g (Z.to_nat (disk_ndims g * esz)) recs ++ rest)
               g esz (Z.of_nat i)
  = Z.of_nat (length r).
Proof.
  intros (Hn & Hd & Hm & Hrpp & Hlen & Hfit & Hall) Hesz Hi.
  set (coords := Z.to_nat (disk_ndims g * esz)).
  set (len := Z.to_nat (max_node_len g)).
  set (rpp := Z.to_nat (nnodes_per_sector g)).
  assert (Hc : Z.of_nat coords = disk_ndims g * esz) by (unfold coords; nia).
  assert (Hl : Z.of_nat len = max_node_len g) by (unfold len; nia).
  assert (Hr : Z.of_nat rpp = nnodes_per_sector g) by (unfold rpp; lia).
  assert (Hi' : (i < length recs)%nat) by (eapply lookup_lt_Some; exact Hi).
  assert (Hall' : forall rs, (forall x, In x rs -> In x recs) ->
            Forall (fun r => Z.of_nat coords + 4 + 4 * Z.of_nat (length r)
                             <= Z.of_nat len) rs).
  { intros rs Hsub. apply List.Forall_forall. intros x Hx.
    rewrite List.Forall_forall in Hall. rewrite Hc, Hl. apply Hall, Hsub, Hx. }
  assert (Hchunk : forall s, forall x, In x (take rpp (drop (s * rpp) recs)) -> In x recs).
  { intros s x Hx. apply list_elem_of_In in Hx.
    apply list_elem_of_In. apply (subseteq_drop (s * rpp) recs).
    apply (subseteq_take rpp). exact Hx. }
  assert (Hsec : forall s, length (disk_sector coords len (take rpp (drop (s * rpp) recs)))
                           = 4096%nat).
  { intros s. apply length_disk_sector; [apply Hall', Hchunk|].
    rewrite length_take. nia. }
  pose proof (Z.div_mod (Z.of_nat i) (nnodes_per_sector g) ltac:(lia)) as Hdm.
  pose proof (Z.mod_pos_bound (Z.of_nat i) (nnodes_per_sector g) ltac:(lia)) as Hmod.
  assert (Hdiv0 : 0 <= Z.of_nat i / nnodes_per_sector g) by (apply Z.div_pos; lia).
  set (s := Z.to_nat (Z.of_nat i / nnodes_per_sector g)).
  set (j := Z.to_nat (Z.of_nat i mod nnodes_per_sector g)).
  assert (Hs : Z.of_nat s = Z.of_nat i / nnodes_per_sector g) by (unfold s; lia).
  assert (Hj : Z.of_nat j = Z.of_nat i mod nnodes_per_sector g) by (unfold j; lia).
  assert (Hij : i = (s * rpp + j)%nat) by nia.
  destruct (pages_needed_bounds g Hrpp ltac:(lia)) as (HP0 & HPn & HPr).
  assert (Hspages : (s < Z.to_nat (pages_needed g))%nat) by nia.
  unfold degree_field, disk_index_file. rewrite <- app_assoc.
  unfold kDiskIndexDataOffset, kSectorLen.
  replace (4096 + Z.of_nat i / nnodes_per_sector g * 4096
           + Z.of_nat i mod nnodes_per_sector g * max_node_len g + disk_ndims g * esz)
    with (Z.of_nat (length (tagged_header npts ndims g))
          + (Z.of_nat s * Z.of_nat 4096
             + (Z.of_nat j * Z.of_nat len + Z.of_nat coords)))
    by (rewrite length_tagged_header; lia).
  rewrite slice_app_r by nia.
  unfold disk_body. fold coords len rpp.
  assert (Hoff0 : 0 <= Z.of_nat j * Z.of_nat len + Z.of_nat coords) by nia.
  assert (Hoff4 : Z.of_nat j * Z.of_nat len + Z.of_nat coords + 4 <= Z.of_nat 4096).
  { change (Z.of_nat 4096) with 4096. nia. }
  rewrite (slice_concat_block
             (fun s => disk_sector coords len (take rpp (drop (s * rpp) recs)))
             4096 rest (Z.of_nat j * Z.of_nat len + Z.of_nat coords) 4
             Hoff0 ltac:(lia) Hoff4
             (seq 0 (Z.to_nat (pages_needed g))) s s);
    [| apply List.Forall_forall; intros x _; apply Hsec
     | apply lookup_seq; split; [reflexivity | exact Hspages] ].
  assert (Hrj : take rpp (drop (s * rpp) recs) !! j = Some r).
  { rewrite lookup_take_lt by lia. rewrite lookup_drop. now rewrite <- Hij. }
  unfold disk_sector, pad_to.
  rewrite (slice_concat_block (disk_record coords len) len _ (Z.of_nat coords) 4
             ltac:(lia) ltac:(lia) ltac:(lia) _ j r);
    [| eapply List.Forall_impl; [|apply Hall', Hchunk]; cbv beta; intros x Hx;
       now apply length_disk_record
     | exact Hrj ].
  apply disk_record_degree.
  rewrite List.Forall_forall in Hall.
  assert (In r recs) by (apply list_elem_of_In; eapply list_elem_of_lookup_2; exact Hi).
  specialize (Hall r H). nia.
Qed.

Lemma describes_bounds g esz recs :
  describes g esz recs -> 1 <= esz ->
  record_geometry g esz /\ slots_in_page g esz
  /\ 0 <= disk_ndims g * esz /\ 4 <= max_node_len g <= 4096
  /\ nnodes_per_sector g <= 1024 /\ disk_ndims g <= 4096
  /\ Forall (fun r => Z.of_nat (length r) <= 1023) recs.
Proof.
  intros (Hn & Hd & Hm & Hrpp & Hlen & Hfit & Hall) Hesz.
  assert (Hc0 : 0 <= disk_ndims g * esz) by nia.
  assert (HL : 4 <= max_node_len g <= 4096) by nia.
  split; [unfold record_geometry; lia|].
  split; [unfold slots_in_page; nia|].
  split; [exact Hc0|]. split; [exact HL|].
  split; [nia|]. split; [nia|].
  eapply List.Forall_impl; [|exact Hall]. cbv beta. intros r Hr. lia.
Qed.

Lemma length_disk_body g esz recs n_sectors :
  describes g esz recs -> 1 <= esz ->
  length (disk_body (Z.to_nat (disk_ndims g * esz)) (Z.to_nat (max_node_len g))
                    (Z.to_nat (nnodes_per_sector g)) recs n_sectors)
  = (n_sectors * 4096)%nat.
Proof.
  intros Hdesc Hesz.
  destruct (describes_bounds g esz recs Hdesc Hesz) as (_ & _ & Hc0 & HL & Hr & _ & _).
  destruct Hdesc as (Hn & Hd & Hm & Hrpp & Hlen & Hfit & Hall).
  unfold disk_body. rewrite (length_concat_blocks _ 4096); [now rewrite length_seq|].
  apply List.Forall_forall. intros s _.
  apply length_disk_sector.
  - apply List.Forall_forall. intros x Hx.
    rewrite List.Forall_forall in Hall.
    assert (In x recs).
    { apply list_elem_of_In in Hx. apply list_elem_of_In.
      apply (subseteq_drop (s * Z.to_nat (nnodes_per_sector g)) recs).
      apply (subseteq_take (Z.to_nat (nnodes_per_sector g))). exact Hx. }
    specialize (Hall x H). nia.
  - rewrite length_take. nia.
Qed.

Lemma degrees_by_index (F : Z -> Z) : forall l start,
  (forall i r, l !! i = Some r -> F (Z.of_nat (start + i)) = Z.of_nat (length r)) ->
  map F (map Z.of_nat (seq start (length l))) = degrees l.
Proof.
  induction l as [|r l IH]; intros start H; [reflexivity|].
  cbn [length seq map degrees]. f_equal.
  - specialize (H 0%nat r eq_refl). now rewrite Nat.add_0_r in H.
  - apply IH. intros i x Hx. specialize (H (S i) x Hx).
    now replace (S start + i)%nat with (start + S i)%nat by lia.
Qed.

(** X20. The statistics reader reads a written disk index back: for a file
    with a tagged header whose geometry describes the records (their number,
    a record length that holds coordinates, degree and neighbor ids, and
    sectors that hold their records), the result is the statistics of the
    degrees that were written, with every node active and the medoid, cut
    to 32 bits, as the entry point. Bytes after the last sector do not
    matter. *)
Theorem compute_graph_stats_from_disk_index_written npts ndims g data_type recs rest :
  5 <= npts < 2 ^ 31 ->
  describes g (elem_size data_type) recs ->
  Z.of_nat (length recs) < 2 ^ 54 ->
  compute_graph_stats_from_disk_index
    (Some (disk_index_file npts ndims g
             (Z.to_nat (disk_ndims g * elem_size data_type)) recs ++ rest))
    data_type
  = Some (stats_over (degrees recs) (wrap32 (medoid_id_on_file g)) 0).
Proof.
  intros Hnpts Hdesc Hsmall.
  set (esz := elem_size data_type) in *.
  pose proof (elem_size_pos data_type) as Hesz. fold esz in Hesz.
  assert (Hesz1 : 1 <= esz) by lia.
  destruct (describes_bounds g esz recs Hdesc Hesz1)
    as (Hgeo & Hslots & Hc0 & HL & Hrmax & Hdmax & Hdeg).
  pose proof Hdesc as (Hn & Hd & Hm & Hrpp & Hlen & Hfit & Hall).
  set (bs := disk_index_file npts ndims g (Z.to_nat (disk_ndims g * esz)) recs ++ rest).
  assert (Hfits : geometry_fits g) by (unfold geometry_fits; lia).
  assert (Hh : read_disk_header (mkStream bs 0 true) = (g, 4096, mkStream bs 48 true)).
  { unfold bs, disk_index_file. rewrite <- app_assoc.
    now apply tagged_header_read. }
  destruct (pages_needed_bounds g Hrpp ltac:(lia)) as (HP0 & HPn & HPr).
  assert (Hpages : pages_present bs g).
  { unfold pages_present, bs, disk_index_file, kDiskIndexDataOffset, kSectorLen.
    rewrite !length_app, length_tagged_header.
    rewrite (length_disk_body g esz recs _ Hdesc Hesz1). lia. }
  destruct (sector_loop_visits bs g esz Hgeo Hslots Hc0 ltac:(lia) Hpages
              (Z.to_nat (pages_needed g)) 0 paged_init)
    as (st & Hloop & [Hvis Hacc] & Hpg).
  { lia. }
  { lia. }
  { replace (Z.min (disk_nnodes g) (0 * nnodes_per_sector g)) with 0 by lia.
    split; reflexivity. }
  { reflexivity. }
  assert (Hscan : disk_index_scan (Some bs) data_type = Some (paged_stats g (pg_acc st), st)).
  { unfold disk_index_scan, open. rewrite Hh. cbn [is_good negb]. fold esz.
    unfold bad_geometry, kSectorLen.
    rewrite (wrap64_small (disk_ndims g * esz)) by lia.
    rewrite (wrap64_small (disk_ndims g * esz + 4)) by lia.
    destruct (Z.ltb_spec (max_node_len g) (disk_ndims g * esz + 4)); [lia|].
    destruct (Z.ltb_spec 4096 (max_node_len g)); [lia|]. cbn [orb].
    destruct (Z.eqb_spec (nnodes_per_sector g) 0); [lia|].
    rewrite (wrap64_small (disk_nnodes g + nnodes_per_sector g - 1)) by lia.
    fold (pages_needed g).
    unfold seekg_beg. change (as_streamoff 4096) with 4096.
    rewrite seek_to_good by (cbn; auto; lia). cbn [content].
    change (kDiskIndexDataOffset + 0 * kSectorLen) with 4096 in Hloop.
    rewrite Hloop. reflexivity. }
  unfold compute_graph_stats_from_disk_index. fold bs. rewrite Hscan.
  cbn [option_map fst]. f_equal.
  rewrite Hacc, Hvis. unfold nodes_with_degrees. rewrite map_map. cbn [snd].
  assert (Hdegs : map (degree_field bs g esz) (iota (disk_nnodes g)) = degrees recs).
  { unfold iota. rewrite Hn, Nat2Z.id.
    apply (degrees_by_index (degree_field bs g esz) recs 0).
    intros i r Hi. cbn [Nat.add]. unfold bs.
    apply degree_field_written; [exact Hdesc | lia | exact Hi]. }
  change (map (fun x : Z => degree_field bs g esz x) (iota (disk_nnodes g)))
    with (map (degree_field bs g esz) (iota (disk_nnodes g))).
  rewrite Hdegs.
  assert (Hlen' : Z.of_nat (length (degrees recs)) = Z.of_nat (length recs))
    by (unfold degrees; now rewrite length_map).
  assert (Hrange : Forall (fun d => 0 <= d < 2 ^ 32) (degrees recs)).
  { unfold degrees. apply List.Forall_map.
    eapply List.Forall_impl; [|exact Hdeg]. cbv beta. intros; lia. }
  assert (Hsum : zsum (degrees recs) < 2 ^ 64).
  { pose proof (zsum_bounds (degrees recs) 0 1023) as Hb.
    assert (Hin : forall d, In d (degrees recs) -> 0 <= d <= 1023).
    { intros d Hin. unfold degrees in Hin. apply in_map_iff in Hin as (r & <- & Hr).
      rewrite List.Forall_forall in Hdeg. specialize (Hdeg r Hr). lia. }
    specialize (Hb Hin). lia. }
  rewrite <- (aggregate_closed_form (degrees recs) (wrap32 (medoid_id_on_file g)) 0
                Hrange Hsum ltac:(lia)).
  cbv zeta. unfold paged_stats. rewrite Hlen', Hn.
  destruct (Z.leb_spec 0 (Z.of_nat (length recs))); [|lia].
  f_equal. lia.
Qed.

Lemma compute_graph_stats_from_disk_index_written_witness :
  compute_graph_stats_from_disk_index
    (Some (disk_index_file 10 2 ten_node_geometry
             (Z.to_nat (disk_ndims ten_node_geometry * elem_size kFloat))
             ten_node_records ++ []))
    kFloat
  = Some (stats_over (degrees ten_node_records)
                     (wrap32 (medoid_id_on_file ten_node_geometry)) 0).
Proof.
  apply compute_graph_stats_from_disk_index_written.
  - lia.
  - unfold describes, ten_node_geometry, ten_node_records.
    cbn [disk_nnodes disk_ndims medoid_id_on_file nnodes_per_sector max_node_len
         elem_size length].
    split; [reflexivity|]. split; [lia|]. split; [lia|]. split; [lia|].
    split; [lia|]. split; [lia|]. repeat constructor; simpl; lia.
  - simpl. lia.
Defined.

(** ** The samplers on a written disk index *)

Lemma slice_all (bs : list byte) : slice bs 0 (Z.of_nat (length bs)) = bs.
Proof. unfold slice. rewrite Nat2Z.id. change (Z.to_nat 0) with 0%nat. apply firstn_all. Qed.

Lemma drop_concat_block {A} (f : A -> list byte) (len : nat) rest (off : nat) :
  (off <= len)%nat ->
  forall l j x,
    Forall (fun y => length (f y) = len) l -> l !! j = Some x ->
    drop (j * len + off) (concat (map f l) ++ rest)
    = drop off (f x) ++ concat (map f (drop (S j) l)) ++ rest.
Proof.
  intros Hoff.
  induction l as [|y l IH]; intros j x Hall Hj; [discriminate|].
  pose proof (List.Forall_inv Hall) as Hy. cbv beta in Hy.
  pose proof (List.Forall_inv_tail Hall) as Hl.
  cbn [map concat]. rewrite <- app_assoc.
  destruct j as [|j]; cbn [lookup list_lookup] in Hj.
  - injection Hj as ->. cbn [Nat.mul Nat.add drop skipn].
    rewrite drop_app_le by lia. rewrite drop_0. reflexivity.
  - replace (S j * len + off)%nat with (length (f y) + (j * len + off))%nat by lia.
    rewrite drop_app_add. cbn [drop skipn]. now apply IH.
Qed.

Lemma sector_of_written npts ndims g esz recs rest s :
  describes g esz recs -> 1 <= esz ->
  (s < Z.to_nat (pages_needed g))%nat ->
  slice (disk_index_file npts ndims g (Z.to_nat (disk_ndims g * esz)) recs ++ rest)
        (4096 + Z.of_nat s * 4096) 4096
  = disk_sector (Z.to_nat (disk_ndims g * esz)) (Z.to_nat (max_node_len g))
                (take (Z.to_nat (nnodes_per_sector g))
                      (drop (s * Z.to_nat (nnodes_per_sector g)) recs)).
Proof.
  intros Hdesc Hesz Hs.
  set (coords := Z.to_nat (disk_ndims g * esz)).
  set (len := Z.to_nat (max_node_len g)).
  set (rpp := Z.to_nat (nnodes_per_sector g)).
  assert (Hsec : forall s, length (disk_sector coords len (take rpp (drop (s * rpp) recs)))
                           = 4096%nat).
  { intros s'.
    pose proof (length_disk_body g esz recs (S s') Hdesc Hesz) as Hb.
    unfold disk_body in Hb. fold coords len rpp in Hb.
    rewrite seq_S, map_app, concat_app, length_app in Hb. cbn [map concat Nat.add] in Hb.
    rewrite app_nil_r in Hb.
    pose proof (length_disk_body g esz recs s' Hdesc Hesz) as Hb'.
    unfold disk_body in Hb'. fold coords len rpp in Hb'. lia. }
  unfold disk_index_file. rewrite <- app_assoc.
  replace (4096 + Z.of_nat s * 4096)
    with (Z.of_nat (length (tagged_header npts ndims g))
          + (Z.of_nat s * Z.of_nat 4096 + 0))
    by (rewrite length_tagged_header; lia).
  rewrite slice_app_r by lia.
  unfold disk_body. fold coords len rpp.
  rewrite (slice_concat_block
             (fun s => disk_sector coords len (take rpp (drop (s * rpp) recs)))
             4096 rest 0 4096 ltac:(lia) ltac:(lia) ltac:(lia)
             (seq 0 (Z.to_nat (pages_needed g))) s s);
    [| apply List.Forall_forall; intros x _; apply Hsec
     | apply lookup_seq; split; [reflexivity | exact Hs] ].
  set (X := disk_sector coords len (take rpp (drop (s * rpp) recs))).
  replace 4096 with (Z.of_nat (length X)) by (unfold X; rewrite Hsec; reflexivity).
  apply slice_all.
Qed.

Lemma record_in_sector coords len rs j r :
  Forall (fun r => Z.of_nat coords + 4 + 4 * Z.of_nat (length r) <= Z.of_nat len) rs ->
  Z.of_nat (length rs) * Z.of_nat len <= 4096 ->
  rs !! j = Some r -> Forall (fun v => 0 <= v < 2 ^ 32) r ->
  let sector := disk_sector coords len rs in
  let at_ := Z.of_nat j * Z.of_nat len + Z.of_nat coords in
  Z.of_nat (length sector) = 4096
  /\ at_ + 4 + 4 * Z.of_nat (length r) <= 4096
  /\ memcpy_u32 sector at_ = Some (Z.of_nat (length r))
  /\ forall n, 0 <= n <= Z.of_nat (length r) ->
       memcpy_u32s sector (at_ + 4) n = Some (take (Z.to_nat n) r).
Proof.
  intros Hall Hfit Hj Hids sector at_.
  assert (Hlen : length sector = 4096%nat) by now apply length_disk_sector.
  assert (Hjl : (j < length rs)%nat) by (eapply lookup_lt_Some; exact Hj).
  assert (Hr : Z.of_nat coords + 4 + 4 * Z.of_nat (length r) <= Z.of_nat len).
  { rewrite List.Forall_forall in Hall. apply Hall.
    apply list_elem_of_In. eapply list_elem_of_lookup_2; exact Hj. }
  assert (Hblocks : Forall (fun y => length (disk_record coords len y) = len) rs).
  { eapply List.Forall_impl; [|exact Hall]. cbv beta. intros x Hx.
    now apply length_disk_record. }
  assert (Hat : at_ + 4 + 4 * Z.of_nat (length r) <= 4096) by (unfold at_; nia).
  split; [lia|]. split; [exact Hat|]. split.
  - rewrite memcpy_u32_inside by (unfold at_; lia). f_equal.
    unfold sector, disk_sector, pad_to, at_.
    rewrite (slice_concat_block (disk_record coords len) len _ (Z.of_nat coords) 4
               ltac:(lia) ltac:(lia) ltac:(lia) rs j r Hblocks Hj).
    apply disk_record_degree. lia.
  - intros n Hn. unfold memcpy_u32s.
    destruct (Z.leb_spec 0 (at_ + 4)); [|unfold at_ in *; lia].
    destruct (Z.leb_spec (at_ + 4 + n * 4) (Z.of_nat (length sector))); [|lia].
    cbn [andb]. f_equal.
    replace (Z.to_nat (at_ + 4)) with (j * len + (coords + 4))%nat by (unfold at_; nia).
    unfold sector, disk_sector, pad_to.
    rewrite (drop_concat_block (disk_record coords len) len _ (coords + 4)
               ltac:(lia) rs j r Hblocks Hj).
    unfold disk_record, pad_to. rewrite <- !app_assoc.
    rewrite (app_assoc (repeat Byte.x00 coords)).
    rewrite drop_app_length'
      by (rewrite length_app, repeat_length, length_u32; reflexivity).
    rewrite <- !app_assoc.
    apply decode_u32s_written; [exact Hids | lia].
Qed.

Lemma lines_for_snoc max recs k r :
  recs !! k = Some r ->
  lines_for max 0 (take (S k) recs)
  = lines_for max 0 (take k recs) ++ [line_for max (Z.of_nat k) r].
Proof.
  intros Hk. rewrite (take_S_r _ _ _ Hk), lines_for_app. cbn [lines_for].
  assert (Hlen : length (take k recs) = k).
  { rewrite length_take. apply lookup_lt_Some in Hk. lia. }
  rewrite Hlen. reflexivity.
Qed.

Section WrittenDiskIndex.

Variables (npts ndims : Z) (g : geometry) (data_type : DiskIndexDataType).
Variables (recs : list (list Z)) (rest : list byte).

Local Abbreviation esz := (elem_size data_type).
Local Abbreviation coords := (Z.to_nat (disk_ndims g * esz)).
Local Abbreviation len := (Z.to_nat (max_node_len g)).
Local Abbreviation rpp := (Z.to_nat (nnodes_per_sector g)).
Local Abbreviation bs := (disk_index_file npts ndims g coords recs ++ rest).
Local Abbreviation nh := (disk_ndims g * esz).
Local Abbreviation chunk s := (take rpp (drop (s * rpp) recs)).

Hypothesis Hnpts : 5 <= npts < 2 ^ 31.
Hypothesis Hdesc : describes g esz recs.
Hypothesis Hids : ids_fit recs.
Hypothesis Hsmall : Z.of_nat (length recs) < 2 ^ 54.

Lemma written_facts :
  1 <= esz
  /\ disk_nnodes g = Z.of_nat (length recs)
  /\ 1 <= nnodes_per_sector g <= 1024
  /\ 0 <= nh /\ nh + 4 <= max_node_len g <= 4096
  /\ nnodes_per_sector g * max_node_len g <= 4096
  /\ 0 <= pages_needed g
  /\ disk_nnodes g <= pages_needed g * nnodes_per_sector g
  /\ pages_needed g * nnodes_per_sector g < disk_nnodes g + nnodes_per_sector g
  /\ Z.of_nat (length bs) >= 4096 + pages_needed g * 4096.
Proof.
  pose proof (elem_size_pos data_type) as Hesz.
  assert (Hesz1 : 1 <= esz) by lia.
  destruct (describes_bounds g esz recs Hdesc Hesz1)
    as (Hgeo & Hslots & Hc0 & HL & Hrmax & Hdmax & Hdeg).
  pose proof Hdesc as (Hn & Hd & Hm & Hrpp & Hlen & Hfit & Hall).
  destruct (pages_needed_bounds g Hrpp ltac:(lia)) as (HP0 & HPn & HPr).
  repeat (split; [lia|]).
  unfold disk_index_file. rewrite !length_app, length_tagged_header.
  rewrite (length_disk_body g esz recs _ Hdesc Hesz1). lia.
Qed.

Lemma written_chunk s :
  Forall (fun r => Z.of_nat coords + 4 + 4 * Z.of_nat (length r) <= Z.of_nat len) (chunk s)
  /\ Z.of_nat (length (chunk s)) * Z.of_nat len <= 4096.
Proof.
  destruct written_facts as (Hesz & Hn & Hr & Hc0 & HL & Hfit & _).
  pose proof Hdesc as (_ & _ & _ & _ & _ & _ & Hall).
  split.
  - apply List.Forall_forall. intros x Hx.
    rewrite List.Forall_forall in Hall.
    assert (In x recs).
    { apply list_elem_of_In in Hx. apply list_elem_of_In.
      apply (subseteq_drop (s * rpp) recs). apply (subseteq_take rpp). exact Hx. }
    specialize (Hall x H). lia.
  - rewrite length_take. nia.
Qed.

Lemma written_record s j k r :
  (j < rpp)%nat -> k = (s * rpp + j)%nat -> recs !! k = Some r ->
  let sector := disk_sector coords len (chunk s) in
  let at_ := Z.of_nat j * max_node_len g + nh in
  Z.of_nat (length sector) = 4096
  /\ 0 <= at_ /\ at_ + 4 + 4 * Z.of_nat (length r) <= 4096
  /\ Z.of_nat (length r) < 2 ^ 32
  /\ memcpy_u32 sector at_ = Some (Z.of_nat (length r))
  /\ forall n, 0 <= n <= Z.of_nat (length r) ->
       memcpy_u32s sector (at_ + 4) n = Some (take (Z.to_nat n) r).
Proof.
  intros Hj Hk Hr sector at_.
  destruct written_facts as (Hesz & Hn & Hrp & Hc0 & HL & Hfit & _).
  destruct (written_chunk s) as [Hall Hsz].
  assert (Hrj : chunk s !! j = Some r).
  { rewrite lookup_take_lt by lia. rewrite lookup_drop. now rewrite <- Hk. }
  assert (Hidr : Forall (fun v => 0 <= v < 2 ^ 32) r).
  { unfold ids_fit in Hids. rewrite List.Forall_forall in Hids. apply Hids.
    apply list_elem_of_In. eapply list_elem_of_lookup_2; exact Hr. }
  destruct (record_in_sector coords len (chunk s) j r Hall Hsz Hrj Hidr)
    as (H1 & H2 & H3 & H4).
  replace (Z.of_nat j * Z.of_nat len + Z.of_nat coords) with at_ in *
    by (unfold at_; nia).
  split; [exact H1|]. split; [unfold at_; nia|]. split; [exact H2|].
  split; [lia|]. split; assumption.
Qed.

(** The lines printed once the nodes below [k] have been visited. *)
Lemma listing_slot_loop_written N max s :
  0 <= N ->
  forall cnt j st,
    Z.of_nat cnt = nnodes_per_sector g - j -> 0 <= j ->
    Z.of_nat s * nnodes_per_sector g + j <= disk_nnodes g ->
    dl_nodes_printed st = Z.min N (Z.of_nat s * nnodes_per_sector g + j) ->
    dl_lines st = lines_for max 0 (take (Z.to_nat (dl_nodes_printed st)) recs) ->
    exists st',
      listing_slot_loop cnt j (Z.of_nat s) g (wrap64 nh) N max
                        (disk_sector coords len (chunk s)) st = Some st'
      /\ dl_nodes_printed st'
         = Z.min N (Z.min (disk_nnodes g)
                          (Z.of_nat s * nnodes_per_sector g + nnodes_per_sector g))
      /\ dl_lines st' = lines_for max 0 (take (Z.to_nat (dl_nodes_printed st')) recs).
Proof.
  intros HN.
  destruct written_facts as (Hesz & Hn & Hrp & Hc0 & HL & Hfit & _).
  rewrite (wrap64_small nh) by lia.
  induction cnt as [|cnt IH]; intros j st Hcnt Hj Hk Hp Hlines;
    cbn [listing_slot_loop].
  - exists st. split; [reflexivity|]. split; [rewrite Hp; lia | exact Hlines].
  - set (k := Z.of_nat s * nnodes_per_sector g + j) in *.
    destruct (Z.ltb_spec (dl_nodes_printed st) N) as [HpN | HpN]; cbn [negb].
    2:{ exists st. split; [reflexivity|]. split; [lia | exact Hlines]. }
    assert (Hpk : dl_nodes_printed st = k) by lia.
    rewrite (wrap64_small (Z.of_nat s * nnodes_per_sector g)) by nia.
    fold k. rewrite (wrap64_small k) by lia.
    destruct (Z.leb_spec (disk_nnodes g) k) as [Hnk | Hnk].
    { exists st. split; [reflexivity|]. split; [lia | exact Hlines]. }
    assert (Hkn : (Z.to_nat k < length recs)%nat) by lia.
    destruct (lookup_lt_is_Some_2 recs (Z.to_nat k) Hkn) as [r Hr].
    destruct (written_record s (Z.to_nat j) (Z.to_nat k) r ltac:(lia) ltac:(nia) Hr)
      as (Hsl & Hat0 & Hat & Hr32 & Hdeg & Hnbrs).
    rewrite Z2Nat.id in Hat0, Hat, Hdeg, Hnbrs by lia.
    set (at_ := j * max_node_len g + nh) in *.
    rewrite (wrap64_small (j * max_node_len g)) by nia.
    fold at_. rewrite (wrap64_small (at_ + 4)) by lia.
    unfold kSectorLen.
    destruct (Z.ltb_spec 4096 (at_ + 4)); [lia|].
    rewrite Hdeg.
    pose proof (to_show_of_bounds max (Z.of_nat (length r)) ltac:(lia)) as Hts.
    set (to_show := to_show_of max (Z.of_nat (length r))) in *.
    rewrite (wrap64_small (at_ + 4 + to_show * 4)) by lia.
    assert (Hshown :
      (if (0 <? to_show) && (at_ + 4 + to_show * 4 <=? 4096)
       then memcpy_u32s (disk_sector coords len (chunk s)) (at_ + 4) to_show
       else Some []) = Some (take (Z.to_nat to_show) r)).
    { destruct (Z.ltb_spec 0 to_show); cbn [andb].
      - destruct (Z.leb_spec (at_ + 4 + to_show * 4) 4096); [|lia].
        apply Hnbrs. lia.
      - replace to_show with 0 by lia. reflexivity. }
    rewrite Hshown.
    match goal with
    | |- context [listing_slot_loop cnt (j + 1) _ _ _ _ _ _ ?s1] =>
        destruct (IH (j + 1) s1) as (st' & Hs & Hp' & Hl')
    end.
    + lia.
    + lia.
    + lia.
    + cbn [dl_nodes_printed]. lia.
    + cbn [dl_nodes_printed dl_lines]. rewrite Hlines, Hpk.
      replace (Z.to_nat (k + 1)) with (S (Z.to_nat k)) by lia.
      rewrite (lines_for_snoc max recs (Z.to_nat k) r Hr).
      rewrite Z2Nat.id by lia. reflexivity.
    + exists st'. split; [exact Hs|]. split; [|exact Hl'].
      rewrite Hp'. f_equal.
Qed.

Lemma listing_sector_loop_written N max :
  0 <= N ->
  forall cnt s st,
    Z.of_nat cnt = pages_needed g - Z.of_nat s ->
    dl_nodes_printed st
    = Z.min N (Z.min (disk_nnodes g) (Z.of_nat s * nnodes_per_sector g)) ->
    dl_lines st = lines_for max 0 (take (Z.to_nat (dl_nodes_printed st)) recs) ->
    exists st',
      listing_sector_loop cnt (Z.of_nat s) g (wrap64 nh) N max
                          (mkStream bs (4096 + Z.of_nat s * 4096) true) st = Some st'
      /\ dl_nodes_printed st' = Z.min N (disk_nnodes g)
      /\ dl_lines st' = lines_for max 0 (take (Z.to_nat (dl_nodes_printed st')) recs).
Proof.
  intros HN.
  destruct written_facts
    as (Hesz & Hn & Hrp & Hc0 & HL & Hfit & HP0 & HPn & HPr & Hbs).
  induction cnt as [|cnt IH]; intros s st Hcnt Hp Hlines; cbn [listing_sector_loop].
  - exists st. split; [reflexivity|]. split; [rewrite Hp; nia | exact Hlines].
  - assert (Hsn : Z.of_nat s * nnodes_per_sector g < disk_nnodes g) by nia.
    destruct (Z.ltb_spec (dl_nodes_printed st) N) as [HpN | HpN]; cbn [andb negb is_good].
    2:{ exists st. split; [reflexivity|]. split; [lia | exact Hlines]. }
    rewrite read_good by (cbn; unfold stream_size, kSectorLen; cbn; nia).
    cbn [content gpos]. unfold kSectorLen.
    rewrite (sector_of_written npts ndims g esz recs rest s Hdesc Hesz ltac:(lia)).
    destruct (listing_slot_loop_written N max s HN rpp 0 st) as (st1 & Hs1 & Hp1 & Hl1).
    + lia.
    + lia.
    + lia.
    + rewrite Hp. f_equal. lia.
    + exact Hlines.
    + rewrite Hs1.
      replace (4096 + Z.of_nat s * 4096 + 4096) with (4096 + Z.of_nat (S s) * 4096) by lia.
      replace (Z.of_nat s + 1) with (Z.of_nat (S s)) by lia.
      apply IH; [lia | | exact Hl1].
      rewrite Hp1. f_equal. f_equal. lia.
Qed.

Lemma written_header :
  read_disk_header (mkStream bs 0 true) = (g, 4096, mkStream bs 48 true)
  /\ bad_geometry g esz = false
  /\ (nnodes_per_sector g =? 0) = false
  /\ wrap64 (disk_nnodes g + nnodes_per_sector g - 1) / nnodes_per_sector g
     = pages_needed g
  /\ seekg_beg 4096 (mkStream bs 48 true) = mkStream bs 4096 true.
Proof.
  destruct written_facts as (Hesz & Hn & Hrp & Hc0 & HL & Hfit & _).
  pose proof Hdesc as (_ & Hd & Hm & _).
  assert (Hfits : geometry_fits g) by (unfold geometry_fits; nia).
  split.
  { unfold disk_index_file. rewrite <- app_assoc. now apply tagged_header_read. }
  split.
  { unfold bad_geometry, kSectorLen.
    rewrite (wrap64_small nh) by lia. rewrite (wrap64_small (nh + 4)) by lia.
    destruct (Z.ltb_spec (max_node_len g) (nh + 4)); [lia|].
    destruct (Z.ltb_spec 4096 (max_node_len g)); [lia | reflexivity]. }
  split; [apply Z.eqb_neq; lia|].
  split; [rewrite wrap64_small by lia; reflexivity|].
  unfold seekg_beg. change (as_streamoff 4096) with 4096.
  rewrite seek_to_good by (cbn; auto; lia). reflexivity.
Qed.

(** X21. The adjacency sampler reads a written disk index back: it prints
    the medoid as the entry point and, for each of the first [N] nodes (all
    nodes when the index has fewer), the first [max] neighbors that were
    written for the node, with the full degree as the total of a cut line. *)
Theorem adjacency_sample_from_disk_index_written N max :
  0 <= N ->
  print_adjacency_sample_from_disk_index (Some bs) data_type N max
  = Some (Listing N (medoid_id_on_file g) (lines_for max 0 (take (Z.to_nat N) recs))).
Proof.
  intros HN.
  destruct written_facts
    as (Hesz & Hn & Hrp & Hc0 & HL & Hfit & HP0 & HPn & HPr & Hbs).
  destruct written_header as (Hh & Hbad & Hr0 & Hpages & Hseek).
  unfold print_adjacency_sample_from_disk_index. cbn [open].
  rewrite Hh. cbn [is_good negb orb]. rewrite Hr0, Hbad, Hpages, Hseek.
  destruct (listing_sector_loop_written N max HN (Z.to_nat (pages_needed g)) 0
              (mkDiskListing 0 [])) as (st' & Hs & Hp & Hl).
  - lia.
  - cbn [dl_nodes_printed]. lia.
  - reflexivity.
  - change (4096 + Z.of_nat 0 * 4096) with 4096 in Hs. change (Z.of_nat 0) with 0 in Hs.
    rewrite Hs, Hl, Hp. do 3 f_equal.
    rewrite Hn. destruct (Z.min_spec N (Z.of_nat (length recs))) as [[_ ->] | [Hle ->]];
      [reflexivity|].
    rewrite Nat2Z.id. rewrite firstn_all. symmetry. apply take_ge. lia.
Qed.

Lemma sample_slot_loop_written M s :
  0 <= M <= disk_nnodes g ->
  forall cnt j st,
    Z.of_nat cnt = nnodes_per_sector g - j -> 0 <= j ->
    Z.of_nat s * nnodes_per_sector g + j <= disk_nnodes g ->
    ds_nodes_read st = Z.min M (Z.of_nat s * nnodes_per_sector g + j) ->
    ds_out_nbrs st = take (Z.to_nat (ds_nodes_read st)) recs
                     ++ replicate (Z.to_nat (M - ds_nodes_read st)) [] ->
    exists st',
      sample_slot_loop cnt j (Z.of_nat s) g (wrap64 nh) M
                       (disk_sector coords len (chunk s)) st = Some st'
      /\ ds_nodes_read st'
         = Z.min M (Z.min (disk_nnodes g)
                          (Z.of_nat s * nnodes_per_sector g + nnodes_per_sector g))
      /\ ds_out_nbrs st' = take (Z.to_nat (ds_nodes_read st')) recs
                           ++ replicate (Z.to_nat (M - ds_nodes_read st')) [].
Proof.
  intros HM.
  destruct written_facts as (Hesz & Hn & Hrp & Hc0 & HL & Hfit & _).
  rewrite (wrap64_small nh) by lia.
  induction cnt as [|cnt IH]; intros j st Hcnt Hj Hk Hp Hout;
    cbn [sample_slot_loop].
  - exists st. split; [reflexivity|]. split; [rewrite Hp; lia | exact Hout].
  - set (k := Z.of_nat s * nnodes_per_sector g + j) in *.
    destruct (Z.ltb_spec (ds_nodes_read st) M) as [HpM | HpM]; cbn [negb].
    2:{ exists st. split; [reflexivity|]. split; [lia | exact Hout]. }
    assert (Hpk : ds_nodes_read st = k) by lia.
    rewrite (wrap64_small (Z.of_nat s * nnodes_per_sector g)) by nia.
    fold k. rewrite (wrap64_small k) by lia.
    destruct (Z.leb_spec (disk_nnodes g) k) as [Hnk | Hnk].
    { exists st. split; [reflexivity|]. split; [lia | exact Hout]. }
    assert (Hkn : (Z.to_nat k < length recs)%nat) by lia.
    destruct (lookup_lt_is_Some_2 recs (Z.to_nat k) Hkn) as [r Hr].
    destruct (written_record s (Z.to_nat j) (Z.to_nat k) r ltac:(lia) ltac:(nia) Hr)
      as (Hsl & Hat0 & Hat & Hr32 & Hdeg & Hnbrs).
    rewrite Z2Nat.id in Hat0, Hat, Hdeg, Hnbrs by lia.
    set (at_ := j * max_node_len g + nh) in *.
    rewrite (wrap64_small (j * max_node_len g)) by nia.
    fold at_. rewrite (wrap64_small (at_ + 4)) by lia.
    unfold kSectorLen.
    destruct (Z.ltb_spec 4096 (at_ + 4)); [lia|].
    rewrite Hdeg.
    rewrite (wrap64_small (at_ + 4 + Z.of_nat (length r) * 4)) by lia.
    destruct (Z.ltb_spec 4096 (at_ + 4 + Z.of_nat (length r) * 4)); [lia|].
    assert (Hread :
      (if 0 <? Z.of_nat (length r)
       then memcpy_u32s (disk_sector coords len (chunk s)) (at_ + 4)
                        (Z.of_nat (length r))
       else Some (repeat 0 (Z.to_nat (Z.of_nat (length r))))) = Some r).
    { destruct (Z.ltb_spec 0 (Z.of_nat (length r))).
      - rewrite Hnbrs by lia. now rewrite Nat2Z.id, firstn_all.
      - assert (r = []) by (destruct r; [reflexivity | simpl in *; lia]).
        subst r. reflexivity. }
    rewrite Hread.
    match goal with
    | |- context [sample_slot_loop cnt (j + 1) _ _ _ _ _ ?s1] =>
        destruct (IH (j + 1) s1) as (st' & Hs & Hp' & Hl')
    end.
    + lia.
    + lia.
    + lia.
    + cbn [ds_nodes_read]. lia.
    + cbn [ds_nodes_read ds_out_nbrs]. rewrite Hout, Hpk.
      replace (Z.to_nat (k + 1)) with (S (Z.to_nat k)) by lia.
      rewrite (take_S_r _ _ _ Hr).
      replace (Z.to_nat (M - k)) with (S (Z.to_nat (M - (k + 1)))) by lia.
      cbn [replicate].
      rewrite insert_app_r_alt by (rewrite length_take; lia).
      rewrite length_take.
      replace (Z.to_nat k - Z.to_nat k `min` length recs)%nat with 0%nat by lia.
      cbn. now rewrite <- app_assoc.
    + exists st'. split; [exact Hs|]. split; [|exact Hl'].
      rewrite Hp'. f_equal.
Qed.

Lemma sample_sector_loop_written M :
  0 <= M <= disk_nnodes g ->
  forall cnt s st,
    Z.of_nat cnt = pages_needed g - Z.of_nat s ->
    ds_nodes_read st
    = Z.min M (Z.min (disk_nnodes g) (Z.of_nat s * nnodes_per_sector g)) ->
    ds_out_nbrs st = take (Z.to_nat (ds_nodes_read st)) recs
                     ++ replicate (Z.to_nat (M - ds_nodes_read st)) [] ->
    exists st',
      sample_sector_loop cnt (Z.of_nat s) g (wrap64 nh) M
                         (mkStream bs (4096 + Z.of_nat s * 4096) true) st = Some st'
      /\ ds_nodes_read st' = M
      /\ ds_out_nbrs st' = take (Z.to_nat M) recs.
Proof.
  intros HM.
  destruct written_facts
    as (Hesz & Hn & Hrp & Hc0 & HL & Hfit & HP0 & HPn & HPr & Hbs).
  assert (Hdone : forall st,
            ds_nodes_read st = M ->
            ds_out_nbrs st = take (Z.to_nat (ds_nodes_read st)) recs
                             ++ replicate (Z.to_nat (M - ds_nodes_read st)) [] ->
            ds_out_nbrs st = take (Z.to_nat M) recs).
  { intros st Hp Hout. rewrite Hout, Hp, Z.sub_diag. cbn. apply app_nil_r. }
  induction cnt as [|cnt IH]; intros s st Hcnt Hp Hout; cbn [sample_sector_loop].
  - exists st. assert (ds_nodes_read st = M) by nia.
    split; [reflexivity|]. split; [assumption | now apply Hdone].
  - assert (Hsn : Z.of_nat s * nnodes_per_sector g < disk_nnodes g) by nia.
    destruct (Z.ltb_spec (ds_nodes_read st) M) as [HpM | HpM]; cbn [andb negb is_good].
    2:{ exists st. assert (ds_nodes_read st = M) by lia.
        split; [reflexivity|]. split; [assumption | now apply Hdone]. }
    rewrite read_good by (cbn; unfold stream_size, kSectorLen; cbn; nia).
    cbn [content gpos]. unfold kSectorLen.
    rewrite (sector_of_written npts ndims g esz recs rest s Hdesc Hesz ltac:(lia)).
    destruct (sample_slot_loop_written M s HM rpp 0 st) as (st1 & Hs1 & Hp1 & Hl1).
    + lia.
    + lia.
    + lia.
    + rewrite Hp. f_equal. lia.
    + exact Hout.
    + rewrite Hs1.
      replace (4096 + Z.of_nat s * 4096 + 4096) with (4096 + Z.of_nat (S s) * 4096) by lia.
      replace (Z.of_nat s + 1) with (Z.of_nat (S s)) by lia.
      apply IH; [lia | | exact Hl1].
      rewrite Hp1. f_equal. f_equal. lia.
Qed.

(** X22. The small-graph sampler reads a written disk index back: its
    sample holds the first [N] nodes (all nodes when the index has fewer),
    the medoid as the entry point and, as out-neighbors, exactly the lists
    that were written. *)
Theorem small_graph_from_disk_index_written N :
  0 <= N ->
  exists in_nbrs,
    print_small_graph_from_disk_index (Some bs) data_type N
    = Some (Sample (mkSmall (Z.min N (Z.of_nat (length recs))) (medoid_id_on_file g)
                            (take (Z.to_nat N) recs) in_nbrs)).
Proof.
  intros HN.
  destruct written_facts
    as (Hesz & Hn & Hrp & Hc0 & HL & Hfit & HP0 & HPn & HPr & Hbs).
  destruct written_header as (Hh & Hbad & Hr0 & Hpages & Hseek).
  unfold print_small_graph_from_disk_index. cbn [open].
  rewrite Hh. cbn [is_good negb orb]. rewrite Hr0, Hbad, Hpages, Hseek.
  set (M := if disk_nnodes g <? N then disk_nnodes g else N).
  assert (HM : M = Z.min N (Z.of_nat (length recs))).
  { unfold M. rewrite Hn. destruct (Z.ltb_spec (Z.of_nat (length recs)) N); lia. }
  destruct (sample_sector_loop_written M ltac:(lia) (Z.to_nat (pages_needed g)) 0
              (mkDiskSample 0 (replicate (Z.to_nat M) []) (replicate (Z.to_nat M) [])))
    as (st' & Hs & Hp & Hl).
  - lia.
  - cbn [ds_nodes_read]. lia.
  - cbn [ds_nodes_read ds_out_nbrs]. rewrite Z.sub_0_r. reflexivity.
  - change (4096 + Z.of_nat 0 * 4096) with 4096 in Hs. change (Z.of_nat 0) with 0 in Hs.
    rewrite Hs, Hp, Z.ltb_irrefl, Hl. exists (ds_in_nbrs st').
    rewrite <- HM. do 3 f_equal.
    rewrite HM. destruct (Z.min_spec N (Z.of_nat (length recs))) as [[_ ->] | [Hle ->]];
      [reflexivity|].
    rewrite Nat2Z.id. rewrite firstn_all. symmetry. apply take_ge. lia.
Qed.

End WrittenDiskIndex.

Lemma adjacency_sample_from_disk_index_written_witness :
  print_adjacency_sample_from_disk_index
    (Some (disk_index_file 10 2 ten_node_geometry
             (Z.to_nat (disk_ndims ten_node_geometry * elem_size kFloat))
             ten_node_records ++ []))
    kFloat 4 2
  = Some (Listing 4 (medoid_id_on_file ten_node_geometry)
                  (lines_for 2 0 (take (Z.to_nat 4) ten_node_records))).
Proof.
  apply adjacency_sample_from_disk_index_written.
  - lia.
  - unfold describes, ten_node_geometry, ten_node_records.
    cbn [disk_nnodes disk_ndims medoid_id_on_file nnodes_per_sector max_node_len
         elem_size length].
    split; [reflexivity|]. split; [lia|]. split; [lia|]. split; [lia|].
    split; [lia|]. split; [lia|]. repeat constructor; simpl; lia.
  - unfold ids_fit, ten_node_records. repeat constructor; lia.
  - simpl. lia.
  - lia.
Defined.

Lemma small_graph_from_disk_index_written_witness :
  exists in_nbrs,
    print_small_graph_from_disk_index
      (Some (disk_index_file 10 2 ten_node_geometry
               (Z.to_nat (disk_ndims ten_node_geometry * elem_size kFloat))
               ten_node_records ++ []))
      kFloat 4
    = Some (Sample (mkSmall (Z.min 4 (Z.of_nat (length ten_node_records)))
                            (medoid_id_on_file ten_node_geometry)
                            (take (Z.to_nat 4) ten_node_records) in_nbrs)).
Proof.
  apply small_graph_from_disk_index_written.
  - lia.
  - unfold describes, ten_node_geometry, ten_node_records.
    cbn [disk_nnodes disk_ndims medoid_id_on_file nnodes_per_sector max_node_len
         elem_size length].
    split; [reflexivity|]. split; [lia|]. split; [lia|]. split; [lia|].
    split; [lia|]. split; [lia|]. repeat constructor; simpl; lia.
  - unfold ids_fit, ten_node_records. repeat constructor; lia.
  - simpl. lia.
  - lia.
Defined.

(** ** Tagged headers with fewer than five points *)

Lemma land_low_high a b : 0 <= a < 2 ^ 32 -> Z.land a (Z.shiftl b 32) = 0.
Proof.
  intros Ha. apply Z.bits_inj'. intros n Hn.
  rewrite Z.land_spec, Z.bits_0.
  destruct (Z.lt_ge_cases n 32) as [Hlt | Hge].
  - rewrite (Z.shiftl_spec_low b 32 n Hlt). apply andb_false_r.
  - destruct (Z.eq_dec a 0) as [-> | Hne]; [now rewrite Z.bits_0|].
    rewrite (Z.bits_above_log2 a n); [reflexivity | lia |].
    assert (Z.log2 a < 32) by (apply Z.log2_lt_pow2; lia). lia.
Qed.

Lemma le_combine_u32_pair a b :
  0 <= a < 2 ^ 32 -> 0 <= b < 2 ^ 32 ->
  le_combine (u32 a ++ u32 b) = a + 2 ^ 32 * b.
Proof.
  intros Ha Hb. rewrite le_combine_app, length_u32, !le_combine_u32 by assumption.
  change (Z.of_nat 4 * 8) with 32.
  rewrite <- Z.lxor_lor by now apply land_low_high.
  rewrite <- Z.add_nocarry_lxor by now apply land_low_high.
  rewrite Z.shiftl_mul_pow2 by lia. lia.
Qed.

Lemma tagged_header_unshifted npts ndims g rest :
  0 <= npts < 2 ^ 32 -> 0 <= ndims < 2 ^ 32 -> geometry_fits g ->
  geometry_at (tagged_header npts ndims g ++ rest) 0 = unshifted npts ndims g.
Proof.
  intros Hn Hd (H1 & H2 & H3 & H4 & H5).
  destruct g as [n d m l r]; cbn in *.
  unfold geometry_at, unshifted, tagged_header, pad_to.
  cbn [disk_nnodes disk_ndims medoid_id_on_file max_node_len nnodes_per_sector].
  rewrite <- !app_assoc. f_equal.
  - rewrite (app_assoc (u32 npts) (u32 ndims)).
    change 8 with (Z.of_nat (length (u32 npts ++ u32 ndims))).
    rewrite slice_prefix. now apply le_combine_u32_pair.
  - rewrite (app_assoc (u32 npts) (u32 ndims)).
    rewrite (slice_at (u32 npts ++ u32 ndims) (u64 n) _ _ eq_refl).
    now apply le_combine_u64.
  - rewrite (app_assoc (u32 npts) (u32 ndims)),
      (app_assoc (u32 npts ++ u32 ndims) (u64 n)).
    rewrite (slice_at ((u32 npts ++ u32 ndims) ++ u64 n) (u64 d) _ _ eq_refl).
    now apply le_combine_u64.
  - rewrite (app_assoc (u32 npts) (u32 ndims)),
      (app_assoc (u32 npts ++ u32 ndims) (u64 n)),
      (app_assoc ((u32 npts ++ u32 ndims) ++ u64 n) (u64 d)).
    rewrite (slice_at (((u32 npts ++ u32 ndims) ++ u64 n) ++ u64 d) (u64 m) _ _ eq_refl).
    now apply le_combine_u64.
  - rewrite (app_assoc (u32 npts) (u32 ndims)),
      (app_assoc (u32 npts ++ u32 ndims) (u64 n)),
      (app_assoc ((u32 npts ++ u32 ndims) ++ u64 n) (u64 d)),
      (app_assoc (((u32 npts ++ u32 ndims) ++ u64 n) ++ u64 d) (u64 m)).
    rewrite (slice_at ((((u32 npts ++ u32 ndims) ++ u64 n) ++ u64 d) ++ u64 m)
                      (u64 l) _ _ eq_refl).
    now apply le_combine_u64.
Qed.

(** X4. A tagged header is read back as written exactly when its leading
    32-bit tag, read as a signed integer, is at least 5: the resolver then
    returns the five geometry fields stored after the two tag fields. With a
    smaller tag (an index of fewer than five points) it reads the header as
    an untagged one: the two tag fields together become the node count, and
    every geometry field takes the value of its predecessor. *)
Theorem tagged_header_resolution npts ndims g rest :
  0 <= npts < 2 ^ 32 -> 0 <= ndims < 2 ^ 32 -> geometry_fits g ->
  header_geometry (tagged_header npts ndims g ++ rest)
  = if 5 <=? as_int32 npts then g else unshifted npts ndims g.
Proof.
  intros Hn Hd Hg. unfold header_geometry.
  set (bs := tagged_header npts ndims g ++ rest).
  assert (Hlen : 4096 <= Z.of_nat (length bs)).
  { unfold bs. rewrite length_app, length_tagged_header. lia. }
  destruct (Z.leb_spec 5 (as_int32 npts)) as [Htag | Htag].
  - unfold bs. rewrite tagged_header_read; [reflexivity | | assumption].
    unfold as_int32 in Htag. destruct (Z.ltb_spec npts (2 ^ 31)); lia.
  - assert (Hacc : tag_accepted (mkStream bs 0 true) = false).
    { rewrite tag_accepted_cases.
      destruct (Z.leb_spec 4 (Z.of_nat (length bs))); [|lia].
      destruct (Z.leb_spec 8 (Z.of_nat (length bs))); [|lia].
      rewrite andb_true_r. cbn [andb].
      unfold leading_int32, bs, tagged_header, pad_to.
      rewrite <- !app_assoc.
      change 4 with (Z.of_nat (length (u32 npts))) at 1.
      rewrite slice_prefix, le_combine_u32 by lia.
      apply Z.leb_gt. lia. }
    rewrite (read_disk_header_resolved bs 0 (unshifted npts ndims g));
      [reflexivity | now rewrite Hacc | lia |].
    now apply tagged_header_unshifted.
Qed.

Lemma tagged_header_resolution_witness :
  header_geometry (tagged_header 3 2 (mkGeometry 3 2 1 1000 3) ++ [])
  = if 5 <=? as_int32 3 then mkGeometry 3 2 1 1000 3
    else unshifted 3 2 (mkGeometry 3 2 1 1000 3).
Proof.
  apply tagged_header_resolution.
  - lia.
  - lia.
  - unfold geometry_fits. cbn. lia.
Defined.

(** ** The small-graph sample against the nodes of the file *)

Lemma reverse_edges_of_ids g :
  Z.of_nat (length (sg_out_nbrs g)) = sg_num_nodes g ->
  Z.of_nat (length (sg_in_nbrs g)) = sg_num_nodes g ->
  referenced_by_ids g -> sg_num_nodes g <= 2 ^ 32 -> reverse_edges_exact g.
Proof.
  intros Hlo Hli Hids Hm i j Hi. split.
  - intros (l & Hl & Hj).
    apply (Hids _ _ j Hl) in Hj. destruct Hj as (j' & lj & Hoj & -> & Hil).
    pose proof (lookup_lt_Some _ _ _ Hoj) as Hlt.
    rewrite wrap32_small by lia. rewrite Z2Nat.id in Hil by lia.
    split; [lia|]. exists lj. rewrite Nat2Z.id. auto.
  - intros (Hj & l & Hl & Hil).
    destruct (lookup_lt_is_Some_2 (sg_in_nbrs g) (Z.to_nat i)) as [l' Hl']; [lia|].
    exists l'. split; [exact Hl'|].
    apply (Hids _ _ j Hl'). exists (Z.to_nat j), l.
    rewrite !Z2Nat.id by lia. rewrite wrap32_small by lia. auto.
Qed.

(** What the two vectors of a sampler hold once they are cut to the [m]
    nodes that were stored. *)
Lemma sampled_holds N m ep out inn :
  sampled N m out inn -> 0 <= m <= N ->
  holds_nodes (take (Z.to_nat m) out) ep
              (mkSmall m ep (take (Z.to_nat m) out) (take (Z.to_nat m) inn)).
Proof.
  intros (Hlo & Hli & Hout & Hin) Hm.
  assert (Hids : referenced_by_ids
                   (mkSmall m ep (take (Z.to_nat m) out) (take (Z.to_nat m) inn))).
  { intros i l x Hl. cbn [sg_in_nbrs sg_out_nbrs] in *.
    apply lookup_take_Some in Hl as [Hl Hi].
    rewrite (Hin _ _ x Hl). split.
    - intros (j & lj & Hj & -> & Hoj & Hil). exists (Z.to_nat j), lj.
      split; [rewrite lookup_take_lt by lia; exact Hoj|].
      rewrite Z2Nat.id by lia. auto.
    - intros (j & lj & Hoj & -> & Hil). apply lookup_take_Some in Hoj as [Hoj Hj].
      exists (Z.of_nat j), lj. rewrite Nat2Z.id. repeat split; auto; lia. }
  unfold holds_nodes. cbn [sg_num_nodes sg_entry_point sg_out_nbrs sg_in_nbrs].
  rewrite !length_take.
  refine (conj _ (conj eq_refl (conj eq_refl (conj _ (conj _ (conj Hids _)))))).
  - lia.
  - lia.
  - intros i Hi. cbn in Hi |- *. apply lookup_take_ge. lia.
  - intros H32. apply reverse_edges_of_ids; cbn; rewrite ?length_take; try lia; assumption.
Qed.

(** The loop of the raw graph sampler stores the records of the file, one
    after the other, at the positions that are their node ids. *)
Lemma small_graph_loop_reads bs E N : forall cnt p b id out inn,
  0 <= p -> 0 <= id -> Z.of_nat cnt = N - id -> length out = Z.to_nat N ->
  let st' := small_graph_loop cnt E N (mkSample (mkStream bs p true) b id out inn) in
  let recs := records_read cnt bs E p b in
  sm_node_id st' = id + Z.of_nat (length recs)
  /\ (forall j, (j < Z.to_nat id)%nat -> sm_out_nbrs st' !! j = out !! j)
  /\ (forall j r, recs !! j = Some r ->
        sm_out_nbrs st' !! (Z.to_nat id + j)%nat = Some r).
Proof.
  induction cnt as [|cnt IH]; intros p b id out inn Hp Hid Hcnt Hout.
  { cbn. split; [lia|]. split; [auto|]. intros j r Hj. discriminate. }
  assert (Hstop : forall st,
            st = mkSample (mkStream bs p true) b id out inn ->
            sm_node_id st = id + Z.of_nat (length (@nil (list Z)))
            /\ (forall j, (j < Z.to_nat id)%nat -> sm_out_nbrs st !! j = out !! j)
            /\ (forall j r, @nil (list Z) !! j = Some r ->
                  sm_out_nbrs st !! (Z.to_nat id + j)%nat = Some r)).
  { intros st ->. cbn. split; [lia|]. split; [auto|]. intros j r Hj. discriminate. }
  cbn [small_graph_loop records_read sm_bytes_read sm_node_id sm_in is_good].
  destruct (Z.eqb_spec b E) as [HbE|HbE]; cbn [negb andb]; [now apply Hstop|].
  destruct (Z.ltb_spec id N) as [HidN|]; [|lia]. cbn [negb andb].
  destruct (Z.ltb_spec (Z.of_nat (length bs)) (p + 4)) as [Hshort|Hlen].
  { destruct (read_uint 4 0 (mkStream bs p true)) as [k in1] eqn:Hr.
    pose proof (read_uint_not_good 4 0 (mkStream bs p true)) as Hn.
    rewrite Hr in Hn. cbn [snd fst] in Hn.
    destruct Hn as [Hn _]; [right; unfold stream_size; cbn; lia|].
    rewrite Hn. cbn [negb]. now apply Hstop. }
  rewrite read_uint_good by (unfold stream_size; cbn; auto; lia).
  cbn [content gpos is_good negb].
  set (k := le_combine (slice bs p 4)).
  pose proof (le32_range bs p) as Hk. fold k in Hk.
  assert (Hnext : forall nbrs,
            nbrs = decode_u32s (Z.to_nat k) (slice bs (p + 4) (k * 4)) ->
            p + 4 + k * 4 <= Z.of_nat (length bs) ->
            let st' := small_graph_loop cnt E N
                         (mkSample (mkStream bs (p + 4 + k * 4) true)
                                   (wrap64 (b + (4 + Z.of_nat (length nbrs) * 4)))
                                   (id + 1) (<[Z.to_nat id := nbrs]> out)
                                   (add_reverse_edges N id nbrs inn)) in
            let recs := nbrs :: records_read cnt bs E (p + 4 + k * 4)
                                             (wrap64 (b + (4 + k * 4))) in
            sm_node_id st' = id + Z.of_nat (length recs)
            /\ (forall j, (j < Z.to_nat id)%nat -> sm_out_nbrs st' !! j = out !! j)
            /\ (forall j r, recs !! j = Some r ->
                  sm_out_nbrs st' !! (Z.to_nat id + j)%nat = Some r)).
  { intros nbrs Hnbrs Hfull.
    assert (Hln : Z.of_nat (length nbrs) = k)
      by (rewrite Hnbrs, length_decode_u32s; lia).
    rewrite Hln.
    destruct (IH (p + 4 + k * 4) (wrap64 (b + (4 + k * 4))) (id + 1)
                 (<[Z.to_nat id := nbrs]> out) (add_reverse_edges N id nbrs inn))
      as (H1 & H2 & H3); [lia | lia | lia | now rewrite length_insert |].
    cbv zeta. cbn [length]. split; [lia|]. split.
    - intros j Hj. rewrite H2 by lia. apply list_lookup_insert_ne. lia.
    - intros [|j] r Hj.
      + cbn in Hj. injection Hj as <-. rewrite Nat.add_0_r.
        rewrite H2 by lia. apply list_lookup_insert_eq. lia.
      + cbn in Hj. apply H3 in Hj.
        replace (Z.to_nat id + S j)%nat with (Z.to_nat (id + 1) + j)%nat by lia.
        exact Hj. }
  destruct (Z.ltb_spec 0 k) as [Hk0|Hk0].
  - destruct (Z.ltb_spec (Z.of_nat (length bs)) (p + 4 + k * 4)) as [Hcut|Hfull].
    + rewrite read_short by (unfold stream_size; cbn; auto; lia).
      cbn [is_good negb]. now apply Hstop.
    + rewrite read_good by (unfold stream_size; cbn; auto; lia).
      cbn [content gpos is_good negb].
      apply Hnext; [reflexivity | lia].
  - assert (Hk0' : k = 0) by lia. clearbody k. subst k.
    change (0 * 4) with 0 in Hnext |- *. rewrite !Z.add_0_r in Hnext.
    rewrite !Z.add_0_r.
    change (Z.to_nat 0) with 0%nat in Hnext |- *. cbn [decode_u32s] in Hnext |- *.
    destruct (Z.ltb_spec (Z.of_nat (length bs)) (p + 4)) as [Hcut|Hfull]; [lia|].
    cbn [is_good negb].
    apply (Hnext [] eq_refl). lia.
Qed.

Lemma graph_header_reads bs o :
  0 <= o ->
  let '(expected_file_size, in2) := read_uint 8 0 (mkStream bs o true) in
  let '(width, in3) := read_uint 4 0 in2 in
  let '(ep, in4) := read_uint 4 0 in3 in
  let '(num_frozen_pts, in5) := read_uint 8 0 in4 in
  is_good in5 = true ->
  expected_file_size = header_expected bs o /\ ep = header_ep bs o
  /\ in5 = mkStream bs (o + 24) true.
Proof.
  intros Ho.
  destruct (Z.leb_spec (o + 24) (Z.of_nat (length bs))) as [Hle|Hgt].
  - rewrite read_uint_good by (unfold stream_size; simpl; auto; lia).
    cbn [content gpos].
    rewrite read_uint_good by (unfold stream_size; simpl; auto; lia).
    cbn [content gpos].
    rewrite read_uint_good by (unfold stream_size; simpl; auto; lia).
    cbn [content gpos].
    rewrite read_uint_good by (unfold stream_size; simpl; auto; lia).
    cbn [content gpos]. intros _.
    unfold header_expected, header_ep.
    replace (o + 8 + 4 + 4 + 8) with (o + 24) by lia.
    replace (o + 8 + 4) with (o + 12) by lia.
    auto.
  - set (in1 := mkStream bs o true).
    destruct (read_uint 8 0 in1) as [e in2] eqn:R1.
    destruct (read_uint 4 0 in2) as [w in3] eqn:R2.
    destruct (read_uint 4 0 in3) as [ep in4] eqn:R3.
    destruct (read_uint 8 0 in4) as [fz in5] eqn:R4.
    intros Hgood. exfalso.
    pose proof (read_uint_good_inv 8 0 in4) as S4. rewrite R4 in S4.
    destruct (S4 Hgood) as [G4 L4].
    pose proof (read_uint_good_inv 4 0 in3) as S3. rewrite R3 in S3.
    destruct (S3 G4) as [G3 L3].
    pose proof (read_uint_good_inv 4 0 in2) as S2. rewrite R2 in S2.
    destruct (S2 G3) as [G2 L2].
    pose proof (read_uint_good_inv 8 0 in1) as S1. rewrite R1 in S1.
    destruct (S1 G2) as [G1 L1].
    unfold stream_size in *. cbn [content gpos in1] in L1.
    rewrite read_uint_good in R1 by (unfold stream_size; cbn; auto; lia).
    injection R1 as <- <-. cbn [content gpos] in L2.
    rewrite read_uint_good in R2 by (unfold stream_size; cbn; auto; lia).
    injection R2 as <- <-. cbn [content gpos] in L3.
    rewrite read_uint_good in R3 by (unfold stream_size; cbn; auto; lia).
    injection R3 as <- <-. cbn [content gpos] in L4. lia.
Qed.

(** The sample of a raw graph file holds the records of the file, in the
    order of their ids, as many as were read in full. *)
Lemma small_graph_from_file_holds bs offset N g :
  0 <= N ->
  print_small_graph_from_file (Some bs) offset N = Sample g ->
  let o := as_streamoff offset in
  sg_num_nodes g <= N
  /\ holds_nodes (records_read (Z.to_nat N) bs (header_expected bs o) (o + 24)
                               kGraphHeaderSize)
                 (header_ep bs o) g.
Proof.
  intros HN Hprint o. unfold print_small_graph_from_file, open, seekg_beg in Hprint.
  fold o in Hprint. unfold seek_to in Hprint. cbn [is_good negb] in Hprint.
  destruct (Z.leb_spec 0 o) as [Ho|]; cbn [andb] in Hprint; [|discriminate].
  destruct (Z.ltb_spec o (2 ^ 63)) as [Ho'|]; cbn [is_good negb content] in Hprint;
    [|discriminate].
  pose proof (graph_header_reads bs o Ho) as Hh.
  destruct (read_uint 8 0 _) as [E in2].
  destruct (read_uint 4 0 in2) as [w in3].
  destruct (read_uint 4 0 in3) as [ep in4].
  destruct (read_uint 8 0 in4) as [fz in5].
  destruct (is_good in5) eqn:Hg5; cbn [negb] in Hprint; [|discriminate].
  destruct (Hh eq_refl) as (-> & -> & ->).
  set (E := header_expected bs o) in *.
  pose proof (small_graph_loop_sampled E N (Z.to_nat N)
                (mkSample (mkStream bs (o + 24) true) kGraphHeaderSize 0
                          (replicate (Z.to_nat N) []) (replicate (Z.to_nat N) []))
                (sampled_init N) ltac:(cbn; lia)) as [Hs Hm].
  destruct (small_graph_loop_reads bs E N (Z.to_nat N) (o + 24) kGraphHeaderSize 0
              (replicate (Z.to_nat N) []) (replicate (Z.to_nat N) []))
    as (Hid & _ & Hrecs); [lia | lia | lia | apply length_replicate |].
  set (recs := records_read (Z.to_nat N) bs E (o + 24) kGraphHeaderSize) in *.
  set (st := small_graph_loop _ _ _ _) in *.
  pose proof Hs as (Hlo & Hli & _).
  assert (Hout : take (Z.to_nat (sm_node_id st)) (sm_out_nbrs st) = recs).
  { apply list_eq. intros j. rewrite lookup_take.
    destruct (decide (j < Z.to_nat (sm_node_id st))%nat) as [Hj|Hj].
    - destruct (lookup_lt_is_Some_2 recs j) as [r Hr]; [lia|].
      rewrite Hr. apply (Hrecs j r Hr).
    - symmetry. apply lookup_ge_None. lia. }
  pose proof (sampled_holds N (sm_node_id st) (header_ep bs o) _ _ Hs Hm) as Hholds.
  rewrite Hout in Hholds.
  destruct (Z.ltb_spec (sm_node_id st) N) as [Hlt|Hge].
  - injection Hprint as <-. rewrite Hout. cbn [sg_num_nodes]. split; [lia | exact Hholds].
  - injection Hprint as <-. cbn [sg_num_nodes]. split; [lia|].
    assert (HmN : sm_node_id st = N) by lia.
    rewrite HmN in Hholds, Hout.
    rewrite take_ge in Hout by lia.
    rewrite (take_ge (sm_in_nbrs st)) in Hholds by lia.
    rewrite <- Hout in Hholds |- *. exact Hholds.
Qed.

Lemma decode_u32s_sector bs a off n :
  0 <= a -> 0 <= off -> 0 <= n -> off + n * 4 <= 4096 ->
  decode_u32s (Z.to_nat n) (skipn (Z.to_nat off) (slice bs a 4096))
  = decode_u32s (Z.to_nat n) (slice bs (a + off) (n * 4)).
Proof.
  intros Ha Hoff Hn Hfit.
  rewrite <- (decode_u32s_take (Z.to_nat n) (skipn _ _)).
  rewrite <- (slice_slice bs a 4096 off (n * 4)) by lia.
  unfold slice at 2. f_equal. f_equal. lia.
Qed.

(** One sector: with the degree field of every slot inside the page, the
    slots are stored one after the other, at the positions that are their
    node ids. *)
Lemma sample_slot_loop_reads bs g esz N sec sector :
  record_geometry g esz -> slots_in_page g esz ->
  0 <= disk_ndims g * esz -> 0 <= sec -> N <= disk_nnodes g < 2 ^ 64 ->
  sector = slice bs (kDiskIndexDataOffset + sec * kSectorLen) kSectorLen ->
  kDiskIndexDataOffset + sec * kSectorLen + kSectorLen <= Z.of_nat (length bs) ->
  forall cnt j st,
    Z.of_nat cnt = nnodes_per_sector g - j -> 0 <= j ->
    stored_upto bs g esz N (Z.min N (sec * nnodes_per_sector g + j)) st ->
    exists st',
      sample_slot_loop cnt j sec g (wrap64 (disk_ndims g * esz)) N sector st = Some st'
      /\ stored_upto bs g esz N
           (Z.min N (sec * nnodes_per_sector g + nnodes_per_sector g)) st'.
Proof.
  intros (Hr & Hlo & Hhi) Hfit Hc Hsec HN Hsector Hlen.
  unfold slots_in_page in Hfit. unfold kDiskIndexDataOffset, kSectorLen in *.
  set (r := nnodes_per_sector g) in *. set (n := disk_nnodes g) in *.
  set (L := max_node_len g) in *. set (c := disk_ndims g * esz) in *.
  assert (Hseclen : Z.of_nat (length sector) = 4096).
  { subst sector. apply length_slice; nia. }
  induction cnt as [|cnt IH]; intros j st Hcnt Hj Hinv.
  - exists st. replace (sec * r + r) with (sec * r + j) by lia. auto.
  - cbn [sample_slot_loop]. unfold kSectorLen. fold r n L c.
    destruct Hinv as (Hread & Hout & Hnodes).
    assert (Hsr : 0 <= sec * r) by nia.
    destruct (Z.ltb_spec (ds_nodes_read st) N) as [Hlt|Hge]; cbn [negb].
    2:{ exists st. split; [reflexivity|].
        replace (Z.min N (sec * r + r)) with (Z.min N (sec * r + j)) by lia.
        repeat split; assumption. }
    assert (Hid : ds_nodes_read st = sec * r + j) by lia.
    rewrite (wrap64_small (sec * r)) by lia.
    rewrite (wrap64_small (sec * r + j)) by lia.
    destruct (Z.leb_spec n (sec * r + j)) as [Hend|Hmore]; [lia|].
    assert (HjL : 0 <= j * L <= (r - 1) * L) by nia.
    rewrite (wrap64_small (j * L)) by lia.
    rewrite (wrap64_small c) by lia.
    rewrite (wrap64_small (j * L + c + 4)) by lia.
    destruct (Z.ltb_spec 4096 (j * L + c + 4)) as [Hover|_]; [lia|].
    rewrite memcpy_u32_inside by lia.
    assert (Hslot : (sec * r + j) / r = sec /\ (sec * r + j) mod r = j)
      by (apply slot_of_node; lia).
    destruct Hslot as [Hdiv Hmod].
    assert (Hdeg : le_combine (slice sector (j * L + c) 4)
                   = degree_field bs g esz (sec * r + j)).
    { unfold degree_field. fold r L c. rewrite Hdiv, Hmod.
      subst sector. unfold kDiskIndexDataOffset, kSectorLen.
      rewrite slice_slice by nia. f_equal. f_equal. lia. }
    rewrite Hdeg.
    set (k := degree_field bs g esz (sec * r + j)).
    assert (Hk : 0 <= k < 2 ^ 32) by apply le32_range.
    rewrite (wrap64_small (j * L + c + 4 + k * 4)) by lia.
    set (cap := if 4096 <? j * L + c + 4 + k * 4
                then (4096 - (j * L + c + 4)) / 4 else k).
    assert (Hcap : 0 <= cap /\ j * L + c + 4 + cap * 4 <= 4096).
    { unfold cap. destruct (Z.ltb_spec 4096 (j * L + c + 4 + k * 4)).
      - split; [apply Z.div_pos; lia|].
        pose proof (Z.mul_div_le (4096 - (j * L + c + 4)) 4 ltac:(lia)). lia.
      - lia. }
    assert (Hfield : neighbors_field bs g esz (sec * r + j)
                     = decode_u32s (Z.to_nat cap)
                         (slice bs (4096 + sec * 4096 + (j * L + c + 4)) (cap * 4))).
    { unfold neighbors_field, kDiskIndexDataOffset, kSectorLen.
      fold r L c. rewrite Hdiv, Hmod. fold k. fold cap. reflexivity. }
    assert (Hnext : forall nbrs,
              nbrs = neighbors_field bs g esz (sec * r + j) ->
              exists st',
                sample_slot_loop cnt (j + 1) sec g c N sector
                  (mkDiskSample (ds_nodes_read st + 1)
                                (<[Z.to_nat (ds_nodes_read st) := nbrs]> (ds_out_nbrs st))
                                (add_reverse_edges N (ds_nodes_read st) nbrs
                                                   (ds_in_nbrs st)))
                = Some st'
                /\ stored_upto bs g esz N (Z.min N (sec * r + r)) st').
    { intros nbrs Hnbrs.
      specialize (IH (j + 1)
                    (mkDiskSample (ds_nodes_read st + 1)
                       (<[Z.to_nat (ds_nodes_read st) := nbrs]> (ds_out_nbrs st))
                       (add_reverse_edges N (ds_nodes_read st) nbrs (ds_in_nbrs st)))).
      rewrite (wrap64_small c) in IH by lia.
      apply IH; [lia | lia |].
      unfold stored_upto. cbn [ds_nodes_read ds_out_nbrs].
      split; [lia|]. split; [now rewrite length_insert|].
      intros i Hi.
      destruct (Z.eq_dec i (sec * r + j)) as [->|Hne].
      - rewrite Hid. rewrite list_lookup_insert_eq by lia. now rewrite Hnbrs.
      - rewrite list_lookup_insert_ne by lia. apply Hnodes. lia. }
    destruct (Z.ltb_spec 0 cap) as [Hpos|Hzero].
    + unfold memcpy_u32s.
      destruct (Z.leb_spec 0 (j * L + c + 4)) as [_|]; [|lia].
      destruct (Z.leb_spec (j * L + c + 4 + cap * 4) (Z.of_nat (length sector)))
        as [_|]; [|lia].
      cbn [andb]. apply Hnext. rewrite Hfield. subst sector.
      apply decode_u32s_sector; lia.
    + apply Hnext. rewrite Hfield.
      replace cap with 0 by lia. reflexivity.
Qed.

Lemma body_pages_present bs sec :
  0 <= sec ->
  (4096 + sec * 4096 + 4096 <= Z.of_nat (length bs) <-> sec < body_pages bs).
Proof.
  intros Hsec. unfold body_pages, kDiskIndexDataOffset, kSectorLen.
  pose proof (Z.div_mod (Z.of_nat (length bs) - 4096) 4096 ltac:(lia)) as Hdm.
  pose proof (Z.mod_pos_bound (Z.of_nat (length bs) - 4096) 4096 ltac:(lia)) as Hmod.
  lia.
Qed.

(** The sectors: the loop stores the nodes of one page after the other, until
    it has [N] nodes, has read the pages that the geometry asks for, or finds
    a page missing from the file. *)
Lemma sample_sector_loop_reads bs g esz N :
  record_geometry g esz -> slots_in_page g esz ->
  0 <= disk_ndims g * esz -> N <= disk_nnodes g < 2 ^ 64 ->
  forall cnt sec st,
    Z.of_nat cnt
    = wrap64 (disk_nnodes g + nnodes_per_sector g - 1) / nnodes_per_sector g - sec ->
    0 <= sec <= body_pages bs ->
    stored_upto bs g esz N (Z.min N (sec * nnodes_per_sector g)) st ->
    exists st',
      sample_sector_loop cnt sec g (wrap64 (disk_ndims g * esz)) N
        (mkStream bs (kDiskIndexDataOffset + sec * kSectorLen) true) st
      = Some st'
      /\ stored_upto bs g esz N
           (Z.min N (nnodes_per_sector g * pages_scanned bs g)) st'.
Proof.
  intros Hgeo Hfit Hc HN.
  pose proof Hgeo as (Hr & _ & _).
  unfold pages_scanned, kDiskIndexDataOffset, kSectorLen in *.
  set (r := nnodes_per_sector g) in *. set (n := disk_nnodes g) in *.
  set (P := wrap64 (n + r - 1) / r) in *.
  set (B := body_pages bs) in *.
  assert (Hdone : forall sec st,
            0 <= sec <= B -> sec <= P ->
            stored_upto bs g esz N (Z.min N (sec * r)) st ->
            N <= sec * r \/ sec = B \/ sec = P ->
            stored_upto bs g esz N (Z.min N (r * Z.min B P)) st).
  { intros sec st Hsec HsecP Hinv Hwhy.
    replace (Z.min N (r * Z.min B P)) with (Z.min N (sec * r)); [exact Hinv|].
    destruct Hwhy as [Hfull | [-> | ->]].
    - assert (sec * r <= r * Z.min B P) by nia. lia.
    - replace (Z.min B P) with B by lia. lia.
    - replace (Z.min B P) with P by lia. lia. }
  induction cnt as [|cnt IH]; intros sec st Hcnt Hsec Hinv.
  - exists st. split; [reflexivity|]. apply (Hdone sec); auto; lia.
  - cbn [sample_sector_loop is_good]. rewrite andb_true_r.
    destruct (Z.ltb_spec (ds_nodes_read st) N) as [Hlt|Hge]; cbn [negb].
    2:{ exists st. split; [reflexivity|]. apply (Hdone sec); auto; [lia|].
        left. destruct Hinv as (Hread & _). lia. }
    destruct (Z.le_gt_cases (4096 + sec * 4096 + 4096) (Z.of_nat (length bs)))
      as [Hpage|Hnopage].
    + rewrite read_good by (unfold stream_size; cbn; auto; unfold kSectorLen; lia).
      cbn [content gpos]. unfold kSectorLen.
      assert (HsecB : sec < B) by (apply body_pages_present; lia).
      replace (Z.min N (sec * r)) with (Z.min N (sec * r + 0)) in Hinv by (f_equal; lia).
      destruct (sample_slot_loop_reads bs g esz N sec
                  (slice bs (4096 + sec * 4096) 4096) Hgeo Hfit Hc (proj1 Hsec) HN
                  eq_refl ltac:(unfold kDiskIndexDataOffset, kSectorLen; lia)
                  (Z.to_nat r) 0 st)
        as (st1 & Hslot & Hinv1); [fold r; lia | lia | exact Hinv |].
      fold r in Hinv1. fold r. rewrite Hslot.
      replace (4096 + sec * 4096 + 4096) with (4096 + (sec + 1) * 4096) by lia.
      apply IH; [lia | lia |].
      replace ((sec + 1) * r) with (sec * r + r) by lia. exact Hinv1.
    + rewrite read_short by (unfold stream_size; cbn; auto; unfold kSectorLen; lia).
      exists st. split; [reflexivity|]. apply (Hdone sec); auto; [lia|].
      right; left.
      assert (~ sec < B) by (intros HB; apply body_pages_present in HB; lia). lia.
Qed.

Lemma lookup_map_iota {A} (f : Z -> A) m (j : nat) :
  map f (iota m) !! j = if decide (j < Z.to_nat m)%nat then Some (f (Z.of_nat j)) else None.
Proof.
  unfold iota. rewrite !list_lookup_fmap.
  destruct (decide (j < Z.to_nat m)%nat) as [Hj|Hj].
  - rewrite lookup_seq_lt by lia. reflexivity.
  - rewrite lookup_seq_ge by lia. reflexivity.
Qed.

(** The sample of a disk index whose slots lie inside their pages holds the
    nodes of the file in the order of their ids: as many as were asked for,
    as the geometry announces, and as the pages of the file hold. *)
Lemma small_graph_from_disk_index_holds bs data_type N g :
  0 <= N ->
  let geo := header_geometry bs in
  let esz := elem_size data_type in
  record_geometry geo esz -> slots_in_page geo esz ->
  print_small_graph_from_disk_index (Some bs) data_type N = Some (Sample g) ->
  let m := Z.min (Z.min N (disk_nnodes geo))
                 (nnodes_per_sector geo * pages_scanned bs geo) in
  holds_nodes (map (neighbors_field bs geo esz) (iota m)) (medoid_id_on_file geo) g.
Proof.
  intros HN geo esz Hgeo Hfit Hprint m.
  unfold print_small_graph_from_disk_index in Hprint. cbn [open] in Hprint.
  pose proof (read_disk_header_cases bs) as Hc. cbv zeta in Hc.
  unfold header_geometry in geo.
  destruct (read_disk_header (mkStream bs 0 true)) as [[geo' off] in1] eqn:Hh.
  cbn [fst] in geo. subst geo. rename geo' into geo.
  destruct Hc as (Hoff & _ & Hc).
  destruct (is_good in1) eqn:Hg; [|discriminate]. cbn [negb orb] in Hprint.
  destruct (nnodes_per_sector geo =? 0); [discriminate|].
  destruct (bad_geometry geo (elem_size data_type)); [discriminate|].
  fold esz in Hprint.
  destruct (Hc eq_refl) as [Hgeom Hin1].
  pose proof (geometry_at_range bs
                (if tag_accepted (mkStream bs 0 true) then 8 else 0)) as Hrange.
  cbv zeta in Hrange. rewrite <- Hgeom in Hrange.
  destruct Hrange as (Hn & Hd & _ & _).
  pose proof (elem_size_pos data_type) as Hesz. fold esz in Hesz.
  pose proof Hgeo as (Hr & _ & _).
  assert (Hc0 : 0 <= disk_ndims geo * esz) by nia.
  set (r := nnodes_per_sector geo) in *. set (n := disk_nnodes geo) in *.
  set (N' := if n <? N then n else N) in *.
  assert (HN' : N' = Z.min N n) by (unfold N'; destruct (Z.ltb_spec n N); lia).
  set (P := wrap64 (n + r - 1) / r) in *.
  assert (HP : 0 <= P).
  { unfold P. apply Z.div_pos; [apply wrap64_range | lia]. }
  assert (Hseek : seekg_beg off in1 = mkStream bs (kDiskIndexDataOffset + 0 * kSectorLen) true).
  { subst off in1. unfold seekg_beg. change (as_streamoff 4096) with 4096.
    rewrite seek_to_good by (cbn; auto; lia). reflexivity. }
  rewrite Hseek in Hprint.
  destruct (sample_sector_loop_reads bs geo esz N' Hgeo Hfit Hc0 ltac:(lia)
              (Z.to_nat P) 0
              (mkDiskSample 0 (replicate (Z.to_nat N') []) (replicate (Z.to_nat N') [])))
    as (st & Hloop & Hinv).
  { fold r n P. lia. }
  { unfold body_pages. lia. }
  { unfold stored_upto. cbn [ds_nodes_read ds_out_nbrs].
    split; [lia|]. split; [apply length_replicate|]. intros i Hi. lia. }
  fold r in Hloop, Hinv. rewrite Hloop in Hprint.
  apply sample_sector_loop_sampled in Hloop; [|apply sampled_init | cbn; lia].
  destruct Hloop as [Hs Hm]. pose proof Hs as (Hlo & Hli & _).
  destruct Hinv as (Hread & _ & Hnodes).
  assert (Hmm : ds_nodes_read st = m) by (unfold m; lia).
  assert (Hout : take (Z.to_nat m) (ds_out_nbrs st)
                 = map (neighbors_field bs geo esz) (iota m)).
  { apply list_eq. intros j. rewrite lookup_take, lookup_map_iota.
    destruct (decide (j < Z.to_nat m)%nat) as [Hj|Hj]; [|reflexivity].
    rewrite <- (Nat2Z.id j) at 1. apply Hnodes. lia. }
  pose proof (sampled_holds N' (ds_nodes_read st) (medoid_id_on_file geo) _ _ Hs Hm)
    as Hholds.
  rewrite Hmm in Hholds, Hprint. rewrite Hout in Hholds.
  destruct (Z.ltb_spec m N') as [Hlt|Hge].
  - injection Hprint as <-. rewrite Hout. exact Hholds.
  - injection Hprint as <-.
    assert (HmN : m = N') by lia.
    rewrite HmN in Hholds, Hout |- *.
    rewrite take_ge in Hout by lia.
    rewrite (take_ge (ds_in_nbrs st)) in Hholds by lia.
    rewrite <- Hout in Hholds |- *. exact Hholds.
Qed.

(** C7 (as stated): in a disk index with records of 4096 bytes announced as
    two per page, the sampler leaves each page after its first slot, so the
    nodes it reads are nodes 0 and 2, and it stores them at positions 0 and
    1. Node 2 lists node 0, but the [referenced_by] list of node 0 names 1,
    the position of node 2 in the sample, and the line of node 2 is printed
    under the id 1: with the ids of the nodes read, the claim on reverse
    edges fails, and the sample is not the nodes 0 and 1 of the file. *)
Lemma wide_records_sample_positions :
  let g := skipping_geometry in
  let esz := elem_size kFloat in
  let sample := mkSmall 2 0 [[2]; [0]] [[1]; []] in
  header_geometry skipping_file = g
  /\ record_geometry g esz
  /\ print_small_graph_from_disk_index (Some skipping_file) kFloat 3
     = Some (Sample sample)
  /\ sg_out_nbrs sample
     = [neighbors_field skipping_file g esz 0; neighbors_field skipping_file g esz 2]
  /\ ~ referenced_by_node_ids [0; 2] sample
  /\ ~ holds_nodes (map (neighbors_field skipping_file g esz) (iota 2)) 0 sample.
Proof.
  intros g esz sample.
  split; [vm_compute; reflexivity|].
  split; [unfold record_geometry; cbn; lia|].
  split; [vm_compute; reflexivity|].
  split; [vm_compute; reflexivity|].
  split.
  - intros H.
    destruct (proj1 (H 0%nat 0 [1] 1 eq_refl eq_refl) (or_introl eq_refl))
      as (k' & j & lj & Hk' & _ & Hj & _).
    destruct k' as [|[|k']]; cbn in Hk'; [| |discriminate];
      injection Hk' as <-; discriminate.
  - intros (_ & _ & Hout & _). vm_compute in Hout. discriminate.
Qed.

(** C7 (amended): a small-graph sample of a raw graph file, and a sample of
    a disk index in which the degree field of every slot of a page lies
    inside the page, holds the nodes [0 .. m - 1] of the file, each at the
    position that is its id and with the out-neighbors that the file stores
    for it, where [m], at most the requested [N], is the number of nodes
    that were read: for a raw graph the records that the file holds in full
    before the byte counter reaches the expected size, for a disk index the
    smallest of [N], the node count of the header and the slots of the pages
    that the geometry asks for and the file holds. The sample has one
    [referenced_by] list for each of its nodes and none for an id at or
    beyond [m]; the list of node [i] holds exactly the ids [j], stored as
    32-bit values, of the nodes of the sample whose out-neighbor list
    contains [i], which are the ids themselves in a sample of at most [2^32]
    nodes. *)
Theorem small_graph_sample_by_id :
  (forall bs offset N g,
      0 <= N ->
      print_small_graph_from_file (Some bs) offset N = Sample g ->
      let o := as_streamoff offset in
      sg_num_nodes g <= N
      /\ holds_nodes (records_read (Z.to_nat N) bs (header_expected bs o) (o + 24)
                                   kGraphHeaderSize)
                     (header_ep bs o) g)
  /\ (forall bs data_type N g,
        0 <= N ->
        let geo := header_geometry bs in
        let esz := elem_size data_type in
        record_geometry geo esz -> slots_in_page geo esz ->
        print_small_graph_from_disk_index (Some bs) data_type N = Some (Sample g) ->
        let m := Z.min (Z.min N (disk_nnodes geo))
                       (nnodes_per_sector geo * pages_scanned bs geo) in
        sg_num_nodes g <= N
        /\ holds_nodes (map (neighbors_field bs geo esz) (iota m))
                       (medoid_id_on_file geo) g).
Proof.
  split.
  - intros bs offset N g HN Hprint. now apply small_graph_from_file_holds.
  - intros bs data_type N g HN geo esz Hgeo Hfit Hprint m.
    pose proof (small_graph_from_disk_index_holds bs data_type N g HN Hgeo Hfit Hprint)
      as Hholds.
    fold geo esz m in Hholds. split; [|exact Hholds].
    destruct Hholds as (Hnum & _). rewrite Hnum, length_map.
    unfold iota. rewrite length_map, length_seq. lia.
Qed.

Lemma small_graph_sample_by_id_witness :
  let file_sample := mkSmall 3 0 [[1; 5]; [2]; [0]] [[2]; [0]; [1]] in
  let disk_sample := mkSmall 2 4 [[1; 2]; [0]] [[1]; [0]] in
  (0 <= 5
   /\ print_small_graph_from_file (Some triangle_file) 0 5 = Sample file_sample
   /\ record_geometry (header_geometry ten_node_file) (elem_size kFloat)
   /\ slots_in_page (header_geometry ten_node_file) (elem_size kFloat)
   /\ print_small_graph_from_disk_index (Some ten_node_file) kFloat 2
      = Some (Sample disk_sample))
  /\ holds_nodes [[1; 5]; [2]; [0]] 0 file_sample
  /\ holds_nodes (take 2 ten_node_records) 4 disk_sample.
Proof.
  intros file_sample disk_sample.
  assert (H : 0 <= 5
              /\ print_small_graph_from_file (Some triangle_file) 0 5 = Sample file_sample
              /\ record_geometry (header_geometry ten_node_file) (elem_size kFloat)
              /\ slots_in_page (header_geometry ten_node_file) (elem_size kFloat)
              /\ print_small_graph_from_disk_index (Some ten_node_file) kFloat 2
                 = Some (Sample disk_sample)).
  { split; [lia|]. split; [vm_compute; reflexivity|].
    split; [unfold record_geometry; vm_compute; intuition discriminate|].
    split; [unfold slots_in_page; vm_compute; intuition discriminate|].
    reflexivity. }
  split; [exact H|]. destruct H as (H1 & H2 & H3 & H4 & H5).
  split.
  - exact (proj2 (proj1 small_graph_sample_by_id _ _ _ _ H1 H2)).
  - exact (proj2 (proj2 small_graph_sample_by_id ten_node_file kFloat 2 disk_sample
                          ltac:(lia) H3 H4 H5)).
Defined.

(** ** The average degree as a double *)

























